(** * Furi router: route table construction, matching and mounting

  A shallow embedding of [src/lib/furi-router.ts] (class [FuriRouter]) and
  the properties of its route table, matcher, dispatcher and mounter.

  Conventions of the embedding.
  - JavaScript strings are [string]s (sequences of 8-bit characters).
  - A JavaScript object used as a map is an association list kept in the
    order in which [Object.entries] enumerates it (type [Obj]).
  - The request's parameter bag is a finite map ([gmap]) from names to
    values; a value is [None] for JavaScript's [undefined].
  - The maps and the bag are plain objects: a read by name also finds
    what [Object.prototype] lends to every object, and an assignment
    under [__proto__] creates no property.
  - The response is the list of the calls made to it that took effect;
    [writeHead] throws once the head has been sent, as in Node.
  - Objects that the code shares between routers and mutates in place (the
    [{callbacks}] records of static routes and the bucket arrays of named
    routes) live in a store and are referred to by location.
  - An exception is an outcome [Thrown]; the state reached when the
    exception was raised is kept, as in JavaScript. *)

From stdpp Require Import base option list strings gmap.
From Stdlib Require Import Ascii NArith Lia.

Open Scope string_scope.
Open Scope list_scope.

(** ** JavaScript strings *)

Module JsString.

(** [s.split(sep)] for a one-character separator. *)
Fixpoint split (sep : ascii) (s : string) : list string :=
  match s with
  | EmptyString => [EmptyString]
  | String c s' =>
      if Ascii.eqb c sep then EmptyString :: split sep s'
      else match split sep s' with
           | [] => [String c EmptyString]
           | t :: ts => String c t :: ts
           end
  end.

(** [l.join(sep)]. *)
Fixpoint join (sep : string) (l : list string) : string :=
  match l with
  | [] => EmptyString
  | [x] => x
  | x :: rest => x +:+ sep +:+ join sep rest
  end.

(** [s.startsWith(c)] and [s[0] === c] for a one-character [c]. *)
Definition startsWith (c : ascii) (s : string) : bool :=
  match s with
  | String c' _ => Ascii.eqb c' c
  | EmptyString => false
  end.

(** [s.substring(1)]. *)
Definition substring1 (s : string) : string :=
  match s with
  | String _ s' => s'
  | EmptyString => EmptyString
  end.

(** The last character of [s], if any: [s[s.length - 1]]. *)
Fixpoint last_char (s : string) : option ascii :=
  match s with
  | EmptyString => None
  | String c EmptyString => Some c
  | String _ s' => last_char s'
  end.

(** [s.substring(0, s.length - 1)]. *)
Fixpoint drop_last (s : string) : string :=
  match s with
  | EmptyString => EmptyString
  | String _ EmptyString => EmptyString
  | String c s' => String c (drop_last s')
  end.

(** [s.replace(/\/$/, '')]: one trailing slash, if present, is removed. *)
Definition strip_trailing_slash (s : string) : string :=
  match last_char s with
  | Some c => if Ascii.eqb c "/" then drop_last s else s
  | None => s
  end.

Fixpoint forallb (p : ascii -> bool) (s : string) : bool :=
  match s with
  | EmptyString => true
  | String c s' => p c && forallb p s'
  end.

Definition is_empty (s : string) : bool :=
  match s with EmptyString => true | _ => false end.

Definition in_range (lo hi c : ascii) : bool :=
  (nat_of_ascii lo <=? nat_of_ascii c)%nat && (nat_of_ascii c <=? nat_of_ascii hi)%nat.

Definition is_digit (c : ascii) : bool := in_range "0" "9" c.

(** The regular-expression class [\w]: letters, digits and underscore. *)
Definition is_word (c : ascii) : bool :=
  in_range "a" "z" c || in_range "A" "Z" c || is_digit c || Ascii.eqb c "_".

(** The class [[\w-.~]] of the capturing group of a named segment. *)
Definition is_segment_char (c : ascii) : bool :=
  is_word c || Ascii.eqb c "-" || Ascii.eqb c "." || Ascii.eqb c "~".

(** The class [[~\w/.-]] of [regexCheckStaticURL]. *)
Definition is_static_char (c : ascii) : bool :=
  is_segment_char c || Ascii.eqb c "/".

(** The class [[:~\w/.-]] of [regexCheckNamedPath]. *)
Definition is_named_char (c : ascii) : bool :=
  is_static_char c || Ascii.eqb c ":".

(** The decimal value of a string of digits. *)
Fixpoint digits_value (acc : N) (s : string) : option N :=
  match s with
  | EmptyString => Some acc
  | String c s' =>
      if is_digit c
      then digits_value (10 * acc + N.of_nat (nat_of_ascii c - 48))%N s'
      else None
  end.

(** [array_index s] is [Some n] when [s] is the canonical decimal numeral
    of an array index [n < 2^32 - 1]: such property keys are enumerated
    first, in ascending order, by [Object.entries]. *)
Definition array_index (s : string) : option N :=
  match s with
  | EmptyString => None
  | String c rest =>
      if Ascii.eqb c "0" && negb (is_empty rest) then None
      else match digits_value 0 s with
           | Some n => if (n <? 4294967295)%N then Some n else None
           | None => None
           end
  end.

End JsString.

(** ** JavaScript objects used as maps

  An [Obj K V] lists the own properties of an object in the order of
  [Object.entries]: array-index keys ascending, then the other keys in
  the order of their creation. [obj_get] looks a key up among the own
  properties, which is all there is to find under a bucket number or
  under a key that has a slash. The maps are plain objects ([{}]), so
  that the expression [o[k]] also finds what [Object.prototype] lends to
  every object: see [obj_read] and [obj_put] for maps with string keys. *)

Abbreviation Obj K V := (list (K * V)) (only parsing).

Class JsKey (K : Type) := key_index : K -> option N.

#[export] Instance string_JsKey : JsKey string := JsString.array_index.
#[export] Instance nat_JsKey : JsKey nat := fun n => Some (N.of_nat n).

Section obj.
Context {K V : Type} `{EqDecision K} `{JsKey K}.

(** [o[k]] *)
Fixpoint obj_get (o : Obj K V) (k : K) : option V :=
  match o with
  | [] => None
  | (k', v) :: rest => if decide (k' = k) then Some v else obj_get rest k
  end.

(** The position of a key that is not yet a property of the object. *)
Definition goes_before (k k' : K) : bool :=
  match key_index k, key_index k' with
  | Some n, Some n' => (n <? n')%N
  | Some _, None => true
  | None, _ => false
  end.

Fixpoint obj_add (o : Obj K V) (k : K) (v : V) : Obj K V :=
  match o with
  | [] => [(k, v)]
  | (k', v') :: rest =>
      if goes_before k k' then (k, v) :: o
      else (k', v') :: obj_add rest k v
  end.

Fixpoint obj_replace (o : Obj K V) (k : K) (v : V) : Obj K V :=
  match o with
  | [] => []
  | (k', v') :: rest =>
      if decide (k' = k) then (k', v) :: rest
      else (k', v') :: obj_replace rest k v
  end.

(** [o[k] = v] *)
Definition obj_set (o : Obj K V) (k : K) (v : V) : Obj K V :=
  match obj_get o k with
  | Some _ => obj_replace o k v
  | None => obj_add o k v
  end.

(** [Object.assign(target, source)], for a source that has no property
    [__proto__]: the router makes none, see [obj_put]. *)
Definition obj_assign (target source : Obj K V) : Obj K V :=
  foldl (fun t kv => obj_set t kv.1 kv.2) target source.

Definition obj_keys (o : Obj K V) : list K := o.*1.

(** [Object.keys(o).length === 0] *)
Definition obj_is_empty (o : Obj K V) : bool :=
  match o with [] => true | _ => false end.

End obj.

(** The property names that a plain object inherits from
    [Object.prototype]. *)
Definition inherited_names : list string :=
  ["constructor"; "__defineGetter__"; "__defineSetter__"; "hasOwnProperty";
   "__lookupGetter__"; "__lookupSetter__"; "isPrototypeOf";
   "propertyIsEnumerable"; "toString"; "valueOf"; "__proto__";
   "toLocaleString"].

Definition inherited (k : string) : bool := bool_decide (k ∈ inherited_names).

(** What the expression [o[k]] finds in a plain object: a property of the
    object itself, a property of [Object.prototype] (a function, or the
    prototype object under [__proto__]: a truthy value that has none of
    the properties the router goes on to read), or nothing. *)
Inductive Property (V : Type) : Type :=
  | Own (v : V)
  | Inherited
  | Undefined.

Arguments Own {V} v.
Arguments Inherited {V}.
Arguments Undefined {V}.

(** [o[k]] *)
Definition obj_read {V} (o : Obj string V) (k : string) : Property V :=
  match obj_get o k with
  | Some v => Own v
  | None => if inherited k then Inherited else Undefined
  end.

(** [o[k] = v], the value [v] being an object. Under the name [__proto__],
    unless [o] has such a property of its own, the assignment reaches the
    accessor of [Object.prototype]: [o] gets no property. *)
Definition obj_put {V} (o : Obj string V) (k : string) (v : V) : Obj string V :=
  if bool_decide (k = "__proto__") && bool_decide (obj_get o k = None) then o
  else obj_set o k v.



(** ** Outcomes and stateful computations

    [comp S A] is a computation over a mutable state [S] that either
    completes with a value or throws; the state survives a throw. *)

Inductive Outcome (A : Type) : Type :=
  | Normal (a : A)
  | Thrown.

Arguments Normal {A} a.
Arguments Thrown {A}.

Definition comp (S A : Type) : Type := S -> S * Outcome A.

Definition ret {S A} (a : A) : comp S A := fun s => (s, Normal a).

Definition throw {S A} : comp S A := fun s => (s, Thrown).

Definition bind {S A B} (m : comp S A) (f : A -> comp S B) : comp S B :=
  fun s =>
    match m s with
    | (s', Normal a) => f a s'
    | (s', Thrown) => (s', Thrown)
    end.

Definition gets {S A} (f : S -> A) : comp S A := fun s => (s, Normal (f s)).

Definition modify {S} (f : S -> S) : comp S unit := fun s => (f s, Normal tt).

(** [try { body } catch (_ex) { handler }] *)
Definition try_catch {S A} (body handler : comp S A) : comp S A :=
  fun s =>
    match body s with
    | (s', Normal a) => (s', Normal a)
    | (s', Thrown) => handler s'
    end.

(** Reading a property of [undefined] raises a [TypeError]. *)
Definition defined {S A} (o : option A) : comp S A :=
  match o with
  | Some a => ret a
  | None => throw
  end.

Notation "'let*' x := m 'in' k" := (bind m (fun x => k))
  (at level 10, x pattern, m at level 100, k at level 200).
Notation "m ;;; k" := (bind m (fun _ => k))
  (at level 100, k at level 200, right associativity).

(** [for (const x of l) body(x)] *)
Fixpoint for_each {S A} (l : list A) (body : A -> comp S unit) : comp S unit :=
  match l with
  | [] => ret tt
  | x :: rest => body x ;;; for_each rest body
  end.

(** ** Builtins used by the router

    [path.join] of [node:path], the [RegExp] engine and
    [Furi.getApiVersion()] are not part of the router. *)

(** The result of [RegExp(key).exec(uri)]: the pattern is malformed (a
    [SyntaxError] is thrown), there is no match ([null]), or the match
    array, of which [groups] lists the elements from index 1 on. *)
Inductive ExecResult : Type :=
  | SyntaxError
  | NoMatch
  | Match (groups : list (option string)).

Class Builtins := {
  path_join : string -> string -> string;
  regexp_exec : string -> string -> ExecResult;
  apiVersion : string;
}.

(** ** Requests, responses and handlers *)

(** The calls that the router and the handlers made to the response
    object and that took effect, in order. *)
Inductive ResponseEvent : Type :=
  | SetHeader (name value : string)
  | WriteHead (status : nat) (statusMessage : option string)
              (headers : list (string * string))
  | End (body : option string).

(** [response.headersSent]: the head goes out with [writeHead], and with
    [end] when it has not been written before. *)
Definition headersSent (resp : list ResponseEvent) : bool :=
  existsb (fun ev => match ev with SetHeader _ _ => false | _ => true end) resp.

Record HttpRequest := {
  method : string;
  url : string;
  (** [request.params]; [None] when the property is not set yet *)
  req_params : option (gmap string (option string));
  (** [request.query]: the query string given to [URLSearchParams] *)
  query : option string;
}.

(** The application context handed to every handler: the request and the
    response it wraps. *)
Record ApplicationContext := {
  request : HttpRequest;
  response : list ResponseEvent;
}.

(** The value returned by a handler is only tested for truthiness. *)
Inductive HandlerResult : Type :=
  | Falsy
  | Truthy.

(** A handler acts on the application context and returns a value or
    throws. *)
Abbreviation HandlerFunction := (comp ApplicationContext HandlerResult) (only parsing).

(** ** The route table *)

Record NamedRouteCallback := {
  key : string;
  params : list string;
  callbacks : list HandlerFunction;
  pathNames : list string;
  useRegex : bool;
}.

(** A [RouteMap] holds, per HTTP method, the named-route partition map and
    the static-route map. [S] is what a static key maps to and [B] what a
    bucket maps to: locations in the store, or the stored values. *)
Record RouteMap (S B : Type) := {
  namedRoutePartitionMap : Obj nat B;
  staticRouteMap : Obj string S;
}.

Arguments namedRoutePartitionMap {S B} _.
Arguments staticRouteMap {S B} _.

Abbreviation loc := nat (only parsing).

(** Modelled from the spec: [HttpMapIndex] of [types.ts], which is not
    among the sources. The spec gives one route table per supported HTTP
    method (GET, POST, PUT, PATCH, DELETE) plus one for global middleware;
    the router's code treats index 0 as the middleware table. *)
Inductive HttpMapIndex : Type :=
  | MIDDLEWARE | GET | POST | PUT | PATCH | DELETE.

Definition map_index (i : HttpMapIndex) : nat :=
  match i with
  | MIDDLEWARE => 0 | GET => 1 | POST => 2 | PUT => 3 | PATCH => 4 | DELETE => 5
  end.

(** [Object.keys(HttpMapIndex).length] *)
Definition map_count : nat := 6.

(** A router is its [httpMethodMap]. *)
Abbreviation Router := (list (RouteMap loc loc)) (only parsing).

(** The store: the [{callbacks}] records of static routes, the bucket
    arrays of named routes, and the routers constructed so far. *)
Record World := {
  records : list (list HandlerFunction);
  arrays : list (list NamedRouteCallback);
  routers : list Router;
}.

Definition TopLevelMiddleware : string := "/".

Definition regexCheckStaticURL (uri : string) : bool :=
  negb (JsString.is_empty uri) && JsString.forallb JsString.is_static_char uri.

Definition regexCheckNamedPath (uri : string) : bool :=
  negb (JsString.is_empty uri) && JsString.forallb JsString.is_named_char uri.

(** A loop that threads a local variable. *)
Fixpoint fold_each {S A B} (l : list A) (b : B) (body : B -> A -> comp S B)
  : comp S B :=
  match l with
  | [] => ret b
  | x :: rest => let* b' := body b x in fold_each rest b' body
  end.

(** ** Access to the store *)

Definition with_static {S B} (rm : RouteMap S B) (m : Obj string S) : RouteMap S B :=
  {| namedRoutePartitionMap := namedRoutePartitionMap rm; staticRouteMap := m |}.

Definition with_named {S B} (rm : RouteMap S B) (m : Obj nat B) : RouteMap S B :=
  {| namedRoutePartitionMap := m; staticRouteMap := staticRouteMap rm |}.

Definition set_records (f : list (list HandlerFunction) -> list (list HandlerFunction))
  (w : World) : World :=
  {| records := f (records w); arrays := arrays w; routers := routers w |}.

Definition set_arrays (f : list (list NamedRouteCallback) -> list (list NamedRouteCallback))
  (w : World) : World :=
  {| records := records w; arrays := f (arrays w); routers := routers w |}.

Definition set_routers (f : list Router -> list Router) (w : World) : World :=
  {| records := records w; arrays := arrays w; routers := f (routers w) |}.

(** [router.httpMethodMap] *)
Definition get_router (r : nat) : comp World Router :=
  let* rs := gets routers in defined (rs !! r).

(** [router.httpMethodMap[i]], of which a property is read next. *)
Definition get_map (r i : nat) : comp World (RouteMap loc loc) :=
  let* hm := get_router r in defined (hm !! i).

(** The world after [router.httpMethodMap[i]] has been given new maps. *)
Definition put_map (r i : nat) (rm : RouteMap loc loc) (w : World) : World :=
  set_routers (fun rs =>
    match rs !! r with
    | Some hm => <[r := <[i := rm]> hm]> rs
    | None => rs
    end) w.

Definition set_map (r i : nat) (rm : RouteMap loc loc) : comp World unit :=
  modify (put_map r i rm).

(** A new [{callbacks}] record. *)
Definition alloc_record (cbs : list HandlerFunction) : comp World loc :=
  let* n := gets (fun w => length (records w)) in
  modify (set_records (fun h => h ++ [cbs])) ;;; ret n.

Definition read_record (l : loc) : comp World (list HandlerFunction) :=
  let* h := gets records in defined (h !! l).

Definition write_record (l : loc) (cbs : list HandlerFunction) : comp World unit :=
  modify (set_records (fun h => <[l := cbs]> h)).

(** A new array of route entries. *)
Definition alloc_array (es : list NamedRouteCallback) : comp World loc :=
  let* n := gets (fun w => length (arrays w)) in
  modify (set_arrays (fun h => h ++ [es])) ;;; ret n.

Definition read_array (l : loc) : comp World (list NamedRouteCallback) :=
  let* h := gets arrays in defined (h !! l).

(** [array.push(e)] *)
Definition push_array (l : loc) (e : NamedRouteCallback) : comp World unit :=
  let* es := read_array l in
  modify (set_arrays (fun h => <[l := es ++ [e]]> h)).

(** [record.callbacks.push(cb)] *)
Definition push_record (l : loc) (cb : HandlerFunction) : comp World unit :=
  let* cbs := read_record l in write_record l (cbs ++ [cb]).

Definition empty_world : World := {| records := []; arrays := []; routers := [] |}.

(** ** Registrar *)

(** The constructor: one empty route table per entry of [HttpMapIndex]. *)
Definition new_router : comp World nat :=
  let* n := gets (fun w => length (routers w)) in
  modify (set_routers (fun rs =>
    rs ++ [replicate map_count
             {| namedRoutePartitionMap := []; staticRouteMap := [] |}])) ;;;
  ret n.

Definition named_group : string := "/([\w-.~]+)".

Definition search_key_step (acc : list string * string) (token : string)
  : list string * string :=
  if JsString.startsWith ":" token
  then (acc.1 ++ [JsString.substring1 token], acc.2 +:+ named_group)
  else (acc.1, acc.2 +:+ "/" +:+ token).

(** Returns [(params, key)]. *)
Definition createNamedRouteSearchKey (tokens : list string) : list string * string :=
  match tokens with
  | [] => ([], "")
  | _ =>
      let r := foldl search_key_step ([], "") tokens in
      (r.1, JsString.substring1 r.2)
  end.

(** The entry that [buildRequestMap] and the prefixed mount make of a
    dynamic pattern, with the bucket it goes to. *)
Definition make_entry (uri : string) (cbs : list HandlerFunction)
  : nat * NamedRouteCallback :=
  let useRegex := negb (regexCheckNamedPath uri) in
  let tokens := JsString.split "/" uri in
  let bucket := length tokens - 1 in
  let pathNames := tail tokens in
  let kp := createNamedRouteSearchKey tokens in
  (bucket,
   {| key := kp.2; params := kp.1; callbacks := cbs;
      pathNames := pathNames; useRegex := useRegex |}).

Definition buildRequestMap (r mapIndex : nat) (uri : string)
  (cbs : list HandlerFunction) : comp World unit :=
  let* routeMap := get_map r mapIndex in
  if regexCheckStaticURL uri then
    match obj_read (staticRouteMap routeMap) uri with
    | Undefined =>
        let* l := alloc_record cbs in
        set_map r mapIndex
          (with_static routeMap (obj_set (staticRouteMap routeMap) uri l))
    | Own l => for_each cbs (push_record l)
    | Inherited =>
        (* [.callbacks] of the inherited value is [undefined] *)
        for_each cbs (fun _ => throw)
    end
  else
    let be := make_entry uri cbs in
    match obj_get (namedRoutePartitionMap routeMap) be.1 with
    | None =>
        let* l := alloc_array [be.2] in
        set_map r mapIndex
          (with_named routeMap (obj_set (namedRoutePartitionMap routeMap) be.1 l))
    | Some l => push_array l be.2
    end.

(** [get], [post], [put], [patch], [delete]: [method_route GET] and so on. *)
Definition method_route (m : HttpMapIndex) (r : nat) (uri : string)
  (fn : list HandlerFunction) : comp World unit :=
  if (length fn =? 0)%nat then throw
  else buildRequestMap r (map_index m) uri fn.

Definition all (r : nat) (uri : string) (fn : list HandlerFunction)
  : comp World unit :=
  if (length fn =? 0)%nat then throw
  else
    method_route GET r uri fn ;;;
    method_route POST r uri fn ;;;
    method_route PUT r uri fn ;;;
    method_route PATCH r uri fn ;;;
    method_route DELETE r uri fn.

(** [use(...fn)]: application-level middleware. *)
Definition use_middleware (r : nat) (fn : list HandlerFunction) : comp World unit :=
  if (length fn =? 0)%nat then throw
  else buildRequestMap r (map_index MIDDLEWARE) TopLevelMiddleware fn.

(** [use(uri, ...fn)]: route-level middleware. *)
Definition use_path (r : nat) (uri : string) (fn : list HandlerFunction)
  : comp World unit :=
  if (length fn =? 0)%nat then throw else all r uri fn.

(** ** Mounter *)

(** One key of the source's static map, in the branch of a non-empty
    target map: the target's record for that key gets the concatenation of
    both chains. The key is read without a guard: when the target has no
    such property of its own the access to [.callbacks.concat] throws,
    what [Object.prototype] lends under the key having no [callbacks]
    either. *)
Definition merge_static_key (t s i : nat) (k : string) : comp World unit :=
  let* tm := get_map t i in
  let* lt := defined (obj_get (staticRouteMap tm) k) in
  let* mine := read_record lt in
  let* sm := get_map s i in
  let* ls := defined (obj_get (staticRouteMap sm) k) in
  let* theirs := read_record ls in
  write_record lt (mine ++ theirs).

Definition merge_static (t s i : nat) : comp World unit :=
  let* tm := get_map t i in
  let* sm := get_map s i in
  if obj_is_empty (staticRouteMap tm) then
    set_map t i (with_static tm (obj_assign (staticRouteMap tm) (staticRouteMap sm)))
  else
    for_each (staticRouteMap sm) (fun kv => merge_static_key t s i kv.1).

(** One bucket of the source's partition map, in the branch of a non-empty
    target map. *)
Definition merge_named_key (t s i : nat) (k : nat) : comp World unit :=
  let* tm := get_map t i in
  match obj_get (namedRoutePartitionMap tm) k with
  | Some lt =>
      let* mine := read_array lt in
      let* sm := get_map s i in
      let* ls := defined (obj_get (namedRoutePartitionMap sm) k) in
      let* theirs := read_array ls in
      let* l := alloc_array (mine ++ theirs) in
      let* tm' := get_map t i in
      set_map t i (with_named tm' (obj_set (namedRoutePartitionMap tm') k l))
  | None => ret tt
  end.

Definition merge_named (t s i : nat) : comp World unit :=
  let* tm := get_map t i in
  let* sm := get_map s i in
  if obj_is_empty (namedRoutePartitionMap tm) then
    set_map t i
      (with_named tm (obj_assign (namedRoutePartitionMap tm) (namedRoutePartitionMap sm)))
  else
    for_each (namedRoutePartitionMap sm) (fun kv => merge_named_key t s i kv.1).

(** [t.mergeRouterMaps(s.httpMethodMap)], that is [t.use(s)]. *)
Definition mergeRouterMaps (t s : nat) : comp World unit :=
  let* routeMap := get_router s in
  for_each (seq 0 (length routeMap))
    (fun i => merge_static t s i ;;; merge_named t s i).

Section mount_at.
Context `{!Builtins}.

(** The key of a static route or the pattern of a named route under the
    prefix [uri]. *)
Definition prefixed (uri k : string) : string :=
  JsString.strip_trailing_slash (path_join uri k).

Definition mount_static (t : nat) (uri : string) (s mapIndex : nat)
  : comp World unit :=
  let* sm := get_map s mapIndex in
  let mapOfStaticRouteCallback : Obj string loc :=
    foldl (fun m kv =>
             obj_put m (if (mapIndex =? 0)%nat then kv.1 else prefixed uri kv.1) kv.2)
          [] (staticRouteMap sm) in
  if obj_is_empty (staticRouteMap sm) then ret tt
  else
    let* tm := get_map t mapIndex in
    set_map t mapIndex
      (with_static tm (obj_assign (staticRouteMap tm) mapOfStaticRouteCallback)).

(** One entry of a source bucket: [v] is the bucket's array as enumerated
    when the loop over the buckets began; the local variable
    [mapOfNamedRouteCallback] is threaded. *)
Definition mount_named_entry (uri : string) (s mapIndex k : nat) (v : loc)
  (mapOfNamedRouteCallback : Obj nat loc) (bucketIndex : nat)
  : comp World (Obj nat loc) :=
  let* sm := get_map s mapIndex in
  let* cur := defined (obj_get (namedRoutePartitionMap sm) k) in
  let* es := read_array cur in
  let* e := defined (es !! bucketIndex) in
  let keySrc := JsString.join "/" (pathNames e) in
  let keyDest := prefixed uri keySrc in
  let* vs := read_array v in
  let* ev := defined (vs !! bucketIndex) in
  let be := make_entry keyDest (callbacks ev) in
  match obj_get mapOfNamedRouteCallback be.1 with
  | None =>
      let* l := alloc_array [be.2] in
      ret (obj_set mapOfNamedRouteCallback be.1 l)
  | Some l => push_array l be.2 ;;; ret mapOfNamedRouteCallback
  end.

(** One bucket of the source. The flag [changed] is set by the first entry
    handled, which also creates the first property of
    [mapOfNamedRouteCallback]. *)
Definition mount_named_bucket (t : nat) (uri : string) (s mapIndex : nat)
  (mapOfNamedRouteCallback : Obj nat loc) (kv : nat * loc)
  : comp World (Obj nat loc) :=
  let* sm := get_map s mapIndex in
  let* cur := defined (obj_get (namedRoutePartitionMap sm) kv.1) in
  let* es := read_array cur in
  let buckets := length es in
  let* m := fold_each (seq 0 buckets) mapOfNamedRouteCallback
              (mount_named_entry uri s mapIndex kv.1 kv.2) in
  (if obj_is_empty m then ret tt
   else
     let* tm := get_map t mapIndex in
     set_map t mapIndex
       (with_named tm (obj_assign (namedRoutePartitionMap tm) m))) ;;;
  ret m.

Definition mount_named (t : nat) (uri : string) (s mapIndex : nat)
  : comp World unit :=
  let* sm := get_map s mapIndex in
  fold_each (namedRoutePartitionMap sm) [] (mount_named_bucket t uri s mapIndex) ;;;
  ret tt.

(** [t.use(uri, s)]: mounting router [s] on a path. *)
Definition use_router_at (t : nat) (uri : string) (s : nat) : comp World unit :=
  let* routeMap := get_router s in
  for_each (seq 0 (length routeMap))
    (fun mapIndex => mount_static t uri s mapIndex ;;; mount_named t uri s mapIndex).

(** ** Configuration of routers *)

Inductive Op : Type :=
  | NewRouter
  | Route (m : HttpMapIndex) (r : nat) (uri : string) (fn : list HandlerFunction)
  | All (r : nat) (uri : string) (fn : list HandlerFunction)
  | UseMiddleware (r : nat) (fn : list HandlerFunction)
  | UsePath (r : nat) (uri : string) (fn : list HandlerFunction)
  | UseRouter (t s : nat)
  | UseRouterAt (t : nat) (uri : string) (s : nat).

Definition run_op (o : Op) : comp World unit :=
  match o with
  | NewRouter => new_router ;;; ret tt
  | Route m r uri fn => method_route m r uri fn
  | All r uri fn => all r uri fn
  | UseMiddleware r fn => use_middleware r fn
  | UsePath r uri fn => use_path r uri fn
  | UseRouter t s => mergeRouterMaps t s
  | UseRouterAt t uri s => use_router_at t uri s
  end.

(** The world after a sequence of configuration calls; a call that throws
    leaves its partial effect and the next call goes on from there. *)
Definition configure (ops : list Op) (w : World) : World :=
  foldl (fun w o => (run_op o w).1) w ops.

End mount_at.

(** ** Matcher and dispatcher *)

(** The tables of a router as the dispatcher reads them: every location
    replaced by the value stored there. *)
Abbreviation RouteTable :=
  (RouteMap (list HandlerFunction) (list NamedRouteCallback)) (only parsing).

Definition resolve (w : World) (rm : RouteMap loc loc) : RouteTable :=
  {| namedRoutePartitionMap :=
       (fun kv => (kv.1, arrays w !!! kv.2)) <$> namedRoutePartitionMap rm;
     staticRouteMap :=
       (fun kv => (kv.1, records w !!! kv.2)) <$> staticRouteMap rm |}.

(** [this.httpMethodMap] of router [r], as read during a dispatch. *)
Definition httpMethodMap (w : World) (r : nat) : list RouteTable :=
  resolve w <$> (routers w !!! r).

(** Running a computation on the request of the context. *)
Definition on_request {A} (m : comp HttpRequest A) : comp ApplicationContext A :=
  fun ctx =>
    let (req, out) := m (request ctx) in
    ({| request := req; response := response ctx |}, out).

(** A call to the response object that takes effect; [response.end(...)]
    is always one. *)
Definition respond (evs : list ResponseEvent) : comp ApplicationContext unit :=
  modify (fun ctx => {| request := request ctx; response := response ctx ++ evs |}).

(** [response.writeHead(status, statusMessage, headers)]: Node throws
    [ERR_HTTP_HEADERS_SENT] when the head has gone out already. *)
Definition writeHead (status : nat) (statusMessage : option string)
  (headers : list (string * string)) : comp ApplicationContext unit :=
  let* sent := gets (fun ctx => headersSent (response ctx)) in
  if sent : bool then throw else respond [WriteHead status statusMessage headers].

(** [response.setHeader(name, value)], which throws likewise. *)
Definition setHeader (name value : string) : comp ApplicationContext unit :=
  let* sent := gets (fun ctx => headersSent (response ctx)) in
  if sent : bool then throw else respond [SetHeader name value].

(** [bag[name] = value], the value being a string or [undefined]. Under
    the name [__proto__], unless the bag has such a property of its own,
    the assignment reaches the accessor of [Object.prototype], which
    ignores a value that is not an object: the bag is as before. *)
Definition bag_set (name : string) (value : option string)
  (bag : gmap string (option string)) : gmap string (option string) :=
  if bool_decide (name = "__proto__") && bool_decide (bag !! name = None) then bag
  else <[name := value]> bag.

(** [request.params[name] = value] *)
Definition set_param (name : string) (value : option string) : comp HttpRequest unit :=
  fun req =>
    match req_params req with
    | Some bag =>
        ({| method := method req; url := url req;
            req_params := Some (bag_set name value bag); query := query req |},
         Normal tt)
    | None => (req, Thrown)
    end.

(** [if (!request.params) { request.params = {}; }] *)
Definition init_params : comp HttpRequest unit :=
  modify (fun req =>
    match req_params req with
    | Some _ => req
    | None =>
        {| method := method req; url := url req;
           req_params := Some ∅; query := query req |}
    end).

Definition set_query (q : string) : comp HttpRequest unit :=
  modify (fun req =>
    {| method := method req; url := url req;
       req_params := req_params req; query := Some q |}).

(** The loop of [fastPathMatch], from index [n - 1] down to 0. *)
Fixpoint fastPathLoop (n : nat) (pathNames keyNames : list string)
  : comp HttpRequest bool :=
  match n with
  | 0 => ret true
  | S i =>
      let p := pathNames !!! i in
      let k := keyNames !!! i in
      if negb (bool_decide (p = k)) && negb (JsString.startsWith ":" k)
      then ret false
      else if JsString.startsWith ":" k
      then set_param (JsString.substring1 k) (Some p) ;;;
           fastPathLoop i pathNames keyNames
      else fastPathLoop i pathNames keyNames
  end.

Definition fastPathMatch (pathNames keyNames : list string) : comp HttpRequest bool :=
  if (length keyNames =? length pathNames)%nat
  then fastPathLoop (length pathNames) pathNames keyNames
  else ret false.

(** A segment of the URL agrees with a segment of the pattern: they are
    equal, or the pattern's segment starts with a colon. *)
Definition segment_matches (p k : string) : bool :=
  bool_decide (p = k) || JsString.startsWith ":" k.

(** The names and values of the colon segments of a pattern against the
    segments of a URL, from left to right. *)
Definition captures (pathNames keyNames : list string) : list (string * string) :=
  omap (fun pk : string * string =>
          if JsString.startsWith ":" pk.2
          then Some (JsString.substring1 pk.2, pk.1) else None)
       (zip pathNames keyNames).

(** The bag after the captures have been written from the last to the
    first. *)
Definition write_right_to_left (caps : list (string * string))
  (bag : gmap string (option string)) : gmap string (option string) :=
  foldr (fun nv b => bag_set nv.1 (Some nv.2) b) bag caps.

(** The bag after the captures have been written from the first to the
    last. *)
Definition write_left_to_right (caps : list (string * string))
  (bag : gmap string (option string)) : gmap string (option string) :=
  foldl (fun b nv => bag_set nv.1 (Some nv.2) b) bag caps.

Definition with_params (req : HttpRequest) (bag : gmap string (option string))
  : HttpRequest :=
  {| method := method req; url := url req; req_params := Some bag;
     query := query req |}.

(** The parameter bag of the request has a value under [name]. *)
Definition has_param (req : HttpRequest) (name : string) : Prop :=
  exists bag, req_params req = Some bag /\ is_Some (bag !! name).

(** [request.params[name]] as a property of the bag itself: [None] when
    there is no bag or no such property. *)
Definition param_of (req : HttpRequest) (name : string) : option (option string) :=
  match req_params req with
  | Some bag => bag !! name
  | None => None
  end.

Definition with_request (ctx : ApplicationContext) (req : HttpRequest)
  : ApplicationContext :=
  {| request := req; response := response ctx |}.

Section dispatcher.
Context `{!Builtins}.

(** [pk] is the route entry, of which the key and the parameter names are
    read. *)
Definition attachPathParamsToRequestIfExists (uri : string)
  (pk : NamedRouteCallback) : comp HttpRequest bool :=
  if JsString.is_empty (key pk) then ret false
  else
    match regexp_exec (key pk) uri with
    | SyntaxError => throw
    | NoMatch => ret false
    | Match groups =>
        for_each (imap (fun i segment => (i, segment)) (params pk))
          (fun ip => set_param ip.2 (mjoin (groups !! ip.1))) ;;;
        ret true
    end.

Definition callTopLevelMiddlewares (tables : list RouteTable)
  : comp ApplicationContext unit :=
  let* middlewareMap := defined (tables !! map_index MIDDLEWARE) in
  match obj_get (staticRouteMap middlewareMap) TopLevelMiddleware with
  | None => ret tt
  | Some middleware_chain =>
      if (length middleware_chain =? 0)%nat then ret tt
      else for_each middleware_chain (fun callback => callback ;;; ret tt)
  end.

Definition headers404 : list (string * string) :=
  [("Content-Type", "text/plain"); ("User-Agent", apiVersion)].

(** [response.writeHead(404, {...}); response.end('Route not found')] *)
Definition notFound : comp ApplicationContext unit :=
  writeHead 404 None headers404 ;;; respond [End (Some "Route not found")].

(** The callback chain of a matched route: a truthy result ends the
    response and leaves the loop. *)
Fixpoint run_chain (chain : list HandlerFunction) : comp ApplicationContext unit :=
  match chain with
  | [] => ret tt
  | callback :: rest =>
      let* rv := callback in
      match rv with
      | Truthy => respond [End None]
      | Falsy => run_chain rest
      end
  end.

(** The handlers of a chain run one after the other, from the first
    context to the second, and every one of them returns a falsy value. *)
Inductive all_falsy
  : list HandlerFunction -> ApplicationContext -> ApplicationContext -> Prop :=
  | all_falsy_nil ctx : all_falsy [] ctx ctx
  | all_falsy_cons h rest ctx ctx1 ctx2 :
      h ctx = (ctx1, Normal Falsy) ->
      all_falsy rest ctx1 ctx2 ->
      all_falsy (h :: rest) ctx ctx2.

(** How the body of the [try] block is left when nothing is thrown: by a
    [return], or by reaching its end. *)
Inductive Flow : Type :=
  | Returned
  | FellThrough.

(** The test of one entry of the bucket:
    [!useRegex && fastPathMatch(...) || useRegex && attachPath...(...)]. *)
Definition attempt (URL : string) (pathNames_of_URL : list string)
  (namedRouteParam : NamedRouteCallback) : comp HttpRequest bool :=
  if useRegex namedRouteParam
  then attachPathParamsToRequestIfExists URL namedRouteParam
  else fastPathMatch pathNames_of_URL (pathNames namedRouteParam).

(** Whether the positional comparison accepts the segments of a URL. *)
Definition fast_accepts (pathNames keyNames : list string) : bool :=
  bool_decide (length keyNames = length pathNames)
  && forallb (fun pk : string * string => segment_matches pk.1 pk.2)
             (zip pathNames keyNames).

(** Whether an entry of the bucket matches the path [URL]; a pattern that
    the [RegExp] constructor rejects matches nothing. *)
Definition entry_accepts (URL : string) (e : NamedRouteCallback) : bool :=
  if useRegex e then
    negb (JsString.is_empty (key e))
    && match regexp_exec (key e) URL with Match _ => true | _ => false end
  else fast_accepts (tail (JsString.split "/" URL)) (pathNames e).

(** The entries of a list are tested one after the other, from the first
    request to the second, and none of them matches. *)
Inductive all_fail (URL : string) (pathNames_of_URL : list string)
  : list NamedRouteCallback -> HttpRequest -> HttpRequest -> Prop :=
  | all_fail_nil req : all_fail URL pathNames_of_URL [] req req
  | all_fail_cons e rest req req1 req2 :
      attempt URL pathNames_of_URL e req = (req1, Normal false) ->
      all_fail URL pathNames_of_URL rest req1 req2 ->
      all_fail URL pathNames_of_URL (e :: rest) req req2.

(** The loop over the entries of the bucket. *)
Fixpoint match_loop (tables : list RouteTable) (URL : string)
  (pathNames_of_URL : list string) (namedRouteParams : list NamedRouteCallback)
  : comp ApplicationContext Flow :=
  match namedRouteParams with
  | [] => ret FellThrough
  | namedRouteParam :: rest =>
      let* matched := on_request (attempt URL pathNames_of_URL namedRouteParam) in
      if matched : bool then
        callTopLevelMiddlewares tables ;;;
        if (0 <? length (callbacks namedRouteParam))%nat
        then run_chain (callbacks namedRouteParam) ;;; ret Returned
        else match_loop tables URL pathNames_of_URL rest
      else match_loop tables URL pathNames_of_URL rest
  end.

(** The body of the [try] block of [processHTTPMethod]. *)
Definition try_block (tables : list RouteTable) (mapIndex : nat) (URL : string)
  (throwOnNotFound : bool) : comp ApplicationContext Flow :=
  let* routeMap := defined (tables !! mapIndex) in
  match obj_read (staticRouteMap routeMap) URL with
  | Own callback_chain =>
      callTopLevelMiddlewares tables ;;;
      if (length callback_chain =? 0)%nat then ret Returned
      else run_chain callback_chain ;;; ret Returned
  | Inherited =>
      (* [staticRouteMap[URL]?.callbacks] is [undefined] *)
      callTopLevelMiddlewares tables ;;; ret Returned
  | Undefined =>
      let pathNames := tail (JsString.split "/" URL) in
      let bucket := length pathNames in
      match obj_get (namedRoutePartitionMap routeMap) bucket with
      | Some namedRouteParams =>
          on_request init_params ;;;
          if (length namedRouteParams =? 0)%nat then ret Returned
          else match_loop tables URL pathNames namedRouteParams
      | None =>
          if throwOnNotFound then notFound ;;; ret Returned
          else ret FellThrough
      end
  end.

(** The path that is matched: the URL up to the query string, without its
    trailing slash unless it is the root. *)
Definition normalize (url0 : string) : string :=
  let URL := hd "" (JsString.split "?" url0) in
  if (1 <? String.length URL)%nat && bool_decide (JsString.last_char URL = Some "/"%char)
  then JsString.drop_last URL
  else URL.

(** [if (urlQuery.length > 1 && urlQuery[1].length > 0) request.query = ...] *)
Definition parse_query (url0 : string) : comp ApplicationContext unit :=
  match JsString.split "?" url0 with
  | _ :: q :: _ =>
      if (0 <? String.length q)%nat then on_request (set_query q) else ret tt
  | _ => ret tt
  end.

Definition processHTTPMethod (tables : list RouteTable) (mapIndex : nat)
  (throwOnNotFound : bool) : comp ApplicationContext unit :=
  let* url0 := gets (fun ctx => url (request ctx)) in
  parse_query url0 ;;;
  let URL := normalize url0 in
  let* flow :=
    try_catch (try_block tables mapIndex URL throwOnNotFound)
              (notFound ;;; ret Returned) in
  match flow with
  | Returned => ret tt
  | FellThrough => if throwOnNotFound then notFound else ret tt
  end.

(** The [switch] of [dispatch] on the request's method. *)
Definition method_index (m : string) : option HttpMapIndex :=
  if bool_decide (m = "GET") || bool_decide (m = "get") then Some GET
  else if bool_decide (m = "POST") || bool_decide (m = "post") then Some POST
  else if bool_decide (m = "PUT") || bool_decide (m = "put") then Some PUT
  else if bool_decide (m = "PATCH") || bool_decide (m = "patch") then Some PATCH
  else if bool_decide (m = "DELETE") || bool_decide (m = "delete") then Some DELETE
  else None.

Definition headers501 : list (string * string) :=
  [("Content-Type", "text/plain"); ("User-Agent", apiVersion)].

Definition dispatch (tables : list RouteTable) : comp ApplicationContext unit :=
  fun ctx =>
    match method_index (method (request ctx)) with
    | Some m => processHTTPMethod tables (map_index m) true ctx
    | None =>
        (writeHead 501 (Some "HTTP Dispatch method not implemented") headers501 ;;;
         respond [End None]) ctx
    end.

End dispatcher.

(** ** The regular expressions of compiled keys

    The key that [createNamedRouteSearchKey] makes of a pattern of safe
    characters is a regular expression of a small fragment: characters that
    stand for themselves, the dot, and the capturing group [([\w-.~]+)].
    [Regex.exec] is [RegExp(key).exec(uri)] on that fragment, with
    JavaScript's backtracking order: the leftmost start position first, and
    the longest repetition first. The engine is not followed outside the
    fragment: a key with any other construct is not parsed here and is
    answered like a malformed one, so that [Regex.exec] stands for the
    engine only where [Regex.parse] succeeds, which is where the
    properties below use it. *)

Module Regex.

Inductive Node : Type :=
  | Lit (c : ascii)
  | AnyChar
  | Segment.

Definition group_text : string := "([\w-.~]+)".

Fixpoint is_prefix (p s : string) : bool :=
  match p, s with
  | EmptyString, _ => true
  | String a p', String b s' => Ascii.eqb a b && is_prefix p' s'
  | String _ _, EmptyString => false
  end.

(** Characters of a pattern that match themselves. *)
Definition is_literal (c : ascii) : bool :=
  JsString.is_word c || Ascii.eqb c "~" || Ascii.eqb c "-" || Ascii.eqb c "/"
  || Ascii.eqb c ":".

(** [parse_from skip s] reads the pattern [s] after passing over [skip]
    characters, which belong to a group already recognised. *)
Fixpoint parse_from (skip : nat) (s : string) : option (list Node) :=
  match s with
  | EmptyString => match skip with 0 => Some [] | S _ => None end
  | String c s' =>
      match skip with
      | S n => parse_from n s'
      | 0 =>
          if Ascii.eqb c "(" then
            if is_prefix group_text s
            then cons Segment <$> parse_from (String.length group_text - 1) s'
            else None
          else if Ascii.eqb c "." then cons AnyChar <$> parse_from 0 s'
          else if is_literal c then cons (Lit c) <$> parse_from 0 s'
          else None
      end
  end.

Definition parse (s : string) : option (list Node) := parse_from 0 s.

(** The dot matches any character but a line terminator. *)
Definition is_line_terminator (c : ascii) : bool :=
  Ascii.eqb c "010" || Ascii.eqb c "013".

(** [([\w-.~]+)] followed by the rest of the pattern, [k]: [taken] holds
    the characters the group has consumed so far. A longer capture is
    tried before a shorter one. *)
Fixpoint greedy (k : string -> option (list string)) (taken s : string)
  : option (list string) :=
  match s with
  | EmptyString => None
  | String c s' =>
      if JsString.is_segment_char c then
        let taken' := taken +:+ String c EmptyString in
        match greedy k taken' s' with
        | Some caps => Some caps
        | None => cons taken' <$> k s'
        end
      else None
  end.

(** A match of the pattern at the beginning of [s]: the captures. *)
Fixpoint match_here (r : list Node) (s : string) : option (list string) :=
  match r with
  | [] => Some []
  | Lit c :: r' =>
      match s with
      | String c' s' => if Ascii.eqb c c' then match_here r' s' else None
      | EmptyString => None
      end
  | AnyChar :: r' =>
      match s with
      | String c' s' => if is_line_terminator c' then None else match_here r' s'
      | EmptyString => None
      end
  | Segment :: r' => greedy (match_here r') EmptyString s
  end.

(** The first start position at which the pattern matches. *)
Fixpoint search (r : list Node) (s : string) : option (list string) :=
  match match_here r s with
  | Some caps => Some caps
  | None =>
      match s with
      | String _ s' => search r s'
      | EmptyString => None
      end
  end.

(** Patterns outside the fragment are not modelled; they are reported
    like malformed ones. *)
Definition exec (key uri : string) : ExecResult :=
  match parse key with
  | Some r =>
      match search r uri with
      | Some caps => Match (Some <$> caps)
      | None => NoMatch
      end
  | None => SyntaxError
  end.

End Regex.

(** ** A model of [path.join] for two arguments (POSIX) *)

Module Path.

(** [normalizeString]: empty and [.] segments are dropped, [..] removes the
    segment before it; [res] is the result so far, in reverse. *)
Fixpoint normalize_segments (allowAboveRoot : bool) (res : list string)
  (segs : list string) : list string :=
  match segs with
  | [] => rev res
  | seg :: rest =>
      if bool_decide (seg = "") || bool_decide (seg = ".")
      then normalize_segments allowAboveRoot res rest
      else if bool_decide (seg = "..") then
        match res with
        | last :: res' =>
            if bool_decide (last = "..")
            then normalize_segments allowAboveRoot (seg :: res) rest
            else normalize_segments allowAboveRoot res' rest
        | [] =>
            if allowAboveRoot
            then normalize_segments allowAboveRoot [seg] rest
            else normalize_segments allowAboveRoot [] rest
        end
      else normalize_segments allowAboveRoot (seg :: res) rest
  end.

Definition normalize (path : string) : string :=
  if JsString.is_empty path then "." else
  let isAbsolute := JsString.startsWith "/" path in
  let trailingSeparator := bool_decide (JsString.last_char path = Some "/"%char) in
  let body :=
    JsString.join "/"
      (normalize_segments (negb isAbsolute) [] (JsString.split "/" path)) in
  if JsString.is_empty body then
    if isAbsolute then "/" else if trailingSeparator then "./" else "."
  else
    let body' := if trailingSeparator then body +:+ "/" else body in
    if isAbsolute then "/" +:+ body' else body'.

Definition join (a b : string) : string :=
  let joined :=
    if JsString.is_empty a then b
    else if JsString.is_empty b then a
    else a +:+ "/" +:+ b in
  if JsString.is_empty joined then "." else normalize joined.

End Path.

(** The builtins as Node provides them, for patterns of the fragment. *)
Definition node_builtins : Builtins :=
  {| path_join := Path.join; regexp_exec := Regex.exec; apiVersion := "Furi" |}.

(** ** Patterns of safe characters and the URLs they describe *)

(** A safe character of a named pattern, the slash apart: [[:~\w.-]]. *)
Definition is_plain_char (c : ascii) : bool :=
  JsString.is_segment_char c || Ascii.eqb c ":".

(** The segment [p] of a URL fits the segment [k] of a pattern: [k] is
    made of safe characters, and [p] is a non-empty run of [[\w-.~]] when
    [k] is a named segment, and [k] itself otherwise. *)
Definition segment_fits (p k : string) : bool :=
  JsString.forallb is_plain_char k
  && if JsString.startsWith ":" k
     then negb (JsString.is_empty p) && JsString.forallb JsString.is_segment_char p
     else bool_decide (p = k).

(** The text that a segment of the pattern contributes to the key. *)
Definition key_piece (k : string) : string :=
  if JsString.startsWith ":" k then Regex.group_text else k.

(** Every segment with a slash before it. *)
Definition slashed (segs : list string) : string :=
  foldr (fun seg acc => "/" +:+ seg +:+ acc) "" segs.

(** The expression that a segment of the pattern stands for. *)
Definition node_of (c : ascii) : Regex.Node :=
  if Ascii.eqb c "." then Regex.AnyChar else Regex.Lit c.

Fixpoint nodes_of_string (s : string) : list Regex.Node :=
  match s with
  | EmptyString => []
  | String c s' => node_of c :: nodes_of_string s'
  end.

Definition nodes_of_segment (k : string) : list Regex.Node :=
  if JsString.startsWith ":" k then [Regex.Segment] else nodes_of_string k.

Definition regex_of_segments (ks : list string) : list Regex.Node :=
  foldr (fun k acc => Regex.Lit "/" :: nodes_of_segment k ++ acc) [] ks.

(** ** Sample handlers and requests *)

(** A handler that sets a response header carrying its name and returns
    the given value. *)
Definition named_handler (name : string) (result : HandlerResult)
  : comp ApplicationContext HandlerResult :=
  setHeader "X-Handler" name ;;; ret result.

(** A handler that throws. *)
Definition failing_handler : comp ApplicationContext HandlerResult := throw.

(** A handler that writes the head of its response and then throws. *)
Definition late_failing_handler : comp ApplicationContext HandlerResult :=
  writeHead 200 None [] ;;; throw.

(** A request as it reaches [dispatch]: no parameters, no query yet. *)
Definition incoming (m u : string) : ApplicationContext :=
  {| request := {| method := m; url := u; req_params := None; query := None |};
     response := [] |}.

(** ** Predicates used in the properties *)

(** [wp m Q E s]: run from the state [s], the computation [m] completes in
    a state and with a value that satisfy [Q], or throws in a state that
    satisfies [E]. *)
Definition wp {S A} (m : comp S A) (Q : A -> S -> Prop) (E : S -> Prop) (s : S)
  : Prop :=
  match m s with
  | (s', Normal a) => Q a s'
  | (s', Thrown) => E s'
  end.

(** The array at [l] is allocated, is not empty, and every one of its
    entries has [b] path segments. *)
Definition good_array (w : World) (b : nat) (l : loc) : Prop :=
  exists es, arrays w !! l = Some es /\ es <> []
             /\ Forall (fun e => length (pathNames e) = b) es.

(** Every bucket of every route table of every router refers to a good
    array for the bucket's number. *)
Definition buckets_ok (w : World) : Prop :=
  forall r hm i rm b l,
    routers w !! r = Some hm -> hm !! i = Some rm ->
    (b, l) ∈ namedRoutePartitionMap rm -> good_array w b l.

(** The buckets of a local partition map refer to good arrays. *)
Definition map_ok (w : World) (m : Obj nat loc) : Prop :=
  forall b l, (b, l) ∈ m -> good_array w b l.

(** The outcome of mounting without a prefix, in the words of the
    specification: an empty target map takes the source's map; otherwise
    every key of the target keeps its list, with the source's list for the
    same key, if there is one, added at its end. *)
Definition merged {K V : Type} `{EqDecision K}
  (target source : Obj K (list V)) (k : K) : option (list V) :=
  if obj_is_empty target then obj_get source k
  else
    match obj_get target k with
    | Some mine => Some (mine ++ default [] (obj_get source k))
    | None => None
    end.

Definition static_locs (rm : RouteMap loc loc) : list loc := (staticRouteMap rm).*2.

Definition named_locs (rm : RouteMap loc loc) : list loc :=
  (namedRoutePartitionMap rm).*2.

(** The maps of a route table have no key twice, and what they refer to is
    allocated. *)
Definition table_wf (w : World) (rm : RouteMap loc loc) : Prop :=
  NoDup (staticRouteMap rm).*1 /\ NoDup (namedRoutePartitionMap rm).*1
  /\ Forall (fun l => l < length (records w)) (static_locs rm)
  /\ Forall (fun l => l < length (arrays w)) (named_locs rm).

(** No [{callbacks}] record of the target is held under two keys or
    methods, and none is a record of the source. *)
Definition no_shared_records (T S : Router) : Prop :=
  NoDup (concat (static_locs <$> T))
  /\ Forall (fun l => l ∉ concat (static_locs <$> S)) (concat (static_locs <$> T)).

#[export] Instance table_wf_dec w rm : Decision (table_wf w rm).
Proof. unfold table_wf. apply _. Defined.

#[export] Instance no_shared_records_dec T S : Decision (no_shared_records T S).
Proof. unfold no_shared_records. apply _. Defined.

(** Where the static map of the target is not empty, it has every key of
    the source's static map for the same method. *)
Definition covers (T S : Router) : Prop :=
  forall i tm sm k,
    T !! i = Some tm -> S !! i = Some sm -> staticRouteMap tm <> [] ->
    is_Some (obj_get (staticRouteMap sm) k) ->
    is_Some (obj_get (staticRouteMap tm) k).

(** A computation keeps the invariant, whether it completes or throws. *)
Definition keeps {A} (m : comp World A) : Prop :=
  forall w, buckets_ok w -> wp m (fun _ => buckets_ok) buckets_ok w.

(** ** Predicates used in the further properties *)

(** The labels of the [switch] of [dispatch]. *)
Definition supported_methods : list string :=
  ["GET"; "get"; "POST"; "post"; "PUT"; "put"; "PATCH"; "patch"; "DELETE"; "delete"].

(** The handlers of a list run one after the other, from the first context
    to the second, and every one of them returns, whatever the value. *)
Inductive all_run
  : list HandlerFunction -> ApplicationContext -> ApplicationContext -> Prop :=
  | all_run_nil ctx : all_run [] ctx ctx
  | all_run_cons h rest ctx ctx1 ctx2 rv :
      h ctx = (ctx1, Normal rv) ->
      all_run rest ctx1 ctx2 ->
      all_run (h :: rest) ctx ctx2.

(** The character [c] does not occur in [s]. *)
Definition lacks (c : ascii) (s : string) : bool :=
  JsString.forallb (fun c' => negb (Ascii.eqb c' c)) s.

(** The name that a token of a pattern gives to a parameter, if it is a
    named segment. *)
Definition param_name (token : string) : option string :=
  if JsString.startsWith ":" token then Some (JsString.substring1 token) else None.

(** The names under which the test of an entry writes into the bag: those
    of its colon segments when the comparison is positional, its [params]
    when it goes by the regular expression. *)
Definition entry_names (e : NamedRouteCallback) : list string :=
  if useRegex e then params e else omap param_name (pathNames e).

(** Every router has one table per entry of [HttpMapIndex], and every
    table is well formed: each key occurs once in a map, and refers to a
    record or an array of the store. *)
Definition store_ok (w : World) : Prop :=
  forall r hm, routers w !! r = Some hm ->
    length hm = map_count /\ Forall (table_wf w) hm.

(** A computation keeps the store well formed, whether it completes or
    throws. *)
Definition holds {A} (m : comp World A) : Prop :=
  forall w, store_ok w -> wp m (fun _ => store_ok) store_ok w.

(** Two lists of route tables differ at most in what their static maps
    hold under the empty key. *)
Definition same_off_empty_key (tables tables' : list RouteTable) : Prop :=
  Forall2 (fun rm rm' : RouteTable =>
             namedRoutePartitionMap rm = namedRoutePartitionMap rm'
             /\ forall k, k <> "" ->
                  obj_get (staticRouteMap rm) k = obj_get (staticRouteMap rm') k)
          tables tables'.

(** A local map of the mount on a path is well formed. *)
Definition local_ok (w : World) (m : Obj nat loc) : Prop :=
  NoDup m.*1 /\ Forall (fun l => l < length (arrays w)) m.*2.

(** ** The outcome of a mount on a path, described *)

(** The value of the last pair of [src] whose key is sent to [k'] by [f];
    there is none under [__proto__], a name under which an assignment
    stores nothing. *)
Definition last_under {V} (f : string -> string) (src : Obj string V) (k' : string)
  : option V :=
  if bool_decide (k' = "__proto__") then None
  else snd <$> last (filter (fun kv : string * V => f kv.1 = k') src).

(** The entries of the buckets of a table, bucket after bucket in the
    order of [Object.entries]. *)
Definition source_entries (w : World) (sm : RouteMap loc loc)
  : list NamedRouteCallback :=
  concat ((fun kv : nat * loc => arrays w !!! kv.2) <$> namedRoutePartitionMap sm).

Section mount_words.
Context `{!Builtins}.

(** The key that the mount on [uri] gives to the static key [k] of the
    table [mapIndex]: the keys of the middleware table are kept. *)
Definition mounted_key (uri : string) (mapIndex : nat) (k : string) : string :=
  if (mapIndex =? 0)%nat then k else prefixed uri k.

(** [mapOfStaticRouteCallback] when the loop over the source's keys ends. *)
Definition static_image (uri : string) (mapIndex : nat) (src : Obj string loc)
  : Obj string loc :=
  foldl (fun m kv => obj_put m (mounted_key uri mapIndex kv.1) kv.2) [] src.

(** The entry that the mount on [uri] makes of an entry of the source,
    with its bucket. *)
Definition rekey (uri : string) (e : NamedRouteCallback) : nat * NamedRouteCallback :=
  make_entry (prefixed uri (JsString.join "/" (pathNames e))) (callbacks e).

(** The entries made of [es] that go to bucket [b], in order. *)
Definition rekeyed (uri : string) (es : list NamedRouteCallback) (b : nat)
  : list NamedRouteCallback :=
  (filter (fun be : nat * NamedRouteCallback => be.1 = b) (rekey uri <$> es)).*2.

(** The state of the loop over the source's buckets when the entries
    [processed] have been handled, [w0] being the store when the loop
    began: no record has changed, the arrays of [w0] are as they were, and
    [m], the local [mapOfNamedRouteCallback], has one new array per bucket
    that received an entry. *)
Definition mount_state (uri : string) (w0 : World)
  (processed : list NamedRouteCallback) (m : Obj nat loc) (w' : World) : Prop :=
  records w' = records w0
  /\ length (arrays w0) <= length (arrays w')
  /\ (forall l es, arrays w0 !! l = Some es -> arrays w' !! l = Some es)
  /\ NoDup m.*1
  /\ forall b,
       match obj_get m b with
       | Some l =>
           length (arrays w0) <= l
           /\ arrays w' !! l = Some (rekeyed uri processed b)
           /\ rekeyed uri processed b <> []
       | None => rekeyed uri processed b = []
       end.

End mount_words.

(** * Properties *)

(** ** Computations *)

Lemma bind_normal {S A B} (m : comp S A) (f : A -> comp S B) s s' a :
  m s = (s', Normal a) -> bind m f s = f a s'.
Proof. unfold bind. intros ->. reflexivity. Qed.

Lemma bind_thrown {S A B} (m : comp S A) (f : A -> comp S B) s s' :
  m s = (s', Thrown) -> bind m f s = (s', Thrown).
Proof. unfold bind. intros ->. reflexivity. Qed.

Lemma for_each_app {S A} (l1 l2 : list A) (body : A -> comp S unit) s :
  for_each (l1 ++ l2) body s = (for_each l1 body ;;; for_each l2 body) s.
Proof.
  revert s. induction l1 as [|x l1 IH]; intros s; simpl.
  - reflexivity.
  - unfold bind in *. destruct (body x s) as [s1 [[]|]]; [|reflexivity].
    apply IH.
Qed.

(** ** Properties of an object and of its prototype *)

Lemma obj_read_own {V} (o : Obj string V) k v :
  obj_get o k = Some v -> obj_read o k = Own v.
Proof. unfold obj_read. intros ->. reflexivity. Qed.

Lemma obj_read_missing {V} (o : Obj string V) k :
  obj_get o k = None -> inherited k = false -> obj_read o k = Undefined.
Proof. unfold obj_read. intros -> ->. reflexivity. Qed.

Lemma obj_read_inherited {V} (o : Obj string V) k :
  obj_get o k = None -> inherited k = true -> obj_read o k = Inherited.
Proof. unfold obj_read. intros -> ->. reflexivity. Qed.

Lemma obj_read_Own {V} (o : Obj string V) k v :
  obj_read o k = Own v <-> obj_get o k = Some v.
Proof.
  unfold obj_read. destruct (obj_get o k) as [v'|].
  - split; intros Heq; injection Heq as ->; reflexivity.
  - destruct (inherited k); split; discriminate.
Qed.

Lemma obj_read_Undefined {V} (o : Obj string V) k :
  obj_read o k = Undefined <-> obj_get o k = None /\ inherited k = false.
Proof.
  unfold obj_read. destruct (obj_get o k) as [v'|].
  - split; [discriminate|intros [? _]; discriminate].
  - destruct (inherited k); split; try discriminate; auto.
    intros [_ ?]; discriminate.
Qed.

Lemma obj_read_Inherited {V} (o : Obj string V) k :
  obj_read o k = Inherited <-> obj_get o k = None /\ inherited k = true.
Proof.
  unfold obj_read. destruct (obj_get o k) as [v'|].
  - split; [discriminate|intros [? _]; discriminate].
  - destruct (inherited k); split; try discriminate; auto.
    intros [_ ?]; discriminate.
Qed.

(** No inherited name has a slash. *)
Lemma inherited_lacks_slash k : inherited k = true -> JsString.split "/" k = [k].
Proof.
  unfold inherited. intros Hin. apply bool_decide_eq_true in Hin.
  unfold inherited_names in Hin.
  repeat (apply elem_of_cons in Hin as [->|Hin]; [reflexivity|]).
  apply elem_of_nil in Hin as [].
Qed.

Lemma inherited_slash s : inherited (String "/" s) = false.
Proof.
  destruct (inherited (String "/" s)) eqn:Hin; [|reflexivity].
  apply inherited_lacks_slash in Hin. cbn [JsString.split] in Hin.
  rewrite Ascii.eqb_refl in Hin. destruct (JsString.split "/" s); discriminate.
Qed.

Lemma inherited_proto k : inherited k = false -> k <> "__proto__".
Proof. intros Hin ->. vm_compute in Hin. discriminate. Qed.

(** ** Handler chains *)

Lemma run_chain_all_falsy chain ctx ctx1 :
  all_falsy chain ctx ctx1 -> run_chain chain ctx = (ctx1, Normal tt).
Proof.
  induction 1 as [|h rest ctx ctx1 ctx2 Hh _ IH]; simpl.
  - reflexivity.
  - erewrite bind_normal by exact Hh. exact IH.
Qed.

Lemma run_chain_prefix pre rest ctx ctx1 :
  all_falsy pre ctx ctx1 -> run_chain (pre ++ rest) ctx = run_chain rest ctx1.
Proof.
  induction 1 as [|h pre ctx ctx1 ctx2 Hh _ IH]; simpl.
  - reflexivity.
  - erewrite bind_normal by exact Hh. exact IH.
Qed.

(** C7. When the handlers before [h] in the chain all return a falsy
    value, each is followed by the next one in the order of the chain; when
    [h] then returns a truthy value, the response is ended and the chain
    stops there: the handlers after [h], whatever they are, do not run. *)
Theorem truthy_result_stops_chain (pre post : list HandlerFunction)
  (h : HandlerFunction) (ctx ctx1 ctx2 : ApplicationContext) :
  all_falsy pre ctx ctx1 ->
  h ctx1 = (ctx2, Normal Truthy) ->
  run_chain (pre ++ h :: post) ctx
  = ({| request := request ctx2; response := response ctx2 ++ [End None] |},
     Normal tt)
  /\ run_chain (pre ++ h :: post) ctx = run_chain (pre ++ [h]) ctx.
Proof.
  intros Hpre Hh.
  assert (Hrun : forall post',
    run_chain (pre ++ h :: post') ctx
    = ({| request := request ctx2; response := response ctx2 ++ [End None] |},
       Normal tt)).
  { intros post'. rewrite (run_chain_prefix _ _ _ _ Hpre). simpl.
    erewrite bind_normal by exact Hh. reflexivity. }
  split; [apply Hrun|]. rewrite !Hrun. reflexivity.
Qed.

(** ** Static routes *)

(** The reply 404 is written, or [writeHead] throws: either way both
    sides of the goal do the same. *)
Ltac by_cases_of_404 :=
  try reflexivity;
  match goal with
  | |- context [notFound ?c] => destruct (notFound c) as [? [[]|]]; reflexivity
  end.

Section dispatch_properties.
Context `{!Builtins}.

Lemma callTopLevelMiddlewares_with_named tables mapIndex rm named' :
  tables !! mapIndex = Some rm ->
  callTopLevelMiddlewares (<[mapIndex := with_named rm named']> tables)
  = callTopLevelMiddlewares tables.
Proof.
  intros Hrm. unfold callTopLevelMiddlewares.
  destruct (decide (mapIndex = map_index MIDDLEWARE)) as [->|Hne].
  - rewrite list_lookup_insert_eq by (eapply lookup_lt_Some; exact Hrm).
    rewrite Hrm. reflexivity.
  - rewrite list_lookup_insert_ne by exact Hne. reflexivity.
Qed.

Lemma try_block_static tables mapIndex thr rm chain URL ctx :
  tables !! mapIndex = Some rm ->
  obj_get (staticRouteMap rm) URL = Some chain ->
  try_block tables mapIndex URL thr ctx
  = (callTopLevelMiddlewares tables ;;; run_chain chain ;;; ret Returned) ctx.
Proof.
  intros Hrm Hchain. unfold try_block. rewrite Hrm. simpl.
  unfold bind at 1. unfold ret at 1. rewrite (obj_read_own _ _ _ Hchain).
  unfold bind. destruct (callTopLevelMiddlewares tables ctx) as [ctx1 [[]|]];
    [|reflexivity].
  destruct chain as [|h chain]; reflexivity.
Qed.

(** C1. When the normalized path of the request is a key of the static map
    of the selected method, [processHTTPMethod] runs the top-level
    middleware and then the handler chain stored under that key, and
    nothing else; the outcome is the same whatever the named-route
    partition map of that method holds, so that no dynamic entry is
    tested. *)
Theorem static_route_wins (tables : list RouteTable) (mapIndex : nat)
  (throwOnNotFound : bool) (rm : RouteTable) (chain : list HandlerFunction)
  (ctx : ApplicationContext) :
  tables !! mapIndex = Some rm ->
  obj_get (staticRouteMap rm) (normalize (url (request ctx))) = Some chain ->
  processHTTPMethod tables mapIndex throwOnNotFound ctx
  = (parse_query (url (request ctx)) ;;;
     try_catch (callTopLevelMiddlewares tables ;;; run_chain chain) notFound) ctx
  /\ forall named' : Obj nat (list NamedRouteCallback),
       processHTTPMethod (<[mapIndex := with_named rm named']> tables)
         mapIndex throwOnNotFound ctx
       = processHTTPMethod tables mapIndex throwOnNotFound ctx.
Proof.
  intros Hrm Hchain.
  assert (Hgen : forall tables' rm',
    tables' !! mapIndex = Some rm' ->
    staticRouteMap rm' = staticRouteMap rm ->
    callTopLevelMiddlewares tables' = callTopLevelMiddlewares tables ->
    processHTTPMethod tables' mapIndex throwOnNotFound ctx
    = (parse_query (url (request ctx)) ;;;
       try_catch (callTopLevelMiddlewares tables ;;; run_chain chain) notFound) ctx).
  { intros tables' rm' Hrm' Hst Hmw. unfold processHTTPMethod.
    unfold bind at 1. unfold gets at 1. unfold bind at 1 4.
    destruct (parse_query (url (request ctx)) ctx) as [ctx1 [[]|]]; [|reflexivity].
    unfold bind at 1. unfold try_catch.
    rewrite (try_block_static tables' mapIndex throwOnNotFound rm' chain)
      by (rewrite ?Hst; assumption).
    rewrite Hmw. unfold bind, ret.
    destruct (callTopLevelMiddlewares tables ctx1) as [ctx2 [[]|]]; [|by_cases_of_404].
    destruct (run_chain chain ctx2) as [ctx3 [[]|]]; by_cases_of_404. }
  split.
  - apply (Hgen tables rm); auto.
  - intros named'. rewrite (Hgen tables rm) by auto.
    apply (Hgen _ (with_named rm named')).
    + apply list_lookup_insert_eq. eapply lookup_lt_Some; exact Hrm.
    + reflexivity.
    + apply callTopLevelMiddlewares_with_named; exact Hrm.
Qed.

End dispatch_properties.

(** ** Positional matching *)

Lemma with_params_id req bag :
  req_params req = Some bag -> with_params req bag = req.
Proof. destruct req; simpl; intros ->; reflexivity. Qed.

Lemma with_params_twice req bag bag' :
  with_params (with_params req bag) bag' = with_params req bag'.
Proof. reflexivity. Qed.

Lemma bag_set_lookup_ne name value bag name0 :
  name0 <> name -> bag_set name value bag !! name0 = bag !! name0.
Proof.
  intros Hne. unfold bag_set.
  destruct (bool_decide (name = "__proto__") && bool_decide (bag !! name = None));
    [reflexivity|].
  apply lookup_insert_ne. congruence.
Qed.

Lemma bag_set_lookup_eq name value bag :
  name <> "__proto__" -> bag_set name value bag !! name = Some value.
Proof.
  intros Hne. unfold bag_set. rewrite (bool_decide_eq_false_2 _ Hne).
  cbn [andb]. apply lookup_insert_eq.
Qed.

Lemma bag_set_is_Some name value bag name0 :
  is_Some (bag !! name0) -> is_Some (bag_set name value bag !! name0).
Proof.
  intros Hsome. unfold bag_set.
  destruct (bool_decide (name = "__proto__") && bool_decide (bag !! name = None));
    [exact Hsome|].
  destruct (decide (name = name0)) as [->|Hne].
  - rewrite lookup_insert_eq. eauto.
  - rewrite lookup_insert_ne by exact Hne. exact Hsome.
Qed.

(** An assignment under [__proto__] leaves a bag that has no such
    property as it is. *)
Lemma bag_set_proto value bag :
  bag !! "__proto__" = None -> bag_set "__proto__" value bag = bag.
Proof.
  intros Hnone. unfold bag_set.
  rewrite bool_decide_eq_true_2 by reflexivity.
  rewrite bool_decide_eq_true_2 by exact Hnone. reflexivity.
Qed.

Lemma bag_set_insert name value bag :
  name <> "__proto__" -> bag_set name value bag = <[name := value]> bag.
Proof.
  intros Hne. unfold bag_set. rewrite (bool_decide_eq_false_2 _ Hne). reflexivity.
Qed.

Lemma bag_set_comm n1 v1 n2 v2 bag :
  n1 <> n2 ->
  bag_set n1 v1 (bag_set n2 v2 bag) = bag_set n2 v2 (bag_set n1 v1 bag).
Proof.
  intros Hne.
  assert (H1 : bag_set n2 v2 bag !! n1 = bag !! n1)
    by (apply bag_set_lookup_ne; exact Hne).
  assert (H2 : bag_set n1 v1 bag !! n2 = bag !! n2)
    by (apply bag_set_lookup_ne; congruence).
  change (bag_set n1 v1 (bag_set n2 v2 bag))
    with (if bool_decide (n1 = "__proto__")
             && bool_decide (bag_set n2 v2 bag !! n1 = None)
          then bag_set n2 v2 bag else <[n1 := v1]> (bag_set n2 v2 bag)).
  change (bag_set n2 v2 (bag_set n1 v1 bag))
    with (if bool_decide (n2 = "__proto__")
             && bool_decide (bag_set n1 v1 bag !! n2 = None)
          then bag_set n1 v1 bag else <[n2 := v2]> (bag_set n1 v1 bag)).
  rewrite H1, H2. unfold bag_set.
  destruct (bool_decide (n1 = "__proto__") && bool_decide (bag !! n1 = None));
    destruct (bool_decide (n2 = "__proto__") && bool_decide (bag !! n2 = None));
    try reflexivity.
  apply insert_insert_ne. exact Hne.
Qed.

Lemma set_param_some req bag name value :
  req_params req = Some bag ->
  set_param name value req = (with_params req (bag_set name value bag), Normal tt).
Proof. unfold set_param. intros ->. reflexivity. Qed.

Lemma captures_app ps ks ps' ks' :
  length ps = length ks ->
  captures (ps ++ ps') (ks ++ ks') = captures ps ks ++ captures ps' ks'.
Proof.
  intros Hlen. unfold captures.
  rewrite zip_with_app by exact Hlen. apply omap_app.
Qed.

Lemma captures_single p k :
  captures [p] [k]
  = if JsString.startsWith ":" k then [(JsString.substring1 k, p)] else [].
Proof. unfold captures. simpl. destruct (JsString.startsWith ":" k); reflexivity. Qed.

Lemma write_right_to_left_app caps caps' bag :
  write_right_to_left (caps ++ caps') bag
  = write_right_to_left caps (write_right_to_left caps' bag).
Proof. unfold write_right_to_left. apply foldr_app. Qed.

(** The loop passes over a run of agreeing segments, writing their
    captures from the last to the first. *)
Lemma fastPathLoop_suffix ps2 : forall ks2 ps1 ks1 ps3 ks3 req bag,
  length ps1 = length ks1 ->
  Forall2 (fun p k => segment_matches p k = true) ps2 ks2 ->
  req_params req = Some bag ->
  fastPathLoop (length (ps1 ++ ps2)) (ps1 ++ ps2 ++ ps3) (ks1 ++ ks2 ++ ks3) req
  = fastPathLoop (length ps1) (ps1 ++ ps2 ++ ps3) (ks1 ++ ks2 ++ ks3)
      (with_params req (write_right_to_left (captures ps2 ks2) bag)).
Proof.
  induction ps2 as [|p' ps2 IH] using rev_ind;
    intros ks2 ps1 ks1 ps3 ks3 req bag Hlen Hall Hbag.
  - apply Forall2_nil_inv_l in Hall as ->. simpl.
    rewrite app_nil_r, with_params_id by exact Hbag. reflexivity.
  - apply Forall2_app_inv_l in Hall as (ks2' & kl & Hall & Hlast & ->).
    apply Forall2_cons_inv_l in Hlast as (k' & kn & Hpk & Hnil & ->).
    apply Forall2_nil_inv_l in Hnil as ->.
    pose proof (Forall2_length _ _ _ Hall) as Hlen2.
    rewrite !app_assoc, length_app. simpl.
    rewrite Nat.add_1_r. simpl.
    rewrite <- !app_assoc. simpl.
    assert (Hp : (ps1 ++ ps2 ++ p' :: ps3) !!! length (ps1 ++ ps2) = p').
    { rewrite app_assoc. apply list_lookup_total_middle. reflexivity. }
    assert (Hk : (ks1 ++ ks2' ++ k' :: ks3) !!! length (ps1 ++ ps2) = k').
    { rewrite app_assoc. apply list_lookup_total_middle.
      rewrite !length_app. lia. }
    rewrite Hp, Hk.
    unfold segment_matches in Hpk.
    rewrite captures_app, write_right_to_left_app by exact Hlen2.
    destruct (JsString.startsWith ":" k') eqn:Hcolon.
    + rewrite andb_false_r.
      erewrite bind_normal by (apply set_param_some; exact Hbag).
      rewrite (IH ks2' ps1 ks1 (p' :: ps3) (k' :: ks3) _
                 (bag_set (JsString.substring1 k') (Some p') bag))
        by (auto).
      rewrite captures_single, Hcolon. reflexivity.
    + rewrite orb_false_r in Hpk. rewrite Hpk. simpl.
      rewrite (IH ks2' ps1 ks1 (p' :: ps3) (k' :: ks3) _ bag) by auto.
      rewrite captures_single, Hcolon. reflexivity.
Qed.

(** The positional match fails at a literal segment of the pattern, the
    segments to its right agreeing: their captures are written. *)
Lemma fastPathMatch_mismatch ps1 p ps2 ks1 k ks2 req bag :
  length ps1 = length ks1 ->
  Forall2 (fun p k => segment_matches p k = true) ps2 ks2 ->
  segment_matches p k = false ->
  req_params req = Some bag ->
  fastPathMatch (ps1 ++ p :: ps2) (ks1 ++ k :: ks2) req
  = (with_params req (write_right_to_left (captures ps2 ks2) bag), Normal false).
Proof.
  intros Hlen Hall Hpk Hbag. unfold fastPathMatch.
  pose proof (Forall2_length _ _ _ Hall) as Hlen2.
  replace (length (ks1 ++ k :: ks2) =? length (ps1 ++ p :: ps2))%nat with true
    by (symmetry; apply Nat.eqb_eq; rewrite !length_app; simpl; lia).
  pose proof (fastPathLoop_suffix ps2 ks2 (ps1 ++ [p]) (ks1 ++ [k]) [] [] req bag)
    as Hsuf.
  rewrite !app_nil_r, <- !app_assoc in Hsuf. simpl in Hsuf.
  rewrite Hsuf by (rewrite ?length_app; simpl; auto).
  rewrite length_app. simpl. rewrite Nat.add_1_r. simpl.
  rewrite (list_lookup_total_middle ps1 ps2 p (length ps1)) by reflexivity.
  rewrite (list_lookup_total_middle ks1 ks2 k (length ps1)) by exact Hlen.
  unfold segment_matches in Hpk. apply orb_false_elim in Hpk as [Hne Hcolon].
  rewrite Hne, Hcolon. reflexivity.
Qed.

(** The positional match succeeds: all captures are written, from the
    last to the first. *)
Lemma fastPathMatch_match ps ks req bag :
  Forall2 (fun p k => segment_matches p k = true) ps ks ->
  req_params req = Some bag ->
  fastPathMatch ps ks req
  = (with_params req (write_right_to_left (captures ps ks) bag), Normal true).
Proof.
  intros Hall Hbag. unfold fastPathMatch.
  rewrite <- (Forall2_length _ _ _ Hall), Nat.eqb_refl.
  pose proof (fastPathLoop_suffix ps ks [] [] [] [] req bag eq_refl Hall Hbag) as Hsuf.
  simpl in Hsuf. rewrite !app_nil_r in Hsuf.
  rewrite Hsuf. reflexivity.
Qed.

Lemma write_right_to_left_lookup caps bag name :
  name ∈ caps.*1 -> name <> "__proto__" ->
  exists value,
    (name, value) ∈ caps /\ write_right_to_left caps bag !! name = Some (Some value).
Proof.
  induction caps as [|[n v] caps IH]; intros Hin Hne.
  - apply elem_of_nil in Hin as [].
  - unfold write_right_to_left. cbn [foldr fst snd].
    destruct (decide (n = name)) as [->|Hn].
    + exists v. split; [apply list_elem_of_here|]. apply bag_set_lookup_eq, Hne.
    + rewrite fmap_cons in Hin. apply elem_of_cons in Hin as [Heq|Hin];
        [cbn [fst] in Heq; congruence|].
      destruct (IH Hin Hne) as (value & Hv & Hl). exists value.
      split; [apply list_elem_of_further, Hv|].
      rewrite bag_set_lookup_ne by congruence. exact Hl.
Qed.

Lemma write_right_to_left_frame caps bag name :
  name ∉ caps.*1 -> write_right_to_left caps bag !! name = bag !! name.
Proof.
  induction caps as [|[n v] caps IH]; intros Hout; [reflexivity|].
  unfold write_right_to_left. cbn [foldr fst snd].
  rewrite fmap_cons in Hout. apply not_elem_of_cons in Hout as [Hne Hout].
  cbn [fst] in Hne. rewrite bag_set_lookup_ne by exact Hne. apply IH, Hout.
Qed.

(** ** What an attempt does to the parameter bag

    A name that is in the bag stays there, and the value under a name
    changes only when the entry tested has a parameter of that name. *)

Lemma set_param_keeps name value req req' out name0 :
  has_param req name0 ->
  set_param name value req = (req', out) ->
  has_param req' name0.
Proof.
  intros (bag & Hbag & Hsome) Hset.
  rewrite (set_param_some _ _ _ _ Hbag) in Hset. injection Hset as <- <-.
  exists (bag_set name value bag). split; [reflexivity|].
  apply bag_set_is_Some, Hsome.
Qed.

Lemma set_param_frame name value req req' out name0 :
  name0 <> name ->
  set_param name value req = (req', out) ->
  param_of req' name0 = param_of req name0.
Proof.
  intros Hne Hset. unfold set_param in Hset. unfold param_of.
  destruct (req_params req) as [bag|] eqn:Hbag.
  - injection Hset as <- <-. cbn [req_params]. apply bag_set_lookup_ne, Hne.
  - injection Hset as <- <-. rewrite Hbag. reflexivity.
Qed.

Lemma fastPathLoop_keeps n ps ks name0 : forall req req' out,
  has_param req name0 ->
  fastPathLoop n ps ks req = (req', out) ->
  has_param req' name0.
Proof.
  induction n as [|i IH]; intros req req' out Hhas Hrun; simpl in Hrun.
  - injection Hrun as <- <-. exact Hhas.
  - destruct (negb (bool_decide (ps !!! i = ks !!! i))
              && negb (JsString.startsWith ":" (ks !!! i))).
    { injection Hrun as <- <-. exact Hhas. }
    destruct (JsString.startsWith ":" (ks !!! i)); [|eauto].
    unfold bind in Hrun.
    destruct (set_param _ _ req) as [req1 [[]|]] eqn:Hset.
    + eapply IH; [|exact Hrun]. eapply set_param_keeps; eauto.
    + injection Hrun as <- <-. eapply set_param_keeps; eauto.
Qed.

Lemma colon_segment_name (ks : list string) (i : nat) :
  JsString.startsWith ":" (ks !!! i) = true ->
  JsString.substring1 (ks !!! i) ∈ omap param_name ks.
Proof.
  intros Hcolon. destruct (ks !! i) as [k|] eqn:Hk.
  - rewrite (list_lookup_total_correct _ _ _ Hk) in *.
    apply list_elem_of_omap. exists k.
    split; [eapply list_elem_of_lookup_2; exact Hk|].
    unfold param_name. rewrite Hcolon. reflexivity.
  - rewrite list_lookup_total_alt, Hk in Hcolon. discriminate.
Qed.

Lemma fastPathLoop_frame n ps ks name0 : forall req req' out,
  name0 ∉ omap param_name ks ->
  fastPathLoop n ps ks req = (req', out) ->
  param_of req' name0 = param_of req name0.
Proof.
  induction n as [|i IH]; intros req req' out Hout Hrun; simpl in Hrun.
  - injection Hrun as <- <-. reflexivity.
  - destruct (negb (bool_decide (ps !!! i = ks !!! i))
              && negb (JsString.startsWith ":" (ks !!! i))).
    { injection Hrun as <- <-. reflexivity. }
    destruct (JsString.startsWith ":" (ks !!! i)) eqn:Hcolon; [|eauto].
    assert (Hne : name0 <> JsString.substring1 (ks !!! i)).
    { intros ->. apply Hout, colon_segment_name, Hcolon. }
    unfold bind in Hrun.
    destruct (set_param _ _ req) as [req1 [[]|]] eqn:Hset.
    + rewrite (IH _ _ _ Hout Hrun). eapply set_param_frame; eauto.
    + injection Hrun as <- <-. eapply set_param_frame; eauto.
Qed.

Lemma for_each_set_param_keeps {A} (l : list A) (f : A -> string * option string)
  name0 : forall req req' out,
  has_param req name0 ->
  for_each l (fun x => set_param (f x).1 (f x).2) req = (req', out) ->
  has_param req' name0.
Proof.
  induction l as [|x l IH]; intros req req' out Hhas Hrun; simpl in Hrun.
  - injection Hrun as <- <-. exact Hhas.
  - unfold bind in Hrun.
    destruct (set_param _ _ req) as [req1 [[]|]] eqn:Hset.
    + eapply IH; [|exact Hrun]. eapply set_param_keeps; eauto.
    + injection Hrun as <- <-. eapply set_param_keeps; eauto.
Qed.

Lemma for_each_set_param_frame {A} (l : list A) (f : A -> string * option string)
  name0 : forall req req' out,
  Forall (fun x => name0 <> (f x).1) l ->
  for_each l (fun x => set_param (f x).1 (f x).2) req = (req', out) ->
  param_of req' name0 = param_of req name0.
Proof.
  induction l as [|x l IH]; intros req req' out Hout Hrun; simpl in Hrun.
  - injection Hrun as <- <-. reflexivity.
  - apply Forall_cons_1 in Hout as [Hx Hout]. unfold bind in Hrun.
    destruct (set_param _ _ req) as [req1 [[]|]] eqn:Hset.
    + rewrite (IH _ _ _ Hout Hrun). eapply set_param_frame; eauto.
    + injection Hrun as <- <-. eapply set_param_frame; eauto.
Qed.

Section attempts.
Context `{!Builtins}.

Lemma attempt_keeps URL pn e name0 req req' out :
  has_param req name0 ->
  attempt URL pn e req = (req', out) ->
  has_param req' name0.
Proof.
  intros Hhas Hrun. unfold attempt in Hrun.
  destruct (useRegex e).
  - unfold attachPathParamsToRequestIfExists in Hrun.
    destruct (JsString.is_empty (key e)).
    { injection Hrun as <- <-. exact Hhas. }
    destruct (regexp_exec (key e) URL) as [| |groups].
    + injection Hrun as <- <-. exact Hhas.
    + injection Hrun as <- <-. exact Hhas.
    + unfold bind in Hrun.
      destruct (for_each _ _ req) as [req1 [[]|]] eqn:Hloop.
      * injection Hrun as <- <-.
        eapply (for_each_set_param_keeps _
                  (fun ip : nat * string => (ip.2, mjoin (groups !! ip.1)))); eauto.
      * injection Hrun as <- <-.
        eapply (for_each_set_param_keeps _
                  (fun ip : nat * string => (ip.2, mjoin (groups !! ip.1)))); eauto.
  - unfold fastPathMatch in Hrun.
    destruct (length (pathNames e) =? length pn)%nat.
    + eapply fastPathLoop_keeps; eauto.
    + injection Hrun as <- <-. exact Hhas.
Qed.

Lemma attempt_frame URL pn e name0 req req' out :
  name0 ∉ entry_names e ->
  attempt URL pn e req = (req', out) ->
  param_of req' name0 = param_of req name0.
Proof.
  intros Hout Hrun. unfold attempt in Hrun. unfold entry_names in Hout.
  destruct (useRegex e).
  - unfold attachPathParamsToRequestIfExists in Hrun.
    destruct (JsString.is_empty (key e)).
    { injection Hrun as <- <-. reflexivity. }
    destruct (regexp_exec (key e) URL) as [| |groups].
    + injection Hrun as <- <-. reflexivity.
    + injection Hrun as <- <-. reflexivity.
    + assert (Hall : Forall (fun ip : nat * string => name0 <> ip.2)
                       (imap (fun i segment => (i, segment)) (params e))).
      { apply Forall_forall. intros [i n] Hin Heq. cbn [snd] in Heq. subst n.
        apply elem_of_lookup_imap_1 in Hin as (j & n & Hpair & Hn).
        injection Hpair as _ ->. apply Hout. eapply list_elem_of_lookup_2; exact Hn. }
      unfold bind in Hrun.
      destruct (for_each _ _ req) as [req1 [[]|]] eqn:Hloop.
      * injection Hrun as <- <-.
        eapply (for_each_set_param_frame _
                  (fun ip : nat * string => (ip.2, mjoin (groups !! ip.1)))); eauto.
      * injection Hrun as <- <-.
        eapply (for_each_set_param_frame _
                  (fun ip : nat * string => (ip.2, mjoin (groups !! ip.1)))); eauto.
  - unfold fastPathMatch in Hrun.
    destruct (length (pathNames e) =? length pn)%nat.
    + eapply fastPathLoop_frame; eauto.
    + injection Hrun as <- <-. reflexivity.
Qed.

Lemma all_fail_keeps URL pn l name0 req req' :
  has_param req name0 -> all_fail URL pn l req req' -> has_param req' name0.
Proof.
  intros Hhas Hfail. induction Hfail as [|e rest req req1 req2 He _ IH].
  - exact Hhas.
  - apply IH. eapply attempt_keeps; eauto.
Qed.

Lemma all_fail_frame URL pn l name0 req req' :
  Forall (fun e => name0 ∉ entry_names e) l ->
  all_fail URL pn l req req' ->
  param_of req' name0 = param_of req name0.
Proof.
  intros Hout Hfail. induction Hfail as [|e rest req req1 req2 He _ IH].
  - reflexivity.
  - apply Forall_cons_1 in Hout as [He' Hout].
    rewrite (IH Hout). eapply attempt_frame; eauto.
Qed.

Lemma on_request_normal {A} (m : comp HttpRequest A) ctx req' out :
  m (request ctx) = (req', out) ->
  on_request m ctx = (with_request ctx req', out).
Proof. unfold on_request. intros ->. reflexivity. Qed.

Lemma match_loop_fail tables URL pn e rest ctx req' :
  attempt URL pn e (request ctx) = (req', Normal false) ->
  match_loop tables URL pn (e :: rest) ctx
  = match_loop tables URL pn rest (with_request ctx req').
Proof.
  intros He. simpl.
  erewrite bind_normal by (apply on_request_normal; exact He).
  reflexivity.
Qed.

(** C9, as amended. A positional match that fails at a literal segment,
    after the segments to its right have been compared, leaves the
    captures of those segments in [request.params]: the failed attempt
    returns [false] with the bag so extended, and the loop over the bucket
    goes on from that request. Every captured name other than [__proto__]
    has a captured value in the bag then. Each name of the bag is still in
    it when a later entry has been tested, whether it matches or not, and
    when no entry is left; and the value under a name is the one left by
    the failed attempt as long as no entry tested since has a parameter of
    that name. *)
Theorem failed_match_leaves_captures (tables : list RouteTable) (URL : string)
  (ps1 ps2 ks1 ks2 : list string) (p k : string)
  (e : NamedRouteCallback) (rest : list NamedRouteCallback)
  (ctx : ApplicationContext) (bag : gmap string (option string)) :
  useRegex e = false ->
  pathNames e = ks1 ++ k :: ks2 ->
  length ps1 = length ks1 ->
  Forall2 (fun p k => segment_matches p k = true) ps2 ks2 ->
  segment_matches p k = false ->
  req_params (request ctx) = Some bag ->
  let pn := ps1 ++ p :: ps2 in
  let bag' := write_right_to_left (captures ps2 ks2) bag in
  let ctx' := with_request ctx (with_params (request ctx) bag') in
  on_request (fastPathMatch pn (pathNames e)) ctx = (ctx', Normal false)
  /\ match_loop tables URL pn (e :: rest) ctx = match_loop tables URL pn rest ctx'
  /\ (forall name, name ∈ (captures ps2 ks2).*1 -> name <> "__proto__" ->
        exists value,
          (name, value) ∈ captures ps2 ks2 /\ bag' !! name = Some (Some value))
  /\ forall later req1, all_fail URL pn later (request ctx') req1 ->
       forall e2 req2 matched, attempt URL pn e2 req1 = (req2, matched) ->
         forall name,
           (is_Some (bag' !! name) -> has_param req1 name /\ has_param req2 name)
           /\ (Forall (fun e' => name ∉ entry_names e') later ->
                param_of req1 name = bag' !! name
                /\ (name ∉ entry_names e2 -> param_of req2 name = bag' !! name)).
Proof.
  intros Hregex Hkeys Hlen Hall Hpk Hbag pn bag' ctx'.
  assert (Hfast : fastPathMatch pn (pathNames e) (request ctx)
                  = (with_params (request ctx) bag', Normal false)).
  { rewrite Hkeys. apply fastPathMatch_mismatch; assumption. }
  split; [apply on_request_normal; exact Hfast|].
  split.
  { apply match_loop_fail. unfold attempt. rewrite Hregex. exact Hfast. }
  split.
  { intros name Hin Hne. apply write_right_to_left_lookup; assumption. }
  intros later req1 Hfail e2 req2 matched He2 name. split.
  - intros Hsome.
    assert (Hhas : has_param req1 name).
    { eapply all_fail_keeps; [|exact Hfail].
      exists bag'. split; [reflexivity|exact Hsome]. }
    split; [exact Hhas|]. eapply attempt_keeps; eauto.
  - intros Hlater.
    assert (Hreq1 : param_of req1 name = bag' !! name).
    { rewrite (all_fail_frame _ _ _ _ _ _ Hlater Hfail). reflexivity. }
    split; [exact Hreq1|]. intros He2'.
    rewrite (attempt_frame _ _ _ _ _ _ _ He2' He2). exact Hreq1.
Qed.

End attempts.

(** ** Objects *)

Section obj_properties.
Context {K V : Type} `{EqDecision K} `{JsKey K}.
Implicit Types (o : Obj K V) (k : K) (v : V).

Lemma obj_get_replace o k v k' :
  obj_get (obj_replace o k v) k'
  = if decide (k = k') then (fun _ => v) <$> obj_get o k else obj_get o k'.
Proof.
  induction o as [|[k0 v0] o IH]; simpl.
  - destruct (decide (k = k')); reflexivity.
  - destruct (decide (k0 = k)) as [->|Hne]; simpl.
    + destruct (decide (k = k')); reflexivity.
    + destruct (decide (k0 = k')) as [->|Hne'].
      * destruct (decide (k = k')); [congruence|reflexivity].
      * exact IH.
Qed.

Lemma obj_get_add o k v k' :
  obj_get o k = None ->
  obj_get (obj_add o k v) k' = if decide (k = k') then Some v else obj_get o k'.
Proof.
  induction o as [|[k0 v0] o IH]; simpl; intros Hnone.
  - destruct (decide (k = k')); reflexivity.
  - destruct (decide (k0 = k)) as [->|Hne]; [discriminate|].
    destruct (goes_before k k0); simpl.
    + destruct (decide (k = k')) as [->|Hne']; [reflexivity|].
      reflexivity.
    + destruct (decide (k0 = k')) as [->|Hne'].
      * destruct (decide (k = k')); [congruence|reflexivity].
      * apply IH. exact Hnone.
Qed.

Lemma obj_get_set o k v k' :
  obj_get (obj_set o k v) k' = if decide (k = k') then Some v else obj_get o k'.
Proof.
  unfold obj_set. destruct (obj_get o k) as [v0|] eqn:Hget.
  - rewrite obj_get_replace, Hget. reflexivity.
  - apply obj_get_add. exact Hget.
Qed.

Lemma obj_get_set_eq o k v : obj_get (obj_set o k v) k = Some v.
Proof. rewrite obj_get_set. destruct (decide (k = k)); congruence. Qed.

Lemma obj_get_set_ne o k v k' :
  k <> k' -> obj_get (obj_set o k v) k' = obj_get o k'.
Proof. intros Hne. rewrite obj_get_set. destruct (decide (k = k')); congruence. Qed.

Lemma obj_get_elem_of o k v : obj_get o k = Some v -> (k, v) ∈ o.
Proof.
  induction o as [|[k0 v0] o IH]; simpl; [discriminate|].
  destruct (decide (k0 = k)) as [->|Hne].
  - intros [= ->]. apply list_elem_of_here.
  - intros Hget. apply list_elem_of_further. auto.
Qed.

Lemma obj_get_None o k : obj_get o k = None <-> k ∉ obj_keys o.
Proof.
  unfold obj_keys. induction o as [|[k0 v0] o IH]; simpl.
  - split; [intros _; apply not_elem_of_nil|reflexivity].
  - rewrite not_elem_of_cons. destruct (decide (k0 = k)) as [->|Hne].
    + split; [discriminate|intros [[] _]; reflexivity].
    + rewrite IH. split; [intros Hk; split; [congruence|exact Hk]|intros [_ Hk]; exact Hk].
Qed.

Lemma obj_get_is_Some o k : is_Some (obj_get o k) <-> k ∈ obj_keys o.
Proof.
  destruct (obj_get o k) eqn:Hget.
  - split; [intros _|eauto].
    apply obj_get_elem_of in Hget. unfold obj_keys.
    apply list_elem_of_fmap. eexists; split; [|exact Hget]. reflexivity.
  - apply obj_get_None in Hget. split; [intros [? [=]]|intros; contradiction].
Qed.

Lemma elem_of_obj_replace o k v kv :
  kv ∈ obj_replace o k v -> kv = (k, v) \/ kv ∈ o.
Proof.
  induction o as [|[k0 v0] o IH]; simpl; [auto|].
  destruct (decide (k0 = k)) as [->|Hne]; rewrite !elem_of_cons.
  - intros [->|Hin]; auto.
  - intros [->|Hin]; [auto|]. destruct (IH Hin); auto.
Qed.

Lemma elem_of_obj_add o k v kv :
  kv ∈ obj_add o k v -> kv = (k, v) \/ kv ∈ o.
Proof.
  induction o as [|[k0 v0] o IH]; simpl.
  - rewrite elem_of_cons. intros [->|Hin]; auto.
  - destruct (goes_before k k0); rewrite !elem_of_cons.
    + intros [->|[->|Hin]]; auto.
    + intros [->|Hin]; [auto|]. destruct (IH Hin); auto.
Qed.

Lemma elem_of_obj_set o k v kv :
  kv ∈ obj_set o k v -> kv = (k, v) \/ kv ∈ o.
Proof.
  unfold obj_set. destruct (obj_get o k).
  - apply elem_of_obj_replace.
  - apply elem_of_obj_add.
Qed.

Lemma elem_of_obj_assign (source target : Obj K V) kv :
  kv ∈ obj_assign target source -> kv ∈ source \/ kv ∈ target.
Proof.
  unfold obj_assign. revert target.
  induction source as [|[k0 v0] source IH]; simpl; intros target Hin; [auto|].
  apply IH in Hin as [Hin|Hin].
  - left. apply list_elem_of_further. exact Hin.
  - apply elem_of_obj_set in Hin as [->|Hin]; [|auto].
    left. apply list_elem_of_here.
Qed.

End obj_properties.

Lemma obj_get_fmap {K V W : Type} `{EqDecision K} (f : V -> W) (o : Obj K V) k :
  obj_get ((fun kv : K * V => (kv.1, f kv.2)) <$> o) k = f <$> obj_get o k.
Proof.
  induction o as [|[k0 v0] o IH]; simpl; [reflexivity|].
  destruct (decide (k0 = k)); [reflexivity|exact IH].
Qed.

(** ** Reasoning about computations *)

Section wp_rules.
Context {S : Type}.
Implicit Types (s : S) (E : S -> Prop).

Lemma wp_ret {A} (a : A) (Q : A -> S -> Prop) E s : Q a s -> wp (ret a) Q E s.
Proof. intros HQ. exact HQ. Qed.

Lemma wp_throw {A} (Q : A -> S -> Prop) E s : E s -> wp throw Q E s.
Proof. intros HE. exact HE. Qed.

Lemma wp_bind {A B} (m : comp S A) (f : A -> comp S B) (Q : B -> S -> Prop) E s :
  wp m (fun a s' => wp (f a) Q E s') E s -> wp (bind m f) Q E s.
Proof.
  unfold wp, bind. destruct (m s) as [s' [a|]]; intros Hm; exact Hm.
Qed.

Lemma wp_gets {A} (f : S -> A) (Q : A -> S -> Prop) E s :
  Q (f s) s -> wp (gets f) Q E s.
Proof. intros HQ. exact HQ. Qed.

Lemma wp_modify (f : S -> S) (Q : unit -> S -> Prop) E s :
  Q tt (f s) -> wp (modify f) Q E s.
Proof. intros HQ. exact HQ. Qed.

Lemma wp_defined {A} (o : option A) (Q : A -> S -> Prop) E s :
  (forall a, o = Some a -> Q a s) -> (o = None -> E s) -> wp (defined o) Q E s.
Proof. destruct o as [a|]; intros HQ HE; [apply HQ|apply HE]; reflexivity. Qed.

Lemma wp_mono {A} (m : comp S A) (Q Q' : A -> S -> Prop) E E' s :
  wp m Q E s ->
  (forall a s', Q a s' -> Q' a s') -> (forall s', E s' -> E' s') ->
  wp m Q' E' s.
Proof.
  unfold wp. destruct (m s) as [s' [a|]]; intros Hm HQ HE; auto.
Qed.

Lemma wp_for_each {A} (l : list A) (body : A -> comp S unit) (I : S -> Prop)
  (Q : unit -> S -> Prop) E s :
  I s ->
  (forall x s', x ∈ l -> I s' -> wp (body x) (fun _ => I) E s') ->
  (forall s', I s' -> Q tt s') ->
  wp (for_each l body) Q E s.
Proof.
  intros HI Hbody HQ. revert s HI.
  induction l as [|x l IH]; intros s HI; simpl.
  - apply wp_ret. auto.
  - apply wp_bind. eapply wp_mono.
    + apply Hbody; [apply list_elem_of_here|exact HI].
    + intros u s' HI'. apply IH; [|exact HI'].
      intros y s'' Hy. apply Hbody. apply list_elem_of_further. exact Hy.
    + auto.
Qed.

Lemma wp_fold_each {A B} (l : list A) (b : B) (body : B -> A -> comp S B)
  (I : B -> S -> Prop) (Q : B -> S -> Prop) E s :
  I b s ->
  (forall b' x s', x ∈ l -> I b' s' -> wp (body b' x) I E s') ->
  (forall b' s', I b' s' -> Q b' s') ->
  wp (fold_each l b body) Q E s.
Proof.
  intros HI Hbody HQ. revert b s HI.
  induction l as [|x l IH]; intros b s HI; simpl.
  - apply wp_ret. auto.
  - apply wp_bind. eapply wp_mono.
    + apply Hbody; [apply list_elem_of_here|exact HI].
    + intros b' s' HI'. apply IH; [|exact HI'].
      intros b'' y s'' Hy. apply Hbody. apply list_elem_of_further. exact Hy.
    + auto.
Qed.

Lemma wp_run {A} (m : comp S A) (Q : A -> S -> Prop) E s :
  wp m Q E s -> (forall a s', Q a s' -> E s') -> E (m s).1.
Proof.
  unfold wp. destruct (m s) as [s' [a|]]; simpl; intros Hm HQ; eauto.
Qed.

End wp_rules.

(** ** Access to the store *)

Section store_rules.
Implicit Types (w : World) (E : World -> Prop).

Lemma wp_get_router r (Q : Router -> World -> Prop) E w :
  (forall hm, routers w !! r = Some hm -> Q hm w) -> E w ->
  wp (get_router r) Q E w.
Proof.
  intros HQ HE. unfold get_router. apply wp_bind, wp_gets.
  apply wp_defined; auto.
Qed.

Lemma wp_get_map r i (Q : RouteMap loc loc -> World -> Prop) E w :
  (forall hm rm, routers w !! r = Some hm -> hm !! i = Some rm -> Q rm w) ->
  E w ->
  wp (get_map r i) Q E w.
Proof.
  intros HQ HE. unfold get_map. apply wp_bind, wp_get_router; [|exact HE].
  intros hm Hhm. apply wp_defined; eauto.
Qed.

Lemma wp_read_array l (Q : list NamedRouteCallback -> World -> Prop) E w :
  (forall es, arrays w !! l = Some es -> Q es w) -> E w ->
  wp (read_array l) Q E w.
Proof.
  intros HQ HE. unfold read_array. apply wp_bind, wp_gets.
  apply wp_defined; auto.
Qed.

Lemma wp_read_record l (Q : list HandlerFunction -> World -> Prop) E w :
  (forall cbs, records w !! l = Some cbs -> Q cbs w) -> E w ->
  wp (read_record l) Q E w.
Proof.
  intros HQ HE. unfold read_record. apply wp_bind, wp_gets.
  apply wp_defined; auto.
Qed.

Lemma wp_alloc_array es (Q : loc -> World -> Prop) E w :
  Q (length (arrays w)) (set_arrays (fun h => h ++ [es]) w) ->
  wp (alloc_array es) Q E w.
Proof. intros HQ. exact HQ. Qed.

Lemma wp_alloc_record cbs (Q : loc -> World -> Prop) E w :
  Q (length (records w)) (set_records (fun h => h ++ [cbs]) w) ->
  wp (alloc_record cbs) Q E w.
Proof. intros HQ. exact HQ. Qed.

Lemma wp_push_array l e (Q : unit -> World -> Prop) E w :
  (forall es, arrays w !! l = Some es ->
     Q tt (set_arrays (fun h => <[l := es ++ [e]]> h) w)) ->
  E w ->
  wp (push_array l e) Q E w.
Proof.
  intros HQ HE. unfold push_array. apply wp_bind, wp_read_array; [|exact HE].
  intros es Hes. apply wp_modify. auto.
Qed.

Lemma wp_write_record l cbs (Q : unit -> World -> Prop) E w :
  Q tt (set_records (fun h => <[l := cbs]> h) w) ->
  wp (write_record l cbs) Q E w.
Proof. intros HQ. exact HQ. Qed.

Lemma wp_push_record l cb (Q : unit -> World -> Prop) E w :
  (forall cbs, records w !! l = Some cbs ->
     Q tt (set_records (fun h => <[l := cbs ++ [cb]]> h) w)) ->
  E w ->
  wp (push_record l cb) Q E w.
Proof.
  intros HQ HE. unfold push_record. apply wp_bind, wp_read_record; [|exact HE].
  intros cbs Hcbs. apply wp_write_record. auto.
Qed.

Lemma wp_set_map r i rm (Q : unit -> World -> Prop) E w :
  Q tt (put_map r i rm w) -> wp (set_map r i rm) Q E w.
Proof. intros HQ. exact HQ. Qed.

Lemma put_map_lookup r i rm w r' hm' i' rm' :
  routers (put_map r i rm w) !! r' = Some hm' -> hm' !! i' = Some rm' ->
  rm' = rm \/ exists hm, routers w !! r' = Some hm /\ hm !! i' = Some rm'.
Proof.
  unfold put_map. simpl. destruct (routers w !! r) as [hm|] eqn:Hr.
  - destruct (decide (r = r')) as [<-|Hne].
    + rewrite list_lookup_insert_eq by (eapply lookup_lt_Some; exact Hr).
      intros [= <-]. destruct (decide (i = i')) as [<-|Hne'].
      * intros Hi. apply list_lookup_insert_Some in Hi as [(_ & -> & _)|(? & _)];
          [left; reflexivity|contradiction].
      * rewrite list_lookup_insert_ne by exact Hne'. eauto.
    + rewrite list_lookup_insert_ne by exact Hne. eauto.
  - eauto.
Qed.

End store_rules.

(** ** The partition invariant *)

Lemma make_entry_length uri cbs :
  length (pathNames (make_entry uri cbs).2) = (make_entry uri cbs).1.
Proof.
  unfold make_entry. simpl.
  destruct (JsString.split "/" uri); simpl; lia.
Qed.

Lemma good_array_alloc es w b l :
  good_array w b l -> good_array (set_arrays (fun h => h ++ [es]) w) b l.
Proof.
  intros (es' & Hl & Hne & Hall). exists es'. split; [|auto].
  simpl. apply lookup_app_l_Some. exact Hl.
Qed.

Lemma good_array_new es w b :
  es <> [] -> Forall (fun e => length (pathNames e) = b) es ->
  good_array (set_arrays (fun h => h ++ [es]) w) b (length (arrays w)).
Proof.
  intros Hne Hall. exists es. split; [|auto].
  simpl. apply list_lookup_middle. reflexivity.
Qed.

Lemma good_array_unique w b b' l :
  good_array w b l -> good_array w b' l -> b = b'.
Proof.
  intros (es & Hl & Hne & Hall) (es' & Hl' & _ & Hall').
  rewrite Hl in Hl'. injection Hl' as <-.
  destruct es as [|e es]; [congruence|].
  apply Forall_cons_1 in Hall as [<- _]. apply Forall_cons_1 in Hall' as [<- _].
  reflexivity.
Qed.

Lemma good_array_push w b l es e b' l' :
  good_array w b l -> arrays w !! l = Some es -> length (pathNames e) = b ->
  good_array w b' l' ->
  good_array (set_arrays (fun h => <[l := es ++ [e]]> h) w) b' l'.
Proof.
  intros Hgood Hl He Hgood'. destruct (decide (l = l')) as [<-|Hne].
  - assert (b = b') as <- by (eapply good_array_unique; eauto).
    destruct Hgood as (es0 & Hl0 & Hne0 & Hall0).
    rewrite Hl in Hl0. injection Hl0 as <-.
    exists (es ++ [e]). split; [|split].
    + simpl. apply list_lookup_insert_eq. eapply lookup_lt_Some; exact Hl.
    + intros Heq. apply app_eq_nil in Heq as [_ [=]].
    + apply Forall_app. split; [exact Hall0|]. apply Forall_singleton. exact He.
  - destruct Hgood' as (es' & Hl' & Hne' & Hall'). exists es'. split; [|auto].
    simpl. rewrite list_lookup_insert_ne by exact Hne. exact Hl'.
Qed.

Lemma buckets_ok_grow w w' :
  routers w' = routers w ->
  (forall b l, good_array w b l -> good_array w' b l) ->
  buckets_ok w -> buckets_ok w'.
Proof.
  intros Hr Hgrow Hok r hm i rm b l Hhm Hrm Hin. rewrite Hr in Hhm.
  apply Hgrow. eapply Hok; eauto.
Qed.

Lemma map_ok_grow w w' m :
  (forall b l, good_array w b l -> good_array w' b l) ->
  map_ok w m -> map_ok w' m.
Proof. intros Hgrow Hok b l Hin. apply Hgrow, Hok, Hin. Qed.

Lemma buckets_ok_put_map r i rm w :
  buckets_ok w -> map_ok w (namedRoutePartitionMap rm) ->
  buckets_ok (put_map r i rm w).
Proof.
  intros Hok Hrm r' hm' i' rm' b l Hhm Hi Hin.
  assert (Hgood : good_array w b l).
  { destruct (put_map_lookup _ _ _ _ _ _ _ _ Hhm Hi) as [->|(hm & Hhm0 & Hi0)].
    - apply Hrm, Hin.
    - eapply Hok; eauto. }
  exact Hgood.
Qed.

Lemma map_ok_of_router w r i hm rm :
  buckets_ok w -> routers w !! r = Some hm -> hm !! i = Some rm ->
  map_ok w (namedRoutePartitionMap rm).
Proof. intros Hok Hhm Hrm b l Hin. eapply Hok; eauto. Qed.

Lemma map_ok_set w m b l :
  map_ok w m -> good_array w b l -> map_ok w (obj_set m b l).
Proof.
  intros Hok Hgood b' l' Hin.
  apply elem_of_obj_set in Hin as [[= -> ->]|Hin]; [exact Hgood|apply Hok, Hin].
Qed.

Lemma map_ok_assign w m m' :
  map_ok w m -> map_ok w m' -> map_ok w (obj_assign m m').
Proof.
  intros Hok Hok' b l Hin.
  apply elem_of_obj_assign in Hin as [Hin|Hin]; [apply Hok', Hin|apply Hok, Hin].
Qed.

Lemma map_ok_nil w : map_ok w [].
Proof. intros b l Hin. apply elem_of_nil in Hin as []. Qed.

Lemma keeps_push_record l cb : keeps (push_record l cb).
Proof.
  intros w Hok. apply wp_push_record; [|exact Hok].
  intros cbs _. exact Hok.
Qed.

Lemma keeps_buildRequestMap r mapIndex uri cbs :
  keeps (buildRequestMap r mapIndex uri cbs).
Proof.
  intros w Hok. unfold buildRequestMap.
  apply wp_bind, wp_get_map; [|exact Hok]. intros hm rm Hhm Hrm.
  pose proof (map_ok_of_router _ _ _ _ _ Hok Hhm Hrm) as Hmap.
  destruct (regexCheckStaticURL uri).
  - destruct (obj_read (staticRouteMap rm) uri) as [l| |].
    + apply wp_for_each with (I := buckets_ok); auto.
      intros cb w' _ Hok'. apply keeps_push_record, Hok'.
    + apply wp_for_each with (I := buckets_ok); auto.
    + apply wp_bind, wp_alloc_record, wp_set_map.
      apply buckets_ok_put_map; [exact Hok|exact Hmap].
  - pose proof (make_entry_length uri cbs) as Hlen.
    destruct (make_entry uri cbs) as [b e]. simpl in *.
    destruct (obj_get (namedRoutePartitionMap rm) b) as [l|] eqn:Hget.
    + apply wp_push_array; [|exact Hok]. intros es Hes.
      apply obj_get_elem_of, Hmap in Hget.
      apply (buckets_ok_grow w); [reflexivity| |exact Hok].
      intros b' l'. eapply good_array_push; eauto.
    + apply wp_bind, wp_alloc_array, wp_set_map.
      apply buckets_ok_put_map.
      * apply (buckets_ok_grow w); [reflexivity| |exact Hok].
        intros b' l'. apply good_array_alloc.
      * apply map_ok_set.
        -- eapply map_ok_grow; [|exact Hmap]. intros b' l'. apply good_array_alloc.
        -- apply good_array_new; [discriminate|]. apply Forall_singleton. exact Hlen.
Qed.

Lemma keeps_ret {A} (a : A) : keeps (ret a).
Proof. intros w Hok. exact Hok. Qed.

Lemma keeps_throw {A} : keeps (@throw World A).
Proof. intros w Hok. exact Hok. Qed.

Lemma keeps_bind {A B} (m : comp World A) (f : A -> comp World B) :
  keeps m -> (forall a, keeps (f a)) -> keeps (bind m f).
Proof.
  intros Hm Hf w Hok. apply wp_bind. eapply wp_mono; [apply Hm, Hok| |auto].
  intros a w' Hok'. apply Hf, Hok'.
Qed.

Lemma keeps_for_each {A} (l : list A) (body : A -> comp World unit) :
  (forall x, keeps (body x)) -> keeps (for_each l body).
Proof.
  intros Hbody w Hok. apply wp_for_each with (I := buckets_ok); auto.
  intros x w' _ Hok'. apply Hbody, Hok'.
Qed.

Lemma keeps_method_route m r uri fn : keeps (method_route m r uri fn).
Proof.
  unfold method_route. destruct (length fn =? 0)%nat.
  - apply keeps_throw.
  - apply keeps_buildRequestMap.
Qed.

Lemma keeps_all r uri fn : keeps (all r uri fn).
Proof.
  unfold all. destruct (length fn =? 0)%nat; [apply keeps_throw|].
  repeat (apply keeps_bind; [apply keeps_method_route|intros _]).
  apply keeps_method_route.
Qed.

Lemma keeps_use_middleware r fn : keeps (use_middleware r fn).
Proof.
  unfold use_middleware. destruct (length fn =? 0)%nat.
  - apply keeps_throw.
  - apply keeps_buildRequestMap.
Qed.

Lemma keeps_use_path r uri fn : keeps (use_path r uri fn).
Proof.
  unfold use_path. destruct (length fn =? 0)%nat.
  - apply keeps_throw.
  - apply keeps_all.
Qed.

Lemma keeps_new_router : keeps new_router.
Proof.
  intros w Hok. unfold new_router.
  apply wp_bind, wp_gets, wp_bind, wp_modify, wp_ret.
  intros r hm i rm b l Hhm Hrm Hin. simpl in Hhm.
  apply lookup_app_Some in Hhm as [Hhm|[_ Hhm]].
  - eapply (Hok r hm i rm b l); eauto.
  - apply list_lookup_singleton_Some in Hhm as [_ <-].
    apply list_elem_of_lookup_2 in Hrm.
    change (rm ∈ replicate map_count
                   {| namedRoutePartitionMap := @nil (nat * nat);
                      staticRouteMap := @nil (string * nat) |}) in Hrm.
    apply elem_of_replicate in Hrm as [-> _]. simpl in Hin.
    apply elem_of_nil in Hin as [].
Qed.

Lemma keeps_merge_static_key t s i k : keeps (merge_static_key t s i k).
Proof.
  intros w Hok. unfold merge_static_key.
  apply wp_bind, wp_get_map; [|exact Hok]. intros hm tm _ _.
  apply wp_bind, wp_defined; [|auto]. intros lt _.
  apply wp_bind, wp_read_record; [|exact Hok]. intros mine _.
  apply wp_bind, wp_get_map; [|exact Hok]. intros hm' sm _ _.
  apply wp_bind, wp_defined; [|auto]. intros ls _.
  apply wp_bind, wp_read_record; [|exact Hok]. intros theirs _.
  apply wp_write_record. exact Hok.
Qed.

Lemma keeps_merge_static t s i : keeps (merge_static t s i).
Proof.
  intros w Hok. unfold merge_static.
  apply wp_bind, wp_get_map; [|exact Hok]. intros hm tm Hhm Htm.
  apply wp_bind, wp_get_map; [|exact Hok]. intros hm' sm _ _.
  destruct (obj_is_empty (staticRouteMap tm)).
  - apply wp_set_map, buckets_ok_put_map; [exact Hok|].
    simpl. eapply map_ok_of_router; eauto.
  - apply keeps_for_each; [|exact Hok]. intros kv. apply keeps_merge_static_key.
Qed.

Lemma keeps_merge_named_key t s i k : keeps (merge_named_key t s i k).
Proof.
  intros w Hok. unfold merge_named_key.
  apply wp_bind, wp_get_map; [|exact Hok]. intros hm tm Hhm Htm.
  destruct (obj_get (namedRoutePartitionMap tm) k) as [lt|] eqn:Hlt;
    [|apply wp_ret; exact Hok].
  apply wp_bind, wp_read_array; [|exact Hok]. intros mine Hmine.
  apply wp_bind, wp_get_map; [|exact Hok]. intros hm' sm Hhm' Hsm.
  apply wp_bind, wp_defined; [|auto]. intros ls Hls.
  apply wp_bind, wp_read_array; [|exact Hok]. intros theirs Htheirs.
  apply wp_bind, wp_alloc_array.
  assert (Hgrow : forall b l, good_array w b l ->
            good_array (set_arrays (fun h => h ++ [mine ++ theirs]) w) b l)
    by (intros b l; apply good_array_alloc).
  assert (Hok' : buckets_ok (set_arrays (fun h => h ++ [mine ++ theirs]) w))
    by (apply (buckets_ok_grow w); auto).
  apply wp_bind, wp_get_map; [|exact Hok']. intros hm2 tm2 Hhm2 Htm2.
  apply wp_set_map, buckets_ok_put_map; [exact Hok'|].
  simpl. apply map_ok_set; [eapply map_ok_of_router; eauto|].
  apply obj_get_elem_of in Hlt, Hls.
  destruct (Hok _ _ _ _ _ _ Hhm Htm Hlt) as (es & Hes & Hne & Hall).
  destruct (Hok _ _ _ _ _ _ Hhm' Hsm Hls) as (es' & Hes' & _ & Hall').
  rewrite Hmine in Hes. injection Hes as <-.
  rewrite Htheirs in Hes'. injection Hes' as <-.
  apply good_array_new.
  - intros Heq. apply app_eq_nil in Heq as [? _]. contradiction.
  - apply Forall_app. auto.
Qed.

Lemma keeps_merge_named t s i : keeps (merge_named t s i).
Proof.
  intros w Hok. unfold merge_named.
  apply wp_bind, wp_get_map; [|exact Hok]. intros hm tm Hhm Htm.
  apply wp_bind, wp_get_map; [|exact Hok]. intros hm' sm Hhm' Hsm.
  destruct (obj_is_empty (namedRoutePartitionMap tm)).
  - apply wp_set_map, buckets_ok_put_map; [exact Hok|].
    simpl. apply map_ok_assign.
    + exact (map_ok_of_router _ _ _ _ _ Hok Hhm Htm).
    + exact (map_ok_of_router _ _ _ _ _ Hok Hhm' Hsm).
  - apply keeps_for_each; [|exact Hok]. intros kv. apply keeps_merge_named_key.
Qed.

Lemma keeps_mergeRouterMaps t s : keeps (mergeRouterMaps t s).
Proof.
  intros w Hok. unfold mergeRouterMaps.
  apply wp_bind, wp_get_router; [|exact Hok]. intros routeMap _.
  apply keeps_for_each; [|exact Hok]. intros i.
  apply keeps_bind; [apply keeps_merge_static|intros _; apply keeps_merge_named].
Qed.

Section mount_at_properties.
Context `{!Builtins}.

Lemma keeps_mount_static t uri s mapIndex : keeps (mount_static t uri s mapIndex).
Proof.
  intros w Hok. unfold mount_static.
  apply wp_bind, wp_get_map; [|exact Hok]. intros hm sm _ _.
  destruct (obj_is_empty (staticRouteMap sm)); [apply wp_ret; exact Hok|].
  apply wp_bind, wp_get_map; [|exact Hok]. intros hm' tm Hhm Htm.
  apply wp_set_map, buckets_ok_put_map; [exact Hok|].
  simpl. exact (map_ok_of_router _ _ _ _ _ Hok Hhm Htm).
Qed.

Lemma wp_mount_named_entry uri s mapIndex k v m bucketIndex w :
  buckets_ok w -> map_ok w m ->
  wp (mount_named_entry uri s mapIndex k v m bucketIndex)
     (fun m' w' => buckets_ok w' /\ map_ok w' m') buckets_ok w.
Proof.
  intros Hok Hm. unfold mount_named_entry.
  apply wp_bind, wp_get_map; [|exact Hok]. intros hm sm _ _.
  apply wp_bind, wp_defined; [|auto]. intros cur _.
  apply wp_bind, wp_read_array; [|exact Hok]. intros es _.
  apply wp_bind, wp_defined; [|auto]. intros e _.
  apply wp_bind, wp_read_array; [|exact Hok]. intros vs _.
  apply wp_bind, wp_defined; [|auto]. intros ev _.
  pose proof (make_entry_length
                (prefixed uri (JsString.join "/" (pathNames e))) (callbacks ev)) as Hlen.
  destruct (make_entry _ (callbacks ev)) as [b e']. simpl in *.
  destruct (obj_get m b) as [l|] eqn:Hget.
  - apply wp_bind, wp_push_array; [|exact Hok]. intros es' Hes'. apply wp_ret.
    apply obj_get_elem_of, Hm in Hget.
    assert (Hgrow : forall b' l', good_array w b' l' ->
              good_array (set_arrays (fun h => <[l := es' ++ [e']]> h) w) b' l')
      by (intros b' l'; eapply good_array_push; eauto).
    split.
    + apply (buckets_ok_grow w); auto.
    + eapply map_ok_grow; eauto.
  - apply wp_bind, wp_alloc_array, wp_ret.
    assert (Hgrow : forall b' l', good_array w b' l' ->
              good_array (set_arrays (fun h => h ++ [[e']]) w) b' l')
      by (intros b' l'; apply good_array_alloc).
    split.
    + apply (buckets_ok_grow w); auto.
    + apply map_ok_set; [eapply map_ok_grow; eauto|].
      apply good_array_new; [discriminate|]. apply Forall_singleton. exact Hlen.
Qed.

Lemma wp_mount_named_bucket t uri s mapIndex m kv w :
  buckets_ok w -> map_ok w m ->
  wp (mount_named_bucket t uri s mapIndex m kv)
     (fun m' w' => buckets_ok w' /\ map_ok w' m') buckets_ok w.
Proof.
  intros Hok Hm. unfold mount_named_bucket.
  apply wp_bind, wp_get_map; [|exact Hok]. intros hm sm _ _.
  apply wp_bind, wp_defined; [|auto]. intros cur _.
  apply wp_bind, wp_read_array; [|exact Hok]. intros es _.
  apply wp_bind.
  apply wp_fold_each with (I := fun m' w' => buckets_ok w' /\ map_ok w' m');
    [auto| |].
  { intros m' i w' _ [Hok' Hm']. apply wp_mount_named_entry; assumption. }
  intros m' w' [Hok' Hm']. apply wp_bind.
  destruct (obj_is_empty m').
  - apply wp_ret, wp_ret. auto.
  - apply wp_bind, wp_get_map; [|exact Hok']. intros hm' tm Hhm Htm.
    apply wp_set_map, wp_ret. split.
    + apply buckets_ok_put_map; [exact Hok'|]. simpl. apply map_ok_assign.
      * exact (map_ok_of_router _ _ _ _ _ Hok' Hhm Htm).
      * exact Hm'.
    + exact Hm'.
Qed.

Lemma keeps_mount_named t uri s mapIndex : keeps (mount_named t uri s mapIndex).
Proof.
  intros w Hok. unfold mount_named.
  apply wp_bind, wp_get_map; [|exact Hok]. intros hm sm _ _.
  apply wp_bind.
  apply wp_fold_each with (I := fun m' w' => buckets_ok w' /\ map_ok w' m').
  - split; [exact Hok|apply map_ok_nil].
  - intros m' kv w' _ [Hok' Hm']. apply wp_mount_named_bucket; assumption.
  - intros m' w' [Hok' _]. apply wp_ret. exact Hok'.
Qed.

Lemma keeps_use_router_at t uri s : keeps (use_router_at t uri s).
Proof.
  intros w Hok. unfold use_router_at.
  apply wp_bind, wp_get_router; [|exact Hok]. intros routeMap _.
  apply keeps_for_each; [|exact Hok]. intros i.
  apply keeps_bind; [apply keeps_mount_static|intros _; apply keeps_mount_named].
Qed.

Lemma keeps_run_op o : keeps (run_op o).
Proof.
  destruct o; simpl.
  - apply keeps_bind; [apply keeps_new_router|intros _; apply keeps_ret].
  - apply keeps_method_route.
  - apply keeps_all.
  - apply keeps_use_middleware.
  - apply keeps_use_path.
  - apply keeps_mergeRouterMaps.
  - apply keeps_use_router_at.
Qed.

Lemma buckets_ok_empty : buckets_ok empty_world.
Proof. intros r hm i rm b l Hhm. simpl in Hhm. rewrite lookup_nil in Hhm. discriminate. Qed.

Lemma buckets_ok_configure ops w : buckets_ok w -> buckets_ok (configure ops w).
Proof.
  unfold configure. revert w. induction ops as [|o ops IH]; intros w Hok; simpl.
  - exact Hok.
  - apply IH. eapply wp_run; [apply keeps_run_op, Hok|auto].
Qed.

End mount_at_properties.

(** ** Where a dynamic pattern is stored *)

#[local] Arguments resolve : simpl never.

Lemma httpMethodMap_lookup w r i table :
  httpMethodMap w r !! i = Some table ->
  exists hm rm, routers w !! r = Some hm /\ hm !! i = Some rm /\ table = resolve w rm.
Proof.
  unfold httpMethodMap. rewrite list_lookup_fmap.
  destruct (routers w !! r) as [hm|] eqn:Hhm.
  - rewrite (list_lookup_total_correct _ _ _ Hhm).
    destruct (hm !! i) as [rm|] eqn:Hrm; simpl; [|discriminate].
    intros [= <-]. eauto.
  - rewrite list_lookup_total_alt, Hhm. intros Hnil. vm_compute in Hnil.
    discriminate.
Qed.

Lemma httpMethodMap_resolve w r i hm rm :
  routers w !! r = Some hm -> hm !! i = Some rm ->
  httpMethodMap w r !! i = Some (resolve w rm).
Proof.
  intros Hhm Hrm. unfold httpMethodMap.
  rewrite list_lookup_fmap, (list_lookup_total_correct _ _ _ Hhm), Hrm.
  reflexivity.
Qed.

Lemma resolve_named w rm b :
  obj_get (namedRoutePartitionMap (resolve w rm)) b
  = (fun l => arrays w !!! l) <$> obj_get (namedRoutePartitionMap rm) b.
Proof. unfold resolve. simpl. apply (obj_get_fmap (fun l => arrays w !!! l)). Qed.

Lemma resolve_static w rm k :
  obj_get (staticRouteMap (resolve w rm)) k
  = (fun l => records w !!! l) <$> obj_get (staticRouteMap rm) k.
Proof. unfold resolve. simpl. apply (obj_get_fmap (fun l => records w !!! l)). Qed.

Lemma put_map_lookup_eq r i rm w hm :
  routers w !! r = Some hm -> i < length hm ->
  routers (put_map r i rm w) !! r = Some (<[i := rm]> hm)
  /\ <[i := rm]> hm !! i = Some rm.
Proof.
  intros Hhm Hi. unfold put_map. simpl. rewrite Hhm. split.
  - apply list_lookup_insert_eq. eapply lookup_lt_Some; exact Hhm.
  - apply list_lookup_insert_eq. exact Hi.
Qed.

(** Registering a dynamic pattern appends its entry to the bucket numbered
    by the count of its path segments. *)
Lemma buildRequestMap_dynamic w r i uri cbs hm rm :
  buckets_ok w ->
  routers w !! r = Some hm -> hm !! i = Some rm ->
  regexCheckStaticURL uri = false ->
  exists w' hm' rm',
    buildRequestMap r i uri cbs w = (w', Normal tt)
    /\ routers w' !! r = Some hm' /\ hm' !! i = Some rm'
    /\ staticRouteMap (resolve w' rm') = staticRouteMap (resolve w rm)
    /\ obj_get (namedRoutePartitionMap (resolve w' rm')) (make_entry uri cbs).1
       = Some (default [] (obj_get (namedRoutePartitionMap (resolve w rm))
                                   (make_entry uri cbs).1)
               ++ [(make_entry uri cbs).2]).
Proof.
  intros Hok Hhm Hrm Hdyn. unfold buildRequestMap.
  assert (Hget : get_map r i w = (w, Normal rm)).
  { unfold get_map, get_router, bind, gets. rewrite Hhm. simpl. rewrite Hrm.
    reflexivity. }
  rewrite (bind_normal _ _ _ _ _ Hget), Hdyn.
  pose proof (lookup_lt_Some _ _ _ Hrm) as Hi.
  destruct (make_entry uri cbs) as [b e]. cbn [fst snd].
  rewrite !resolve_named.
  destruct (obj_get (namedRoutePartitionMap rm) b) as [l|] eqn:Hb;
    cbn [default fmap option_fmap option_map app].
  - apply obj_get_elem_of in Hb as Hin.
    destruct (Hok _ _ _ _ _ _ Hhm Hrm Hin) as (es & Hes & _ & _).
    exists (set_arrays (fun h => <[l := es ++ [e]]> h) w), hm, rm.
    split; [|split; [exact Hhm|split; [exact Hrm|split]]].
    + unfold push_array, read_array, bind, gets. rewrite Hes. reflexivity.
    + reflexivity.
    + rewrite resolve_named, Hb. cbn [fmap option_fmap option_map set_arrays arrays].
      rewrite (list_lookup_total_correct _ _ _ Hes).
      rewrite list_lookup_total_insert_eq by (eapply lookup_lt_Some; exact Hes).
      reflexivity.
  - set (w1 := set_arrays (fun h => h ++ [[e]]) w).
    set (rm' := with_named rm (obj_set (namedRoutePartitionMap rm) b (length (arrays w)))).
    assert (Hhm1 : routers w1 !! r = Some hm) by exact Hhm.
    destruct (put_map_lookup_eq r i rm' w1 hm Hhm1 Hi) as [Hr' Hi'].
    exists (put_map r i rm' w1), (<[i := rm']> hm), rm'.
    split; [reflexivity|]. split; [exact Hr'|]. split; [exact Hi'|]. split.
    + reflexivity.
    + rewrite resolve_named. unfold rm'. simpl. rewrite obj_get_set_eq. simpl.
      rewrite list_lookup_total_middle by reflexivity. reflexivity.
Qed.

Section partition.
Context `{!Builtins}.

(** C3, as amended. In the tables of a router configured by any sequence
    of registrations and mounts, every entry of bucket [b] has exactly [b]
    path segments in [pathNames]; and registering a dynamic pattern on such
    a router appends its entry to the bucket whose number is the length of
    [pathNames], the pattern split on the slash without its first
    element. *)
Theorem bucket_is_segment_count (ops : list Op) (r i : nat)
  (table : RouteTable) :
  httpMethodMap (configure ops empty_world) r !! i = Some table ->
  (forall b es e,
     obj_get (namedRoutePartitionMap table) b = Some es -> e ∈ es ->
     length (pathNames e) = b)
  /\ forall uri cbs,
       regexCheckStaticURL uri = false ->
       exists table' es e,
         httpMethodMap (buildRequestMap r i uri cbs (configure ops empty_world)).1 r !! i
         = Some table'
         /\ pathNames e = tail (JsString.split "/" uri)
         /\ callbacks e = cbs
         /\ obj_get (namedRoutePartitionMap table') (length (pathNames e))
            = Some (es ++ [e]).
Proof.
  intros Htable.
  pose proof (buckets_ok_configure ops empty_world buckets_ok_empty) as Hok.
  destruct (httpMethodMap_lookup _ _ _ _ Htable) as (hm & rm & Hhm & Hrm & ->).
  split.
  - intros b es e Hget Hin. rewrite resolve_named in Hget.
    destruct (obj_get (namedRoutePartitionMap rm) b) as [l|] eqn:Hb; [|discriminate].
    apply obj_get_elem_of in Hb.
    destruct (Hok _ _ _ _ _ _ Hhm Hrm Hb) as (es' & Hes' & _ & Hall).
    simpl in Hget. rewrite (list_lookup_total_correct _ _ _ Hes') in Hget.
    injection Hget as <-. rewrite Forall_forall in Hall. apply Hall, Hin.
  - intros uri cbs Hdyn.
    destruct (buildRequestMap_dynamic _ r i uri cbs hm rm Hok Hhm Hrm Hdyn)
      as (w' & hm' & rm' & Hrun & Hhm' & Hrm' & _ & Hget).
    rewrite Hrun. simpl.
    eexists (resolve w' rm'), _, (make_entry uri cbs).2.
    split; [exact (httpMethodMap_resolve _ _ _ _ _ Hhm' Hrm')|].
    split; [reflexivity|]. split; [reflexivity|].
    rewrite make_entry_length. exact Hget.
Qed.

End partition.

(** ** Dynamic routes: the first entry that matches *)

Section dynamic_match.
Context `{!Builtins}.

Lemma match_loop_first_match tables URL pn l1 e l2 ctx req1 req2 :
  all_fail URL pn l1 (request ctx) req1 ->
  attempt URL pn e req1 = (req2, Normal true) ->
  callbacks e <> [] ->
  match_loop tables URL pn (l1 ++ e :: l2) ctx
  = (callTopLevelMiddlewares tables ;;; run_chain (callbacks e) ;;; ret Returned)
      (with_request ctx req2).
Proof.
  intros Hfail He Hcbs. revert ctx Hfail.
  induction l1 as [|e1 l1 IH]; intros ctx Hfail.
  - inversion Hfail; subst. simpl.
    erewrite bind_normal by (apply on_request_normal; exact He).
    destruct (callbacks e) as [|h chain]; [congruence|]. reflexivity.
  - inversion Hfail as [|? ? ? req' ? He1 Hrest]; subst.
    rewrite <- app_comm_cons, (match_loop_fail _ _ _ _ _ _ _ He1).
    exact (IH (with_request ctx req') Hrest).
Qed.

Lemma parse_query_normal url0 ctx :
  exists ctx', parse_query url0 ctx = (ctx', Normal tt)
               /\ response ctx' = response ctx
               /\ req_params (request ctx') = req_params (request ctx)
               /\ url (request ctx') = url (request ctx)
               /\ method (request ctx') = method (request ctx).
Proof.
  unfold parse_query. destruct (JsString.split "?" url0) as [|u [|q rest]];
    try (exists ctx; repeat split; reflexivity).
  destruct (0 <? String.length q)%nat; [|exists ctx; repeat split; reflexivity].
  eexists. repeat split; reflexivity.
Qed.

Lemma processHTTPMethod_unfold tables mapIndex thr ctx ctx1 :
  parse_query (url (request ctx)) ctx = (ctx1, Normal tt) ->
  processHTTPMethod tables mapIndex thr ctx
  = (let* flow := try_catch (try_block tables mapIndex
                               (normalize (url (request ctx))) thr)
                            (notFound ;;; ret Returned) in
     match flow with
     | Returned => ret tt
     | FellThrough => if thr then notFound else ret tt
     end) ctx1.
Proof.
  intros Hq. unfold processHTTPMethod.
  unfold bind at 1. unfold gets at 1.
  rewrite (bind_normal _ _ _ _ _ Hq). reflexivity.
Qed.

(** C2, as amended. Registration order is the match priority among the
    dynamic entries of a bucket: registering a dynamic pattern puts its
    entry after the entries that its bucket already holds and leaves the
    static map as it is; and when the static map has no property under the
    path of a request, its own or inherited, the request is served by the
    first entry of its bucket that matches, the entries after it being of
    no account. *)
Theorem registration_order_is_match_priority (ops : list Op) (r i : nat)
  (table : RouteTable) :
  httpMethodMap (configure ops empty_world) r !! i = Some table ->
  (forall uri cbs,
     regexCheckStaticURL uri = false ->
     exists table',
       httpMethodMap (buildRequestMap r i uri cbs (configure ops empty_world)).1 r !! i
       = Some table'
       /\ staticRouteMap table' = staticRouteMap table
       /\ obj_get (namedRoutePartitionMap table') (make_entry uri cbs).1
          = Some (default [] (obj_get (namedRoutePartitionMap table)
                                      (make_entry uri cbs).1)
                  ++ [(make_entry uri cbs).2]))
  /\ forall throwOnNotFound ctx ctx0 l1 e l2 req1 req2,
       let tables := httpMethodMap (configure ops empty_world) r in
       let URL := normalize (url (request ctx)) in
       let pn := tail (JsString.split "/" URL) in
       obj_read (staticRouteMap table) URL = Undefined ->
       obj_get (namedRoutePartitionMap table) (length pn) = Some (l1 ++ e :: l2) ->
       (parse_query (url (request ctx)) ;;; on_request init_params) ctx
       = (ctx0, Normal tt) ->
       all_fail URL pn l1 (request ctx0) req1 ->
       attempt URL pn e req1 = (req2, Normal true) ->
       callbacks e <> [] ->
       processHTTPMethod tables i throwOnNotFound ctx
       = try_catch (callTopLevelMiddlewares tables ;;; run_chain (callbacks e))
                   notFound (with_request ctx0 req2).
Proof.
  intros Htable.
  pose proof (buckets_ok_configure ops empty_world buckets_ok_empty) as Hok.
  split.
  - destruct (httpMethodMap_lookup _ _ _ _ Htable) as (hm & rm & Hhm & Hrm & ->).
    intros uri cbs Hdyn.
    destruct (buildRequestMap_dynamic _ r i uri cbs hm rm Hok Hhm Hrm Hdyn)
      as (w' & hm' & rm' & Hrun & Hhm' & Hrm' & Hst & Hget).
    rewrite Hrun. exists (resolve w' rm').
    split; [exact (httpMethodMap_resolve _ _ _ _ _ Hhm' Hrm')|].
    split; [exact Hst|exact Hget].
  - intros thr ctx ctx0 l1 e l2 req1 req2 tables URL pn Hstatic Hbucket Hprep
      Hfail He Hcbs.
    destruct (parse_query_normal (url (request ctx)) ctx) as (ctx1 & Hq & _).
    rewrite (bind_normal _ _ _ _ _ Hq) in Hprep.
    rewrite (processHTTPMethod_unfold _ _ _ _ _ Hq).
    fold URL.
    assert (Htry : try_block tables i URL thr ctx1
                   = (callTopLevelMiddlewares tables ;;; run_chain (callbacks e) ;;;
                      ret Returned) (with_request ctx0 req2)).
    { unfold try_block. fold tables in Htable. rewrite Htable.
      unfold defined. unfold bind at 1. unfold ret at 1.
      rewrite Hstatic. fold pn. rewrite Hbucket.
      rewrite (bind_normal _ _ _ _ _ Hprep).
      rewrite length_app. simpl.
      replace (length l1 + S (length l2) =? 0)%nat with false
        by (symmetry; apply Nat.eqb_neq; lia).
      exact (match_loop_first_match tables URL pn l1 e l2 ctx0 req1 req2 Hfail He Hcbs). }
    unfold bind at 1. unfold try_catch at 1. rewrite Htry.
    unfold try_catch, bind, ret.
    destruct (callTopLevelMiddlewares tables (with_request ctx0 req2))
      as [ctx2 [[]|]]; [|by_cases_of_404].
    destruct (run_chain (callbacks e) ctx2) as [ctx3 [[]|]]; by_cases_of_404.
Qed.

End dynamic_match.

(** ** Requests that no entry matches *)

Lemma forallb_zip_Forall2 ps : forall ks,
  length ks = length ps ->
  forallb (fun pk : string * string => segment_matches pk.1 pk.2) (zip ps ks) = true ->
  Forall2 (fun p k => segment_matches p k = true) ps ks.
Proof.
  induction ps as [|p ps IH]; intros [|k ks] Hlen Hall; try discriminate.
  - constructor.
  - simpl in Hall. apply andb_true_iff in Hall as [Hpk Hall].
    constructor; [exact Hpk|]. apply IH; [simpl in Hlen; lia|exact Hall].
Qed.

(** A rejected URL has a last segment at which it disagrees with the
    pattern. *)
Lemma fast_rejects ps : forall ks,
  length ks = length ps ->
  forallb (fun pk : string * string => segment_matches pk.1 pk.2) (zip ps ks) = false ->
  exists ps1 p ps2 ks1 k ks2,
    ps = ps1 ++ p :: ps2 /\ ks = ks1 ++ k :: ks2 /\ length ps1 = length ks1
    /\ Forall2 (fun p k => segment_matches p k = true) ps2 ks2
    /\ segment_matches p k = false.
Proof.
  induction ps as [|p ps IH]; intros [|k ks] Hlen Hall; try discriminate.
  simpl in Hlen, Hall.
  destruct (forallb (fun pk : string * string => segment_matches pk.1 pk.2)
              (zip ps ks)) eqn:Hrest.
  - rewrite andb_true_r in Hall.
    exists [], p, ps, [], k, ks. repeat split; [|exact Hall].
    apply forallb_zip_Forall2; [lia|exact Hrest].
  - destruct (IH ks ltac:(lia) Hrest)
      as (ps1 & p' & ps2 & ks1 & k' & ks2 & -> & -> & Hl & Hall2 & Hpk).
    exists (p :: ps1), p', ps2, (k :: ks1), k', ks2.
    repeat split; simpl; auto.
Qed.

Lemma fastPathMatch_rejected ps ks req bag :
  fast_accepts ps ks = false ->
  req_params req = Some bag ->
  exists bag', fastPathMatch ps ks req = (with_params req bag', Normal false).
Proof.
  intros Hrej Hbag. unfold fast_accepts in Hrej.
  destruct (decide (length ks = length ps)) as [Hlen|Hlen].
  - rewrite bool_decide_eq_true_2 in Hrej by exact Hlen. simpl in Hrej.
    destruct (fast_rejects ps ks Hlen Hrej)
      as (ps1 & p & ps2 & ks1 & k & ks2 & -> & -> & Hl & Hall & Hpk).
    eexists. apply fastPathMatch_mismatch; eassumption.
  - exists bag. unfold fastPathMatch.
    replace (length ks =? length ps)%nat with false
      by (symmetry; apply Nat.eqb_neq; exact Hlen).
    rewrite with_params_id by exact Hbag. reflexivity.
Qed.

Section not_found.
Context `{!Builtins}.

Lemma attempt_rejected URL e req bag :
  entry_accepts URL e = false ->
  req_params req = Some bag ->
  exists req' out,
    attempt URL (tail (JsString.split "/" URL)) e req = (req', out)
    /\ (out = Normal false \/ out = Thrown)
    /\ is_Some (req_params req').
Proof.
  intros Hrej Hbag. unfold entry_accepts in Hrej. unfold attempt.
  destruct (useRegex e).
  - unfold attachPathParamsToRequestIfExists.
    destruct (JsString.is_empty (key e)); simpl in Hrej.
    { exists req, (Normal false). rewrite Hbag. eauto. }
    destruct (regexp_exec (key e) URL); try discriminate.
    + exists req, Thrown. rewrite Hbag. eauto.
    + exists req, (Normal false). rewrite Hbag. eauto.
  - destruct (fastPathMatch_rejected _ _ _ _ Hrej Hbag) as [bag' Hrun].
    exists (with_params req bag'), (Normal false). simpl. eauto.
Qed.

Lemma match_loop_rejected tables URL es : forall ctx,
  (forall e, e ∈ es -> entry_accepts URL e = false) ->
  is_Some (req_params (request ctx)) ->
  exists ctx' out,
    match_loop tables URL (tail (JsString.split "/" URL)) es ctx = (ctx', out)
    /\ (out = Normal FellThrough \/ out = Thrown)
    /\ response ctx' = response ctx.
Proof.
  induction es as [|e es IH]; intros ctx Hrej [bag Hbag].
  - exists ctx, (Normal FellThrough). auto.
  - destruct (attempt_rejected URL e _ _ (Hrej e (list_elem_of_here _ _)) Hbag)
      as (req' & out & He & [->| ->] & Hsome).
    + rewrite (match_loop_fail _ _ _ _ _ _ _ He).
      destruct (IH (with_request ctx req')) as (ctx' & out & Hrun & Hout & Hresp).
      * intros e' He'. apply Hrej. apply list_elem_of_further. exact He'.
      * exact Hsome.
      * exists ctx', out. auto.
    + exists (with_request ctx req'), Thrown. split; [|auto].
      simpl. apply bind_thrown, on_request_normal. exact He.
Qed.

Lemma not_found_response ctx :
  headersSent (response ctx) = false ->
  notFound ctx
  = ({| request := request ctx;
        response := response ctx
                    ++ [WriteHead 404 None headers404; End (Some "Route not found")] |},
     Normal tt).
Proof.
  intros Hsent. unfold notFound, writeHead, bind, gets. rewrite Hsent.
  unfold respond, modify. cbn [request response]. rewrite <- app_assoc. reflexivity.
Qed.

Lemma not_found_throws ctx :
  headersSent (response ctx) = true -> notFound ctx = (ctx, Thrown).
Proof.
  intros Hsent. unfold notFound, writeHead, bind, gets. rewrite Hsent. reflexivity.
Qed.

Lemma try_block_dynamic tables i table URL thr ctx :
  tables !! i = Some table ->
  obj_read (staticRouteMap table) URL = Undefined ->
  try_block tables i URL thr ctx
  = match obj_get (namedRoutePartitionMap table)
            (length (tail (JsString.split "/" URL))) with
    | Some es =>
        (on_request init_params ;;;
         if (length es =? 0)%nat then ret Returned
         else match_loop tables URL (tail (JsString.split "/" URL)) es) ctx
    | None => (if thr then notFound ;;; ret Returned else ret FellThrough) ctx
    end.
Proof.
  intros Htable Hstatic. unfold try_block. rewrite Htable.
  unfold defined. unfold bind at 1. unfold ret at 1. rewrite Hstatic.
  destruct (obj_get (namedRoutePartitionMap table) _); reflexivity.
Qed.

Lemma init_params_normal ctx :
  exists ctx', on_request init_params ctx = (ctx', Normal tt)
               /\ response ctx' = response ctx
               /\ is_Some (req_params (request ctx')).
Proof.
  unfold on_request, init_params, modify. eexists. split; [reflexivity|].
  split; [reflexivity|]. simpl.
  destruct (req_params (request ctx)) eqn:Hp; simpl; [rewrite Hp|]; eauto.
Qed.

(** The body of the [try] block, when nothing matches: a 404 response has
    been written, or is about to be. *)
Lemma try_block_rejected w r i hm rm URL ctx :
  buckets_ok w ->
  routers w !! r = Some hm ->
  hm !! i = Some rm ->
  obj_read (staticRouteMap (resolve w rm)) URL = Undefined ->
  (forall es e,
     obj_get (namedRoutePartitionMap (resolve w rm))
             (length (tail (JsString.split "/" URL))) = Some es ->
     e ∈ es -> entry_accepts URL e = false) ->
  exists ctx',
    response ctx' = response ctx
    /\ (try_block (httpMethodMap w r) i URL true ctx
        = (notFound ;;; ret Returned) ctx'
        \/ try_block (httpMethodMap w r) i URL true ctx = (ctx', Normal FellThrough)
        \/ try_block (httpMethodMap w r) i URL true ctx = (ctx', Thrown)).
Proof.
  intros Hok Hhm Hrm Hstatic Hrej.
  rewrite (try_block_dynamic _ _ _ _ _ _ (httpMethodMap_resolve _ _ _ _ _ Hhm Hrm) Hstatic).
  destruct (obj_get (namedRoutePartitionMap (resolve w rm))
              (length (tail (JsString.split "/" URL)))) as [es|] eqn:Hb.
  - pose proof Hb as Hb'. rewrite resolve_named in Hb'.
    destruct (obj_get (namedRoutePartitionMap rm)
                (length (tail (JsString.split "/" URL)))) as [l|] eqn:Hl;
      [|discriminate].
    apply obj_get_elem_of in Hl.
    destruct (Hok _ _ _ _ _ _ Hhm Hrm Hl) as (es' & Hes' & Hne & _).
    simpl in Hb'. rewrite (list_lookup_total_correct _ _ _ Hes') in Hb'.
    injection Hb' as <-.
    destruct (init_params_normal ctx) as (ctx1 & Hinit & Hresp1 & Hsome).
    rewrite (bind_normal _ _ _ _ _ Hinit).
    destruct es' as [|e0 es0]; [congruence|].
    change (length (e0 :: es0) =? 0)%nat with false. cbv iota.
    destruct (match_loop_rejected (httpMethodMap w r) URL (e0 :: es0) ctx1)
      as (ctx' & out & Hrun & Hout & Hresp).
    + intros e He. eapply Hrej; [reflexivity|exact He].
    + exact Hsome.
    + exists ctx'. split; [congruence|]. rewrite Hrun.
      destruct Hout as [-> | ->]; auto.
  - exists ctx. split; [reflexivity|]. left. reflexivity.
Qed.

End not_found.

Section dispatch_total.
Context `{!Builtins}.

Lemma processHTTPMethod_cases tables i thr ctx ctx1 :
  parse_query (url (request ctx)) ctx = (ctx1, Normal tt) ->
  processHTTPMethod tables i thr ctx
  = match try_block tables i (normalize (url (request ctx))) thr ctx1 with
    | (ctx2, Normal Returned) => (ctx2, Normal tt)
    | (ctx2, Normal FellThrough) => if thr then notFound ctx2 else (ctx2, Normal tt)
    | (ctx2, Thrown) => notFound ctx2
    end.
Proof.
  intros Hq. rewrite (processHTTPMethod_unfold _ _ _ _ _ Hq).
  unfold bind at 1. unfold try_catch.
  destruct (try_block tables i (normalize (url (request ctx))) thr ctx1)
    as [ctx2 [[]|]]; try reflexivity.
  - destruct thr; reflexivity.
  - unfold bind, ret. by_cases_of_404.
Qed.

(** The reply 404 can only fail to be written because the head of the
    response is out, and then nothing is written. *)
Lemma not_found_thrown ctx ctx' :
  notFound ctx = (ctx', Thrown) -> ctx' = ctx /\ headersSent (response ctx) = true.
Proof.
  intros Hrun. destruct (headersSent (response ctx)) eqn:Hsent.
  - rewrite (not_found_throws _ Hsent) in Hrun. injection Hrun as <-. auto.
  - rewrite (not_found_response _ Hsent) in Hrun. discriminate.
Qed.

(** C6, as amended. On a router configured by any sequence of
    registrations and mounts, as long as the head of the response has not
    been sent: a request for a supported method for whose path the static
    map has no property, and which no entry of its bucket matches, gets
    the response 404 with the body "Route not found"; and when the
    matching or a handler throws, the exception is caught and the same
    response is written. [dispatch] throws in one case only: the head of
    the response was out already when it came to write its own. *)
Theorem unmatched_or_failing_request_gets_404 (ops : list Op) (r : nat) :
  let tables := httpMethodMap (configure ops empty_world) r in
  let answer404 := [WriteHead 404 None headers404; End (Some "Route not found")] in
  (forall ctx m table,
     method_index (method (request ctx)) = Some m ->
     tables !! map_index m = Some table ->
     obj_read (staticRouteMap table) (normalize (url (request ctx))) = Undefined ->
     (forall es e,
        obj_get (namedRoutePartitionMap table)
          (length (tail (JsString.split "/" (normalize (url (request ctx))))))
        = Some es ->
        e ∈ es -> entry_accepts (normalize (url (request ctx))) e = false) ->
     headersSent (response ctx) = false ->
     exists ctx',
       dispatch tables ctx = (ctx', Normal tt)
       /\ response ctx' = response ctx ++ answer404)
  /\ (forall i throwOnNotFound ctx ctx1 ctx2,
        parse_query (url (request ctx)) ctx = (ctx1, Normal tt) ->
        try_block tables i (normalize (url (request ctx))) throwOnNotFound ctx1
        = (ctx2, Thrown) ->
        headersSent (response ctx2) = false ->
        processHTTPMethod tables i throwOnNotFound ctx
        = ({| request := request ctx2; response := response ctx2 ++ answer404 |},
           Normal tt))
  /\ forall ctx ctx',
       dispatch tables ctx = (ctx', Thrown) -> headersSent (response ctx') = true.
Proof.
  intros tables answer404.
  pose proof (buckets_ok_configure ops empty_world buckets_ok_empty) as Hok.
  split; [|split].
  - intros ctx m table Hm Htable Hstatic Hrej Hsent.
    destruct (httpMethodMap_lookup _ _ _ _ Htable) as (hm & rm & Hhm & Hrm & ->).
    unfold dispatch. rewrite Hm.
    destruct (parse_query_normal (url (request ctx)) ctx)
      as (ctx1 & Hq & Hresp1 & _).
    rewrite (processHTTPMethod_cases _ _ _ _ _ Hq).
    destruct (try_block_rejected _ r (map_index m) hm rm
                (normalize (url (request ctx))) ctx1 Hok Hhm Hrm Hstatic Hrej)
      as (ctx2 & Hresp2 & [Hrun|[Hrun|Hrun]]);
      fold tables in Hrun; rewrite Hrun.
    + unfold bind, ret. rewrite not_found_response by congruence.
      eexists. split; [reflexivity|]. simpl. rewrite Hresp2, Hresp1. reflexivity.
    + rewrite not_found_response by congruence.
      eexists. split; [reflexivity|]. simpl. rewrite Hresp2, Hresp1. reflexivity.
    + rewrite not_found_response by congruence.
      eexists. split; [reflexivity|]. simpl. rewrite Hresp2, Hresp1. reflexivity.
  - intros i thr ctx ctx1 ctx2 Hq Hthrown Hsent.
    rewrite (processHTTPMethod_cases _ _ _ _ _ Hq), Hthrown.
    apply not_found_response, Hsent.
  - intros ctx ctx' Hrun. unfold dispatch in Hrun.
    destruct (method_index (method (request ctx))) as [m|].
    + destruct (parse_query_normal (url (request ctx)) ctx) as (ctx1 & Hq & _).
      rewrite (processHTTPMethod_cases _ _ _ _ _ Hq) in Hrun.
      destruct (try_block tables (map_index m) (normalize (url (request ctx)))
                  true ctx1) as [ctx2 [[]|]] eqn:Htry; [discriminate| |];
        apply not_found_thrown in Hrun as [-> Hsent]; exact Hsent.
    + unfold writeHead, bind, gets in Hrun.
      destruct (headersSent (response ctx)) eqn:Hsent; [|discriminate].
      injection Hrun as <-. exact Hsent.
Qed.

End dispatch_total.

(** ** Mounting without a prefix *)

Lemma wp_for_each_throws {S A} (l : list A) (body : A -> comp S unit)
  (I : S -> Prop) (Q : unit -> S -> Prop) E x s :
  x ∈ l ->
  (forall y s', I s' -> wp (body y) (fun _ => I) E s') ->
  (forall s', I s' -> wp (body x) (fun _ _ => False) E s') ->
  I s ->
  wp (for_each l body) Q E s.
Proof.
  intros Hx Hkeep Hthrow. revert s.
  induction l as [|y l IH]; intros s HI; [apply elem_of_nil in Hx as []|].
  simpl. apply wp_bind.
  apply elem_of_cons in Hx as [->|Hx].
  - eapply wp_mono; [apply Hthrow, HI|intros ? ? []|auto].
  - eapply wp_mono; [apply Hkeep, HI| |auto].
    intros u s' HI'. apply IH; [exact Hx|exact HI'].
Qed.

(** A property of the world that the merge of the tables of one method
    does not disturb. *)
Lemma merge_static_frame (F : World -> Prop) t s j :
  (forall f w, F w -> F (set_records f w)) ->
  (forall rm w, F w -> F (put_map t j rm w)) ->
  forall w, F w -> wp (merge_static t s j) (fun _ => F) F w.
Proof.
  intros Hrec Hput w HF. unfold merge_static.
  apply wp_bind, wp_get_map; [|exact HF]. intros hm tm _ _.
  apply wp_bind, wp_get_map; [|exact HF]. intros hm' sm _ _.
  destruct (obj_is_empty (staticRouteMap tm)).
  - apply wp_set_map. auto.
  - apply wp_for_each with (I := F); auto.
    intros kv w' _ HF'. unfold merge_static_key.
    apply wp_bind, wp_get_map; [|exact HF']. intros ? ? _ _.
    apply wp_bind, wp_defined; [|auto]. intros lt _.
    apply wp_bind, wp_read_record; [|exact HF']. intros mine _.
    apply wp_bind, wp_get_map; [|exact HF']. intros ? ? _ _.
    apply wp_bind, wp_defined; [|auto]. intros ls _.
    apply wp_bind, wp_read_record; [|exact HF']. intros theirs _.
    apply wp_write_record. auto.
Qed.

Lemma keeps_merge_static_key_frame (F : World -> Prop) t s j k :
  (forall f w, F w -> F (set_records f w)) ->
  forall w, F w -> wp (merge_static_key t s j k) (fun _ => F) F w.
Proof.
  intros Hrec w HF. unfold merge_static_key.
  apply wp_bind, wp_get_map; [|exact HF]. intros ? ? _ _.
  apply wp_bind, wp_defined; [|auto]. intros lt _.
  apply wp_bind, wp_read_record; [|exact HF]. intros mine _.
  apply wp_bind, wp_get_map; [|exact HF]. intros ? ? _ _.
  apply wp_bind, wp_defined; [|auto]. intros ls _.
  apply wp_bind, wp_read_record; [|exact HF]. intros theirs _.
  apply wp_write_record. auto.
Qed.

Lemma merge_named_frame (F : World -> Prop) t s j :
  (forall f w, F w -> F (set_arrays f w)) ->
  (forall rm w, F w -> F (put_map t j rm w)) ->
  forall w, F w -> wp (merge_named t s j) (fun _ => F) F w.
Proof.
  intros Harr Hput w HF. unfold merge_named.
  apply wp_bind, wp_get_map; [|exact HF]. intros hm tm _ _.
  apply wp_bind, wp_get_map; [|exact HF]. intros hm' sm _ _.
  destruct (obj_is_empty (namedRoutePartitionMap tm)).
  - apply wp_set_map. auto.
  - apply wp_for_each with (I := F); auto.
    intros kv w' _ HF'. unfold merge_named_key.
    apply wp_bind, wp_get_map; [|exact HF']. intros ? tm' _ _.
    destruct (obj_get (namedRoutePartitionMap tm') kv.1); [|apply wp_ret; exact HF'].
    apply wp_bind, wp_read_array; [|exact HF']. intros mine _.
    apply wp_bind, wp_get_map; [|exact HF']. intros ? ? _ _.
    apply wp_bind, wp_defined; [|auto]. intros ls _.
    apply wp_bind, wp_read_array; [|exact HF']. intros theirs _.
    apply wp_bind, wp_alloc_array.
    apply wp_bind, wp_get_map; [|auto]. intros ? ? _ _.
    apply wp_set_map. auto.
Qed.

Lemma put_map_other_router t j rm w r :
  r <> t -> routers (put_map t j rm w) !! r = routers w !! r.
Proof.
  intros Hne. unfold put_map. simpl. destruct (routers w !! t); [|reflexivity].
  apply list_lookup_insert_ne. congruence.
Qed.

Lemma put_map_other_map t j rm w hm i :
  routers w !! t = Some hm -> j <> i ->
  exists hm', routers (put_map t j rm w) !! t = Some hm' /\ hm' !! i = hm !! i.
Proof.
  intros Hhm Hne. unfold put_map. simpl. rewrite Hhm.
  exists (<[j := rm]> hm). split.
  - apply list_lookup_insert_eq. eapply lookup_lt_Some; exact Hhm.
  - apply list_lookup_insert_ne. exact Hne.
Qed.

(** C10. When, for some method, the static map of the target is not empty
    and the static map of the source has a key that the target's lacks,
    mounting the source without a prefix throws; the key is still absent
    from the target's map afterwards. *)
Theorem mount_throws_on_source_only_key (w : World) (t s i : nat)
  (T S : Router) (tm sm : RouteMap loc loc) (k : string) :
  routers w !! t = Some T -> T !! i = Some tm ->
  routers w !! s = Some S -> S !! i = Some sm ->
  staticRouteMap tm <> [] ->
  is_Some (obj_get (staticRouteMap sm) k) ->
  obj_get (staticRouteMap tm) k = None ->
  exists w' T' tm',
    mergeRouterMaps t s w = (w', Thrown)
    /\ routers w' !! t = Some T' /\ T' !! i = Some tm'
    /\ obj_get (staticRouteMap tm') k = None.
Proof.
  intros HT Htm HS Hsm Hne [v Hv] Hk.
  assert (Hts : s <> t).
  { intros ->. rewrite HT in HS. injection HS as <-.
    rewrite Htm in Hsm. injection Hsm as <-. congruence. }
  set (J := fun w' : World =>
    routers w' !! s = Some S
    /\ exists T' tm', routers w' !! t = Some T' /\ T' !! i = Some tm'
                      /\ staticRouteMap tm' = staticRouteMap tm).
  assert (HJ : J w) by (split; [exact HS|eauto]).
  assert (Hrec : forall f w', J w' -> J (set_records f w')) by (intros f w' HJ'; exact HJ').
  assert (Harr : forall f w', J w' -> J (set_arrays f w')) by (intros f w' HJ'; exact HJ').
  assert (Hput : forall j rm w', j <> i -> J w' -> J (put_map t j rm w')).
  { intros j rm w' Hji (HS' & T' & tm' & HT' & Htm' & Hst). split.
    - rewrite put_map_other_router by exact Hts. exact HS'.
    - destruct (put_map_other_map t j rm w' T' i HT' Hji) as (T2 & HT2 & Hi2).
      exists T2, tm'. rewrite Hi2. auto. }
  assert (Hkeep : forall j, j <> i -> forall w', J w' ->
            wp (merge_static t s j ;;; merge_named t s j) (fun _ => J) J w').
  { intros j Hji w' HJ'. apply wp_bind.
    eapply wp_mono; [apply (merge_static_frame J); auto| |auto].
    intros u w2 HJ2. apply (merge_named_frame J); auto. }
  assert (Hthrow : forall w', J w' ->
            wp (merge_static t s i ;;; merge_named t s i) (fun _ _ => False) J w').
  { intros w' HJ'. apply wp_bind. unfold merge_static.
    destruct HJ' as (HS' & T' & tm' & HT' & Htm' & Hst).
    assert (HJ' : J w') by (split; eauto).
    apply wp_bind, wp_get_map; [|exact HJ']. intros hm0 tm0 Hhm0 Htm0.
    rewrite HT' in Hhm0. injection Hhm0 as <-.
    rewrite Htm' in Htm0. injection Htm0 as <-.
    apply wp_bind, wp_get_map; [|exact HJ']. intros hm1 sm1 Hhm1 Hsm1.
    rewrite HS' in Hhm1. injection Hhm1 as <-.
    rewrite Hsm in Hsm1. injection Hsm1 as <-.
    rewrite Hst. destruct (staticRouteMap tm) as [|kv0 rest0] eqn:Hstm; [congruence|].
    cbn [obj_is_empty].
    apply wp_for_each_throws with (I := J) (x := (k, v)); [| | |exact HJ'].
    - apply obj_get_elem_of. exact Hv.
    - intros kv w2 HJ2. apply keeps_merge_static_key_frame; auto.
    - intros w2 (HS2 & T2 & tm2 & HT2 & Htm2 & Hst2).
      unfold merge_static_key. cbn [fst].
      apply wp_bind, wp_get_map; [|split; eauto]. intros hm3 tm3 Hhm3 Htm3.
      rewrite HT2 in Hhm3. injection Hhm3 as <-.
      rewrite Htm2 in Htm3. injection Htm3 as <-.
      rewrite Hst2, Hk.
      apply wp_bind, wp_throw. split; eauto. }
  assert (Hwp : wp (mergeRouterMaps t s) (fun _ _ => False) J w).
  { unfold mergeRouterMaps.
    apply wp_bind, wp_get_router; [|exact HJ]. intros routeMap HrouteMap.
    rewrite HS in HrouteMap. injection HrouteMap as <-.
    apply wp_for_each_throws with (I := J) (x := i); [| | |exact HJ].
    - apply elem_of_seq. split; [lia|]. simpl. eapply lookup_lt_Some; exact Hsm.
    - intros j w' HJ'. destruct (decide (j = i)) as [->|Hji].
      + eapply wp_mono; [apply Hthrow, HJ'|intros ? ? []|auto].
      + apply Hkeep; assumption.
    - exact Hthrow. }
  unfold wp in Hwp. destruct (mergeRouterMaps t s w) as [w' [[]|]]; [contradiction|].
  destruct Hwp as (_ & T' & tm' & HT' & Htm' & Hst).
  exists w', T', tm'. rewrite Hst. auto.
Qed.

(** A loop whose invariant follows the part of the list already done. *)
Lemma wp_for_each_done {S A} (l : list A) (body : A -> comp S unit)
  (I : list A -> S -> Prop) (Q : unit -> S -> Prop) E s :
  I [] s ->
  (forall done x rest s', l = done ++ x :: rest -> I done s' ->
     wp (body x) (fun _ => I (done ++ [x])) E s') ->
  (forall s', I l s' -> Q tt s') ->
  wp (for_each l body) Q E s.
Proof.
  intros HI Hbody HQ.
  assert (Hgen : forall rest done s',
    l = done ++ rest -> I done s' -> wp (for_each rest body) Q E s').
  { induction rest as [|x rest IH]; intros done s' Hl HI'; simpl.
    - apply wp_ret, HQ. rewrite Hl, app_nil_r. exact HI'.
    - apply wp_bind. eapply wp_mono; [eapply Hbody; eauto| |auto].
      intros u s'' HI''. apply (IH (done ++ [x])); [|exact HI''].
      rewrite <- app_assoc. exact Hl. }
  apply (Hgen l [] s); auto.
Qed.

Lemma obj_get_assign {K V} `{EqDecision K} `{JsKey K} (source : Obj K V) :
  forall target k,
    NoDup source.*1 ->
    obj_get (obj_assign target source) k
    = match obj_get source k with
      | Some v => Some v
      | None => obj_get target k
      end.
Proof.
  unfold obj_assign.
  induction source as [|[k0 v0] source IH]; intros target k Hnd; simpl.
  - reflexivity.
  - apply NoDup_cons in Hnd as [Hk0 Hnd]. rewrite IH by exact Hnd.
    destruct (decide (k0 = k)) as [->|Hne].
    + assert (Hnone : obj_get source k = None) by (apply obj_get_None; exact Hk0).
      rewrite Hnone. apply obj_get_set_eq.
    + destruct (obj_get source k); [reflexivity|].
      apply obj_get_set_ne. exact Hne.
Qed.

Lemma obj_get_NoDup {K V} `{EqDecision K} (o : Obj K V) k v :
  NoDup o.*1 -> (k, v) ∈ o -> obj_get o k = Some v.
Proof.
  induction o as [|[k0 v0] o IH]; intros Hnd Hin.
  - apply elem_of_nil in Hin as [].
  - simpl in *. apply NoDup_cons in Hnd as [Hk0 Hnd].
    apply elem_of_cons in Hin as [[= -> ->]|Hin].
    + destruct (decide (k0 = k0)); congruence.
    + destruct (decide (k0 = k)) as [->|Hne]; [|auto].
      exfalso. apply Hk0. apply list_elem_of_fmap. exists (k, v). auto.
Qed.

Lemma obj_is_empty_fmap {K V W} (f : K * V -> K * W) (o : Obj K V) :
  obj_is_empty (f <$> o) = obj_is_empty o.
Proof. destruct o; reflexivity. Qed.

Lemma resolve_static_empty w rm :
  obj_is_empty (staticRouteMap (resolve w rm)) = obj_is_empty (staticRouteMap rm).
Proof. unfold resolve. cbn [staticRouteMap]. apply obj_is_empty_fmap. Qed.

Lemma resolve_named_empty w rm :
  obj_is_empty (namedRoutePartitionMap (resolve w rm))
  = obj_is_empty (namedRoutePartitionMap rm).
Proof. unfold resolve. cbn [namedRoutePartitionMap]. apply obj_is_empty_fmap. Qed.

Lemma obj_get_loc {K V} `{EqDecision K} (o : Obj K V) k v :
  obj_get o k = Some v -> v ∈ o.*2.
Proof.
  intros Hget. apply obj_get_elem_of in Hget.
  apply list_elem_of_fmap. exists (k, v). auto.
Qed.

Lemma put_map_routers t i rm w T :
  routers w !! t = Some T ->
  routers (put_map t i rm w) = <[t := <[i := rm]> T]> (routers w).
Proof. intros HT. unfold put_map. simpl. rewrite HT. reflexivity. Qed.

Lemma wp_bind_normal {S A B} (m : comp S A) (f : A -> comp S B)
  (Q : B -> S -> Prop) E s s' a :
  m s = (s', Normal a) -> wp (f a) Q E s' -> wp (bind m f) Q E s.
Proof. intros Hm Hf. unfold wp. rewrite (bind_normal _ _ _ _ _ Hm). exact Hf. Qed.

Lemma get_map_known w r i hm rm :
  routers w !! r = Some hm -> hm !! i = Some rm ->
  get_map r i w = (w, Normal rm).
Proof.
  intros Hhm Hrm. unfold get_map, get_router, bind, gets.
  rewrite Hhm. simpl. rewrite Hrm. reflexivity.
Qed.

Lemma get_router_known w r hm :
  routers w !! r = Some hm -> get_router r w = (w, Normal hm).
Proof. intros Hhm. unfold get_router, bind, gets. rewrite Hhm. reflexivity. Qed.

Lemma read_record_known w l cbs :
  records w !! l = Some cbs -> read_record l w = (w, Normal cbs).
Proof. intros Hl. unfold read_record, bind, gets. rewrite Hl. reflexivity. Qed.

Lemma read_array_known w l es :
  arrays w !! l = Some es -> read_array l w = (w, Normal es).
Proof. intros Hl. unfold read_array, bind, gets. rewrite Hl. reflexivity. Qed.

Lemma obj_is_empty_true {K V} (o : Obj K V) : obj_is_empty o = true -> o = [].
Proof. destruct o; [reflexivity|discriminate]. Qed.

Lemma obj_is_empty_false {K V} (o : Obj K V) : obj_is_empty o = false -> o <> [].
Proof. destruct o; [discriminate|congruence]. Qed.

Lemma lookup_total_Some {A} `{!Inhabited A} (l : list A) i :
  i < length l -> l !! i = Some (l !!! i).
Proof.
  intros Hi. destruct (lookup_lt_is_Some_2 l i Hi) as [x Hx].
  rewrite (list_lookup_total_correct _ _ _ Hx). exact Hx.
Qed.

(** The static maps of one method. *)
Lemma merge_static_spec w t s i T S tm sm :
  routers w !! t = Some T -> T !! i = Some tm ->
  routers w !! s = Some S -> S !! i = Some sm ->
  NoDup (staticRouteMap sm).*1 ->
  Forall (fun l => l < length (records w)) (static_locs tm) ->
  Forall (fun l => l < length (records w)) (static_locs sm) ->
  NoDup (static_locs tm) ->
  (forall l, l ∈ static_locs tm -> l ∉ static_locs sm) ->
  (staticRouteMap tm <> [] ->
   forall k, is_Some (obj_get (staticRouteMap sm) k) ->
             is_Some (obj_get (staticRouteMap tm) k)) ->
  wp (merge_static t s i)
     (fun _ w' => exists tm',
        routers w' = <[t := <[i := tm']> T]> (routers w)
        /\ namedRoutePartitionMap tm' = namedRoutePartitionMap tm
        /\ arrays w' = arrays w
        /\ length (records w') = length (records w)
        /\ (forall l, l ∉ static_locs tm -> records w' !! l = records w !! l)
        /\ (forall l, l ∈ static_locs tm' -> l ∈ static_locs tm \/ l ∈ static_locs sm)
        /\ forall k, obj_get (staticRouteMap (resolve w' tm')) k
                     = merged (staticRouteMap (resolve w tm))
                              (staticRouteMap (resolve w sm)) k)
     (fun _ => False) w.
Proof.
  intros HT Htm HS Hsm Hkeys Halloc_t Halloc_s Hnd Hdisj Hcov.
  unfold merge_static.
  apply (wp_bind_normal _ _ _ _ _ _ _ (get_map_known _ _ _ _ _ HT Htm)).
  apply (wp_bind_normal _ _ _ _ _ _ _ (get_map_known _ _ _ _ _ HS Hsm)).
  destruct (obj_is_empty (staticRouteMap tm)) eqn:Hempty.
  - (* the target's map is empty: the source's map is assigned *)
    apply obj_is_empty_true in Hempty as Hstm.
    apply wp_set_map.
    exists (with_static tm (obj_assign (staticRouteMap tm) (staticRouteMap sm))).
    split; [apply put_map_routers; exact HT|].
    split; [reflexivity|]. split; [reflexivity|]. split; [reflexivity|].
    split; [reflexivity|]. split.
    + intros l Hl. right. unfold static_locs in Hl. cbn [staticRouteMap with_static] in Hl.
      apply list_elem_of_fmap in Hl as ([k v] & -> & Hin).
      apply elem_of_obj_assign in Hin as [Hin|Hin].
      * apply list_elem_of_fmap. exists (k, v). auto.
      * rewrite Hstm in Hin. apply elem_of_nil in Hin as [].
    + intros k. unfold merged. rewrite resolve_static_empty, Hempty.
      rewrite !resolve_static.
      cbn [staticRouteMap with_static].
      rewrite obj_get_assign by exact Hkeys. rewrite Hstm.
      destruct (obj_get (staticRouteMap sm) k); reflexivity.
  - (* the target's map is not empty: key by key *)
    apply obj_is_empty_false in Hempty as Hstm. specialize (Hcov Hstm).
    set (I := fun (done : list (string * loc)) (w' : World) =>
      routers w' = routers w /\ arrays w' = arrays w
      /\ length (records w') = length (records w)
      /\ (forall l, l ∉ static_locs tm -> records w' !! l = records w !! l)
      /\ forall k lt, obj_get (staticRouteMap tm) k = Some lt ->
           records w' !!! lt
           = if bool_decide (k ∈ done.*1)
             then records w !!! lt
                  ++ default [] ((fun l => records w !!! l) <$> obj_get (staticRouteMap sm) k)
             else records w !!! lt).
    apply wp_for_each_done with (I := I).
    + unfold I. repeat split; try reflexivity.
    + intros done [k v] rest w' Hsplit (Hr & Ha & Hlen & Hframe & Hrec).
      cbn [fst]. unfold merge_static_key.
      assert (HT' : routers w' !! t = Some T) by (rewrite Hr; exact HT).
      assert (HS' : routers w' !! s = Some S) by (rewrite Hr; exact HS).
      assert (Hkv : obj_get (staticRouteMap sm) k = Some v).
      { apply obj_get_NoDup; [exact Hkeys|]. rewrite Hsplit.
        apply elem_of_app. right. apply list_elem_of_here. }
      assert (Hfresh : k ∉ done.*1).
      { rewrite Hsplit, fmap_app, fmap_cons in Hkeys. cbn [fst] in Hkeys.
        apply NoDup_app in Hkeys as (_ & Hk & _). intros Hin.
        apply (Hk k Hin). apply list_elem_of_here. }
      destruct (Hcov k) as [lt Hlt]; [rewrite Hkv; eauto|].
      assert (Hlt_in : lt ∈ static_locs tm) by (eapply obj_get_loc; exact Hlt).
      assert (Hv_in : v ∈ static_locs sm) by (eapply obj_get_loc; exact Hkv).
      assert (Hlt_alloc : lt < length (records w')).
      { rewrite Hlen. rewrite Forall_forall in Halloc_t. auto. }
      assert (Hv_alloc : v < length (records w')).
      { rewrite Hlen. rewrite Forall_forall in Halloc_s. auto. }
      apply (wp_bind_normal _ _ _ _ _ _ _ (get_map_known _ _ _ _ _ HT' Htm)).
      rewrite Hlt. apply wp_bind, wp_ret.
      apply (wp_bind_normal _ _ _ _ _ _ _
               (read_record_known _ _ _ (lookup_total_Some _ _ Hlt_alloc))).
      apply (wp_bind_normal _ _ _ _ _ _ _ (get_map_known _ _ _ _ _ HS' Hsm)).
      rewrite Hkv. apply wp_bind, wp_ret.
      apply (wp_bind_normal _ _ _ _ _ _ _
               (read_record_known _ _ _ (lookup_total_Some _ _ Hv_alloc))).
      apply wp_write_record.
      assert (Hv_same : records w' !!! v = records w !!! v).
      { rewrite !list_lookup_total_alt, Hframe; [reflexivity|].
        intros Hin. exact (Hdisj v Hin Hv_in). }
      rewrite (Hrec k lt Hlt), bool_decide_eq_false_2 by exact Hfresh.
      rewrite Hv_same.
      unfold I. cbn [routers arrays records set_records].
      split; [exact Hr|]. split; [exact Ha|].
      split; [rewrite length_insert; exact Hlen|]. split.
      * intros l Hl. rewrite list_lookup_insert_ne by congruence. apply Hframe, Hl.
      * intros k' lt' Hlt'. destruct (decide (lt' = lt)) as [->|Hne].
        -- assert (k' = k) as ->.
           { unfold static_locs in Hnd.
             apply obj_get_elem_of in Hlt, Hlt'.
             apply list_elem_of_lookup in Hlt as [a Ha1], Hlt' as [b Hb1].
             assert (a = b) as <-.
             { eapply NoDup_lookup; [exact Hnd| |];
                 rewrite list_lookup_fmap; [rewrite Ha1|rewrite Hb1]; reflexivity. }
             rewrite Ha1 in Hb1. congruence. }
           rewrite list_lookup_total_insert_eq by exact Hlt_alloc.
           rewrite bool_decide_eq_true_2, Hkv; [reflexivity|].
           rewrite fmap_app. apply elem_of_app. right. apply list_elem_of_here.
        -- rewrite list_lookup_total_insert_ne by congruence.
           rewrite (Hrec k' lt' Hlt').
           assert (Hkk : k' <> k) by (intros ->; congruence).
           rewrite fmap_app. cbn [fmap list_fmap fst].
           destruct (bool_decide (k' ∈ done.*1)) eqn:Hdone.
           ++ rewrite bool_decide_eq_true_2; [reflexivity|].
              apply elem_of_app. left. apply bool_decide_eq_true in Hdone. exact Hdone.
           ++ rewrite bool_decide_eq_false_2; [reflexivity|].
              apply bool_decide_eq_false in Hdone.
              rewrite elem_of_app, list_elem_of_singleton. tauto.
    + intros w' (Hr & Ha & Hlen & Hframe & Hrec). exists tm.
      split; [rewrite Hr, (list_insert_id T i tm Htm), (list_insert_id _ t T HT);
              reflexivity|].
      split; [reflexivity|]. split; [exact Ha|]. split; [exact Hlen|].
      split; [exact Hframe|]. split; [auto|].
      intros k. unfold merged. rewrite resolve_static_empty, Hempty.
      rewrite !resolve_static.
      destruct (obj_get (staticRouteMap tm) k) as [lt|] eqn:Hlt; [|reflexivity].
      cbn [fmap option_fmap option_map]. rewrite (Hrec k lt Hlt).
      destruct (obj_get (staticRouteMap sm) k) as [v|] eqn:Hkv.
      * rewrite bool_decide_eq_true_2; [reflexivity|].
        apply obj_get_elem_of in Hkv. apply list_elem_of_fmap. exists (k, v). auto.
      * rewrite bool_decide_eq_false_2; [cbn; rewrite app_nil_r; reflexivity|].
        apply obj_get_None. exact Hkv.
Qed.

Lemma resolve_named_alloc w rm b l :
  obj_get (namedRoutePartitionMap rm) b = Some l ->
  obj_get (namedRoutePartitionMap (resolve w rm)) b = Some (arrays w !!! l).
Proof. intros Hl. rewrite resolve_named, Hl. reflexivity. Qed.

(** The partition maps of one method. *)
Lemma merge_named_spec w t s i T S tm sm :
  routers w !! t = Some T -> T !! i = Some tm ->
  routers w !! s = Some S -> S !! i = Some sm -> s <> t ->
  NoDup (namedRoutePartitionMap sm).*1 ->
  Forall (fun l => l < length (arrays w)) (named_locs tm) ->
  Forall (fun l => l < length (arrays w)) (named_locs sm) ->
  wp (merge_named t s i)
     (fun _ w' => exists tm',
        routers w' = <[t := <[i := tm']> T]> (routers w)
        /\ staticRouteMap tm' = staticRouteMap tm
        /\ records w' = records w
        /\ (forall l es, arrays w !! l = Some es -> arrays w' !! l = Some es)
        /\ Forall (fun l => l < length (arrays w')) (named_locs tm')
        /\ forall b, obj_get (namedRoutePartitionMap (resolve w' tm')) b
                     = merged (namedRoutePartitionMap (resolve w tm))
                              (namedRoutePartitionMap (resolve w sm)) b)
     (fun _ => False) w.
Proof.
  intros HT Htm HS Hsm Hst Hkeys Halloc_t Halloc_s.
  pose proof (lookup_lt_Some _ _ _ HT) as Ht_lt.
  pose proof (lookup_lt_Some _ _ _ Htm) as Hi_lt.
  unfold merge_named.
  apply (wp_bind_normal _ _ _ _ _ _ _ (get_map_known _ _ _ _ _ HT Htm)).
  apply (wp_bind_normal _ _ _ _ _ _ _ (get_map_known _ _ _ _ _ HS Hsm)).
  destruct (obj_is_empty (namedRoutePartitionMap tm)) eqn:Hempty.
  - apply obj_is_empty_true in Hempty as Hntm.
    apply wp_set_map.
    exists (with_named tm (obj_assign (namedRoutePartitionMap tm)
                             (namedRoutePartitionMap sm))).
    split; [apply put_map_routers; exact HT|].
    split; [reflexivity|]. split; [reflexivity|]. split; [auto|]. split.
    + apply Forall_forall. intros l Hl. unfold named_locs in Hl.
      cbn [namedRoutePartitionMap with_named] in Hl.
      apply list_elem_of_fmap in Hl as ([b v] & -> & Hin).
      apply elem_of_obj_assign in Hin as [Hin|Hin].
      * rewrite Forall_forall in Halloc_s. apply Halloc_s.
        apply list_elem_of_fmap. exists (b, v). auto.
      * rewrite Hntm in Hin. apply elem_of_nil in Hin as [].
    + intros b. unfold merged. rewrite resolve_named_empty, Hempty.
      rewrite !resolve_named. cbn [namedRoutePartitionMap with_named].
      rewrite obj_get_assign by exact Hkeys. rewrite Hntm.
      destruct (obj_get (namedRoutePartitionMap sm) b); reflexivity.
  - set (I := fun (done : list (nat * loc)) (w' : World) => exists tmc,
      routers w' = <[t := <[i := tmc]> T]> (routers w)
      /\ staticRouteMap tmc = staticRouteMap tm
      /\ records w' = records w
      /\ (forall l es, arrays w !! l = Some es -> arrays w' !! l = Some es)
      /\ Forall (fun l => l < length (arrays w')) (named_locs tmc)
      /\ forall b, obj_get (namedRoutePartitionMap (resolve w' tmc)) b
           = match obj_get (namedRoutePartitionMap (resolve w tm)) b with
             | Some mine =>
                 Some (mine ++ if bool_decide (b ∈ done.*1)
                               then default [] (obj_get (namedRoutePartitionMap
                                                           (resolve w sm)) b)
                               else [])
             | None => None
             end).
    apply wp_for_each_done with (I := I).
    + exists tm. split.
      { rewrite (list_insert_id T i tm Htm), (list_insert_id _ t T HT). reflexivity. }
      split; [reflexivity|]. split; [reflexivity|]. split; [auto|].
      split; [exact Halloc_t|].
      intros b. destruct (obj_get (namedRoutePartitionMap (resolve w tm)) b);
        [|reflexivity].
      rewrite bool_decide_eq_false_2 by apply not_elem_of_nil.
      rewrite app_nil_r. reflexivity.
    + intros done [k v] rest w' Hsplit (tmc & Hr & Hstc & Hrec & Hpre & Halloc & Hget).
      cbn [fst]. unfold merge_named_key.
      assert (HT' : routers w' !! t = Some (<[i := tmc]> T)).
      { rewrite Hr. apply list_lookup_insert_eq. exact Ht_lt. }
      assert (Htmc : <[i := tmc]> T !! i = Some tmc).
      { apply list_lookup_insert_eq. exact Hi_lt. }
      assert (HS' : routers w' !! s = Some S).
      { rewrite Hr, list_lookup_insert_ne by congruence. exact HS. }
      assert (Hkv : obj_get (namedRoutePartitionMap sm) k = Some v).
      { apply obj_get_NoDup; [exact Hkeys|]. rewrite Hsplit.
        apply elem_of_app. right. apply list_elem_of_here. }
      assert (Hfresh : k ∉ done.*1).
      { rewrite Hsplit, fmap_app, fmap_cons in Hkeys. cbn [fst] in Hkeys.
        apply NoDup_app in Hkeys as (_ & Hk & _). intros Hin.
        apply (Hk k Hin). apply list_elem_of_here. }
      assert (Hdone' : forall b, b <> k ->
                bool_decide (b ∈ (done ++ [(k, v)]).*1) = bool_decide (b ∈ done.*1)).
      { intros b Hb. apply bool_decide_ext. rewrite fmap_app, elem_of_app.
        cbn [fmap list_fmap fst]. rewrite list_elem_of_singleton. tauto. }
      apply (wp_bind_normal _ _ _ _ _ _ _ (get_map_known _ _ _ _ _ HT' Htmc)).
      destruct (obj_get (namedRoutePartitionMap tmc) k) as [lt|] eqn:Hlt.
      * (* the bucket is in both maps *)
        assert (Hlt_alloc : lt < length (arrays w')).
        { rewrite Forall_forall in Halloc. apply Halloc. eapply obj_get_loc; exact Hlt. }
        assert (Hv_alloc : v < length (arrays w)).
        { rewrite Forall_forall in Halloc_s. apply Halloc_s. eapply obj_get_loc; exact Hkv. }
        pose proof (Hpre v _ (lookup_total_Some _ _ Hv_alloc)) as Hv'.
        apply (wp_bind_normal _ _ _ _ _ _ _
                 (read_array_known _ _ _ (lookup_total_Some _ _ Hlt_alloc))).
        apply (wp_bind_normal _ _ _ _ _ _ _ (get_map_known _ _ _ _ _ HS' Hsm)).
        rewrite Hkv. apply wp_bind, wp_ret.
        apply (wp_bind_normal _ _ _ _ _ _ _ (read_array_known _ _ _ Hv')).
        apply wp_bind, wp_alloc_array.
        set (fresh := arrays w' !!! lt ++ arrays w !!! v).
        set (w2 := set_arrays (fun h => h ++ [fresh]) w').
        assert (HT2 : routers w2 !! t = Some (<[i := tmc]> T)) by exact HT'.
        apply (wp_bind_normal _ _ _ _ _ _ _ (get_map_known _ _ _ _ _ HT2 Htmc)).
        apply wp_set_map.
        set (tm2 := with_named tmc (obj_set (namedRoutePartitionMap tmc) k
                                      (length (arrays w')))).
        exists tm2. split.
        { rewrite (put_map_routers _ _ _ _ _ HT2). unfold w2. cbn [routers set_arrays].
          rewrite Hr, list_insert_insert_eq, list_insert_insert_eq. reflexivity. }
        split; [exact Hstc|]. split; [exact Hrec|]. split.
        { intros l es Hl. cbn [arrays put_map set_routers w2 set_arrays].
          apply lookup_app_l_Some. apply Hpre, Hl. }
        split.
        { apply Forall_forall. intros l Hl. cbn [arrays put_map set_routers w2 set_arrays].
          rewrite length_app. simpl. unfold named_locs, tm2 in Hl.
          cbn [namedRoutePartitionMap with_named] in Hl.
          apply list_elem_of_fmap in Hl as ([b l'] & -> & Hin).
          apply elem_of_obj_set in Hin as [[= -> ->]|Hin]; [simpl; lia|].
          rewrite Forall_forall in Halloc.
          assert (l' < length (arrays w')); [|simpl; lia].
          apply Halloc. apply list_elem_of_fmap. exists (b, l'). auto. }
        intros b. rewrite resolve_named. unfold tm2.
        cbn [namedRoutePartitionMap with_named arrays put_map set_routers w2 set_arrays].
        rewrite obj_get_set.
        pose proof (Hget k) as Hgk. rewrite (resolve_named_alloc _ _ _ _ Hlt) in Hgk.
        rewrite bool_decide_eq_false_2 in Hgk by exact Hfresh.
        destruct (decide (k = b)) as [<-|Hne].
        -- cbn [fmap option_fmap option_map].
           rewrite list_lookup_total_middle by reflexivity.
           destruct (obj_get (namedRoutePartitionMap (resolve w tm)) k) as [mine|];
             [|discriminate].
           injection Hgk as Hmine. rewrite app_nil_r in Hmine.
           rewrite bool_decide_eq_true_2
             by (rewrite fmap_app; apply elem_of_app; right; apply list_elem_of_here).
           rewrite (resolve_named_alloc _ _ _ _ Hkv). cbn [default].
           unfold fresh. rewrite Hmine. reflexivity.
        -- rewrite Hdone' by congruence. rewrite <- Hget, resolve_named.
           destruct (obj_get (namedRoutePartitionMap tmc) b) as [l|] eqn:Hl;
             [|reflexivity].
           cbn [fmap option_fmap option_map]. f_equal.
           apply lookup_total_app_l.
           rewrite Forall_forall in Halloc. apply Halloc. eapply obj_get_loc; exact Hl.
      * (* the bucket is not in the target's map *)
        apply wp_ret. exists tmc. split; [exact Hr|]. split; [exact Hstc|].
        split; [exact Hrec|]. split; [exact Hpre|]. split; [exact Halloc|].
        intros b. rewrite Hget. destruct (decide (b = k)) as [->|Hne].
        -- pose proof (Hget k) as Hgk. rewrite resolve_named, Hlt in Hgk.
           destruct (obj_get (namedRoutePartitionMap (resolve w tm)) k);
             [discriminate|reflexivity].
        -- rewrite Hdone' by exact Hne. reflexivity.
    + intros w' (tmc & Hr & Hstc & Hrec & Hpre & Halloc & Hget). exists tmc.
      split; [exact Hr|]. split; [exact Hstc|]. split; [exact Hrec|].
      split; [exact Hpre|]. split; [exact Halloc|].
      intros b. rewrite Hget. unfold merged. rewrite resolve_named_empty, Hempty.
      destruct (obj_get (namedRoutePartitionMap (resolve w tm)) b) as [mine|];
        [|reflexivity].
      destruct (obj_get (namedRoutePartitionMap (resolve w sm)) b) as [theirs|] eqn:Hs.
      * rewrite bool_decide_eq_true_2; [reflexivity|].
        rewrite resolve_named in Hs.
        destruct (obj_get (namedRoutePartitionMap sm) b) as [v|] eqn:Hv; [|discriminate].
        apply obj_get_elem_of in Hv. apply list_elem_of_fmap. exists (b, v). auto.
      * destruct (bool_decide _); reflexivity.
Qed.

Lemma elem_of_concat_lookup {A} (ls : list (list A)) i a x :
  ls !! i = Some a -> x ∈ a -> x ∈ concat ls.
Proof.
  revert i. induction ls as [|a0 ls IH]; intros [|i] Hi Hx; try discriminate;
    simpl in *; apply elem_of_app.
  - injection Hi as ->. auto.
  - right. eapply IH; eauto.
Qed.

Lemma NoDup_concat_lookup {A} (ls : list (list A)) i a :
  NoDup (concat ls) -> ls !! i = Some a ->
  NoDup a
  /\ forall j b x, ls !! j = Some b -> i <> j -> x ∈ a -> x ∉ b.
Proof.
  revert i. induction ls as [|a0 ls IH]; intros [|i] Hnd Hi; try discriminate;
    simpl in *; apply NoDup_app in Hnd as (Hnd0 & Hdisj & Hnd').
  - injection Hi as ->. split; [exact Hnd0|].
    intros [|j] b x Hj Hne Hx Hxb; [congruence|].
    apply (Hdisj x Hx). eapply elem_of_concat_lookup; eauto.
  - destruct (IH i Hnd' Hi) as [Hnda Hother]. split; [exact Hnda|].
    intros [|j] b x Hj Hne Hx Hxb.
    + injection Hj as ->. apply (Hdisj x Hxb). eapply elem_of_concat_lookup; eauto.
    + eapply (Hother j b x); eauto.
Qed.

Lemma resolve_static_ext w1 w2 rm :
  (forall l, l ∈ static_locs rm -> records w1 !!! l = records w2 !!! l) ->
  staticRouteMap (resolve w1 rm) = staticRouteMap (resolve w2 rm).
Proof.
  intros Hsame. unfold resolve. cbn [staticRouteMap].
  apply list_fmap_ext. intros j [k l] Hj. cbn [fst snd]. f_equal.
  apply Hsame. apply list_elem_of_fmap. exists (k, l). split; [reflexivity|].
  eapply list_elem_of_lookup_2; exact Hj.
Qed.

Lemma resolve_named_ext w1 w2 rm :
  (forall l, l ∈ named_locs rm -> arrays w1 !!! l = arrays w2 !!! l) ->
  namedRoutePartitionMap (resolve w1 rm) = namedRoutePartitionMap (resolve w2 rm).
Proof.
  intros Hsame. unfold resolve. cbn [namedRoutePartitionMap].
  apply list_fmap_ext. intros j [k l] Hj. cbn [fst snd]. f_equal.
  apply Hsame. apply list_elem_of_fmap. exists (k, l). split; [reflexivity|].
  eapply list_elem_of_lookup_2; exact Hj.
Qed.

Lemma prefix_lookup_total (h h' : list (list NamedRouteCallback)) l :
  (forall l es, h !! l = Some es -> h' !! l = Some es) ->
  l < length h -> h' !!! l = h !!! l.
Proof.
  intros Hpre Hl. apply list_lookup_total_correct, Hpre, lookup_total_Some, Hl.
Qed.

Lemma prefix_length (h h' : list (list NamedRouteCallback)) l :
  (forall l es, h !! l = Some es -> h' !! l = Some es) ->
  l < length h -> l < length h'.
Proof.
  intros Hpre Hl. eapply lookup_lt_Some. apply Hpre, lookup_total_Some, Hl.
Qed.

(** The outcome of a mount without a prefix on a well-formed store, key by
    key, when source and target are two routers, no [{callbacks}] record
    of the target is held twice or held by the source as well, and the
    static maps of the target that are not empty have all the keys of the
    source's. *)
Lemma merge_result_pointwise (w : World) (t s : nat) (T S : Router) :
  routers w !! t = Some T -> routers w !! s = Some S -> s <> t ->
  length S <= length T ->
  Forall (table_wf w) T -> Forall (table_wf w) S ->
  no_shared_records T S -> covers T S ->
  exists w',
    mergeRouterMaps t s w = (w', Normal tt)
    /\ forall i tv sv,
         httpMethodMap w t !! i = Some tv -> httpMethodMap w s !! i = Some sv ->
         exists tv',
           httpMethodMap w' t !! i = Some tv'
           /\ (forall k, obj_get (staticRouteMap tv') k
                         = merged (staticRouteMap tv) (staticRouteMap sv) k)
           /\ (forall b, obj_get (namedRoutePartitionMap tv') b
                         = merged (namedRoutePartitionMap tv)
                                  (namedRoutePartitionMap sv) b).
Proof.
  intros HT HS Hst Hlen HwfT HwfS [HndT HdisjTS] Hcov.
  rewrite Forall_forall in HdisjTS.
  pose proof (lookup_lt_Some _ _ _ HT) as Ht_lt.
  rewrite Forall_forall in HwfT, HwfS.
  set (I := fun (done : list nat) (w' : World) =>
    routers w' !! s = Some S
    /\ length (records w') = length (records w)
    /\ (forall l, (forall j tmj, j ∈ done -> T !! j = Some tmj -> l ∉ static_locs tmj) ->
                  records w' !! l = records w !! l)
    /\ (forall l es, arrays w !! l = Some es -> arrays w' !! l = Some es)
    /\ exists T',
         routers w' !! t = Some T' /\ length T' = length T
         /\ (forall j, j ∉ done -> T' !! j = T !! j)
         /\ forall j tmj smj, j ∈ done -> T !! j = Some tmj -> S !! j = Some smj ->
              exists tm',
                T' !! j = Some tm'
                /\ (forall l, l ∈ static_locs tm' ->
                      l ∈ static_locs tmj \/ l ∈ static_locs smj)
                /\ Forall (fun l => l < length (arrays w')) (named_locs tm')
                /\ (forall k, obj_get (staticRouteMap (resolve w' tm')) k
                      = merged (staticRouteMap (resolve w tmj))
                               (staticRouteMap (resolve w smj)) k)
                /\ (forall b, obj_get (namedRoutePartitionMap (resolve w' tm')) b
                      = merged (namedRoutePartitionMap (resolve w tmj))
                               (namedRoutePartitionMap (resolve w smj)) b)).
  assert (Hwp : wp (mergeRouterMaps t s)
                   (fun _ w' => I (seq 0 (length S)) w') (fun _ => False) w).
  { unfold mergeRouterMaps.
    apply (wp_bind_normal _ _ _ _ _ _ _ (get_router_known _ _ _ HS)).
    apply wp_for_each_done with (I := I); [| |auto].
    { split; [exact HS|]. split; [reflexivity|]. split; [reflexivity|].
      split; [auto|]. exists T. split; [exact HT|]. split; [reflexivity|].
      split; [reflexivity|]. intros j tmj smj Hj. apply elem_of_nil in Hj as []. }
    intros done i rest w1 Hsplit (HS1 & Hlen1 & Hframe1 & Hpre1 & T1 & HT1 & HlenT1 & Hsame1 & Hdone1).
    (* the method [i] has not been handled yet *)
    assert (Hi_fresh : i ∉ done).
    { pose proof (NoDup_seq 0 (length S)) as Hnd. rewrite Hsplit in Hnd.
      apply NoDup_app in Hnd as (_ & Hnd & _). intros Hin.
      apply (Hnd i Hin). apply list_elem_of_here. }
    assert (Hi_lt : i < length S).
    { assert (Hin : i ∈ seq 0 (length S))
        by (rewrite Hsplit; apply elem_of_app; right; apply list_elem_of_here).
      apply elem_of_seq in Hin. lia. }
    destruct (lookup_lt_is_Some_2 S i Hi_lt) as [sm Hsm].
    destruct (lookup_lt_is_Some_2 T i ltac:(lia)) as [tm Htm].
    assert (Htm1 : T1 !! i = Some tm) by (rewrite Hsame1 by exact Hi_fresh; exact Htm).
    destruct (HwfT tm (list_elem_of_lookup_2 _ _ _ Htm)) as (_ & _ & HallocT & HallocTn).
    destruct (HwfS sm (list_elem_of_lookup_2 _ _ _ Hsm)) as (HkeysS & HkeysSn & HallocS & HallocSn).
    assert (Hloc_tm : (static_locs <$> T) !! i = Some (static_locs tm))
      by (rewrite list_lookup_fmap, Htm; reflexivity).
    destruct (NoDup_concat_lookup _ _ _ HndT Hloc_tm) as [Hnd_tm Hother].
    assert (Hin_T : forall l, l ∈ static_locs tm -> l ∈ concat (static_locs <$> T))
      by (intros l; eapply elem_of_concat_lookup; exact Hloc_tm).
    assert (Hin_S : forall j smj l, S !! j = Some smj -> l ∈ static_locs smj ->
                      l ∈ concat (static_locs <$> S)).
    { intros j smj l Hj. eapply elem_of_concat_lookup.
      rewrite list_lookup_fmap, Hj. reflexivity. }
    (* what the earlier methods have left untouched *)
    assert (Hrec_tm : forall l, l ∈ static_locs tm -> records w1 !!! l = records w !!! l).
    { intros l Hl. rewrite !list_lookup_total_alt, Hframe1; [reflexivity|].
      intros j tmj Hj Htmj Hlj.
      assert (Hji : i <> j) by (intros ->; contradiction).
      eapply (Hother j (static_locs tmj) l); eauto.
      rewrite list_lookup_fmap, Htmj. reflexivity. }
    assert (Hrec_S : forall j smj l, S !! j = Some smj -> l ∈ static_locs smj ->
                       forall w2, (forall l', (forall j' tmj, j' ∈ done ++ [i] ->
                                      T !! j' = Some tmj -> l' ∉ static_locs tmj) ->
                                    records w2 !! l' = records w !! l') ->
                       records w2 !!! l = records w !!! l).
    { intros j smj l Hj Hl w2 Hframe2.
      rewrite !list_lookup_total_alt, Hframe2; [reflexivity|].
      intros j' tmj Hj' Htmj Hlj. apply (HdisjTS l).
      - eapply elem_of_concat_lookup; [|exact Hlj].
        rewrite list_lookup_fmap, Htmj. reflexivity.
      - eapply Hin_S; eauto. }
    assert (Hrec_sm : forall l, l ∈ static_locs sm -> records w1 !!! l = records w !!! l).
    { intros l Hl. rewrite !list_lookup_total_alt, Hframe1; [reflexivity|].
      intros j tmj Hj Htmj Hlj. apply (HdisjTS l).
      - eapply elem_of_concat_lookup; [|exact Hlj].
        rewrite list_lookup_fmap, Htmj. reflexivity.
      - eapply Hin_S; eauto. }
    apply wp_bind. eapply wp_mono.
    { apply (merge_static_spec w1 t s i T1 S tm sm HT1 Htm1 HS1 Hsm HkeysS).
      - rewrite Hlen1. exact HallocT.
      - rewrite Hlen1. exact HallocS.
      - exact Hnd_tm.
      - intros l Hl Hls. apply (HdisjTS l (Hin_T l Hl)). eapply Hin_S; eauto.
      - intros Hne k Hk. eapply Hcov; eauto. }
    2: { intros ? []. }
    intros u w2 (tm1 & Hr2 & Hnamed1 & Harr2 & Hlen2 & Hframe2 & Hsub1 & Hstatic1).
    assert (HT2 : routers w2 !! t = Some (<[i := tm1]> T1)).
    { rewrite Hr2. apply list_lookup_insert_eq. eapply lookup_lt_Some; exact HT1. }
    assert (Htm2 : <[i := tm1]> T1 !! i = Some tm1).
    { apply list_lookup_insert_eq. eapply lookup_lt_Some; exact Htm1. }
    assert (HS2 : routers w2 !! s = Some S).
    { rewrite Hr2, list_lookup_insert_ne by congruence. exact HS1. }
    eapply wp_mono.
    { apply (merge_named_spec w2 t s i (<[i := tm1]> T1) S tm1 sm HT2 Htm2 HS2 Hsm Hst HkeysSn).
      - unfold named_locs. rewrite Hnamed1, Harr2.
        eapply Forall_impl; [exact HallocTn|]. intros l. apply prefix_length, Hpre1.
      - rewrite Harr2.
        eapply Forall_impl; [exact HallocSn|]. intros l. apply prefix_length, Hpre1. }
    2: { intros ? []. }
    intros u' w3 (tm2 & Hr3 & Hstatic2 & Hrec3 & Hpre3 & Halloc3 & Hnamed3).
    (* the invariant, with the method [i] handled *)
    assert (Hpre13 : forall l es, arrays w1 !! l = Some es -> arrays w3 !! l = Some es).
    { intros l es Hl. apply Hpre3. rewrite Harr2. exact Hl. }
    assert (Hframe3 : forall l, (forall j tmj, j ∈ done ++ [i] -> T !! j = Some tmj ->
                                   l ∉ static_locs tmj) ->
                                records w3 !! l = records w !! l).
    { intros l Hl. rewrite Hrec3, Hframe2.
      - apply Hframe1. intros j tmj Hj. apply Hl, elem_of_app. auto.
      - apply (Hl i tm); [|exact Htm]. apply elem_of_app. right. apply list_elem_of_here. }
    split.
    { rewrite Hr3, list_lookup_insert_ne by congruence. exact HS2. }
    split; [rewrite Hrec3, Hlen2; exact Hlen1|].
    split; [exact Hframe3|]. split; [auto|].
    exists (<[i := tm2]> T1).
    split.
    { rewrite Hr3, list_insert_insert_eq.
      apply list_lookup_insert_eq. eapply lookup_lt_Some; exact HT2. }
    split; [rewrite length_insert; exact HlenT1|].
    split.
    { intros j Hj. rewrite elem_of_app, list_elem_of_singleton in Hj.
      rewrite list_lookup_insert_ne by (intros ->; tauto). apply Hsame1. tauto. }
    intros j tmj smj Hj Htmj Hsmj.
    apply elem_of_app in Hj as [Hj|Hj].
    - (* a method handled before *)
      assert (Hji : i <> j) by (intros ->; contradiction).
      destruct (Hdone1 j tmj smj Hj Htmj Hsmj) as (tm' & Htm' & Hsub & Halloc & Hs & Hn).
      exists tm'. split; [rewrite list_lookup_insert_ne by exact Hji; exact Htm'|].
      split; [exact Hsub|]. split.
      { eapply Forall_impl; [exact Halloc|]. intros l. apply prefix_length, Hpre13. }
      split.
      + intros k. rewrite <- Hs. f_equal. apply resolve_static_ext.
        intros l Hl. rewrite !list_lookup_total_alt, Hrec3, Hframe2; [reflexivity|].
        intros Hltm. destruct (Hsub l Hl) as [Hlj|Hlj].
        * eapply (Hother j (static_locs tmj) l); eauto.
          rewrite list_lookup_fmap, Htmj. reflexivity.
        * apply (HdisjTS l (Hin_T l Hltm)). eapply Hin_S; eauto.
      + intros b. rewrite <- Hn. f_equal. apply resolve_named_ext.
        intros l Hl. apply prefix_lookup_total; [exact Hpre13|].
        rewrite Forall_forall in Halloc. apply Halloc, Hl.
    - (* the method [i] *)
      apply list_elem_of_singleton in Hj as ->.
      rewrite Htm in Htmj. injection Htmj as <-.
      rewrite Hsm in Hsmj. injection Hsmj as <-.
      exists tm2. split.
      { apply list_lookup_insert_eq. rewrite HlenT1. eapply lookup_lt_Some; exact Htm. }
      split.
      { unfold static_locs. rewrite Hstatic2. exact Hsub1. }
      split; [exact Halloc3|]. split.
      + intros k.
        assert (Heq : staticRouteMap (resolve w3 tm2) = staticRouteMap (resolve w2 tm1)).
        { unfold resolve. cbn [staticRouteMap]. rewrite Hstatic2, Hrec3. reflexivity. }
        rewrite Heq, Hstatic1. f_equal; apply resolve_static_ext; assumption.
      + intros b. rewrite Hnamed3. f_equal.
        * unfold resolve. cbn [namedRoutePartitionMap]. rewrite Hnamed1, Harr2.
          apply (resolve_named_ext w1 w tm). intros l Hl.
          apply prefix_lookup_total; [exact Hpre1|].
          rewrite Forall_forall in HallocTn. apply HallocTn, Hl.
        * rewrite (resolve_named_ext w2 w1 sm) by (intros; rewrite Harr2; reflexivity).
          apply resolve_named_ext. intros l Hl.
          apply prefix_lookup_total; [exact Hpre1|].
          rewrite Forall_forall in HallocSn. apply HallocSn, Hl. }
  unfold wp in Hwp. destruct (mergeRouterMaps t s w) as [w' [[]|]]; [|contradiction].
  exists w'. split; [reflexivity|].
  destruct Hwp as (_ & _ & _ & _ & T' & HT' & _ & _ & Hdone).
  intros i tv sv Htv Hsv.
  destruct (httpMethodMap_lookup _ _ _ _ Htv) as (T0 & tm & HT0 & Htm & ->).
  destruct (httpMethodMap_lookup _ _ _ _ Hsv) as (S0 & sm & HS0 & Hsm & ->).
  rewrite HT in HT0. injection HT0 as <-.
  rewrite HS in HS0. injection HS0 as <-.
  destruct (Hdone i tm sm) as (tm' & Htm' & _ & _ & Hs & Hn); [|exact Htm|exact Hsm|].
  { apply elem_of_seq. split; [lia|]. simpl. eapply lookup_lt_Some; exact Hsm. }
  exists (resolve w' tm'). split; [|split; assumption].
  exact (httpMethodMap_resolve _ _ _ _ _ HT' Htm').
Qed.

(** ** Strings *)

Lemma append_cons c s t : String c s +:+ t = String c (s +:+ t).
Proof. reflexivity. Qed.

Lemma append_nil_r s : s +:+ "" = s.
Proof.
  induction s as [|c s IH]; [reflexivity|]. rewrite append_cons, IH. reflexivity.
Qed.

Lemma append_assoc s1 s2 s3 : (s1 +:+ s2) +:+ s3 = s1 +:+ s2 +:+ s3.
Proof.
  induction s1 as [|c s1 IH]; [reflexivity|]. rewrite !append_cons, IH. reflexivity.
Qed.

Lemma plain_not_slash c : is_plain_char c = true -> Ascii.eqb c "/" = false.
Proof. destruct c as [[] [] [] [] [] [] [] []]; vm_compute; congruence. Qed.

Lemma plain_not_paren c : is_plain_char c = true -> Ascii.eqb c "(" = false.
Proof. destruct c as [[] [] [] [] [] [] [] []]; vm_compute; congruence. Qed.

Lemma plain_literal c :
  is_plain_char c = true -> Ascii.eqb c "." = false -> Regex.is_literal c = true.
Proof. destruct c as [[] [] [] [] [] [] [] []]; vm_compute; congruence. Qed.

Lemma segment_char_plain c : JsString.is_segment_char c = true -> is_plain_char c = true.
Proof. unfold is_plain_char. intros ->. reflexivity. Qed.

Lemma forallb_segment_plain p :
  JsString.forallb JsString.is_segment_char p = true ->
  JsString.forallb is_plain_char p = true.
Proof.
  induction p as [|c p IH]; [reflexivity|]. simpl.
  intros [Hc Hp]%andb_true_iff. rewrite (segment_char_plain c Hc). auto.
Qed.

(** Splitting on the slash. *)
Lemma split_plain seg :
  JsString.forallb is_plain_char seg = true -> JsString.split "/" seg = [seg].
Proof.
  induction seg as [|c seg IH]; [reflexivity|]. simpl.
  intros [Hc Hp]%andb_true_iff.
  rewrite (plain_not_slash c Hc), (IH Hp). reflexivity.
Qed.

Lemma split_plain_slash seg rest :
  JsString.forallb is_plain_char seg = true ->
  JsString.split "/" (seg +:+ String "/" rest) = seg :: JsString.split "/" rest.
Proof.
  induction seg as [|c seg IH]; [reflexivity|].
  rewrite append_cons. simpl.
  intros [Hc Hp]%andb_true_iff.
  rewrite (plain_not_slash c Hc), (IH Hp). reflexivity.
Qed.

Lemma slashed_cons seg segs :
  slashed (seg :: segs) = String "/" (seg +:+ slashed segs).
Proof. reflexivity. Qed.

Lemma split_slash s : JsString.split "/" (String "/" s) = "" :: JsString.split "/" s.
Proof. reflexivity. Qed.

Lemma split_slashed segs :
  Forall (fun seg => JsString.forallb is_plain_char seg = true) segs ->
  segs <> [] ->
  JsString.split "/" (slashed segs) = "" :: segs.
Proof.
  induction segs as [|seg segs IH]; intros Hall Hne; [congruence|].
  apply Forall_cons_1 in Hall as [Hseg Hall].
  rewrite slashed_cons, split_slash. f_equal.
  destruct segs as [|seg' segs].
  - change (slashed []) with "". rewrite append_nil_r. apply split_plain, Hseg.
  - specialize (IH Hall ltac:(discriminate)).
    rewrite slashed_cons in IH |- *. rewrite split_slash in IH.
    rewrite (split_plain_slash seg _ Hseg). congruence.
Qed.

Lemma slashed_join segs :
  segs <> [] -> "/" +:+ JsString.join "/" segs = slashed segs.
Proof.
  induction segs as [|seg segs IH]; intros Hne; [congruence|].
  destruct segs as [|seg' segs].
  - rewrite slashed_cons. change (slashed []) with "".
    rewrite append_nil_r. reflexivity.
  - change (JsString.join "/" (seg :: seg' :: segs))
      with (seg +:+ "/" +:+ JsString.join "/" (seg' :: segs)).
    rewrite slashed_cons, <- IH by discriminate. reflexivity.
Qed.

(** ** The key of a pattern of safe characters *)

Lemma captures_cons p ps k ks :
  captures (p :: ps) (k :: ks)
  = (if JsString.startsWith ":" k then [(JsString.substring1 k, p)] else [])
    ++ captures ps ks.
Proof. unfold captures. simpl. destruct (JsString.startsWith ":" k); reflexivity. Qed.

Lemma search_key_fold ks : forall names text,
  foldl search_key_step (names, text) ks
  = (names ++ omap (fun k => if JsString.startsWith ":" k
                             then Some (JsString.substring1 k) else None) ks,
     text +:+ slashed (key_piece <$> ks)).
Proof.
  induction ks as [|k ks IH]; intros names text.
  - cbn [foldl]. change (slashed (key_piece <$> [])) with "".
    rewrite append_nil_r. cbn. rewrite app_nil_r. reflexivity.
  - cbn [foldl].
    destruct (search_key_step (names, text) k) as [names' text'] eqn:Hstep.
    rewrite IH. rewrite fmap_cons, slashed_cons.
    unfold search_key_step in Hstep. cbn [omap list_omap].
    cbn [fst snd] in Hstep.
    assert (Hpiece : key_piece k
                     = if JsString.startsWith ":" k then Regex.group_text else k)
      by reflexivity.
    rewrite Hpiece. clear Hpiece.
    destruct (JsString.startsWith ":" k); injection Hstep as <- <-.
    + rewrite <- app_assoc, append_assoc. reflexivity.
    + rewrite !append_assoc. reflexivity.
Qed.

Lemma createNamedRouteSearchKey_slashed ks :
  createNamedRouteSearchKey ("" :: ks)
  = (omap (fun k => if JsString.startsWith ":" k
                    then Some (JsString.substring1 k) else None) ks,
     slashed (key_piece <$> ks)).
Proof.
  unfold createNamedRouteSearchKey. cbn [foldl].
  change (search_key_step ([], "") "") with (@nil string, "/").
  rewrite search_key_fold. cbn [fst snd app].
  destruct ks as [|k ks]; [reflexivity|].
  cbn [fmap list_fmap]. rewrite slashed_cons. reflexivity.
Qed.

Lemma parse_literal k : forall rest,
  JsString.forallb is_plain_char k = true ->
  Regex.parse_from 0 (k +:+ rest)
  = app (nodes_of_string k) <$> Regex.parse_from 0 rest.
Proof.
  induction k as [|c k IH]; intros rest Hplain.
  - change ("" +:+ rest) with rest. cbn [nodes_of_string].
    destruct (Regex.parse_from 0 rest); reflexivity.
  - simpl in Hplain. apply andb_true_iff in Hplain as [Hc Hk].
    rewrite append_cons. cbn [Regex.parse_from nodes_of_string].
    rewrite (plain_not_paren c Hc), (IH rest Hk). unfold node_of.
    destruct (Ascii.eqb c ".") eqn:Hdot.
    + destruct (Regex.parse_from 0 rest); reflexivity.
    + rewrite (plain_literal c Hc Hdot).
      destruct (Regex.parse_from 0 rest); reflexivity.
Qed.

Lemma parse_group rest :
  Regex.parse_from 0 (Regex.group_text +:+ rest)
  = cons Regex.Segment <$> Regex.parse_from 0 rest.
Proof. reflexivity. Qed.

Lemma parse_slashed ks :
  Forall (fun k => JsString.forallb is_plain_char k = true) ks ->
  Regex.parse (slashed (key_piece <$> ks)) = Some (regex_of_segments ks).
Proof.
  unfold Regex.parse. induction ks as [|k ks IH]; intros Hall; [reflexivity|].
  apply Forall_cons_1 in Hall as [Hk Hall].
  cbn [fmap list_fmap]. rewrite slashed_cons.
  change (Regex.parse_from 0 (String "/" (key_piece k +:+ slashed (key_piece <$> ks))))
    with (cons (Regex.Lit "/")
            <$> Regex.parse_from 0 (key_piece k +:+ slashed (key_piece <$> ks))).
  cbn [regex_of_segments foldr]. unfold key_piece at 1, nodes_of_segment.
  destruct (JsString.startsWith ":" k).
  - rewrite parse_group. fold (regex_of_segments ks). rewrite (IH Hall). reflexivity.
  - rewrite (parse_literal k _ Hk). fold (regex_of_segments ks).
    rewrite (IH Hall). reflexivity.
Qed.

(** ** Matching the key against a URL that fits the pattern *)

Lemma match_literal k : forall r s,
  JsString.forallb is_plain_char k = true ->
  Regex.match_here (nodes_of_string k ++ r) (k +:+ s) = Regex.match_here r s.
Proof.
  induction k as [|c k IH]; intros r s Hplain; [reflexivity|].
  simpl in Hplain. apply andb_true_iff in Hplain as [Hc Hk].
  rewrite append_cons. cbn [nodes_of_string app]. unfold node_of.
  destruct (Ascii.eqb c ".") eqn:Hdot.
  - apply Ascii.eqb_eq in Hdot as ->. cbn [Regex.match_here].
    change (Regex.is_line_terminator ".") with false. cbv iota. apply IH, Hk.
  - cbn [Regex.match_here]. rewrite Ascii.eqb_refl. apply IH, Hk.
Qed.

Lemma segment_not_slash c : JsString.is_segment_char c = true -> c <> "/"%char.
Proof. intros Hc ->. vm_compute in Hc. discriminate. Qed.

Lemma greedy_segment k p : forall taken rest caps,
  p <> "" ->
  JsString.forallb JsString.is_segment_char p = true ->
  (rest = "" \/ exists rest', rest = String "/" rest') ->
  k rest = Some caps ->
  Regex.greedy k taken (p +:+ rest) = Some ((taken +:+ p) :: caps).
Proof.
  induction p as [|c p IH]; intros taken rest caps Hne Hseg Hrest Hk; [congruence|].
  simpl in Hseg. apply andb_true_iff in Hseg as [Hc Hp].
  rewrite append_cons. cbn [Regex.greedy]. rewrite Hc.
  destruct p as [|c' p'].
  - change ("" +:+ rest) with rest.
    assert (Hstop : Regex.greedy k (taken +:+ String c "") rest = None).
    { destruct Hrest as [->|[rest' ->]]; reflexivity. }
    rewrite Hstop, Hk. reflexivity.
  - rewrite (IH (taken +:+ String c "") rest caps) by (auto; discriminate).
    rewrite append_assoc. reflexivity.
Qed.

Lemma slashed_shape segs :
  slashed segs = "" \/ exists rest', slashed segs = String "/" rest'.
Proof. destruct segs; [left; reflexivity|right; rewrite slashed_cons; eauto]. Qed.

Lemma match_slashed ps ks :
  Forall2 (fun p k => segment_fits p k = true) ps ks ->
  Regex.match_here (regex_of_segments ks) (slashed ps) = Some (captures ps ks).*2.
Proof.
  induction 1 as [|p k ps ks Hfit _ IH]; [reflexivity|].
  rewrite slashed_cons, captures_cons. cbn [regex_of_segments foldr].
  fold (regex_of_segments ks). cbn [Regex.match_here]. rewrite Ascii.eqb_refl.
  unfold segment_fits in Hfit. apply andb_true_iff in Hfit as [Hplain Hfit].
  unfold nodes_of_segment. destruct (JsString.startsWith ":" k).
  - apply andb_true_iff in Hfit as [Hne Hseg].
    cbn [app Regex.match_here].
    rewrite (greedy_segment _ p "" (slashed ps) _ ltac:(destruct p; [discriminate|congruence])
               Hseg (slashed_shape ps) IH).
    reflexivity.
  - apply bool_decide_eq_true in Hfit as ->.
    rewrite (match_literal k _ _ Hplain). exact IH.
Qed.

Lemma search_here r s caps :
  Regex.match_here r s = Some caps -> Regex.search r s = Some caps.
Proof. intros Hm. destruct s; cbn [Regex.search]; rewrite Hm; reflexivity. Qed.

Lemma exec_slashed ps ks :
  Forall2 (fun p k => segment_fits p k = true) ps ks ->
  Regex.exec (slashed (key_piece <$> ks)) (slashed ps)
  = Match (Some <$> (captures ps ks).*2).
Proof.
  intros Hfit. unfold Regex.exec.
  rewrite parse_slashed.
  - rewrite (search_here _ _ _ (match_slashed ps ks Hfit)). reflexivity.
  - clear -Hfit. induction Hfit as [|p k ps ks Hpk _ IH]; constructor; [|exact IH].
    unfold segment_fits in Hpk. apply andb_true_iff in Hpk as [Hplain _]. exact Hplain.
Qed.

(** ** The two strategies *)

Lemma write_left_to_right_set caps : forall bag name value,
  name ∉ caps.*1 ->
  write_left_to_right caps (bag_set name value bag)
  = bag_set name value (write_left_to_right caps bag).
Proof.
  unfold write_left_to_right.
  induction caps as [|[n v] caps IH]; intros bag name value Hname; [reflexivity|].
  cbn [foldl fst snd]. cbn [fmap list_fmap fst] in Hname.
  apply not_elem_of_cons in Hname as [Hne Hname].
  rewrite <- (IH _ name value Hname). f_equal.
  apply bag_set_comm. congruence.
Qed.

(** When no name occurs twice, the order of the writes is of no account. *)
Lemma write_order caps bag :
  NoDup caps.*1 -> write_left_to_right caps bag = write_right_to_left caps bag.
Proof.
  revert bag. induction caps as [|[n v] caps IH]; intros bag Hnd; [reflexivity|].
  cbn [fmap list_fmap fst] in Hnd. apply NoDup_cons in Hnd as [Hn Hnd].
  change (write_left_to_right ((n, v) :: caps) bag)
    with (write_left_to_right caps (bag_set n (Some v) bag)).
  rewrite (write_left_to_right_set caps bag n (Some v) Hn), (IH bag Hnd).
  reflexivity.
Qed.

(** The loop of [attachPathParamsToRequestIfExists] over the names writes
    the groups from the first to the last. *)
Lemma regex_params_written caps : forall (pre : list (option string)) req bag,
  req_params req = Some bag ->
  for_each (imap (fun i segment => (length pre + i, segment)) caps.*1)
    (fun ip : nat * string =>
       set_param ip.2 (mjoin ((pre ++ (Some <$> caps.*2)) !! ip.1))) req
  = (with_params req (write_left_to_right caps bag), Normal tt).
Proof.
  induction caps as [|[n v] caps IH]; intros pre req bag Hbag.
  - cbn. rewrite with_params_id by exact Hbag. reflexivity.
  - cbn [fmap list_fmap fst snd]. rewrite imap_cons. cbn [for_each fst snd].
    rewrite Nat.add_0_r, list_lookup_middle by reflexivity. cbn [mjoin option_join].
    rewrite (bind_normal _ _ _ _ _ (set_param_some _ _ n (Some v) Hbag)).
    specialize (IH (pre ++ [Some v]) (with_params req (bag_set n (Some v) bag))
                   (bag_set n (Some v) bag) eq_refl).
    rewrite <- app_assoc in IH. cbn [app] in IH.
    rewrite length_app in IH. cbn [length] in IH.
    erewrite imap_ext; [exact IH|].
    intros i x _. cbn. f_equal. lia.
Qed.

Lemma captures_names ps ks :
  length ps = length ks ->
  (captures ps ks).*1
  = omap (fun k => if JsString.startsWith ":" k
                   then Some (JsString.substring1 k) else None) ks.
Proof.
  revert ks. induction ps as [|p ps IH]; intros [|k ks] Hlen; try discriminate;
    [reflexivity|].
  rewrite captures_cons, fmap_app, IH by (simpl in Hlen; lia).
  cbn [omap list_omap]. destruct (JsString.startsWith ":" k); reflexivity.
Qed.

Lemma fits_matches ps ks :
  Forall2 (fun p k => segment_fits p k = true) ps ks ->
  Forall2 (fun p k => segment_matches p k = true) ps ks.
Proof.
  intros Hall. eapply Forall2_impl; [exact Hall|].
  intros p k Hfit. unfold segment_fits in Hfit.
  apply andb_true_iff in Hfit as [_ Hfit]. unfold segment_matches.
  destruct (JsString.startsWith ":" k); [apply orb_true_r|].
  rewrite Hfit. reflexivity.
Qed.

Lemma fits_plain ps ks :
  Forall2 (fun p k => segment_fits p k = true) ps ks ->
  Forall (fun k => JsString.forallb is_plain_char k = true) ks
  /\ Forall (fun p => JsString.forallb is_plain_char p = true) ps.
Proof.
  induction 1 as [|p k ps ks Hfit _ [IHk IHp]]; [split; constructor|].
  unfold segment_fits in Hfit. apply andb_true_iff in Hfit as [Hplain Hfit].
  split; constructor; auto.
  destruct (JsString.startsWith ":" k).
  - apply andb_true_iff in Hfit as [_ Hseg]. apply forallb_segment_plain, Hseg.
  - apply bool_decide_eq_true in Hfit as ->. exact Hplain.
Qed.

(** C5, as amended. For a pattern that begins with a slash, is made of
    safe characters only and names no parameter twice, and for a URL that
    fits it (a non-empty run of [[\w-.~]] at every named segment, the
    pattern's own segment elsewhere), the positional strategy and the
    regular-expression strategy with the compiled key both report a match
    and leave the same parameter bag in the request. *)
Theorem strategies_write_same_params (ks ps : list string)
  (cbs : list HandlerFunction) (req : HttpRequest)
  (bag : gmap string (option string)) :
  ks <> [] ->
  Forall2 (fun p k => segment_fits p k = true) ps ks ->
  NoDup (captures ps ks).*1 ->
  req_params req = Some bag ->
  let uri := "/" +:+ JsString.join "/" ks in
  let URL := "/" +:+ JsString.join "/" ps in
  let e := (make_entry uri cbs).2 in
  let bag' := write_right_to_left (captures ps ks) bag in
  fastPathMatch (tail (JsString.split "/" URL)) (pathNames e) req
  = (with_params req bag', Normal true)
  /\ @attachPathParamsToRequestIfExists node_builtins URL e req
     = (with_params req bag', Normal true).
Proof.
  intros Hks Hfit Hnd Hbag uri URL e bag'.
  assert (Hps : ps <> []).
  { intros ->. apply Forall2_nil_inv_l in Hfit. contradiction. }
  destruct (fits_plain ps ks Hfit) as [Hplain_k Hplain_p].
  assert (Huri : JsString.split "/" uri = "" :: ks).
  { unfold uri. rewrite (slashed_join ks Hks). apply split_slashed; assumption. }
  assert (HURL : URL = slashed ps) by (apply slashed_join; exact Hps).
  assert (Hsplit : JsString.split "/" URL = "" :: ps).
  { rewrite HURL. apply split_slashed; assumption. }
  assert (Hpath : pathNames e = ks).
  { unfold e, make_entry. cbn [snd pathNames]. rewrite Huri. reflexivity. }
  assert (Hkey : key e = slashed (key_piece <$> ks)).
  { unfold e, make_entry. cbn [snd key]. rewrite Huri.
    rewrite createNamedRouteSearchKey_slashed. reflexivity. }
  assert (Hparams : params e = (captures ps ks).*1).
  { unfold e, make_entry. cbn [snd params]. rewrite Huri.
    rewrite createNamedRouteSearchKey_slashed. cbn [fst]. symmetry.
    apply captures_names. exact (Forall2_length _ _ _ Hfit). }
  split.
  - rewrite Hsplit, Hpath. cbn [tail].
    apply fastPathMatch_match; [apply fits_matches; exact Hfit|exact Hbag].
  - unfold attachPathParamsToRequestIfExists. rewrite Hkey, Hparams.
    destruct ks as [|k ks']; [congruence|].
    cbn [fmap list_fmap]. rewrite slashed_cons. cbn [JsString.is_empty].
    rewrite <- slashed_cons.
    change (slashed (key_piece k :: (key_piece <$> ks')))
      with (slashed (key_piece <$> k :: ks')).
    cbn [regexp_exec node_builtins]. rewrite HURL, (exec_slashed ps (k :: ks') Hfit).
    pose proof (regex_params_written (captures ps (k :: ks')) [] req bag Hbag) as Hloop.
    cbn [length app] in Hloop.
    erewrite (bind_normal _ _ req); [|exact Hloop].
    unfold bag'. rewrite (write_order _ _ Hnd). reflexivity.
Qed.

(** * The claims on concrete routers *)

(** ** Static routes (C1) *)

Lemma static_route_wins_witness :
  let tables :=
    httpMethodMap
      (@configure node_builtins
         [NewRouter;
          UseMiddleware 0 [named_handler "log" Falsy];
          Route GET 0 "/:page" [named_handler "page" Truthy];
          Route GET 0 "/about" [named_handler "about" Truthy]]
         empty_world) 0 in
  let chain := [named_handler "about" Truthy] in
  let rm :=
    {| namedRoutePartitionMap :=
         [(1, [(make_entry "/:page" [named_handler "page" Truthy]).2])];
       staticRouteMap := [("/about", chain)] |} in
  let ctx := incoming "GET" "/about/?x=1" in
  tables !! map_index GET = Some rm
  /\ obj_get (staticRouteMap rm) (normalize (url (request ctx))) = Some chain
  /\ (@processHTTPMethod node_builtins tables (map_index GET) true ctx
      = (parse_query (url (request ctx)) ;;;
         try_catch (callTopLevelMiddlewares tables ;;; run_chain chain)
                   (@notFound node_builtins)) ctx
      /\ forall named' : Obj nat (list NamedRouteCallback),
           @processHTTPMethod node_builtins
             (<[map_index GET := with_named rm named']> tables)
             (map_index GET) true ctx
           = @processHTTPMethod node_builtins tables (map_index GET) true ctx).
Proof.
  intros tables chain rm ctx.
  split; [reflexivity|]. split; [reflexivity|].
  exact (@static_route_wins node_builtins tables (map_index GET) true rm chain ctx
           eq_refl eq_refl).
Defined.

(** The request of the witness is answered by the static entry: the
    middleware and the handler of [/about] have run, nothing was captured. *)
Example static_before_dynamic_run :
  let tables :=
    httpMethodMap
      (@configure node_builtins
         [NewRouter;
          UseMiddleware 0 [named_handler "log" Falsy];
          Route GET 0 "/:page" [named_handler "page" Truthy];
          Route GET 0 "/about" [named_handler "about" Truthy]]
         empty_world) 0 in
  let out := (@dispatch node_builtins tables (incoming "GET" "/about/?x=1")).1 in
  response out
  = [SetHeader "X-Handler" "log"; SetHeader "X-Handler" "about"; End None]
  /\ req_params (request out) = None
  /\ query (request out) = Some "x=1".
Proof. repeat split; reflexivity. Qed.

(** ** Handler chains (C7) *)

Lemma truthy_result_stops_chain_witness :
  let pre := [named_handler "one" Falsy; named_handler "two" Falsy] in
  let h := named_handler "three" Truthy in
  let post := [named_handler "four" Falsy; failing_handler] in
  let ctx := incoming "GET" "/" in
  let ctx1 := {| request := request ctx;
                 response := [SetHeader "X-Handler" "one";
                              SetHeader "X-Handler" "two"] |} in
  let ctx2 := {| request := request ctx;
                 response := [SetHeader "X-Handler" "one";
                              SetHeader "X-Handler" "two";
                              SetHeader "X-Handler" "three"] |} in
  all_falsy pre ctx ctx1
  /\ h ctx1 = (ctx2, Normal Truthy)
  /\ run_chain (pre ++ h :: post) ctx
     = ({| request := request ctx2; response := response ctx2 ++ [End None] |},
        Normal tt)
  /\ run_chain (pre ++ h :: post) ctx = run_chain (pre ++ [h]) ctx.
Proof.
  intros pre h post ctx ctx1 ctx2.
  assert (Hpre : all_falsy pre ctx ctx1).
  { eapply all_falsy_cons; [reflexivity|].
    eapply all_falsy_cons; [reflexivity|]. apply all_falsy_nil. }
  split; [exact Hpre|]. split; [reflexivity|].
  exact (truthy_result_stops_chain pre post h ctx ctx1 ctx2 Hpre eq_refl).
Defined.

(** ** Failed attempts and the parameter bag (C9) *)

Lemma failed_match_leaves_captures_witness :
  let e := (make_entry "/foo/:id" [named_handler "foo" Truthy]).2 in
  let e2 := (make_entry "/bar/:n" [named_handler "bar" Truthy]).2 in
  let ctx := {| request := {| method := "GET"; url := "/bar/5";
                              req_params := Some ∅; query := None |};
                response := [] |} in
  let bag' : gmap string (option string) := <["id" := Some "5"]> ∅ in
  let ctx' := with_request ctx (with_params (request ctx) bag') in
  useRegex e = false
  /\ pathNames e = [] ++ "foo" :: [":id"]
  /\ length (@nil string) = length (@nil string)
  /\ Forall2 (fun p k => segment_matches p k = true) ["5"] [":id"]
  /\ segment_matches "bar" "foo" = false
  /\ req_params (request ctx) = Some ∅
  /\ on_request (fastPathMatch ([] ++ "bar" :: ["5"]) (pathNames e)) ctx
     = (ctx', Normal false)
  /\ @match_loop node_builtins [] "/bar/5" ([] ++ "bar" :: ["5"]) [e; e2] ctx
     = @match_loop node_builtins [] "/bar/5" ([] ++ "bar" :: ["5"]) [e2] ctx'
  /\ (exists value, bag' !! "id" = Some (Some value))
  /\ exists req2,
       @attempt node_builtins "/bar/5" ["bar"; "5"] e2 (request ctx')
       = (req2, Normal true)
       /\ param_of req2 "id" = Some (Some "5")
       /\ param_of req2 "n" = Some (Some "5").
Proof.
  intros e e2 ctx bag' ctx'.
  assert (Hall : Forall2 (fun p k => segment_matches p k = true) ["5"] [":id"])
    by (repeat constructor).
  split; [reflexivity|]. split; [reflexivity|]. split; [reflexivity|].
  split; [exact Hall|]. split; [reflexivity|]. split; [reflexivity|].
  destruct (@failed_match_leaves_captures node_builtins [] "/bar/5"
              [] ["5"] [] [":id"] "bar" "foo" e [e2] ctx ∅
              eq_refl eq_refl eq_refl Hall eq_refl eq_refl)
    as (Hfast & Hloop & Hcaps & Hpersist).
  split; [exact Hfast|]. split; [exact Hloop|].
  split.
  { destruct (Hcaps "id") as (value & _ & Hvalue);
      [apply list_elem_of_here|discriminate|].
    exists value. exact Hvalue. }
  set (req2 := (@attempt node_builtins "/bar/5" ["bar"; "5"] e2 (request ctx')).1).
  assert (He2 : @attempt node_builtins "/bar/5" ["bar"; "5"] e2 (request ctx')
                = (req2, Normal true)) by (vm_compute; reflexivity).
  exists req2. split; [exact He2|].
  split; [|vm_compute; reflexivity].
  destruct (Hpersist [] _ (all_fail_nil _ _ _) e2 _ _ He2 "id") as [_ Hframe].
  destruct (Hframe (Forall_nil_2 _)) as [_ Hvalue].
  rewrite Hvalue; [vm_compute; reflexivity|].
  apply (bool_decide_unpack _). vm_compute. exact I.
Defined.

(** The value that a failed attempt has left under a name is replaced
    when a later entry has a parameter of the same name: [/x/:id/:b]
    fails on [/1/2/3] after writing [b] and [id = "2"], and the handler of
    [/:id/:q/:r], which matches, sees [id = "1"]; [b] is as it was left. *)
Lemma captured_value_is_overwritten :
  let tables :=
    httpMethodMap
      (@configure node_builtins
         [NewRouter;
          Route GET 0 "/x/:id/:b" [named_handler "first" Truthy];
          Route GET 0 "/:id/:q/:r" [named_handler "second" Truthy]]
         empty_world) 0 in
  let req := {| method := "GET"; url := "/1/2/3";
                req_params := Some ∅; query := None |} in
  let failed := fastPathMatch ["1"; "2"; "3"] ["x"; ":id"; ":b"] req in
  let out := (@dispatch node_builtins tables (incoming "GET" "/1/2/3")).1 in
  failed.2 = Normal false
  /\ param_of failed.1 "id" = Some (Some "2")
  /\ param_of failed.1 "b" = Some (Some "3")
  /\ response out = [SetHeader "X-Handler" "second"; End None]
  /\ param_of (request out) "id" = Some (Some "1")
  /\ param_of (request out) "id" <> param_of failed.1 "id"
  /\ param_of (request out) "b" = Some (Some "3").
Proof. repeat split; try (vm_compute; reflexivity). vm_compute. discriminate. Qed.

(** A capture named [__proto__] is not stored at all. *)
Example proto_capture_is_not_stored :
  let req := {| method := "GET"; url := "/y/5";
                req_params := Some ∅; query := None |} in
  fastPathMatch ["y"; "5"] ["x"; ":__proto__"] req = (req, Normal false)
  /\ fastPathMatch ["x"; "5"] ["x"; ":__proto__"] req = (req, Normal true).
Proof. split; vm_compute; reflexivity. Qed.

(** The handler of the entry that matches in the end sees the capture of
    the entry that failed before it. *)
Example leftover_captures_run :
  let tables :=
    httpMethodMap
      (@configure node_builtins
         [NewRouter;
          Route GET 0 "/foo/:id" [named_handler "foo" Truthy];
          Route GET 0 "/bar/:n" [named_handler "bar" Truthy]]
         empty_world) 0 in
  let out := (@dispatch node_builtins tables (incoming "GET" "/bar/5")).1 in
  response out = [SetHeader "X-Handler" "bar"; End None]
  /\ req_params (request out)
     = Some (<["id" := Some "5"]> (<["n" := Some "5"]> ∅)).
Proof. split; vm_compute; reflexivity. Qed.

(** ** Registration order (C2) *)

(** With [/a/:x] and [/a/b] registered in that order, the request for
    [/a/b] is served by the entry of [/a/b], which is static; [x] is not
    captured. *)
Lemma literal_pattern_is_not_in_the_bucket :
  let tables :=
    httpMethodMap
      (@configure node_builtins
         [NewRouter;
          Route GET 0 "/a/:x" [named_handler "first" Truthy];
          Route GET 0 "/a/b" [named_handler "second" Truthy]]
         empty_world) 0 in
  let out := (@dispatch node_builtins tables (incoming "GET" "/a/b")).1 in
  response out = [SetHeader "X-Handler" "second"; End None]
  /\ response out <> [SetHeader "X-Handler" "first"; End None]
  /\ req_params (request out) <> Some (<["x" := Some "b"]> ∅).
Proof.
  split; [reflexivity|]. split; [discriminate|]. discriminate.
Qed.

Lemma registration_order_is_match_priority_witness :
  let ops := [NewRouter;
              Route GET 0 "/a/:x" [named_handler "first" Truthy];
              Route GET 0 "/a/:y" [named_handler "second" Truthy]] in
  let tables := httpMethodMap (@configure node_builtins ops empty_world) 0 in
  let e1 := (make_entry "/a/:x" [named_handler "first" Truthy]).2 in
  let e2 := (make_entry "/a/:y" [named_handler "second" Truthy]).2 in
  let table := {| namedRoutePartitionMap := [(2, [e1; e2])]; staticRouteMap := [] |} in
  let ctx := incoming "GET" "/a/b" in
  let ctx0 := {| request := {| method := "GET"; url := "/a/b";
                               req_params := Some ∅; query := None |};
                 response := [] |} in
  let req2 := with_params (request ctx0) (<["x" := Some "b"]> ∅) in
  tables !! map_index GET = Some table
  /\ obj_get (staticRouteMap table) "/a/b" = None
  /\ obj_get (namedRoutePartitionMap table) 2 = Some ([] ++ e1 :: [e2])
  /\ (parse_query (url (request ctx)) ;;; on_request init_params) ctx
     = (ctx0, Normal tt)
  /\ @all_fail node_builtins "/a/b" ["a"; "b"] [] (request ctx0) (request ctx0)
  /\ @attempt node_builtins "/a/b" ["a"; "b"] e1 (request ctx0) = (req2, Normal true)
  /\ callbacks e1 <> []
  /\ @processHTTPMethod node_builtins tables (map_index GET) true ctx
     = try_catch (callTopLevelMiddlewares tables ;;; run_chain (callbacks e1))
                 (@notFound node_builtins) (with_request ctx0 req2)
  /\ exists table',
       httpMethodMap
         (buildRequestMap 0 (map_index GET) "/a/:z" [named_handler "third" Truthy]
            (@configure node_builtins ops empty_world)).1 0 !! map_index GET
       = Some table'
       /\ staticRouteMap table' = staticRouteMap table
       /\ obj_get (namedRoutePartitionMap table') 2
          = Some ([e1; e2]
                  ++ [(make_entry "/a/:z" [named_handler "third" Truthy]).2]).
Proof.
  intros ops tables e1 e2 table ctx ctx0 req2.
  assert (Htable : tables !! map_index GET = Some table) by reflexivity.
  assert (Hatt : @attempt node_builtins "/a/b" ["a"; "b"] e1 (request ctx0)
                 = (req2, Normal true)) by (vm_compute; reflexivity).
  destruct (@registration_order_is_match_priority node_builtins ops 0
              (map_index GET) table Htable) as [Happend Hfirst].
  split; [exact Htable|]. split; [reflexivity|]. split; [reflexivity|].
  split; [reflexivity|]. split; [apply all_fail_nil|]. split; [exact Hatt|].
  split; [discriminate|]. split.
  - exact (Hfirst true ctx ctx0 [] e1 [e2] (request ctx0) req2
             eq_refl eq_refl eq_refl (all_fail_nil _ _ _) Hatt
             ltac:(discriminate)).
  - exact (Happend "/a/:z" [named_handler "third" Truthy] eq_refl).
Defined.

(** The first of the two overlapping dynamic patterns serves the request
    and captures its own parameter only. *)
Example registration_order_run :
  let tables :=
    httpMethodMap
      (@configure node_builtins
         [NewRouter;
          Route GET 0 "/a/:x" [named_handler "first" Truthy];
          Route GET 0 "/a/:y" [named_handler "second" Truthy]]
         empty_world) 0 in
  let out := (@dispatch node_builtins tables (incoming "GET" "/a/b")).1 in
  response out = [SetHeader "X-Handler" "first"; End None]
  /\ req_params (request out) = Some (<["x" := Some "b"]> ∅).
Proof. split; vm_compute; reflexivity. Qed.

(** ** The bucket of a dynamic pattern (C3) *)

(** The pattern [/user/:id] has two path segments and is stored in bucket
    2: not in bucket 1, and not among entries of three segments. *)
Lemma bucket_is_not_segment_count_minus_one :
  let tables :=
    httpMethodMap
      (@configure node_builtins
         [NewRouter; Route GET 0 "/user/:id" [named_handler "user" Truthy]]
         empty_world) 0 in
  exists table b es e,
    tables !! map_index GET = Some table
    /\ obj_get (namedRoutePartitionMap table) b = Some es
    /\ e ∈ es
    /\ pathNames e = tail (JsString.split "/" "/user/:id")
    /\ b <> length (pathNames e) - 1
    /\ length (pathNames e) <> b + 1.
Proof.
  eexists _, 2, _, (make_entry "/user/:id" [named_handler "user" Truthy]).2.
  split; [reflexivity|]. split; [reflexivity|].
  split; [apply list_elem_of_here|]. split; [reflexivity|].
  split; [vm_compute; discriminate|vm_compute; discriminate].
Qed.

Lemma bucket_is_segment_count_witness :
  let ops := [NewRouter;
              NewRouter;
              Route GET 1 "/users/:id" [named_handler "user" Truthy];
              UseRouterAt 0 "/api" 1;
              Route GET 0 "/a/:x/c" [named_handler "axc" Truthy]] in
  let e1 := (make_entry "/api/users/:id" [named_handler "user" Truthy]).2 in
  let e2 := (make_entry "/a/:x/c" [named_handler "axc" Truthy]).2 in
  let table := {| namedRoutePartitionMap := [(3, [e1; e2])]; staticRouteMap := [] |} in
  httpMethodMap (@configure node_builtins ops empty_world) 0 !! map_index GET
  = Some table
  /\ length (pathNames e1) = 3 /\ length (pathNames e2) = 3
  /\ exists table' es e,
       httpMethodMap
         (buildRequestMap 0 (map_index GET) "/:p/:q" [named_handler "pq" Truthy]
            (@configure node_builtins ops empty_world)).1 0 !! map_index GET
       = Some table'
       /\ pathNames e = tail (JsString.split "/" "/:p/:q")
       /\ callbacks e = [named_handler "pq" Truthy]
       /\ obj_get (namedRoutePartitionMap table') (length (pathNames e))
          = Some (es ++ [e]).
Proof.
  intros ops e1 e2 table.
  assert (Htable : httpMethodMap (@configure node_builtins ops empty_world) 0
                   !! map_index GET = Some table) by reflexivity.
  destruct (@bucket_is_segment_count node_builtins ops 0 (map_index GET) table Htable)
    as [Hinv Hstore].
  split; [exact Htable|]. split; [|split].
  - apply (Hinv 3 [e1; e2] e1 eq_refl). apply list_elem_of_here.
  - apply (Hinv 3 [e1; e2] e2 eq_refl). apply list_elem_of_further, list_elem_of_here.
  - exact (Hstore "/:p/:q" [named_handler "pq" Truthy] eq_refl).
Defined.

(** ** Static patterns with a trailing slash (C4) *)

(** C4. The pattern [/about/] is registered under the key [/about/], its
    trailing slash kept; the path of a request has its trailing slash
    removed, so that neither [/about/] nor [/about] finds the entry: both
    go on to the partition lookup and are answered 404, the handler never
    running. *)
Theorem trailing_slash_pattern_is_unreachable :
  let tables :=
    httpMethodMap
      (@configure node_builtins
         [NewRouter; Route GET 0 "/about/" [named_handler "about" Truthy]]
         empty_world) 0 in
  let answer404 :=
    [WriteHead 404 None (@headers404 node_builtins); End (Some "Route not found")] in
  tables !! map_index GET
  = Some {| namedRoutePartitionMap := [];
            staticRouteMap := [("/about/", [named_handler "about" Truthy])] |}
  /\ normalize "/about/" = "/about"
  /\ response (@dispatch node_builtins tables (incoming "GET" "/about/")).1 = answer404
  /\ response (@dispatch node_builtins tables (incoming "GET" "/about")).1 = answer404.
Proof. repeat split; reflexivity. Qed.

(** A static pattern without a trailing slash is found by both forms of
    the request. *)
Example static_pattern_without_trailing_slash :
  let tables :=
    httpMethodMap
      (@configure node_builtins
         [NewRouter; Route GET 0 "/about" [named_handler "about" Truthy]]
         empty_world) 0 in
  let served := [SetHeader "X-Handler" "about"; End None] in
  response (@dispatch node_builtins tables (incoming "GET" "/about/")).1 = served
  /\ response (@dispatch node_builtins tables (incoming "GET" "/about")).1 = served.
Proof. split; reflexivity. Qed.

(** ** The two matching strategies (C5) *)

(** The pattern [/:a/:a] names the parameter [a] twice. Against the URL
    [/1/2] both strategies match; the positional one, which goes from the
    last segment to the first, leaves [a = "1"], and the regular-expression
    one, which goes from the first group to the last, leaves [a = "2"]. *)
Lemma strategies_differ_on_repeated_name :
  let e := (make_entry "/:a/:a" []).2 in
  let req := {| method := "GET"; url := "/1/2"; req_params := Some ∅; query := None |} in
  let positional := fastPathMatch (tail (JsString.split "/" "/1/2")) (pathNames e) req in
  let regex := @attachPathParamsToRequestIfExists node_builtins "/1/2" e req in
  regexCheckNamedPath "/:a/:a" = true
  /\ key e = "/([\w-.~]+)/([\w-.~]+)"
  /\ positional.2 = Normal true /\ regex.2 = Normal true
  /\ req_params positional.1 = Some (<["a" := Some "1"]> ∅)
  /\ req_params regex.1 = Some (<["a" := Some "2"]> ∅)
  /\ req_params positional.1 <> req_params regex.1.
Proof.
  repeat split; try (vm_compute; reflexivity).
  intros Heq. vm_compute in Heq. discriminate.
Qed.

(** A URL segment outside [[\w-.~]] is captured whole by the positional
    strategy and only in part by the regular expression. *)
Example strategies_differ_on_encoded_segment :
  let e := (make_entry "/user/:id" []).2 in
  let req := {| method := "GET"; url := "/user/a%20b"; req_params := Some ∅;
                query := None |} in
  req_params (fastPathMatch (tail (JsString.split "/" "/user/a%20b"))
                (pathNames e) req).1
  = Some (<["id" := Some "a%20b"]> ∅)
  /\ req_params (@attachPathParamsToRequestIfExists node_builtins
                   "/user/a%20b" e req).1
     = Some (<["id" := Some "a"]> ∅).
Proof. split; vm_compute; reflexivity. Qed.

Lemma strategies_write_same_params_witness :
  let ks := ["user"; ":id"] in
  let ps := ["user"; "42"] in
  let req := {| method := "GET"; url := "/user/42"; req_params := Some ∅;
                query := None |} in
  let e := (make_entry "/user/:id" []).2 in
  let bag' : gmap string (option string) := <["id" := Some "42"]> ∅ in
  ks <> []
  /\ Forall2 (fun p k => segment_fits p k = true) ps ks
  /\ NoDup (captures ps ks).*1
  /\ req_params req = Some ∅
  /\ fastPathMatch (tail (JsString.split "/" "/user/42")) (pathNames e) req
     = (with_params req bag', Normal true)
  /\ @attachPathParamsToRequestIfExists node_builtins "/user/42" e req
     = (with_params req bag', Normal true).
Proof.
  intros ks ps req e bag'.
  assert (Hks : ks <> []) by discriminate.
  assert (Hfit : Forall2 (fun p k => segment_fits p k = true) ps ks)
    by (repeat constructor).
  assert (Hnd : NoDup (captures ps ks).*1)
    by (vm_compute; repeat constructor; apply not_elem_of_nil).
  split; [exact Hks|]. split; [exact Hfit|]. split; [exact Hnd|].
  split; [reflexivity|].
  exact (strategies_write_same_params ks ps [] req ∅ Hks Hfit Hnd eq_refl).
Defined.

(** ** Requests that end in 404 (C6) *)

(** A handler that has written the head of its response and then throws:
    the exception is caught, [writeHead(404)] throws in the [catch] block,
    and the error leaves [dispatch]; no 404 is written. *)
Lemma error_after_head_leaves_dispatch :
  let tables :=
    httpMethodMap
      (@configure node_builtins
         [NewRouter; Route GET 0 "/late" [late_failing_handler]] empty_world) 0 in
  let out := @dispatch node_builtins tables (incoming "GET" "/late") in
  out.2 = Thrown
  /\ response out.1 = [WriteHead 200 None []].
Proof. split; vm_compute; reflexivity. Qed.

(** A path that is a name inherited by the static map, such as
    [constructor], counts as found: the top-level middlewares run and
    [processHTTPMethod] returns, with no 404 and the response left open. *)
Example inherited_path_gets_no_response :
  let tables :=
    httpMethodMap
      (@configure node_builtins
         [NewRouter; UseMiddleware 0 [named_handler "log" Falsy]] empty_world) 0 in
  let out := @dispatch node_builtins tables (incoming "GET" "constructor") in
  out.2 = Normal tt
  /\ response out.1 = [SetHeader "X-Handler" "log"].
Proof. split; vm_compute; reflexivity. Qed.

Lemma unmatched_or_failing_request_gets_404_witness :
  let ops := [NewRouter;
              Route GET 0 "/a/:x/c" [named_handler "axc" Truthy];
              Route GET 0 "/about" [named_handler "about" Truthy];
              Route GET 0 "/boom" [failing_handler];
              Route GET 0 "/late" [late_failing_handler]] in
  let tables := httpMethodMap (@configure node_builtins ops empty_world) 0 in
  let answer404 :=
    [WriteHead 404 None (@headers404 node_builtins); End (Some "Route not found")] in
  let e := (make_entry "/a/:x/c" [named_handler "axc" Truthy]).2 in
  let table :=
    {| namedRoutePartitionMap := [(3, [e])];
       staticRouteMap := [("/about", [named_handler "about" Truthy]);
                          ("/boom", [failing_handler]);
                          ("/late", [late_failing_handler])] |} in
  let unmatched := incoming "GET" "/a/1/d" in
  let failing := incoming "GET" "/boom" in
  let late := incoming "GET" "/late" in
  (method_index (method (request unmatched)) = Some GET
   /\ tables !! map_index GET = Some table
   /\ obj_read (staticRouteMap table) (normalize (url (request unmatched)))
      = Undefined
   /\ @entry_accepts node_builtins "/a/1/d" e = false
   /\ headersSent (response unmatched) = false
   /\ exists ctx',
        @dispatch node_builtins tables unmatched = (ctx', Normal tt)
        /\ response ctx' = answer404)
  /\ (@try_block node_builtins tables (map_index GET) "/boom" true failing
      = (failing, Thrown)
      /\ headersSent (response failing) = false
      /\ @processHTTPMethod node_builtins tables (map_index GET) true failing
         = ({| request := request failing; response := answer404 |}, Normal tt))
  /\ (@dispatch node_builtins tables late).2 = Thrown
  /\ headersSent (response (@dispatch node_builtins tables late).1) = true.
Proof.
  intros ops tables answer404 e table unmatched failing late.
  destruct (@unmatched_or_failing_request_gets_404 node_builtins ops 0)
    as (Hnone & Hthrown & Hescapes).
  split; [|split; [|split]].
  - split; [reflexivity|]. split; [reflexivity|]. split; [reflexivity|].
    split; [reflexivity|]. split; [reflexivity|].
    apply (Hnone unmatched GET table eq_refl eq_refl eq_refl); [|reflexivity].
    intros es e' Hes He'. vm_compute in Hes. injection Hes as <-.
    apply list_elem_of_singleton in He'. subst e'. reflexivity.
  - split; [reflexivity|]. split; [reflexivity|].
    exact (Hthrown (map_index GET) true failing failing failing
             eq_refl eq_refl eq_refl).
  - vm_compute. reflexivity.
  - apply (Hescapes late). vm_compute. reflexivity.
Defined.

(** ** Mounting without a prefix (C8, C10) *)

Lemma mount_throws_on_source_only_key_witness :
  let w := @configure node_builtins
             [NewRouter; NewRouter;
              Route GET 0 "/a" [named_handler "a" Truthy];
              Route GET 1 "/c" [named_handler "c" Truthy]] empty_world in
  let T := default [] (routers w !! 0) in
  let S := default [] (routers w !! 1) in
  let tm := {| namedRoutePartitionMap := []; staticRouteMap := [("/a", 0)] |} in
  let sm := {| namedRoutePartitionMap := []; staticRouteMap := [("/c", 1)] |} in
  routers w !! 0 = Some T /\ T !! 1 = Some tm
  /\ routers w !! 1 = Some S /\ S !! 1 = Some sm
  /\ staticRouteMap tm <> []
  /\ is_Some (obj_get (staticRouteMap sm) "/c")
  /\ obj_get (staticRouteMap tm) "/c" = None
  /\ exists w' T' tm',
       mergeRouterMaps 0 1 w = (w', Thrown)
       /\ routers w' !! 0 = Some T' /\ T' !! 1 = Some tm'
       /\ obj_get (staticRouteMap tm') "/c" = None.
Proof.
  intros w T S tm sm.
  assert (Hne : staticRouteMap tm <> []) by discriminate.
  assert (Hin : is_Some (obj_get (staticRouteMap sm) "/c")) by (eexists; reflexivity).
  repeat (split; [first [reflexivity | assumption]|]).
  exact (mount_throws_on_source_only_key w 0 1 1 T S tm sm "/c"
           eq_refl eq_refl eq_refl eq_refl Hne Hin eq_refl).
Defined.

(** C8. The target has the static routes [/a] and [/b], the source [/c]
    and [/b], registered in that order. The loop over the source's keys
    reads the target's entry for [/c] without the guard that the loop over
    the buckets has: mounting the source throws at [/c], before [/b] is
    reached, and the chain of [/b], a key of both maps, is not extended by
    the source's. *)
Theorem mount_stops_before_shared_key :
  let w := @configure node_builtins
             [NewRouter; NewRouter;
              Route GET 0 "/a" [named_handler "a" Truthy];
              Route GET 0 "/b" [named_handler "b" Falsy];
              Route GET 1 "/c" [named_handler "c" Truthy];
              Route GET 1 "/b" [named_handler "b'" Truthy]] empty_world in
  let target := httpMethodMap w 0 in
  let source := httpMethodMap w 1 in
  let after := httpMethodMap (mergeRouterMaps 0 1 w).1 0 in
  (staticRouteMap <$> target !! map_index GET)
  = Some [("/a", [named_handler "a" Truthy]); ("/b", [named_handler "b" Falsy])]
  /\ (staticRouteMap <$> source !! map_index GET)
     = Some [("/c", [named_handler "c" Truthy]); ("/b", [named_handler "b'" Truthy])]
  /\ (mergeRouterMaps 0 1 w).2 = Thrown
  /\ (staticRouteMap <$> after !! map_index GET)
     = Some [("/a", [named_handler "a" Truthy]); ("/b", [named_handler "b" Falsy])]
  /\ (staticRouteMap <$> after !! map_index GET)
     <> Some [("/a", [named_handler "a" Truthy]);
              ("/b", [named_handler "b" Falsy; named_handler "b'" Truthy])].
Proof.
  intros w target source after.
  split; [reflexivity|]. split; [reflexivity|]. split; [reflexivity|].
  split; [reflexivity|].
  intros Heq. vm_compute in Heq. discriminate.
Qed.

(** * Further properties of the router *)

(** ** Methods that [dispatch] does not route *)

(** X1. A request whose method is none of the ten labels of the switch
    (the five methods in upper case and in lower case) is answered 501
    with the status message "HTTP Dispatch method not implemented" and an
    empty body; no table is consulted and the request is left as it is.
    When the head of the response is out already, [writeHead] throws
    instead and nothing is written. *)
Theorem unsupported_method_gets_501 `{!Builtins} (tables : list RouteTable)
  (ctx : ApplicationContext) :
  method (request ctx) ∉ supported_methods ->
  dispatch tables ctx
  = if headersSent (response ctx) then (ctx, Thrown)
    else ({| request := request ctx;
             response := response ctx
                         ++ [WriteHead 501 (Some "HTTP Dispatch method not implemented")
                               headers501;
                             End None] |},
          Normal tt).
Proof.
  intros Hm. unfold dispatch.
  assert (Hnone : method_index (method (request ctx)) = None).
  { unfold method_index.
    repeat (case_bool_decide;
            [exfalso; apply Hm;
             match goal with Heq : method _ = _ |- _ => rewrite Heq end;
             unfold supported_methods;
             repeat first [apply list_elem_of_here | apply list_elem_of_further]
            |cbn [orb]]).
    reflexivity. }
  rewrite Hnone. unfold writeHead, bind, gets.
  destruct (headersSent (response ctx)); [reflexivity|].
  unfold respond, modify. cbn [request response]. rewrite <- app_assoc. reflexivity.
Qed.

Lemma unsupported_method_gets_501_witness :
  (method (request (incoming "Get" "/about")) ∉ supported_methods)
  /\ @dispatch node_builtins [] (incoming "Get" "/about")
     = ({| request := request (incoming "Get" "/about");
           response := [WriteHead 501 (Some "HTTP Dispatch method not implemented")
                          (@headers501 node_builtins);
                        End None] |},
        Normal tt).
Proof.
  assert (Hm : method (request (incoming "Get" "/about")) ∉ supported_methods).
  { apply (bool_decide_unpack _). vm_compute. exact I. }
  split; [exact Hm|].
  exact (@unsupported_method_gets_501 node_builtins [] (incoming "Get" "/about") Hm).
Defined.

(** ** Top-level middlewares *)

Lemma for_each_all_run chain : forall ctx ctx',
  all_run chain ctx ctx' ->
  for_each chain (fun callback : HandlerFunction => callback ;;; ret tt) ctx
  = (ctx', Normal tt).
Proof.
  induction chain as [|h rest IH]; intros ctx ctx' Hrun; inversion Hrun; subst.
  - reflexivity.
  - cbn [for_each]. unfold bind at 1. unfold bind at 1.
    match goal with Hh : h ctx = _ |- _ => rewrite Hh end.
    cbn [ret]. apply IH. assumption.
Qed.

Lemma for_each_thrown pre : forall (h : HandlerFunction) post ctx ctx1 ctx2,
  all_run pre ctx ctx1 ->
  h ctx1 = (ctx2, Thrown) ->
  for_each (pre ++ h :: post) (fun callback : HandlerFunction => callback ;;; ret tt) ctx
  = (ctx2, Thrown).
Proof.
  induction pre as [|h0 rest IH]; intros h post ctx ctx1 ctx2 Hrun Hh;
    inversion Hrun; subst.
  - cbn [app for_each]. unfold bind at 1. unfold bind at 1. rewrite Hh. reflexivity.
  - cbn [app for_each]. unfold bind at 1. unfold bind at 1.
    match goal with Hh0 : h0 ctx = _ |- _ => rewrite Hh0 end.
    cbn [ret]. eapply IH; eassumption.
Qed.

(** X2. The top-level middlewares all run, in the order of the chain
    registered under [/] in the middleware table, whatever values they
    return: a truthy value neither stops the chain nor ends the response.
    A middleware that throws stops the chain, the exception going to the
    caller. *)
Theorem middleware_results_are_ignored (tables : list RouteTable)
  (mw : RouteTable) (chain : list HandlerFunction) :
  tables !! map_index MIDDLEWARE = Some mw ->
  obj_get (staticRouteMap mw) TopLevelMiddleware = Some chain ->
  (forall ctx ctx',
     all_run chain ctx ctx' ->
     callTopLevelMiddlewares tables ctx = (ctx', Normal tt))
  /\ forall pre h post ctx ctx1 ctx2,
       chain = pre ++ h :: post ->
       all_run pre ctx ctx1 ->
       h ctx1 = (ctx2, Thrown) ->
       callTopLevelMiddlewares tables ctx = (ctx2, Thrown).
Proof.
  intros Hmw Hchain. split.
  - intros ctx ctx' Hrun. unfold callTopLevelMiddlewares.
    unfold bind at 1. rewrite Hmw. cbn [defined ret]. rewrite Hchain.
    destruct chain as [|h rest].
    + inversion Hrun; subst. reflexivity.
    + cbn [length Nat.eqb]. apply for_each_all_run, Hrun.
  - intros pre h post ctx ctx1 ctx2 -> Hrun Hh. unfold callTopLevelMiddlewares.
    unfold bind at 1. rewrite Hmw. cbn [defined ret]. rewrite Hchain.
    destruct (length (pre ++ h :: post) =? 0)%nat eqn:Hlen.
    + apply Nat.eqb_eq in Hlen. rewrite length_app in Hlen. simpl in Hlen. lia.
    + eapply for_each_thrown; eassumption.
Qed.

Lemma middleware_results_are_ignored_witness :
  let tables :=
    httpMethodMap
      (@configure node_builtins
         [NewRouter;
          UseMiddleware 0 [named_handler "log" Truthy; named_handler "auth" Falsy];
          UseMiddleware 0 [failing_handler; named_handler "late" Falsy]]
         empty_world) 0 in
  let chain := [named_handler "log" Truthy; named_handler "auth" Falsy;
                failing_handler; named_handler "late" Falsy] in
  let mw := {| namedRoutePartitionMap := []; staticRouteMap := [("/", chain)] |} in
  let ctx := incoming "GET" "/" in
  let ctx1 :=
    {| request := request ctx;
       response := [SetHeader "X-Handler" "log"; SetHeader "X-Handler" "auth"] |} in
  tables !! map_index MIDDLEWARE = Some mw
  /\ obj_get (staticRouteMap mw) TopLevelMiddleware = Some chain
  /\ all_run [named_handler "log" Truthy; named_handler "auth" Falsy] ctx ctx1
  /\ failing_handler ctx1 = (ctx1, Thrown)
  /\ callTopLevelMiddlewares tables ctx = (ctx1, Thrown).
Proof.
  intros tables chain mw ctx ctx1.
  assert (Hrun : all_run [named_handler "log" Truthy; named_handler "auth" Falsy]
                   ctx ctx1).
  { eapply all_run_cons; [reflexivity|].
    eapply all_run_cons; [reflexivity|]. apply all_run_nil. }
  split; [reflexivity|]. split; [reflexivity|]. split; [exact Hrun|].
  split; [reflexivity|].
  destruct (middleware_results_are_ignored tables mw chain
              eq_refl eq_refl) as [_ Hthrow].
  exact (Hthrow [named_handler "log" Truthy; named_handler "auth" Falsy]
           failing_handler [named_handler "late" Falsy] ctx ctx1 ctx1
           eq_refl Hrun eq_refl).
Defined.

(** ** A chain of which no handler returns a truthy value *)

(** X3. When the path is a key of the static map and every handler of its
    chain returns a falsy value, [processHTTPMethod] returns after the last
    handler: it neither ends the response nor writes the 404 answer. *)
Theorem falsy_chain_leaves_response_open `{!Builtins} (tables : list RouteTable)
  (mapIndex : nat) (throwOnNotFound : bool) (rm : RouteTable)
  (chain : list HandlerFunction) (ctx ctx1 ctx2 ctx3 : ApplicationContext) :
  tables !! mapIndex = Some rm ->
  obj_get (staticRouteMap rm) (normalize (url (request ctx))) = Some chain ->
  parse_query (url (request ctx)) ctx = (ctx1, Normal tt) ->
  callTopLevelMiddlewares tables ctx1 = (ctx2, Normal tt) ->
  all_falsy chain ctx2 ctx3 ->
  processHTTPMethod tables mapIndex throwOnNotFound ctx = (ctx3, Normal tt).
Proof.
  intros Hrm Hchain Hq Hmw Hfalsy.
  rewrite (processHTTPMethod_cases _ _ _ _ _ Hq).
  rewrite (try_block_static _ _ _ _ _ _ _ Hrm Hchain).
  rewrite (bind_normal _ _ _ _ _ Hmw).
  rewrite (bind_normal _ _ _ _ _ (run_chain_all_falsy _ _ _ Hfalsy)).
  reflexivity.
Qed.

Lemma falsy_chain_leaves_response_open_witness :
  let tables :=
    httpMethodMap
      (@configure node_builtins
         [NewRouter;
          Route GET 0 "/about" [named_handler "one" Falsy; named_handler "two" Falsy]]
         empty_world) 0 in
  let chain := [named_handler "one" Falsy; named_handler "two" Falsy] in
  let rm := {| namedRoutePartitionMap := []; staticRouteMap := [("/about", chain)] |} in
  let ctx := incoming "GET" "/about" in
  let ctx3 :=
    {| request := request ctx;
       response := [SetHeader "X-Handler" "one"; SetHeader "X-Handler" "two"] |} in
  tables !! map_index GET = Some rm
  /\ obj_get (staticRouteMap rm) (normalize (url (request ctx))) = Some chain
  /\ all_falsy chain ctx ctx3
  /\ @dispatch node_builtins tables ctx = (ctx3, Normal tt).
Proof.
  intros tables chain rm ctx ctx3.
  assert (Hfalsy : all_falsy chain ctx ctx3).
  { eapply all_falsy_cons; [reflexivity|].
    eapply all_falsy_cons; [reflexivity|]. apply all_falsy_nil. }
  split; [reflexivity|]. split; [reflexivity|]. split; [exact Hfalsy|].
  exact (@falsy_chain_leaves_response_open node_builtins tables (map_index GET) true
           rm chain ctx ctx ctx ctx3 eq_refl eq_refl eq_refl eq_refl Hfalsy).
Defined.

(** ** The path that is matched *)

Lemma split_lacks sep u : lacks sep u = true -> JsString.split sep u = [u].
Proof.
  unfold lacks. induction u as [|c u IH]; [reflexivity|]. simpl.
  intros [Hc Hu]%andb_true_iff. apply negb_true_iff in Hc.
  rewrite Hc, (IH Hu). reflexivity.
Qed.

Lemma split_at sep u rest :
  lacks sep u = true ->
  JsString.split sep (u +:+ String sep rest) = u :: JsString.split sep rest.
Proof.
  unfold lacks. induction u as [|c u IH].
  - intros _. change ("" +:+ String sep rest) with (String sep rest).
    simpl. rewrite Ascii.eqb_refl. reflexivity.
  - rewrite append_cons. simpl.
    intros [Hc Hu]%andb_true_iff. apply negb_true_iff in Hc.
    rewrite Hc, (IH Hu). reflexivity.
Qed.

Lemma last_char_snoc u c : JsString.last_char (u +:+ String c "") = Some c.
Proof.
  induction u as [|c' u IH]; [reflexivity|].
  rewrite append_cons. cbn [JsString.last_char]. rewrite IH.
  destruct (u +:+ String c "") eqn:Heq; [|reflexivity].
  destruct u; discriminate.
Qed.

Lemma drop_last_snoc u c : JsString.drop_last (u +:+ String c "") = u.
Proof.
  induction u as [|c' u IH]; [reflexivity|].
  rewrite append_cons. cbn [JsString.drop_last]. rewrite IH.
  destruct (u +:+ String c "") eqn:Heq; [|reflexivity].
  destruct u; discriminate.
Qed.

Lemma length_snoc u c : String.length (u +:+ String c "") = S (String.length u).
Proof.
  induction u as [|c' u IH]; [reflexivity|].
  rewrite append_cons. simpl. rewrite IH. reflexivity.
Qed.

Lemma lacks_snoc sep u c :
  lacks sep (u +:+ String c "") = lacks sep u && negb (Ascii.eqb c sep).
Proof.
  unfold lacks. induction u as [|c' u IH].
  - simpl. rewrite andb_true_r. reflexivity.
  - rewrite append_cons. simpl. rewrite IH, andb_assoc. reflexivity.
Qed.

(** X4. The path that [processHTTPMethod] matches is the URL up to the
    first question mark, with one trailing slash removed unless the path
    is a single character: the query string plays no part in the matching,
    [u/] is matched as [u], and a path that does not end in a slash, or
    has at most one character (the root [/]), is matched as it is. *)
Theorem matched_path_ignores_query_and_trailing_slash (u : string) :
  lacks "?" u = true ->
  (forall q, normalize (u +:+ "?" +:+ q) = normalize u)
  /\ (u <> "" -> normalize (u +:+ "/") = u)
  /\ (JsString.last_char u <> Some "/"%char -> normalize u = u)
  /\ (String.length u <= 1 -> normalize u = u).
Proof.
  intros Hu. split; [|split; [|split]].
  - intros q. unfold normalize.
    change ("?" +:+ q) with (String "?" q).
    rewrite (split_at "?" u q Hu), (split_lacks "?" u Hu). reflexivity.
  - intros Hne. unfold normalize.
    assert (Hu' : lacks "?" (u +:+ "/") = true)
      by (rewrite lacks_snoc, Hu; reflexivity).
    rewrite (split_lacks "?" _ Hu'). cbn [hd].
    rewrite length_snoc, last_char_snoc, drop_last_snoc.
    destruct u as [|c u]; [congruence|].
    rewrite bool_decide_eq_true_2 by reflexivity. reflexivity.
  - intros Hlast. unfold normalize. rewrite (split_lacks "?" u Hu). cbn [hd].
    rewrite bool_decide_eq_false_2 by exact Hlast.
    rewrite andb_false_r. reflexivity.
  - intros Hlen. unfold normalize. rewrite (split_lacks "?" u Hu). cbn [hd].
    destruct (1 <? String.length u)%nat eqn:Hlt; [|reflexivity].
    apply Nat.ltb_lt in Hlt. lia.
Qed.

Lemma matched_path_ignores_query_and_trailing_slash_witness :
  lacks "?" "/users/list" = true
  /\ normalize "/users/list?page=2&sort=name" = "/users/list"
  /\ normalize "/users/list/" = "/users/list"
  /\ normalize "/users/list" = "/users/list".
Proof.
  destruct (matched_path_ignores_query_and_trailing_slash "/users/list" eq_refl)
    as (Hquery & Hslash & Hplain & _).
  split; [reflexivity|]. split; [|split].
  - transitivity (normalize "/users/list").
    + exact (Hquery "page=2&sort=name").
    + exact (Hplain ltac:(discriminate)).
  - exact (Hslash ltac:(discriminate)).
  - exact (Hplain ltac:(discriminate)).
Defined.

(** ** The two strategies, one entry at a time *)

(** X5. On a request that has a parameter bag, the positional comparison
    never throws and reports a match exactly when the pattern and the URL
    have the same number of segments and every segment of the URL equals
    the pattern's or stands against a segment that begins with a colon. On
    a match the captures have been assigned to the bag from the last to
    the first, so that the bag has a captured value under every name of
    the pattern other than [__proto__], under which an assignment stores
    nothing; when the numbers of segments differ the request is left as it
    is. *)
Theorem positional_match_decided_by_segments (ps ks : list string)
  (req : HttpRequest) (bag : gmap string (option string)) :
  req_params req = Some bag ->
  exists bag',
    fastPathMatch ps ks req = (with_params req bag', Normal (fast_accepts ps ks))
    /\ (fast_accepts ps ks = true ->
        bag' = write_right_to_left (captures ps ks) bag
        /\ forall name, name ∈ (captures ps ks).*1 -> name <> "__proto__" ->
             exists value,
               (name, value) ∈ captures ps ks /\ bag' !! name = Some (Some value))
    /\ (length ks <> length ps -> bag' = bag).
Proof.
  intros Hbag.
  destruct (decide (length ks = length ps)) as [Hlen|Hlen].
  - destruct (fast_accepts ps ks) eqn:Hacc.
    + exists (write_right_to_left (captures ps ks) bag).
      split; [|split; [intros _; split; [reflexivity|]|contradiction]].
      * apply fastPathMatch_match; [|exact Hbag].
        unfold fast_accepts in Hacc. apply andb_true_iff in Hacc as [_ Hall].
        apply forallb_zip_Forall2; assumption.
      * intros name Hin Hne. apply write_right_to_left_lookup; assumption.
    + destruct (fastPathMatch_rejected ps ks req bag Hacc Hbag) as [bag' Hrun].
      exists bag'. split; [exact Hrun|]. split; [discriminate|contradiction].
  - exists bag. split; [|split; [|reflexivity]].
    + unfold fastPathMatch, fast_accepts.
      rewrite bool_decide_eq_false_2 by exact Hlen.
      apply Nat.eqb_neq in Hlen. rewrite Hlen.
      rewrite (with_params_id req bag Hbag). reflexivity.
    + unfold fast_accepts. rewrite bool_decide_eq_false_2 by exact Hlen. discriminate.
Qed.

Lemma positional_match_decided_by_segments_witness :
  let req := {| method := "GET"; url := "/shop/7/items/9"; req_params := Some ∅;
                query := None |} in
  let ps := ["shop"; "7"; "items"; "9"] in
  let ks := ["shop"; ":shop"; "items"; ":item"] in
  req_params req = Some ∅
  /\ fast_accepts ps ks = true
  /\ fastPathMatch ps ks req
     = (with_params req (<["shop" := Some "7"]> (<["item" := Some "9"]> ∅)),
        Normal true).
Proof.
  intros req ps ks.
  destruct (positional_match_decided_by_segments ps ks req ∅ eq_refl)
    as (bag' & Hrun & Hbag' & _).
  split; [reflexivity|]. split; [reflexivity|].
  destruct (Hbag' eq_refl) as [-> _]. rewrite Hrun. reflexivity.
Defined.

(** X6. An attempt with the regular expression that reports no match
    leaves the request as it was: the key is empty or the expression does
    not match, and nothing has been written. *)
Theorem failed_regex_attempt_leaves_request `{!Builtins} (URL : string)
  (e : NamedRouteCallback) (req req' : HttpRequest) :
  attachPathParamsToRequestIfExists URL e req = (req', Normal false) ->
  req' = req /\ (key e = "" \/ regexp_exec (key e) URL = NoMatch).
Proof.
  unfold attachPathParamsToRequestIfExists.
  destruct (key e) as [|c k] eqn:Hkey; cbn [JsString.is_empty].
  - intros [= <-]. auto.
  - destruct (regexp_exec (String c k) URL) as [| |groups].
    + discriminate.
    + intros [= <-]. auto.
    + unfold bind.
      destruct (for_each _ _ req) as [req1 [[]|]]; discriminate.
Qed.

Lemma failed_regex_attempt_leaves_request_witness :
  let e := (make_entry "/user/:id" []).2 in
  let req := {| method := "GET"; url := "/users"; req_params := Some ∅;
                query := None |} in
  @attachPathParamsToRequestIfExists node_builtins "/users" e req = (req, Normal false)
  /\ req = req
  /\ (key e = "" \/ @regexp_exec node_builtins (key e) "/users" = NoMatch).
Proof.
  intros e req.
  split; [reflexivity|].
  exact (@failed_regex_attempt_leaves_request node_builtins "/users" e req req eq_refl).
Defined.

(** ** The key and the names of a pattern *)

(** X7. [createNamedRouteSearchKey] in closed form: the names are those of
    the tokens that begin with a colon, in order, the colon removed; the
    key is made of every token with a slash before it, the tokens that
    begin with a colon replaced by the group [([\w-.~]+)], and has its
    first character removed. No token gives no name and the empty key. *)
Theorem search_key_closed_form (tokens : list string) :
  createNamedRouteSearchKey tokens
  = (omap param_name tokens,
     JsString.substring1 (slashed (key_piece <$> tokens))).
Proof.
  destruct tokens as [|token tokens]; [reflexivity|].
  unfold createNamedRouteSearchKey. rewrite search_key_fold. reflexivity.
Qed.

(** ** Patterns that do not begin with a slash *)

(** X8. The text of a dynamic pattern before its first slash is not among
    the [pathNames] of the entry, and does not count for the bucket: a
    pattern [a/rest] is stored as the pattern [/rest] would be. *)
Theorem text_before_first_slash_is_dropped (a rest : string)
  (cbs : list HandlerFunction) :
  lacks "/" a = true ->
  (make_entry (a +:+ "/" +:+ rest) cbs).1 = length (JsString.split "/" rest)
  /\ pathNames (make_entry (a +:+ "/" +:+ rest) cbs).2 = JsString.split "/" rest
  /\ (make_entry (a +:+ "/" +:+ rest) cbs).1 = (make_entry ("/" +:+ rest) cbs).1
  /\ pathNames (make_entry (a +:+ "/" +:+ rest) cbs).2
     = pathNames (make_entry ("/" +:+ rest) cbs).2.
Proof.
  intros Ha. unfold make_entry. cbn [fst snd pathNames].
  change ("/" +:+ rest) with (String "/" rest).
  rewrite (split_at "/" a rest Ha), split_slash. cbn [length tail].
  repeat split; lia.
Qed.

Lemma text_before_first_slash_is_dropped_witness :
  let tables :=
    httpMethodMap
      (@configure node_builtins
         [NewRouter; Route GET 0 "user/:id" [named_handler "user" Truthy]]
         empty_world) 0 in
  let e := (make_entry "user/:id" [named_handler "user" Truthy]) in
  lacks "/" "user" = true
  /\ e.1 = 1 /\ pathNames e.2 = [":id"]
  /\ (@dispatch node_builtins tables (incoming "GET" "/42")).1
     = {| request := {| method := "GET"; url := "/42";
                        req_params := Some (<["id" := Some "42"]> ∅);
                        query := None |};
          response := [SetHeader "X-Handler" "user"; End None] |}
  /\ response (@dispatch node_builtins tables (incoming "GET" "/user/42")).1
     = [WriteHead 404 None (@headers404 node_builtins); End (Some "Route not found")].
Proof.
  intros tables e.
  destruct (text_before_first_slash_is_dropped "user" ":id"
              [named_handler "user" Truthy] eq_refl) as (Hb & Hp & _).
  split; [reflexivity|]. split; [exact Hb|]. split; [exact Hp|].
  split; reflexivity.
Defined.

(** ** The store stays well formed *)

Section obj_keys_properties.
Context {K V : Type} `{EqDecision K} `{JsKey K}.

Lemma obj_replace_keys (o : Obj K V) k v : (obj_replace o k v).*1 = o.*1.
Proof.
  induction o as [|[k' v'] o IH]; [reflexivity|]. cbn [obj_replace].
  destruct (decide (k' = k)); [reflexivity|]. rewrite !fmap_cons, IH. reflexivity.
Qed.

Lemma obj_add_perm (o : Obj K V) k v : obj_add o k v ≡ₚ (k, v) :: o.
Proof.
  induction o as [|[k' v'] o IH]; [reflexivity|]. cbn [obj_add].
  destruct (goes_before k k'); [reflexivity|].
  rewrite IH. apply Permutation_swap.
Qed.

Lemma NoDup_obj_set (o : Obj K V) k v : NoDup o.*1 -> NoDup (obj_set o k v).*1.
Proof.
  intros Hnd. unfold obj_set. destruct (obj_get o k) eqn:Hget; cbv iota.
  - rewrite obj_replace_keys. exact Hnd.
  - rewrite (obj_add_perm o k v). simpl. apply NoDup_cons. split; [|exact Hnd].
    apply obj_get_None, Hget.
Qed.

Lemma NoDup_obj_assign (source : Obj K V) : forall target,
  NoDup target.*1 -> NoDup (obj_assign target source).*1.
Proof.
  unfold obj_assign.
  induction source as [|[k v] source IH]; intros target Hnd; [exact Hnd|].
  simpl. apply IH, NoDup_obj_set, Hnd.
Qed.

Lemma Forall_obj_set (P : V -> Prop) (o : Obj K V) k v :
  Forall P o.*2 -> P v -> Forall P (obj_set o k v).*2.
Proof.
  intros Ho Hv. apply Forall_forall. intros x Hx.
  apply list_elem_of_fmap in Hx as ([k' v'] & -> & Hin).
  apply elem_of_obj_set in Hin as [[= -> ->]|Hin]; [exact Hv|].
  rewrite Forall_forall in Ho. apply Ho.
  apply list_elem_of_fmap. exists (k', v'). auto.
Qed.

Lemma Forall_obj_assign (P : V -> Prop) (target source : Obj K V) :
  Forall P target.*2 -> Forall P source.*2 -> Forall P (obj_assign target source).*2.
Proof.
  intros Ht Hs. apply Forall_forall. intros x Hx.
  apply list_elem_of_fmap in Hx as ([k' v'] & -> & Hin).
  rewrite Forall_forall in Ht, Hs.
  apply elem_of_obj_assign in Hin as [Hin|Hin]; [apply Hs|apply Ht];
    apply list_elem_of_fmap; exists (k', v'); auto.
Qed.

End obj_keys_properties.

Lemma table_wf_grow w w' rm :
  length (records w) <= length (records w') ->
  length (arrays w) <= length (arrays w') ->
  table_wf w rm -> table_wf w' rm.
Proof.
  intros Hr Ha (Hs & Hn & Hsl & Hnl). repeat split; try assumption.
  - eapply Forall_impl; [exact Hsl|]. simpl. intros l Hl. lia.
  - eapply Forall_impl; [exact Hnl|]. simpl. intros l Hl. lia.
Qed.

Lemma table_wf_with_static w rm m :
  table_wf w rm -> NoDup m.*1 -> Forall (fun l => l < length (records w)) m.*2 ->
  table_wf w (with_static rm m).
Proof. intros (_ & Hn & _ & Hnl) Hnd Hl. repeat split; assumption. Qed.

Lemma table_wf_with_named w rm m :
  table_wf w rm -> NoDup m.*1 -> Forall (fun l => l < length (arrays w)) m.*2 ->
  table_wf w (with_named rm m).
Proof. intros (Hs & _ & Hsl & _) Hnd Hl. repeat split; assumption. Qed.

Lemma store_ok_table w r hm i rm :
  store_ok w -> routers w !! r = Some hm -> hm !! i = Some rm -> table_wf w rm.
Proof.
  intros Hok Hhm Hrm. destruct (Hok r hm Hhm) as [_ Hall].
  rewrite Forall_lookup in Hall. exact (Hall i rm Hrm).
Qed.

Lemma store_ok_grow w w' :
  routers w' = routers w ->
  length (records w) <= length (records w') ->
  length (arrays w) <= length (arrays w') ->
  store_ok w -> store_ok w'.
Proof.
  intros Heq Hr Ha Hok r hm Hhm. rewrite Heq in Hhm.
  destruct (Hok r hm Hhm) as [Hlen Hall]. split; [exact Hlen|].
  eapply Forall_impl; [exact Hall|]. intros rm. apply table_wf_grow; assumption.
Qed.

Lemma store_ok_put_map r i rm w :
  store_ok w -> table_wf w rm -> store_ok (put_map r i rm w).
Proof.
  intros Hok Hrm r' hm' Hhm'. unfold put_map in Hhm'. simpl in Hhm'.
  assert (Hwf : forall rm', table_wf w rm' -> table_wf (put_map r i rm w) rm')
    by (intros rm'; apply table_wf_grow; reflexivity).
  destruct (routers w !! r) as [hm|] eqn:Hhm.
  - destruct (decide (r' = r)) as [->|Hne].
    + rewrite list_lookup_insert_eq in Hhm' by (eapply lookup_lt_Some; exact Hhm).
      injection Hhm' as <-. destruct (Hok r hm Hhm) as [Hlen Hall]. split.
      * rewrite length_insert. exact Hlen.
      * apply Forall_insert; [|apply Hwf, Hrm].
        eapply Forall_impl; [exact Hall|]. exact Hwf.
    + rewrite list_lookup_insert_ne in Hhm' by congruence.
      destruct (Hok r' hm' Hhm') as [Hlen Hall]. split; [exact Hlen|].
      eapply Forall_impl; [exact Hall|]. exact Hwf.
  - destruct (Hok r' hm' Hhm') as [Hlen Hall]. split; [exact Hlen|].
    eapply Forall_impl; [exact Hall|]. exact Hwf.
Qed.

Lemma store_ok_alloc_record cbs w :
  store_ok w -> store_ok (set_records (fun h => h ++ [cbs]) w).
Proof.
  apply store_ok_grow; [reflexivity| |reflexivity].
  simpl. rewrite length_app. lia.
Qed.

Lemma store_ok_alloc_array es w :
  store_ok w -> store_ok (set_arrays (fun h => h ++ [es]) w).
Proof.
  apply store_ok_grow; [reflexivity|reflexivity|].
  simpl. rewrite length_app. lia.
Qed.

Lemma store_ok_write_record l cbs w :
  store_ok w -> store_ok (set_records (fun h => <[l := cbs]> h) w).
Proof.
  apply store_ok_grow; [reflexivity| |reflexivity].
  simpl. rewrite length_insert. lia.
Qed.

Lemma store_ok_write_array l es w :
  store_ok w -> store_ok (set_arrays (fun h => <[l := es]> h) w).
Proof.
  apply store_ok_grow; [reflexivity|reflexivity|].
  simpl. rewrite length_insert. lia.
Qed.

Lemma holds_ret {A} (a : A) : holds (ret a).
Proof. intros w Hok. exact Hok. Qed.

Lemma holds_throw {A} : holds (@throw World A).
Proof. intros w Hok. exact Hok. Qed.

Lemma holds_bind {A B} (m : comp World A) (f : A -> comp World B) :
  holds m -> (forall a, holds (f a)) -> holds (bind m f).
Proof.
  intros Hm Hf w Hok. apply wp_bind. eapply wp_mono; [apply Hm, Hok| |auto].
  intros a w' Hok'. apply Hf, Hok'.
Qed.

Lemma holds_for_each {A} (l : list A) (body : A -> comp World unit) :
  (forall x, holds (body x)) -> holds (for_each l body).
Proof.
  intros Hbody w Hok. apply wp_for_each with (I := store_ok); auto.
  intros x w' _ Hok'. apply Hbody, Hok'.
Qed.

Lemma holds_push_record l cb : holds (push_record l cb).
Proof.
  intros w Hok. apply wp_push_record; [|exact Hok].
  intros cbs _. apply store_ok_write_record, Hok.
Qed.

Lemma holds_buildRequestMap r mapIndex uri cbs :
  holds (buildRequestMap r mapIndex uri cbs).
Proof.
  intros w Hok. unfold buildRequestMap.
  apply wp_bind, wp_get_map; [|exact Hok]. intros hm rm Hhm Hrm.
  pose proof (store_ok_table _ _ _ _ _ Hok Hhm Hrm) as Hwf.
  destruct (regexCheckStaticURL uri).
  - destruct (obj_read (staticRouteMap rm) uri) as [l| |].
    + apply holds_for_each; [|exact Hok]. intros cb. apply holds_push_record.
    + apply holds_for_each; [|exact Hok]. intros cb. apply holds_throw.
    + apply wp_bind, wp_alloc_record, wp_set_map.
      apply store_ok_put_map; [apply store_ok_alloc_record, Hok|].
      assert (Hwf' : table_wf (set_records (fun h => h ++ [cbs]) w) rm).
      { eapply table_wf_grow; [| |exact Hwf]; simpl; [rewrite length_app|]; lia. }
      apply table_wf_with_static; [exact Hwf'| |].
      * apply NoDup_obj_set, Hwf.
      * apply Forall_obj_set; [apply Hwf'|]. simpl. rewrite length_app. simpl. lia.
  - destruct (make_entry uri cbs) as [b e]. simpl.
    destruct (obj_get (namedRoutePartitionMap rm) b) as [l|].
    + apply wp_push_array; [|exact Hok]. intros es _.
      apply store_ok_write_array, Hok.
    + apply wp_bind, wp_alloc_array, wp_set_map.
      apply store_ok_put_map; [apply store_ok_alloc_array, Hok|].
      assert (Hwf' : table_wf (set_arrays (fun h => h ++ [[e]]) w) rm).
      { eapply table_wf_grow; [| |exact Hwf]; simpl; [|rewrite length_app]; lia. }
      apply table_wf_with_named; [exact Hwf'| |].
      * apply NoDup_obj_set, Hwf.
      * apply Forall_obj_set; [apply Hwf'|]. simpl. rewrite length_app. simpl. lia.
Qed.

Lemma holds_method_route m r uri fn : holds (method_route m r uri fn).
Proof.
  unfold method_route. destruct (length fn =? 0)%nat.
  - apply holds_throw.
  - apply holds_buildRequestMap.
Qed.

Lemma holds_all r uri fn : holds (all r uri fn).
Proof.
  unfold all. destruct (length fn =? 0)%nat; [apply holds_throw|].
  repeat (apply holds_bind; [apply holds_method_route|intros _]).
  apply holds_method_route.
Qed.

Lemma holds_use_middleware r fn : holds (use_middleware r fn).
Proof.
  unfold use_middleware. destruct (length fn =? 0)%nat.
  - apply holds_throw.
  - apply holds_buildRequestMap.
Qed.

Lemma holds_use_path r uri fn : holds (use_path r uri fn).
Proof.
  unfold use_path. destruct (length fn =? 0)%nat.
  - apply holds_throw.
  - apply holds_all.
Qed.

Lemma holds_new_router : holds new_router.
Proof.
  intros w Hok. unfold new_router.
  apply wp_bind, wp_gets, wp_bind, wp_modify, wp_ret.
  intros r hm Hhm. simpl in Hhm.
  apply lookup_app_Some in Hhm as [Hhm|[_ Hhm]].
  - destruct (Hok r hm Hhm) as [Hlen Hall]. split; [exact Hlen|].
    eapply Forall_impl; [exact Hall|]. intros rm. apply table_wf_grow; reflexivity.
  - apply list_lookup_singleton_Some in Hhm as [_ <-]. split.
    + reflexivity.
    + repeat (apply Forall_cons; split; [repeat split; constructor|]).
      apply Forall_nil_2.
Qed.

Lemma holds_merge_static_key t s i k : holds (merge_static_key t s i k).
Proof.
  intros w Hok. unfold merge_static_key.
  apply wp_bind, wp_get_map; [|exact Hok]. intros hm tm _ _.
  apply wp_bind, wp_defined; [|auto]. intros lt _.
  apply wp_bind, wp_read_record; [|exact Hok]. intros mine _.
  apply wp_bind, wp_get_map; [|exact Hok]. intros hm' sm _ _.
  apply wp_bind, wp_defined; [|auto]. intros ls _.
  apply wp_bind, wp_read_record; [|exact Hok]. intros theirs _.
  apply wp_write_record, store_ok_write_record, Hok.
Qed.

Lemma holds_merge_static t s i : holds (merge_static t s i).
Proof.
  intros w Hok. unfold merge_static.
  apply wp_bind, wp_get_map; [|exact Hok]. intros hm tm Hhm Htm.
  apply wp_bind, wp_get_map; [|exact Hok]. intros hm' sm Hhm' Hsm.
  pose proof (store_ok_table _ _ _ _ _ Hok Hhm Htm) as Hwt.
  pose proof (store_ok_table _ _ _ _ _ Hok Hhm' Hsm) as Hws.
  destruct (obj_is_empty (staticRouteMap tm)).
  - apply wp_set_map, store_ok_put_map; [exact Hok|].
    apply table_wf_with_static; [exact Hwt| |].
    + apply NoDup_obj_assign, Hwt.
    + apply Forall_obj_assign; [apply Hwt|apply Hws].
  - apply holds_for_each; [|exact Hok]. intros kv. apply holds_merge_static_key.
Qed.

Lemma holds_merge_named_key t s i k : holds (merge_named_key t s i k).
Proof.
  intros w Hok. unfold merge_named_key.
  apply wp_bind, wp_get_map; [|exact Hok]. intros hm tm _ _.
  destruct (obj_get (namedRoutePartitionMap tm) k) as [lt|];
    [|apply wp_ret; exact Hok].
  apply wp_bind, wp_read_array; [|exact Hok]. intros mine _.
  apply wp_bind, wp_get_map; [|exact Hok]. intros hm' sm _ _.
  apply wp_bind, wp_defined; [|auto]. intros ls _.
  apply wp_bind, wp_read_array; [|exact Hok]. intros theirs _.
  apply wp_bind, wp_alloc_array.
  pose proof (store_ok_alloc_array (mine ++ theirs) w Hok) as Hok'.
  apply wp_bind, wp_get_map; [|exact Hok']. intros hm2 tm2 Hhm2 Htm2.
  pose proof (store_ok_table _ _ _ _ _ Hok' Hhm2 Htm2) as Hwf.
  apply wp_set_map, store_ok_put_map; [exact Hok'|].
  apply table_wf_with_named; [exact Hwf| |].
  - apply NoDup_obj_set, Hwf.
  - apply Forall_obj_set; [apply Hwf|]. simpl. rewrite length_app. simpl. lia.
Qed.

Lemma holds_merge_named t s i : holds (merge_named t s i).
Proof.
  intros w Hok. unfold merge_named.
  apply wp_bind, wp_get_map; [|exact Hok]. intros hm tm Hhm Htm.
  apply wp_bind, wp_get_map; [|exact Hok]. intros hm' sm Hhm' Hsm.
  pose proof (store_ok_table _ _ _ _ _ Hok Hhm Htm) as Hwt.
  pose proof (store_ok_table _ _ _ _ _ Hok Hhm' Hsm) as Hws.
  destruct (obj_is_empty (namedRoutePartitionMap tm)).
  - apply wp_set_map, store_ok_put_map; [exact Hok|].
    apply table_wf_with_named; [exact Hwt| |].
    + apply NoDup_obj_assign, Hwt.
    + apply Forall_obj_assign; [apply Hwt|apply Hws].
  - apply holds_for_each; [|exact Hok]. intros kv. apply holds_merge_named_key.
Qed.

Lemma holds_mergeRouterMaps t s : holds (mergeRouterMaps t s).
Proof.
  intros w Hok. unfold mergeRouterMaps.
  apply wp_bind, wp_get_router; [|exact Hok]. intros routeMap _.
  apply holds_for_each; [|exact Hok]. intros i.
  apply holds_bind; [apply holds_merge_static|intros _; apply holds_merge_named].
Qed.

Section mount_at_store.
Context `{!Builtins}.

Lemma NoDup_obj_put {V} (o : Obj string V) k v :
  NoDup o.*1 -> NoDup (obj_put o k v).*1.
Proof.
  intros Hnd. unfold obj_put.
  destruct (bool_decide (k = "__proto__") && bool_decide (obj_get o k = None));
    [exact Hnd|apply NoDup_obj_set, Hnd].
Qed.

Lemma Forall_obj_put {V} (P : V -> Prop) (o : Obj string V) k v :
  Forall P o.*2 -> P v -> Forall P (obj_put o k v).*2.
Proof.
  intros Ho Hv. unfold obj_put.
  destruct (bool_decide (k = "__proto__") && bool_decide (obj_get o k = None));
    [exact Ho|apply Forall_obj_set; assumption].
Qed.

Lemma static_image_ok w (f : string -> string) (src : Obj string loc) :
  forall m,
    NoDup m.*1 -> Forall (fun l => l < length (records w)) m.*2 ->
    Forall (fun l => l < length (records w)) src.*2 ->
    NoDup (foldl (fun m kv => obj_put m (f kv.1) kv.2) m src).*1
    /\ Forall (fun l => l < length (records w))
         (foldl (fun m kv => obj_put m (f kv.1) kv.2) m src).*2.
Proof.
  induction src as [|[k l] src IH]; intros m Hnd Hm Hsrc; [auto|].
  simpl in Hsrc. apply Forall_cons_1 in Hsrc as [Hl Hsrc]. simpl.
  apply IH; [apply NoDup_obj_put, Hnd|apply Forall_obj_put; assumption|exact Hsrc].
Qed.

Lemma holds_mount_static t uri s mapIndex : holds (mount_static t uri s mapIndex).
Proof.
  intros w Hok. unfold mount_static.
  apply wp_bind, wp_get_map; [|exact Hok]. intros hm sm Hhm Hsm.
  destruct (obj_is_empty (staticRouteMap sm)); [apply wp_ret; exact Hok|].
  apply wp_bind, wp_get_map; [|exact Hok]. intros hm' tm Hhm' Htm.
  pose proof (store_ok_table _ _ _ _ _ Hok Hhm' Htm) as Hwt.
  pose proof (store_ok_table _ _ _ _ _ Hok Hhm Hsm) as Hws.
  apply wp_set_map, store_ok_put_map; [exact Hok|].
  destruct (static_image_ok w
              (fun k => if (mapIndex =? 0)%nat then k else prefixed uri k)
              (staticRouteMap sm) [] (NoDup_nil_2) (Forall_nil_2 _)
              ltac:(apply Hws)) as [Hnd Hl].
  apply table_wf_with_static; [exact Hwt| |].
  - apply NoDup_obj_assign, Hwt.
  - apply Forall_obj_assign; [apply Hwt|exact Hl].
Qed.

Lemma local_ok_grow w w' m :
  length (arrays w) <= length (arrays w') -> local_ok w m -> local_ok w' m.
Proof.
  intros Hle [Hnd Hl]. split; [exact Hnd|].
  eapply Forall_impl; [exact Hl|]. simpl. intros l Hlt. lia.
Qed.

Lemma wp_mount_named_entry_store uri s mapIndex k v m bucketIndex w :
  store_ok w -> local_ok w m ->
  wp (mount_named_entry uri s mapIndex k v m bucketIndex)
     (fun m' w' => store_ok w' /\ local_ok w' m') store_ok w.
Proof.
  intros Hok Hm. unfold mount_named_entry.
  apply wp_bind, wp_get_map; [|exact Hok]. intros hm sm _ _.
  apply wp_bind, wp_defined; [|auto]. intros cur _.
  apply wp_bind, wp_read_array; [|exact Hok]. intros es _.
  apply wp_bind, wp_defined; [|auto]. intros e _.
  apply wp_bind, wp_read_array; [|exact Hok]. intros vs _.
  apply wp_bind, wp_defined; [|auto]. intros ev _.
  destruct (make_entry _ (callbacks ev)) as [b e']. simpl.
  destruct (obj_get m b) as [l|].
  - apply wp_bind, wp_push_array; [|exact Hok]. intros es' _. apply wp_ret.
    split; [apply store_ok_write_array, Hok|].
    eapply local_ok_grow; [|exact Hm]. simpl. rewrite length_insert. lia.
  - apply wp_bind, wp_alloc_array, wp_ret.
    split; [apply store_ok_alloc_array, Hok|].
    destruct Hm as [Hnd Hl]. split; [apply NoDup_obj_set, Hnd|].
    apply Forall_obj_set.
    + eapply Forall_impl; [exact Hl|]. simpl. intros l Hlt. rewrite length_app. lia.
    + simpl. rewrite length_app. simpl. lia.
Qed.

Lemma wp_mount_named_bucket_store t uri s mapIndex m kv w :
  store_ok w -> local_ok w m ->
  wp (mount_named_bucket t uri s mapIndex m kv)
     (fun m' w' => store_ok w' /\ local_ok w' m') store_ok w.
Proof.
  intros Hok Hm. unfold mount_named_bucket.
  apply wp_bind, wp_get_map; [|exact Hok]. intros hm sm _ _.
  apply wp_bind, wp_defined; [|auto]. intros cur _.
  apply wp_bind, wp_read_array; [|exact Hok]. intros es _.
  apply wp_bind.
  apply wp_fold_each with (I := fun m' w' => store_ok w' /\ local_ok w' m');
    [auto| |].
  { intros m' i w' _ [Hok' Hm']. apply wp_mount_named_entry_store; assumption. }
  intros m' w' [Hok' Hm']. apply wp_bind.
  destruct (obj_is_empty m').
  - apply wp_ret, wp_ret. auto.
  - apply wp_bind, wp_get_map; [|exact Hok']. intros hm' tm Hhm Htm.
    pose proof (store_ok_table _ _ _ _ _ Hok' Hhm Htm) as Hwt.
    apply wp_set_map, wp_ret. split.
    + apply store_ok_put_map; [exact Hok'|].
      apply table_wf_with_named; [exact Hwt| |].
      * apply NoDup_obj_assign, Hwt.
      * apply Forall_obj_assign; [apply Hwt|apply Hm'].
    + exact Hm'.
Qed.

Lemma holds_mount_named t uri s mapIndex : holds (mount_named t uri s mapIndex).
Proof.
  intros w Hok. unfold mount_named.
  apply wp_bind, wp_get_map; [|exact Hok]. intros hm sm _ _.
  apply wp_bind.
  apply wp_fold_each with (I := fun m' w' => store_ok w' /\ local_ok w' m').
  - split; [exact Hok|]. split; constructor.
  - intros m' kv w' _ [Hok' Hm']. apply wp_mount_named_bucket_store; assumption.
  - intros m' w' [Hok' _]. apply wp_ret. exact Hok'.
Qed.

Lemma holds_use_router_at t uri s : holds (use_router_at t uri s).
Proof.
  intros w Hok. unfold use_router_at.
  apply wp_bind, wp_get_router; [|exact Hok]. intros routeMap _.
  apply holds_for_each; [|exact Hok]. intros i.
  apply holds_bind; [apply holds_mount_static|intros _; apply holds_mount_named].
Qed.

Lemma holds_run_op o : holds (run_op o).
Proof.
  destruct o; simpl.
  - apply holds_bind; [apply holds_new_router|intros _; apply holds_ret].
  - apply holds_method_route.
  - apply holds_all.
  - apply holds_use_middleware.
  - apply holds_use_path.
  - apply holds_mergeRouterMaps.
  - apply holds_use_router_at.
Qed.

Lemma store_ok_empty : store_ok empty_world.
Proof. intros r hm Hhm. simpl in Hhm. rewrite lookup_nil in Hhm. discriminate. Qed.

Lemma store_ok_configure ops w : store_ok w -> store_ok (configure ops w).
Proof.
  unfold configure. revert w. induction ops as [|o ops IH]; intros w Hok; simpl.
  - exact Hok.
  - apply IH. eapply wp_run; [apply holds_run_op, Hok|auto].
Qed.

(** X9. After any sequence of constructions, registrations and mounts,
    every router has its six route tables, one per entry of
    [HttpMapIndex]; no key occurs twice in a map; every static key refers
    to a record of the store and every bucket to an array of the store.
    The dispatcher therefore finds the table of every supported method. *)
Theorem router_keeps_its_tables (ops : list Op) (r : nat) (hm : Router) :
  routers (configure ops empty_world) !! r = Some hm ->
  length hm = map_count
  /\ Forall (table_wf (configure ops empty_world)) hm
  /\ forall m, is_Some (httpMethodMap (configure ops empty_world) r !! map_index m).
Proof.
  intros Hhm.
  destruct (store_ok_configure ops empty_world store_ok_empty r hm Hhm) as [Hlen Hall].
  split; [exact Hlen|]. split; [exact Hall|].
  intros m. unfold httpMethodMap.
  rewrite (list_lookup_total_correct _ _ _ Hhm), list_lookup_fmap.
  apply fmap_is_Some, lookup_lt_is_Some. rewrite Hlen.
  destruct m; vm_compute; lia.
Qed.

End mount_at_store.

Lemma router_keeps_its_tables_witness :
  let ops := [NewRouter; NewRouter;
              Route GET 1 "/users/:id" [named_handler "user" Truthy];
              Route POST 1 "/users" [named_handler "create" Truthy];
              UseRouterAt 0 "/api" 1;
              UseRouter 0 1] in
  let w := @configure node_builtins ops empty_world in
  let hm := default [] (routers w !! 0) in
  routers w !! 0 = Some hm
  /\ length hm = 6
  /\ Forall (table_wf w) hm
  /\ is_Some (httpMethodMap w 0 !! map_index DELETE).
Proof.
  intros ops w hm.
  destruct (@router_keeps_its_tables node_builtins ops 0 hm eq_refl)
    as (Hlen & Hall & Hget).
  split; [reflexivity|]. split; [exact Hlen|]. split; [exact Hall|].
  exact (Hget DELETE).
Defined.

(** ** Registration on a well-formed store *)

Lemma for_each_push_record l cbs : forall w c,
  records w !! l = Some c ->
  exists w',
    for_each cbs (push_record l) w = (w', Normal tt)
    /\ routers w' = routers w /\ arrays w' = arrays w
    /\ records w' = <[l := c ++ cbs]> (records w).
Proof.
  induction cbs as [|cb cbs IH]; intros w c Hc.
  - exists w. split; [reflexivity|]. split; [reflexivity|]. split; [reflexivity|].
    rewrite app_nil_r. symmetry. apply list_insert_id, Hc.
  - set (w1 := set_records (fun h => <[l := c ++ [cb]]> h) w).
    assert (Hpush : push_record l cb w = (w1, Normal tt)).
    { unfold push_record. rewrite (bind_normal _ _ _ _ _ (read_record_known _ _ _ Hc)).
      reflexivity. }
    assert (Hc1 : records w1 !! l = Some (c ++ [cb])).
    { simpl. apply list_lookup_insert_eq. eapply lookup_lt_Some; exact Hc. }
    destruct (IH w1 (c ++ [cb]) Hc1) as (w' & Hrun & Hr & Ha & Hrec).
    exists w'. cbn [for_each]. rewrite (bind_normal _ _ _ _ _ Hpush).
    split; [exact Hrun|]. split; [exact Hr|]. split; [exact Ha|].
    rewrite Hrec. simpl. rewrite list_insert_insert_eq, <- app_assoc. reflexivity.
Qed.

(** Registering a static pattern appends the handlers to the chain of its
    key, which is created if need be. *)
Lemma buildRequestMap_static w r i uri cbs hm rm :
  store_ok w ->
  routers w !! r = Some hm -> hm !! i = Some rm ->
  regexCheckStaticURL uri = true ->
  obj_read (staticRouteMap rm) uri <> Inherited ->
  exists w' hm' rm',
    buildRequestMap r i uri cbs w = (w', Normal tt)
    /\ routers w' !! r = Some hm' /\ hm' !! i = Some rm'
    /\ namedRoutePartitionMap (resolve w' rm') = namedRoutePartitionMap (resolve w rm)
    /\ obj_get (staticRouteMap (resolve w' rm')) uri
       = Some (default [] (obj_get (staticRouteMap (resolve w rm)) uri) ++ cbs).
Proof.
  intros Hok Hhm Hrm Hstatic Hown. unfold buildRequestMap.
  rewrite (bind_normal _ _ _ _ _ (get_map_known _ _ _ _ _ Hhm Hrm)), Hstatic.
  pose proof (lookup_lt_Some _ _ _ Hrm) as Hi.
  pose proof (store_ok_table _ _ _ _ _ Hok Hhm Hrm) as (_ & _ & Hlocs & _).
  rewrite !resolve_static.
  destruct (obj_get (staticRouteMap rm) uri) as [l|] eqn:Hk;
    cbn [default fmap option_fmap option_map app];
    [rewrite (obj_read_own _ _ _ Hk)
    |rewrite obj_read_missing;
     [|exact Hk
      |destruct (inherited uri) eqn:Hin; [|reflexivity];
       contradiction Hown; apply obj_read_inherited; assumption]].
  - assert (Hl : l < length (records w)).
    { rewrite Forall_forall in Hlocs. apply Hlocs. eapply obj_get_loc; exact Hk. }
    destruct (lookup_lt_is_Some_2 _ _ Hl) as [c Hc].
    destruct (for_each_push_record l cbs w c Hc) as (w' & Hrun & Hr & Ha & Hrec).
    exists w', hm, rm. split; [exact Hrun|]. rewrite Hr.
    split; [exact Hhm|]. split; [exact Hrm|]. split.
    + unfold resolve. cbn [namedRoutePartitionMap]. rewrite Ha. reflexivity.
    + rewrite resolve_static, Hk. cbn [fmap option_fmap option_map].
      rewrite Hrec, (list_lookup_total_correct _ _ _ Hc).
      rewrite list_lookup_total_insert_eq by exact Hl. reflexivity.
  - set (w1 := set_records (fun h => h ++ [cbs]) w).
    set (rm' := with_static rm (obj_set (staticRouteMap rm) uri (length (records w)))).
    assert (Hhm1 : routers w1 !! r = Some hm) by exact Hhm.
    destruct (put_map_lookup_eq r i rm' w1 hm Hhm1 Hi) as [Hr' Hi'].
    exists (put_map r i rm' w1), (<[i := rm']> hm), rm'.
    split; [reflexivity|]. split; [exact Hr'|]. split; [exact Hi'|]. split.
    + reflexivity.
    + rewrite resolve_static. unfold rm'. simpl. rewrite obj_get_set_eq. simpl.
      rewrite list_lookup_total_middle by reflexivity. reflexivity.
Qed.

(** Under a name that the static map inherits and does not have itself,
    the registration throws before anything is stored. *)
Lemma buildRequestMap_inherited w r i uri cbs hm rm :
  routers w !! r = Some hm -> hm !! i = Some rm ->
  regexCheckStaticURL uri = true ->
  obj_read (staticRouteMap rm) uri = Inherited ->
  cbs <> [] ->
  buildRequestMap r i uri cbs w = (w, Thrown).
Proof.
  intros Hhm Hrm Hstatic Hin Hcbs. unfold buildRequestMap.
  rewrite (bind_normal _ _ _ _ _ (get_map_known _ _ _ _ _ Hhm Hrm)), Hstatic, Hin.
  destruct cbs as [|cb cbs]; [congruence|]. reflexivity.
Qed.

Lemma obj_read_resolve w rm k :
  obj_read (staticRouteMap (resolve w rm)) k = Inherited
  <-> obj_read (staticRouteMap rm) k = Inherited.
Proof.
  rewrite !obj_read_Inherited, resolve_static.
  destruct (obj_get (staticRouteMap rm) k); cbn [fmap option_fmap option_map];
    split; intros [Hnone Hin]; first [discriminate | auto].
Qed.

Lemma obj_read_not_inherited {V} (o : Obj string V) k :
  inherited k = false -> obj_read o k <> Inherited.
Proof. intros Hin Hread. apply obj_read_Inherited in Hread as [_ ?]. congruence. Qed.

Lemma wp_holds_run {A} (m : comp World A) w w' a :
  holds m -> store_ok w -> m w = (w', Normal a) -> store_ok w'.
Proof.
  intros Hm Hok Hrun. specialize (Hm w Hok). unfold wp in Hm.
  rewrite Hrun in Hm. exact Hm.
Qed.

Lemma wp_keeps_run {A} (m : comp World A) w w' a :
  keeps m -> buckets_ok w -> m w = (w', Normal a) -> buckets_ok w'.
Proof.
  intros Hm Hok Hrun. specialize (Hm w Hok). unfold wp in Hm.
  rewrite Hrun in Hm. exact Hm.
Qed.

Lemma method_route_completes m r uri fn w hm :
  fn <> [] -> store_ok w -> buckets_ok w -> routers w !! r = Some hm ->
  (forall rm, hm !! map_index m = Some rm -> regexCheckStaticURL uri = true ->
              obj_read (staticRouteMap rm) uri <> Inherited) ->
  exists w' hm',
    method_route m r uri fn w = (w', Normal tt)
    /\ store_ok w' /\ buckets_ok w' /\ routers w' !! r = Some hm'.
Proof.
  intros Hfn Hok Hb Hhm Hown.
  destruct (Hok r hm Hhm) as [Hlen _].
  assert (Hi : map_index m < length hm) by (rewrite Hlen; destruct m; vm_compute; lia).
  destruct (lookup_lt_is_Some_2 _ _ Hi) as [rm Hrm].
  assert (Hrun : exists w' hm',
            buildRequestMap r (map_index m) uri fn w = (w', Normal tt)
            /\ routers w' !! r = Some hm').
  { destruct (regexCheckStaticURL uri) eqn:Hstatic.
    - destruct (buildRequestMap_static w r (map_index m) uri fn hm rm Hok Hhm Hrm
                  Hstatic (Hown rm Hrm eq_refl))
        as (w' & hm' & _ & Hrun & Hhm' & _). eauto.
    - destruct (buildRequestMap_dynamic w r (map_index m) uri fn hm rm Hb Hhm Hrm Hstatic)
        as (w' & hm' & _ & Hrun & Hhm' & _). eauto. }
  destruct Hrun as (w' & hm' & Hrun & Hhm').
  exists w', hm'. unfold method_route.
  destruct fn as [|h fn]; [congruence|]. cbn [length Nat.eqb].
  split; [exact Hrun|]. split; [|split; [|exact Hhm']].
  - exact (wp_holds_run _ _ _ _ (holds_buildRequestMap _ _ _ _) Hok Hrun).
  - exact (wp_keeps_run _ _ _ _ (keeps_buildRequestMap _ _ _ _) Hb Hrun).
Qed.

Lemma all_completes r uri fn w hm :
  fn <> [] -> store_ok w -> buckets_ok w -> routers w !! r = Some hm ->
  inherited uri = false ->
  exists w', all r uri fn w = (w', Normal tt).
Proof.
  intros Hfn Hok Hb Hhm Hin. unfold all.
  destruct (length fn =? 0)%nat eqn:Hlen.
  { destruct fn; [congruence|discriminate]. }
  assert (Hown : forall (hm0 : Router) m0 (rm : RouteMap nat nat),
            hm0 !! map_index m0 = Some rm -> regexCheckStaticURL uri = true ->
            obj_read (staticRouteMap rm) uri <> Inherited).
  { intros hm0 m0 rm _ _. apply obj_read_not_inherited, Hin. }
  destruct (method_route_completes GET r uri fn w hm Hfn Hok Hb Hhm (Hown hm GET))
    as (w1 & hm1 & Hrun1 & Hok1 & Hb1 & Hhm1).
  destruct (method_route_completes POST r uri fn w1 hm1 Hfn Hok1 Hb1 Hhm1
              (Hown hm1 POST))
    as (w2 & hm2 & Hrun2 & Hok2 & Hb2 & Hhm2).
  destruct (method_route_completes PUT r uri fn w2 hm2 Hfn Hok2 Hb2 Hhm2
              (Hown hm2 PUT))
    as (w3 & hm3 & Hrun3 & Hok3 & Hb3 & Hhm3).
  destruct (method_route_completes PATCH r uri fn w3 hm3 Hfn Hok3 Hb3 Hhm3
              (Hown hm3 PATCH))
    as (w4 & hm4 & Hrun4 & Hok4 & Hb4 & Hhm4).
  destruct (method_route_completes DELETE r uri fn w4 hm4 Hfn Hok4 Hb4 Hhm4
              (Hown hm4 DELETE))
    as (w5 & hm5 & Hrun5 & _).
  exists w5.
  rewrite (bind_normal _ _ _ _ _ Hrun1), (bind_normal _ _ _ _ _ Hrun2),
    (bind_normal _ _ _ _ _ Hrun3), (bind_normal _ _ _ _ _ Hrun4).
  exact Hrun5.
Qed.

Section registration.
Context `{!Builtins}.

(** X10. On a router that has been constructed, after any sequence of
    configuration calls, a registration for one method ([get], [post],
    [put], [patch], [delete]) throws in two cases only: it is given no
    handler, or its pattern is static and is a name that the static map of
    the method inherits from [Object.prototype] without having it itself
    (such as [constructor]). Under any other pattern [all] and [use] with
    a path throw exactly when they are given no handler, as [use] with
    handlers only does. A registration for one method that throws leaves
    the tables as they were. *)
Theorem registration_throws_exactly_when (ops : list Op) (r : nat)
  (hm : Router) (uri : string) (fn : list HandlerFunction) :
  routers (configure ops empty_world) !! r = Some hm ->
  (forall m table,
     httpMethodMap (configure ops empty_world) r !! map_index m = Some table ->
     ((method_route m r uri fn (configure ops empty_world)).2 = Thrown
      <-> fn = []
          \/ (regexCheckStaticURL uri = true
              /\ obj_read (staticRouteMap table) uri = Inherited))
     /\ ((method_route m r uri fn (configure ops empty_world)).2 = Thrown ->
         (method_route m r uri fn (configure ops empty_world)).1
         = configure ops empty_world))
  /\ (inherited uri = false ->
      ((all r uri fn (configure ops empty_world)).2 = Thrown <-> fn = [])
      /\ ((use_path r uri fn (configure ops empty_world)).2 = Thrown <-> fn = []))
  /\ ((use_middleware r fn (configure ops empty_world)).2 = Thrown <-> fn = [])
  /\ (fn = [] ->
      (all r uri fn (configure ops empty_world)).1 = configure ops empty_world
      /\ (use_path r uri fn (configure ops empty_world)).1
         = configure ops empty_world
      /\ (use_middleware r fn (configure ops empty_world)).1
         = configure ops empty_world).
Proof.
  intros Hhm.
  pose proof (store_ok_configure ops empty_world store_ok_empty) as Hok.
  pose proof (buckets_ok_configure ops empty_world buckets_ok_empty) as Hb.
  set (w := configure ops empty_world) in *.
  split; [|split; [|split]].
  - intros m table Htable.
    destruct (httpMethodMap_lookup _ _ _ _ Htable) as (hm0 & rm & Hhm0 & Hrm & ->).
    rewrite Hhm in Hhm0. injection Hhm0 as <-.
    destruct fn as [|h fn].
    { split; [split; [auto|reflexivity]|reflexivity]. }
    assert (Hcase : (regexCheckStaticURL uri = true
                     /\ obj_read (staticRouteMap rm) uri = Inherited)
                    \/ ~ (regexCheckStaticURL uri = true
                          /\ obj_read (staticRouteMap rm) uri = Inherited)).
    { destruct (regexCheckStaticURL uri); [|right; intros [? _]; discriminate].
      destruct (obj_read (staticRouteMap rm) uri);
        [right; intros [_ ?]; discriminate|left; auto
        |right; intros [_ ?]; discriminate]. }
    destruct Hcase as [[Hstatic Hin]|Hfree].
    + assert (Hrun : method_route m r uri (h :: fn) w = (w, Thrown)).
      { unfold method_route. cbn [length Nat.eqb].
        apply (buildRequestMap_inherited w r (map_index m) uri (h :: fn) hm rm);
          [assumption..|discriminate]. }
      rewrite Hrun. cbn [fst snd]. split; [|reflexivity].
      split; [intros _; right|reflexivity].
      split; [exact Hstatic|]. apply (obj_read_resolve w), Hin.
    + destruct (method_route_completes m r uri (h :: fn) w hm
                  ltac:(discriminate) Hok Hb Hhm) as (w' & _ & Hrun & _).
      { intros rm0 Hrm0 Hstatic Hin. rewrite Hrm in Hrm0. injection Hrm0 as <-.
        apply Hfree. auto. }
      rewrite Hrun. cbn [fst snd]. split; [|discriminate].
      split; [discriminate|].
      intros [Hnil|[Hstatic Hin]]; [discriminate|].
      exfalso. apply Hfree. split; [exact Hstatic|].
      apply (obj_read_resolve w), Hin.
  - intros Hin. split; split.
    + intros Hthrown. destruct fn as [|h fn]; [reflexivity|].
      destruct (all_completes r uri (h :: fn) w hm ltac:(discriminate) Hok Hb Hhm Hin)
        as (w' & Hrun).
      rewrite Hrun in Hthrown. discriminate.
    + intros ->. reflexivity.
    + intros Hthrown. destruct fn as [|h fn]; [reflexivity|].
      destruct (all_completes r uri (h :: fn) w hm ltac:(discriminate) Hok Hb Hhm Hin)
        as (w' & Hrun).
      unfold use_path in Hthrown. cbn [length Nat.eqb] in Hthrown.
      rewrite Hrun in Hthrown. discriminate.
    + intros ->. reflexivity.
  - split.
    + intros Hthrown. destruct fn as [|h fn]; [reflexivity|].
      destruct (method_route_completes MIDDLEWARE r TopLevelMiddleware (h :: fn) w hm
                  ltac:(discriminate) Hok Hb Hhm) as (w' & _ & Hrun & _).
      { intros rm0 _ _. apply obj_read_not_inherited. reflexivity. }
      unfold use_middleware in Hthrown. unfold method_route in Hrun.
      cbn [length Nat.eqb] in Hthrown, Hrun.
      rewrite Hrun in Hthrown. discriminate.
    + intros ->. reflexivity.
  - intros ->. repeat split; reflexivity.
Qed.

(** X11. Registering a static pattern with at least one handler, on a
    router configured by any sequence of calls, completes, unless the
    pattern is a name that the static map inherits and does not have
    itself; the chain of the pattern in the table of the method is the
    chain it had, if any, followed by the new handlers, and the partition
    map is as before. A request for that method whose matched path is the
    pattern then runs the top-level middlewares and that chain. *)
Theorem static_registration_round_trip (ops : list Op) (r : nat)
  (m : HttpMapIndex) (uri : string) (fn : list HandlerFunction)
  (table : RouteTable) :
  httpMethodMap (configure ops empty_world) r !! map_index m = Some table ->
  regexCheckStaticURL uri = true ->
  obj_read (staticRouteMap table) uri <> Inherited ->
  fn <> [] ->
  exists w' table',
    method_route m r uri fn (configure ops empty_world) = (w', Normal tt)
    /\ httpMethodMap w' r !! map_index m = Some table'
    /\ namedRoutePartitionMap table' = namedRoutePartitionMap table
    /\ obj_get (staticRouteMap table') uri
       = Some (default [] (obj_get (staticRouteMap table) uri) ++ fn)
    /\ forall throwOnNotFound ctx,
         normalize (url (request ctx)) = uri ->
         processHTTPMethod (httpMethodMap w' r) (map_index m) throwOnNotFound ctx
         = (parse_query (url (request ctx)) ;;;
            try_catch
              (callTopLevelMiddlewares (httpMethodMap w' r) ;;;
               run_chain (default [] (obj_get (staticRouteMap table) uri) ++ fn))
              notFound) ctx.
Proof.
  intros Htable Hstatic Hown Hfn.
  pose proof (store_ok_configure ops empty_world store_ok_empty) as Hok.
  destruct (httpMethodMap_lookup _ _ _ _ Htable) as (hm & rm & Hhm & Hrm & ->).
  destruct (buildRequestMap_static _ r (map_index m) uri fn hm rm Hok Hhm Hrm Hstatic)
    as (w' & hm' & rm' & Hrun & Hhm' & Hrm' & Hnamed & Hchain).
  { intros Hin. apply Hown. apply (obj_read_resolve _ rm), Hin. }
  exists w', (resolve w' rm').
  split; [|split; [|split; [|split]]].
  - unfold method_route. destruct fn as [|h fn]; [congruence|]. exact Hrun.
  - exact (httpMethodMap_resolve _ _ _ _ _ Hhm' Hrm').
  - exact Hnamed.
  - exact Hchain.
  - intros thr ctx Hurl.
    pose proof (httpMethodMap_resolve _ _ _ _ _ Hhm' Hrm') as Htable'.
    destruct (parse_query_normal (url (request ctx)) ctx) as (ctx1 & Hq & _).
    rewrite (processHTTPMethod_cases _ _ _ _ _ Hq), (bind_normal _ _ _ _ _ Hq), Hurl.
    rewrite (try_block_static _ _ thr _ _ _ ctx1 Htable' Hchain).
    unfold try_catch, bind.
    destruct (callTopLevelMiddlewares (httpMethodMap w' r) ctx1) as [c [[]|]];
      [|by_cases_of_404].
    destruct (run_chain _ c) as [c' [[]|]]; by_cases_of_404.
Qed.

End registration.

Lemma registration_throws_exactly_when_witness :
  let ops := [NewRouter; Route GET 0 "/about" [named_handler "about" Truthy]] in
  let w := @configure node_builtins ops empty_world in
  let hm := default [] (routers w !! 0) in
  let fn := [named_handler "user" Truthy] in
  routers w !! 0 = Some hm
  /\ (method_route POST 0 "/about" [] w).2 = Thrown
  /\ method_route GET 0 "constructor" fn w = (w, Thrown)
  /\ (method_route GET 0 "/constructor" fn w).2 <> Thrown
  /\ (all 0 "/users/:id" fn w).2 <> Thrown.
Proof.
  intros ops w hm fn.
  split; [reflexivity|]. split; [|split; [|split]].
  - destruct (@registration_throws_exactly_when node_builtins ops 0 hm
                "/about" [] eq_refl) as (Hroute & _).
    destruct (Hroute POST _ eq_refl) as [Hthrows _]. apply Hthrows. left. reflexivity.
  - destruct (@registration_throws_exactly_when node_builtins ops 0 hm
                "constructor" fn eq_refl) as (Hroute & _).
    destruct (Hroute GET _ eq_refl) as [Hthrows Hsame].
    assert (Hthrown : (method_route GET 0 "constructor" fn w).2 = Thrown).
    { apply Hthrows. right. split; reflexivity. }
    specialize (Hsame Hthrown).
    transitivity ((method_route GET 0 "constructor" fn w).1,
                  (method_route GET 0 "constructor" fn w).2);
      [apply surjective_pairing|].
    apply pair_equal_spec. split; [exact Hsame|exact Hthrown].
  - destruct (@registration_throws_exactly_when node_builtins ops 0 hm
                "/constructor" fn eq_refl) as (Hroute & _).
    destruct (Hroute GET _ eq_refl) as [Hthrows _].
    intros Hthrown. apply Hthrows in Hthrown as [Hnil|[_ Hin]]; discriminate.
  - destruct (@registration_throws_exactly_when node_builtins ops 0 hm
                "/users/:id" fn eq_refl) as (_ & Hall & _).
    destruct (Hall eq_refl) as [Hall' _].
    intros Hthrown. apply Hall' in Hthrown. discriminate.
Defined.

Lemma static_registration_round_trip_witness :
  let ops := [NewRouter;
              UseMiddleware 0 [named_handler "log" Falsy];
              Route GET 0 "/about" [named_handler "first" Falsy]] in
  let w := @configure node_builtins ops empty_world in
  let table :=
    {| namedRoutePartitionMap := [];
       staticRouteMap := [("/about", [named_handler "first" Falsy])] |} in
  let fn := [named_handler "second" Truthy] in
  httpMethodMap w 0 !! map_index GET = Some table
  /\ regexCheckStaticURL "/about" = true
  /\ obj_read (staticRouteMap table) "/about" <> Inherited
  /\ fn <> []
  /\ exists w' table',
       method_route GET 0 "/about" fn w = (w', Normal tt)
       /\ httpMethodMap w' 0 !! map_index GET = Some table'
       /\ obj_get (staticRouteMap table') "/about"
          = Some [named_handler "first" Falsy; named_handler "second" Truthy]
       /\ response (@dispatch node_builtins (httpMethodMap w' 0)
                      (incoming "GET" "/about/?x=1")).1
          = [SetHeader "X-Handler" "log"; SetHeader "X-Handler" "first";
             SetHeader "X-Handler" "second"; End None].
Proof.
  intros ops w table fn.
  assert (Hfn : fn <> []) by discriminate.
  assert (Hown : obj_read (staticRouteMap table) "/about" <> Inherited)
    by discriminate.
  split; [reflexivity|]. split; [reflexivity|]. split; [exact Hown|].
  split; [exact Hfn|].
  destruct (@static_registration_round_trip node_builtins ops 0 GET "/about" fn table
              eq_refl eq_refl Hown Hfn)
    as (w' & table' & Hrun & Htable' & _ & Hchain & Hserve).
  exists w', table'.
  split; [exact Hrun|]. split; [exact Htable'|]. split; [exact Hchain|].
  unfold dispatch. cbn [incoming request method method_index bool_decide].
  change (method_index "GET") with (Some GET). cbv iota.
  rewrite (Hserve true (incoming "GET" "/about/?x=1") eq_refl).
  injection Hrun as <-. reflexivity.
Defined.

(** ** Mounting a router on a path *)

Lemma wp_fold_each_done {S A B} (l : list A) (b : B) (body : B -> A -> comp S B)
  (I : list A -> B -> S -> Prop) (Q : B -> S -> Prop) E s :
  I [] b s ->
  (forall done x rest b' s', l = done ++ x :: rest -> I done b' s' ->
     wp (body b' x) (I (done ++ [x])) E s') ->
  (forall b' s', I l b' s' -> Q b' s') ->
  wp (fold_each l b body) Q E s.
Proof.
  intros HI Hbody HQ.
  assert (Hgen : forall rest done b' s',
    l = done ++ rest -> I done b' s' -> wp (fold_each rest b' body) Q E s').
  { induction rest as [|x rest IH]; intros done b' s' Hl HI'; simpl.
    - apply wp_ret, HQ. rewrite Hl, app_nil_r. exact HI'.
    - apply wp_bind. eapply wp_mono; [eapply Hbody; eauto| |auto].
      intros b'' s'' HI''. apply (IH (done ++ [x])); [|exact HI''].
      rewrite <- app_assoc. exact Hl. }
  apply (Hgen l [] b s); auto.
Qed.

Lemma wp_normal {S A} (m : comp S A) (Q : A -> S -> Prop) s :
  wp m Q (fun _ => False) s -> exists s' a, m s = (s', Normal a) /\ Q a s'.
Proof. unfold wp. destruct (m s) as [s' [a|]]; [eauto|contradiction]. Qed.

Lemma put_map_id t i tm w T :
  routers w !! t = Some T -> T !! i = Some tm -> put_map t i tm w = w.
Proof.
  intros HT Htm. destruct w as [rec arr rs]. unfold put_map, set_routers.
  simpl in *. rewrite HT. f_equal.
  rewrite (list_insert_id T i tm Htm). apply list_insert_id, HT.
Qed.

Lemma put_map_twice t i rm rm' w T :
  routers w !! t = Some T ->
  put_map t i rm' (put_map t i rm w) = put_map t i rm' w.
Proof.
  intros HT. destruct w as [rec arr rs]. unfold put_map, set_routers.
  simpl in *. rewrite HT.
  rewrite list_lookup_insert_eq by (eapply lookup_lt_Some; exact HT).
  f_equal. rewrite list_insert_insert_eq. f_equal. apply list_insert_insert_eq.
Qed.

Lemma push_array_known w l es e :
  arrays w !! l = Some es ->
  push_array l e w = (set_arrays (fun h => <[l := es ++ [e]]> h) w, Normal tt).
Proof.
  intros Hl. unfold push_array.
  rewrite (bind_normal _ _ _ _ _ (read_array_known _ _ _ Hl)). reflexivity.
Qed.

Lemma with_static_id {S B} (rm : RouteMap S B) : with_static rm (staticRouteMap rm) = rm.
Proof. destruct rm; reflexivity. Qed.

Lemma with_named_id {S B} (rm : RouteMap S B) :
  with_named rm (namedRoutePartitionMap rm) = rm.
Proof. destruct rm; reflexivity. Qed.

Lemma obj_get_put_ne {V} (o : Obj string V) k v k' :
  k <> k' -> obj_get (obj_put o k v) k' = obj_get o k'.
Proof.
  intros Hne. unfold obj_put.
  destruct (bool_decide (k = "__proto__") && bool_decide (obj_get o k = None));
    [reflexivity|apply obj_get_set_ne, Hne].
Qed.

Lemma obj_get_put_eq {V} (o : Obj string V) k v :
  k <> "__proto__" -> obj_get (obj_put o k v) k = Some v.
Proof.
  intros Hne. unfold obj_put. rewrite (bool_decide_eq_false_2 _ Hne).
  cbn [andb]. apply obj_get_set_eq.
Qed.

(** A map that has no property [__proto__] gets none by assignments. *)
Lemma obj_get_put_proto {V} (o : Obj string V) k v :
  obj_get o "__proto__" = None -> obj_get (obj_put o k v) "__proto__" = None.
Proof.
  intros Hnone. destruct (decide (k = "__proto__")) as [->|Hne].
  - unfold obj_put. rewrite bool_decide_eq_true_2 by reflexivity.
    rewrite bool_decide_eq_true_2 by exact Hnone. exact Hnone.
  - rewrite obj_get_put_ne by exact Hne. exact Hnone.
Qed.

Lemma obj_get_image {V} (f : string -> string) (src : Obj string V) : forall m k',
  obj_get m "__proto__" = None ->
  obj_get (foldl (fun m kv => obj_put m (f kv.1) kv.2) m src) k'
  = match last_under f src k' with
    | Some v => Some v
    | None => obj_get m k'
    end.
Proof.
  unfold last_under.
  induction src as [|[k v] src IH]; intros m k' Hnone.
  { cbn [foldl filter]. destruct (bool_decide (k' = "__proto__")); reflexivity. }
  cbn [foldl fst snd]. rewrite IH by (apply obj_get_put_proto, Hnone).
  destruct (bool_decide (k' = "__proto__")) eqn:Hproto.
  { apply bool_decide_eq_true in Hproto as ->.
    rewrite Hnone. apply obj_get_put_proto, Hnone. }
  apply bool_decide_eq_false in Hproto.
  rewrite filter_cons. cbn [fst].
  destruct (decide (f k = k')) as [Heq|Hne].
  - rewrite last_cons.
    destruct (last (filter (fun kv : string * V => f kv.1 = k') src)) as [[k2 v2]|];
      [reflexivity|].
    cbn [fmap option_fmap option_map snd]. rewrite Heq. apply obj_get_put_eq, Hproto.
  - destruct (last (filter (fun kv : string * V => f kv.1 = k') src)) as [[k2 v2]|];
      [reflexivity|].
    cbn [fmap option_fmap option_map]. apply obj_get_put_ne, Hne.
Qed.

Lemma last_under_fmap {V W} (f : string -> string) (g : V -> W) (src : Obj string V) k' :
  last_under f ((fun kv : string * V => (kv.1, g kv.2)) <$> src) k'
  = g <$> last_under f src k'.
Proof.
  unfold last_under. destruct (bool_decide (k' = "__proto__")); [reflexivity|].
  induction src as [|[k v] src IH]; [reflexivity|].
  rewrite fmap_cons, !filter_cons. cbn [fst snd].
  destruct (decide (f k = k')); [|exact IH].
  rewrite !last_cons.
  destruct (last (filter (fun kv : string * V => f kv.1 = k') src)) as [[k2 v2]|] eqn:Hl;
    destruct (last (filter (fun kv : string * W => f kv.1 = k')
                      ((fun kv : string * V => (kv.1, g kv.2)) <$> src)))
      as [[k3 w3]|] eqn:Hl'; cbn in IH |- *; congruence.
Qed.

Section mount_at_spec.
Context `{!Builtins}.

Lemma rekeyed_app uri es1 es2 b :
  rekeyed uri (es1 ++ es2) b = rekeyed uri es1 b ++ rekeyed uri es2 b.
Proof. unfold rekeyed. rewrite fmap_app, filter_app, fmap_app. reflexivity. Qed.

Lemma rekeyed_single uri e b :
  rekeyed uri [e] b = if decide ((rekey uri e).1 = b) then [(rekey uri e).2] else [].
Proof.
  unfold rekeyed. cbn [fmap list_fmap]. rewrite filter_cons, filter_nil.
  destruct (decide ((rekey uri e).1 = b)); reflexivity.
Qed.

Lemma rekeyed_bucket uri es b e :
  e ∈ rekeyed uri es b -> length (pathNames e) = b.
Proof.
  unfold rekeyed. intros Hin.
  apply list_elem_of_fmap in Hin as ([b' e'] & -> & Hin).
  apply list_elem_of_filter in Hin as [Hb Hin]. cbn [fst snd] in *. subst b'.
  apply list_elem_of_fmap in Hin as (e0 & Heq & _).
  unfold rekey in Heq.
  pose proof (make_entry_length (prefixed uri (JsString.join "/" (pathNames e0)))
                (callbacks e0)) as Hlen.
  rewrite <- Heq in Hlen. exact Hlen.
Qed.

(** The static half of one turn of the loop over the tables. *)
Lemma mount_static_spec w t uri s i T S tm sm :
  routers w !! t = Some T -> T !! i = Some tm ->
  routers w !! s = Some S -> S !! i = Some sm ->
  mount_static t uri s i w
  = (put_map t i
       (with_static tm
          (obj_assign (staticRouteMap tm) (static_image uri i (staticRouteMap sm)))) w,
     Normal tt).
Proof.
  intros HT Htm HS Hsm. unfold mount_static.
  rewrite (bind_normal _ _ _ _ _ (get_map_known _ _ _ _ _ HS Hsm)).
  destruct (staticRouteMap sm) as [|kv src] eqn:Hsrc.
  - cbn [obj_is_empty]. unfold static_image, obj_assign. cbn [foldl].
    rewrite with_static_id, (put_map_id t i tm w T HT Htm). reflexivity.
  - cbn [obj_is_empty].
    rewrite (bind_normal _ _ _ _ _ (get_map_known _ _ _ _ _ HT Htm)).
    reflexivity.
Qed.

Lemma mount_state_injective uri w0 processed m w' b b' l :
  mount_state uri w0 processed m w' ->
  obj_get m b = Some l -> obj_get m b' = Some l -> b = b'.
Proof.
  intros (_ & _ & _ & _ & Hm) Hb Hb'.
  pose proof (Hm b) as H1. pose proof (Hm b') as H2.
  rewrite Hb in H1. rewrite Hb' in H2.
  destruct H1 as (_ & Ha1 & Hne1). destruct H2 as (_ & Ha2 & _).
  rewrite Ha1 in Ha2. injection Ha2 as Heq.
  destruct (rekeyed uri processed b) as [|e es] eqn:Hr; [congruence|].
  assert (H1 : e ∈ rekeyed uri processed b) by (rewrite Hr; apply list_elem_of_here).
  assert (H2 : e ∈ rekeyed uri processed b')
    by (rewrite <- Heq; apply list_elem_of_here).
  apply rekeyed_bucket in H1, H2. congruence.
Qed.

(** One entry of a bucket of the source. *)
Lemma mount_named_entry_spec uri s i k v S sm es pre w0 m j w :
  routers w !! s = Some S -> S !! i = Some sm ->
  obj_get (namedRoutePartitionMap sm) k = Some v ->
  arrays w0 !! v = Some es ->
  j < length es ->
  mount_state uri w0 (pre ++ take j es) m w ->
  wp (mount_named_entry uri s i k v m j)
     (fun m' w' =>
        routers w' = routers w
        /\ mount_state uri w0 (pre ++ take (Datatypes.S j) es) m' w'
        /\ forall b l, obj_get m b = Some l -> obj_get m' b = Some l)
     (fun _ => False) w.
Proof.
  intros HS Hsm Hk Hes Hj Hst.
  pose proof Hst as (Hrec & Hlen & Hpre & Hnd & Hm).
  destruct (lookup_lt_is_Some_2 _ _ Hj) as [e He].
  assert (Hes' : arrays w !! v = Some es) by (apply Hpre, Hes).
  unfold mount_named_entry.
  apply (wp_bind_normal _ _ _ _ _ _ _ (get_map_known _ _ _ _ _ HS Hsm)).
  rewrite Hk. apply wp_bind, wp_ret.
  apply (wp_bind_normal _ _ _ _ _ _ _ (read_array_known _ _ _ Hes')).
  rewrite He. apply wp_bind, wp_ret.
  apply (wp_bind_normal _ _ _ _ _ _ _ (read_array_known _ _ _ Hes')).
  rewrite He. apply wp_bind, wp_ret.
  fold (rekey uri e).
  rewrite (take_S_r es j e He), app_assoc.
  assert (Hstep : forall b,
            rekeyed uri ((pre ++ take j es) ++ [e]) b
            = rekeyed uri (pre ++ take j es) b
              ++ if decide ((rekey uri e).1 = b) then [(rekey uri e).2] else []).
  { intros b. rewrite rekeyed_app, rekeyed_single. reflexivity. }
  destruct (rekey uri e) as [b0 e'] eqn:Hbe. cbn [fst snd] in *.
  destruct (obj_get m b0) as [l|] eqn:Hget.
  - pose proof (Hm b0) as Hb0. rewrite Hget in Hb0. destruct Hb0 as (Hfresh & Hl & Hne).
    apply (wp_bind_normal _ _ _ _ _ _ _ (push_array_known _ _ _ e' Hl)).
    apply wp_ret.
    split; [reflexivity|]. split; [|auto].
    split; [exact Hrec|]. split; [simpl; rewrite length_insert; exact Hlen|].
    split; [|split; [exact Hnd|]].
    + intros l' es' Hl'. simpl. rewrite list_lookup_insert_ne; [apply Hpre, Hl'|].
      apply lookup_lt_Some in Hl'. lia.
    + intros b. rewrite Hstep. pose proof (Hm b) as Hb.
      destruct (obj_get m b) as [lb|] eqn:Hgb.
      * destruct Hb as (Hfb & Hlb & Hneb). split; [exact Hfb|].
        destruct (decide (b0 = b)) as [<-|Hbb].
        -- assert (lb = l) as -> by congruence. split.
           ++ simpl. apply list_lookup_insert_eq. eapply lookup_lt_Some; exact Hl.
           ++ intros Heq. apply app_eq_nil in Heq as [_ Heq]. discriminate.
        -- rewrite app_nil_r. split; [|exact Hneb].
           simpl. rewrite list_lookup_insert_ne; [exact Hlb|].
           intros <-. apply Hbb.
           exact (mount_state_injective _ _ _ _ _ _ _ _ Hst Hget Hgb).
      * destruct (decide (b0 = b)) as [<-|Hbb]; [congruence|].
        rewrite app_nil_r. exact Hb.
  - pose proof (Hm b0) as Hb0. rewrite Hget in Hb0.
    apply wp_bind, wp_alloc_array, wp_ret.
    split; [reflexivity|]. split.
    + split; [exact Hrec|]. split; [simpl; rewrite length_app; lia|].
      split; [|split; [apply NoDup_obj_set, Hnd|]].
      * intros l' es' Hl'. simpl. apply lookup_app_l_Some, Hpre, Hl'.
      * intros b. rewrite Hstep, obj_get_set.
        destruct (decide (b0 = b)) as [<-|Hbb].
        -- rewrite Hb0. cbn [app]. split; [exact Hlen|]. split; [|discriminate].
           simpl. apply list_lookup_middle. reflexivity.
        -- rewrite app_nil_r. pose proof (Hm b) as Hb.
           destruct (obj_get m b) as [lb|]; [|exact Hb].
           destruct Hb as (Hfb & Hlb & Hneb). split; [exact Hfb|]. split; [|exact Hneb].
           simpl. apply lookup_app_l_Some, Hlb.
    + intros b l Hbl. rewrite obj_get_set.
      destruct (decide (b0 = b)) as [<-|_]; [congruence|exact Hbl].
Qed.

Lemma seq_split n done x rest :
  seq 0 n = done ++ x :: rest ->
  x = length done /\ x < n /\ forall j, j ∈ done <-> j < x.
Proof.
  intros Hsplit.
  assert (Hx : seq 0 n !! length done = Some x).
  { rewrite Hsplit. apply list_lookup_middle. reflexivity. }
  apply lookup_seq in Hx as [Hx Hlt]. simpl in Hx. subst x.
  split; [reflexivity|]. split; [exact Hlt|].
  intros j. split.
  - intros Hj. apply list_elem_of_lookup in Hj as [p Hp].
    pose proof (lookup_lt_Some _ _ _ Hp) as Hplt.
    assert (Hp' : seq 0 n !! p = Some j).
    { rewrite Hsplit. rewrite lookup_app_l by exact Hplt. exact Hp. }
    apply lookup_seq in Hp' as [-> _]. simpl. exact Hplt.
  - intros Hj.
    assert (Hp : seq 0 n !! j = Some j) by (apply lookup_seq; split; [reflexivity|lia]).
    rewrite Hsplit, lookup_app_l in Hp by exact Hj.
    eapply list_elem_of_lookup_2; exact Hp.
Qed.

(** One bucket of the source: its entries are handled one by one, and the
    local map is then assigned to the partition map of the target. *)
Lemma mount_named_bucket_spec t uri s i k v S sm es pre w0 m w Tc tmc
  (named0 : Obj nat loc) :
  routers w !! s = Some S -> S !! i = Some sm ->
  obj_get (namedRoutePartitionMap sm) k = Some v ->
  arrays w0 !! v = Some es ->
  routers w !! t = Some Tc -> Tc !! i = Some tmc ->
  mount_state uri w0 pre m w ->
  (forall b, obj_get (namedRoutePartitionMap tmc) b
             = match obj_get m b with Some l => Some l | None => obj_get named0 b end) ->
  wp (mount_named_bucket t uri s i m (k, v))
     (fun m' w' =>
        mount_state uri w0 (pre ++ es) m' w'
        /\ exists tmc',
             routers w' = <[t := <[i := tmc']> Tc]> (routers w)
             /\ staticRouteMap tmc' = staticRouteMap tmc
             /\ forall b, obj_get (namedRoutePartitionMap tmc') b
                          = match obj_get m' b with
                            | Some l => Some l
                            | None => obj_get named0 b
                            end)
     (fun _ => False) w.
Proof.
  intros HS Hsm Hk Hes HT Htmc Hst HTI.
  pose proof Hst as (_ & _ & Hpre & _ & _).
  assert (Hes' : arrays w !! v = Some es) by (apply Hpre, Hes).
  unfold mount_named_bucket. cbn [fst snd].
  apply (wp_bind_normal _ _ _ _ _ _ _ (get_map_known _ _ _ _ _ HS Hsm)).
  rewrite Hk. apply wp_bind, wp_ret.
  apply (wp_bind_normal _ _ _ _ _ _ _ (read_array_known _ _ _ Hes')).
  apply wp_bind.
  apply wp_fold_each_done with
    (I := fun (done : list nat) m' w' =>
       routers w' = routers w
       /\ mount_state uri w0 (pre ++ take (length done) es) m' w'
       /\ forall b l, obj_get m b = Some l -> obj_get m' b = Some l).
  - split; [reflexivity|]. split; [|auto].
    cbn [length take]. rewrite take_0, app_nil_r. exact Hst.
  - intros done x rest m' w' Hsplit (Hr & Hst' & Hmono).
    apply seq_split in Hsplit as (-> & Hlt & _).
    assert (HS' : routers w' !! s = Some S) by (rewrite Hr; exact HS).
    eapply wp_mono;
      [exact (mount_named_entry_spec uri s i k v S sm es pre w0 m' (length done) w'
                HS' Hsm Hk Hes Hlt Hst')| |auto].
    intros m'' w'' (Hr' & Hst'' & Hmono').
    split; [congruence|]. split; [|auto].
    rewrite length_app. cbn [length]. rewrite Nat.add_1_r. exact Hst''.
  - intros m' w' (Hr & Hst' & Hmono).
    rewrite length_seq, firstn_all in Hst'.
    pose proof Hst' as (_ & _ & _ & Hnd' & _).
    assert (HT' : routers w' !! t = Some Tc) by (rewrite Hr; exact HT).
    apply wp_bind. destruct (obj_is_empty m') eqn:Hempty.
    + apply wp_ret, wp_ret. split; [exact Hst'|]. exists tmc.
      split; [|split; [reflexivity|]].
      * rewrite Hr, (list_insert_id Tc i tmc Htmc), (list_insert_id _ t Tc HT).
        reflexivity.
      * intros b. apply obj_is_empty_true in Hempty. subst m'. cbn [obj_get].
        rewrite HTI. destruct (obj_get m b) as [l|] eqn:Hb; [|reflexivity].
        apply Hmono in Hb. discriminate.
    + apply (wp_bind_normal _ _ _ _ _ _ _ (get_map_known _ _ _ _ _ HT' Htmc)).
      apply wp_set_map, wp_ret. split; [exact Hst'|].
      exists (with_named tmc (obj_assign (namedRoutePartitionMap tmc) m')).
      split; [|split; [reflexivity|]].
      * rewrite (put_map_routers _ _ _ _ _ HT'), Hr. reflexivity.
      * intros b. cbn [namedRoutePartitionMap with_named].
        rewrite (obj_get_assign m' _ b Hnd').
        destruct (obj_get m' b) as [l|] eqn:Hb'; [reflexivity|].
        rewrite HTI. destruct (obj_get m b) as [l|] eqn:Hb; [|reflexivity].
        apply Hmono in Hb. congruence.
Qed.

(** The named half of one turn of the loop over the tables. *)
Lemma mount_named_spec t uri s i S sm w Tc tm :
  routers w !! s = Some S -> S !! i = Some sm -> s <> t ->
  routers w !! t = Some Tc -> Tc !! i = Some tm ->
  NoDup (namedRoutePartitionMap sm).*1 ->
  (forall k v, (k, v) ∈ namedRoutePartitionMap sm -> is_Some (arrays w !! v)) ->
  wp (mount_named t uri s i)
     (fun _ w' =>
        records w' = records w
        /\ length (arrays w) <= length (arrays w')
        /\ (forall l es, arrays w !! l = Some es -> arrays w' !! l = Some es)
        /\ exists tm',
             routers w' = <[t := <[i := tm']> Tc]> (routers w)
             /\ staticRouteMap tm' = staticRouteMap tm
             /\ forall b,
                  match rekeyed uri (source_entries w sm) b with
                  | [] => obj_get (namedRoutePartitionMap tm') b
                          = obj_get (namedRoutePartitionMap tm) b
                  | es => exists l, obj_get (namedRoutePartitionMap tm') b = Some l
                                    /\ arrays w' !! l = Some es
                  end)
     (fun _ => False) w.
Proof.
  intros HS Hsm Hts HT Htm Hnd Halloc.
  pose proof (lookup_lt_Some _ _ _ HT) as Ht.
  pose proof (lookup_lt_Some _ _ _ Htm) as Hi.
  unfold mount_named.
  apply (wp_bind_normal _ _ _ _ _ _ _ (get_map_known _ _ _ _ _ HS Hsm)).
  apply wp_bind.
  apply wp_fold_each_done with
    (I := fun (done : list (nat * loc)) m w' =>
       mount_state uri w
         (concat ((fun kv : nat * loc => arrays w !!! kv.2) <$> done)) m w'
       /\ exists tmc,
            routers w' = <[t := <[i := tmc]> Tc]> (routers w)
            /\ staticRouteMap tmc = staticRouteMap tm
            /\ forall b, obj_get (namedRoutePartitionMap tmc) b
                         = match obj_get m b with
                           | Some l => Some l
                           | None => obj_get (namedRoutePartitionMap tm) b
                           end).
  - split.
    + split; [reflexivity|]. split; [reflexivity|]. split; [auto|].
      split; [constructor|]. intros b. reflexivity.
    + exists tm. split; [|split; [reflexivity|intros b; reflexivity]].
      rewrite (list_insert_id Tc i tm Htm), (list_insert_id _ t Tc HT). reflexivity.
  - intros done [k v] rest m w' Hsplit (Hst & tmc & Hr & Hs & HTI).
    assert (Hin : (k, v) ∈ namedRoutePartitionMap sm).
    { rewrite Hsplit. apply elem_of_app. right. apply list_elem_of_here. }
    destruct (Halloc k v Hin) as [es Hes].
    assert (Hk : obj_get (namedRoutePartitionMap sm) k = Some v)
      by (apply obj_get_NoDup; assumption).
    assert (HS' : routers w' !! s = Some S).
    { rewrite Hr, list_lookup_insert_ne by congruence. exact HS. }
    assert (HT' : routers w' !! t = Some (<[i := tmc]> Tc)).
    { rewrite Hr. apply list_lookup_insert_eq, Ht. }
    assert (Htmc : <[i := tmc]> Tc !! i = Some tmc)
      by (apply list_lookup_insert_eq, Hi).
    eapply wp_mono;
      [exact (mount_named_bucket_spec t uri s i k v S sm es _ w m w' _ tmc
                (namedRoutePartitionMap tm) HS' Hsm Hk Hes HT' Htmc Hst HTI)| |auto].
    intros m' w'' (Hst' & tmc' & Hr' & Hs' & HTI').
    split.
    + rewrite fmap_app, concat_app. cbn [fmap list_fmap concat snd].
      rewrite (list_lookup_total_correct _ _ _ Hes), app_nil_r. exact Hst'.
    + exists tmc'. split; [|split; [congruence|exact HTI']].
      rewrite Hr', Hr, !list_insert_insert_eq. reflexivity.
  - intros m w' (Hst & tmc & Hr & Hs & HTI). apply wp_ret.
    destruct Hst as (Hrec & Hlen & Hpre & _ & Hm).
    split; [exact Hrec|]. split; [exact Hlen|]. split; [exact Hpre|].
    exists tmc. split; [exact Hr|]. split; [exact Hs|].
    intros b. fold (source_entries w sm) in Hm. specialize (Hm b). rewrite HTI.
    destruct (obj_get m b) as [l|].
    + destruct Hm as (_ & Hl & Hne).
      destruct (rekeyed uri (source_entries w sm) b) as [|e es]; [congruence|].
      exists l. auto.
    + rewrite Hm. reflexivity.
Qed.

Lemma source_entries_ext w w' sm :
  (forall k v, (k, v) ∈ namedRoutePartitionMap sm -> arrays w' !!! v = arrays w !!! v) ->
  source_entries w' sm = source_entries w sm.
Proof.
  intros Hext. unfold source_entries. f_equal.
  apply list_fmap_ext. intros p [k v] Hin. cbn [snd].
  eapply Hext, list_elem_of_lookup_2; exact Hin.
Qed.

(** One turn of the loop over the tables. *)
Lemma mount_turn_spec t uri s i S sm w T tm :
  routers w !! s = Some S -> S !! i = Some sm -> s <> t ->
  routers w !! t = Some T -> T !! i = Some tm ->
  NoDup (namedRoutePartitionMap sm).*1 ->
  (forall k v, (k, v) ∈ namedRoutePartitionMap sm -> is_Some (arrays w !! v)) ->
  wp (mount_static t uri s i ;;; mount_named t uri s i)
     (fun _ w' =>
        records w' = records w
        /\ length (arrays w) <= length (arrays w')
        /\ (forall l es, arrays w !! l = Some es -> arrays w' !! l = Some es)
        /\ exists tm',
             routers w' = <[t := <[i := tm']> T]> (routers w)
             /\ staticRouteMap tm'
                = obj_assign (staticRouteMap tm) (static_image uri i (staticRouteMap sm))
             /\ forall b,
                  match rekeyed uri (source_entries w sm) b with
                  | [] => obj_get (namedRoutePartitionMap tm') b
                          = obj_get (namedRoutePartitionMap tm) b
                  | es => exists l, obj_get (namedRoutePartitionMap tm') b = Some l
                                    /\ arrays w' !! l = Some es
                  end)
     (fun _ => False) w.
Proof.
  intros HS Hsm Hts HT Htm Hnd Halloc.
  pose proof (lookup_lt_Some _ _ _ HT) as Ht.
  pose proof (lookup_lt_Some _ _ _ Htm) as Hi.
  apply (wp_bind_normal _ _ _ _ _ _ _ (mount_static_spec w t uri s i T S tm sm HT Htm HS Hsm)).
  set (tm1 := with_static tm
                (obj_assign (staticRouteMap tm) (static_image uri i (staticRouteMap sm)))).
  set (w1 := put_map t i tm1 w).
  assert (Hr1 : routers w1 = <[t := <[i := tm1]> T]> (routers w))
    by (apply put_map_routers, HT).
  assert (HS1 : routers w1 !! s = Some S).
  { rewrite Hr1, list_lookup_insert_ne by congruence. exact HS. }
  assert (HT1 : routers w1 !! t = Some (<[i := tm1]> T)).
  { rewrite Hr1. apply list_lookup_insert_eq, Ht. }
  assert (Htm1 : <[i := tm1]> T !! i = Some tm1) by (apply list_lookup_insert_eq, Hi).
  eapply wp_mono;
    [exact (mount_named_spec t uri s i S sm w1 _ tm1 HS1 Hsm Hts HT1 Htm1 Hnd Halloc)
    | |auto].
  intros _ w' (Hrec & Hlen & Hpre & tm' & Hr & Hs & Hn).
  split; [exact Hrec|]. split; [exact Hlen|]. split; [exact Hpre|].
  exists tm'. split; [|split; [rewrite Hs; reflexivity|exact Hn]].
  rewrite Hr, Hr1, !list_insert_insert_eq. reflexivity.
Qed.

(** The mount of [s] on [uri] in [t], table by table. *)
Lemma use_router_at_spec t uri s w T S :
  routers w !! t = Some T -> routers w !! s = Some S -> s <> t ->
  length S <= length T ->
  Forall (table_wf w) S ->
  wp (use_router_at t uri s)
     (fun _ w' =>
        records w' = records w
        /\ length (arrays w) <= length (arrays w')
        /\ (forall l es, arrays w !! l = Some es -> arrays w' !! l = Some es)
        /\ exists T',
             routers w' = <[t := T']> (routers w) /\ length T' = length T
             /\ forall i tm sm, T !! i = Some tm -> S !! i = Some sm ->
                  exists tm',
                    T' !! i = Some tm'
                    /\ staticRouteMap tm'
                       = obj_assign (staticRouteMap tm)
                           (static_image uri i (staticRouteMap sm))
                    /\ forall b,
                         match rekeyed uri (source_entries w sm) b with
                         | [] => obj_get (namedRoutePartitionMap tm') b
                                 = obj_get (namedRoutePartitionMap tm) b
                         | es => exists l,
                                   obj_get (namedRoutePartitionMap tm') b = Some l
                                   /\ arrays w' !! l = Some es
                         end)
     (fun _ => False) w.
Proof.
  intros HT HS Hts Hlen HwfS.
  pose proof (lookup_lt_Some _ _ _ HT) as Ht.
  rewrite Forall_lookup in HwfS.
  unfold use_router_at.
  apply (wp_bind_normal _ _ _ _ _ _ _ (get_router_known _ _ _ HS)).
  apply wp_for_each_done with
    (I := fun (done : list nat) w' =>
       records w' = records w
       /\ length (arrays w) <= length (arrays w')
       /\ (forall l es, arrays w !! l = Some es -> arrays w' !! l = Some es)
       /\ exists T',
            routers w' = <[t := T']> (routers w) /\ length T' = length T
            /\ (forall j, j ∉ done -> T' !! j = T !! j)
            /\ forall j tm sm, j ∈ done -> T !! j = Some tm -> S !! j = Some sm ->
                 exists tm',
                   T' !! j = Some tm'
                   /\ staticRouteMap tm'
                      = obj_assign (staticRouteMap tm)
                          (static_image uri j (staticRouteMap sm))
                   /\ forall b,
                        match rekeyed uri (source_entries w sm) b with
                        | [] => obj_get (namedRoutePartitionMap tm') b
                                = obj_get (namedRoutePartitionMap tm) b
                        | es => exists l,
                                  obj_get (namedRoutePartitionMap tm') b = Some l
                                  /\ arrays w' !! l = Some es
                        end).
  - split; [reflexivity|]. split; [reflexivity|]. split; [auto|].
    exists T. split; [symmetry; apply list_insert_id, HT|]. split; [reflexivity|].
    split; [auto|]. intros j tm sm Hj. apply elem_of_nil in Hj as [].
  - intros done x rest w' Hsplit (Hrec & Hlena & Hpre & T' & Hr & HlenT & Hrest & Hdone).
    apply seq_split in Hsplit as (Hx & Hlt & Hmem).
    assert (Hx_new : x ∉ done) by (rewrite Hmem; lia).
    destruct (lookup_lt_is_Some_2 S x Hlt) as [sm Hsm].
    destruct (lookup_lt_is_Some_2 T x ltac:(lia)) as [tm Htm].
    assert (Htm' : T' !! x = Some tm) by (rewrite (Hrest x Hx_new); exact Htm).
    assert (HT' : routers w' !! t = Some T').
    { rewrite Hr. apply list_lookup_insert_eq, Ht. }
    assert (HS' : routers w' !! s = Some S).
    { rewrite Hr, list_lookup_insert_ne by congruence. exact HS. }
    destruct (HwfS x sm Hsm) as (_ & Hnd & _ & Hlocs).
    assert (Halloc : forall k v, (k, v) ∈ namedRoutePartitionMap sm ->
                                 is_Some (arrays w !! v)).
    { intros k v Hin. apply lookup_lt_is_Some_2.
      rewrite Forall_forall in Hlocs. apply Hlocs.
      apply list_elem_of_fmap. exists (k, v). auto. }
    assert (Halloc' : forall k v, (k, v) ∈ namedRoutePartitionMap sm ->
                                  is_Some (arrays w' !! v)).
    { intros k v Hin. destruct (Halloc k v Hin) as [es Hes]. exists es. auto. }
    assert (Hsrc : source_entries w' sm = source_entries w sm).
    { apply source_entries_ext. intros k v Hin.
      destruct (Halloc k v Hin) as [es Hes].
      rewrite (list_lookup_total_correct _ _ _ Hes).
      apply list_lookup_total_correct, Hpre, Hes. }
    eapply wp_mono;
      [exact (mount_turn_spec t uri s x S sm w' T' tm HS' Hsm Hts HT' Htm' Hnd Halloc')
      | |auto].
    intros _ w'' (Hrec' & Hlena' & Hpre' & tm' & Hr' & Hstat & Hnamed).
    split; [congruence|]. split; [lia|]. split; [auto|].
    exists (<[x := tm']> T').
    split; [rewrite Hr', Hr, list_insert_insert_eq; reflexivity|].
    split; [rewrite length_insert; exact HlenT|]. split.
    + intros j Hj. rewrite elem_of_app, list_elem_of_singleton in Hj.
      rewrite list_lookup_insert_ne by (intros ->; tauto). apply Hrest. tauto.
    + intros j tmj smj Hj Htmj Hsmj.
      rewrite elem_of_app, list_elem_of_singleton in Hj.
      destruct (decide (j = x)) as [->|Hne].
      * rewrite Htm in Htmj. injection Htmj as <-.
        rewrite Hsm in Hsmj. injection Hsmj as <-.
        exists tm'. split; [apply list_lookup_insert_eq; lia|].
        split; [exact Hstat|]. rewrite <- Hsrc. exact Hnamed.
      * destruct Hj as [Hj|Hj]; [|contradiction].
        destruct (Hdone j tmj smj Hj Htmj Hsmj) as (tmj' & Hl & Hst & Hn).
        exists tmj'. split; [rewrite list_lookup_insert_ne by congruence; exact Hl|].
        split; [exact Hst|]. intros b. specialize (Hn b).
        destruct (rekeyed uri (source_entries w smj) b) as [|e0 es0]; [exact Hn|].
        destruct Hn as (l0 & Hgl & Hal). exists l0. auto.
  - intros w' (Hrec & Hlena & Hpre & T' & Hr & HlenT & _ & Hdone).
    split; [exact Hrec|]. split; [exact Hlena|]. split; [exact Hpre|].
    exists T'. split; [exact Hr|]. split; [exact HlenT|].
    intros i tm sm Htm Hsm. apply (Hdone i tm sm); [|exact Htm|exact Hsm].
    apply elem_of_seq. pose proof (lookup_lt_Some _ _ _ Hsm). lia.
Qed.

End mount_at_spec.

Lemma NoDup_image {V} (f : string -> string) (src : Obj string V) : forall m,
  NoDup m.*1 -> NoDup (foldl (fun m kv => obj_put m (f kv.1) kv.2) m src).*1.
Proof.
  induction src as [|[k v] src IH]; intros m Hnd; [exact Hnd|].
  cbn [foldl]. apply IH, NoDup_obj_put, Hnd.
Qed.

Lemma last_under_unique {V} (f : string -> string) (src : Obj string V) k v :
  NoDup src.*1 ->
  obj_get src k = Some v ->
  (forall k2, k2 ∈ src.*1 -> f k2 = f k -> k2 = k) ->
  f k <> "__proto__" ->
  last_under f src (f k) = Some v.
Proof.
  unfold last_under. intros Hnd Hget Huniq Hproto.
  rewrite (bool_decide_eq_false_2 _ Hproto). revert Hnd Hget Huniq.
  induction src as [|[k0 v0] src IH]; intros Hnd Hget Huniq;
    [discriminate|].
  rewrite fmap_cons in Hnd. apply NoDup_cons in Hnd as [Hk0 Hnd]. cbn [fst] in Hk0.
  rewrite filter_cons. cbn [fst]. cbn [obj_get] in Hget.
  assert (Htail : forall k2, k2 ∈ src.*1 -> f k2 = f k -> k2 = k).
  { intros k2 Hin. apply Huniq. rewrite fmap_cons. apply list_elem_of_further, Hin. }
  destruct (decide (k0 = k)) as [->|Hne].
  - injection Hget as ->. rewrite decide_True by reflexivity. rewrite last_cons.
    destruct (last (filter (fun kv : string * V => f kv.1 = f k) src))
      as [[k2 v2]|] eqn:Hlast; [|reflexivity].
    exfalso. apply last_Some_elem_of, list_elem_of_filter in Hlast as [Hf Hin].
    cbn [fst] in Hf. apply Hk0.
    assert (k2 = k) as ->.
    { apply Htail; [|exact Hf]. apply list_elem_of_fmap. exists (k2, v2). auto. }
    apply list_elem_of_fmap. exists (k, v2). auto.
  - rewrite decide_False.
    + apply IH; assumption.
    + intros Hf. apply Hne, Huniq; [|exact Hf]. rewrite fmap_cons. apply list_elem_of_here.
Qed.

Lemma route_map_ext {S B} (rm1 rm2 : RouteMap S B) :
  namedRoutePartitionMap rm1 = namedRoutePartitionMap rm2 ->
  staticRouteMap rm1 = staticRouteMap rm2 -> rm1 = rm2.
Proof. destruct rm1, rm2. simpl. intros -> ->. reflexivity. Qed.

Lemma resolve_ext w w' rm :
  records w' = records w ->
  (forall l es, arrays w !! l = Some es -> arrays w' !! l = Some es) ->
  table_wf w rm ->
  resolve w' rm = resolve w rm.
Proof.
  intros Hrec Hpre (_ & _ & _ & Hlocs). apply route_map_ext.
  - apply resolve_named_ext. intros l Hl.
    rewrite Forall_forall in Hlocs.
    destruct (lookup_lt_is_Some_2 _ _ (Hlocs l Hl)) as [es Hes].
    rewrite (list_lookup_total_correct _ _ _ Hes).
    apply list_lookup_total_correct, Hpre, Hes.
  - apply resolve_static_ext. intros l _. rewrite Hrec. reflexivity.
Qed.

Lemma resolve_static_keys w rm : (staticRouteMap (resolve w rm)).*1 = (staticRouteMap rm).*1.
Proof.
  unfold resolve. cbn [staticRouteMap]. rewrite <- list_fmap_compose.
  apply list_fmap_ext. intros p [k v] _. reflexivity.
Qed.


Section mount_at_results.
Context `{!Builtins}.

Lemma use_router_at_result t uri s w T S :
  store_ok w ->
  routers w !! t = Some T -> routers w !! s = Some S -> s <> t ->
  exists w' T',
    use_router_at t uri s w = (w', Normal tt)
    /\ records w' = records w
    /\ (forall l es, arrays w !! l = Some es -> arrays w' !! l = Some es)
    /\ routers w' = <[t := T']> (routers w)
    /\ forall i tm sm, T !! i = Some tm -> S !! i = Some sm ->
         exists tm',
           T' !! i = Some tm'
           /\ staticRouteMap tm'
              = obj_assign (staticRouteMap tm) (static_image uri i (staticRouteMap sm))
           /\ forall b,
                match rekeyed uri (source_entries w sm) b with
                | [] => obj_get (namedRoutePartitionMap tm') b
                        = obj_get (namedRoutePartitionMap tm) b
                | es => exists l, obj_get (namedRoutePartitionMap tm') b = Some l
                                  /\ arrays w' !! l = Some es
                end.
Proof.
  intros Hok HT HS Hts.
  destruct (Hok t T HT) as [HlenT _]. destruct (Hok s S HS) as [HlenS HwfS].
  destruct (wp_normal _ _ _
              (use_router_at_spec t uri s w T S HT HS Hts ltac:(lia) HwfS))
    as (w' & [] & Hrun & Hrec & _ & Hpre & T' & Hr & _ & Hspec).
  exists w', T'. auto.
Qed.

(** X12. Mounting a router on a path in another router, after any
    sequence of configuration calls, completes, whatever the two routers
    hold, and changes the tables of the target only: every other router,
    the mounted one among them, routes as before. *)
Theorem prefixed_mount_completes_and_leaves_others (ops : list Op) (t s : nat)
  (uri : string) :
  is_Some (routers (configure ops empty_world) !! t) ->
  is_Some (routers (configure ops empty_world) !! s) ->
  s <> t ->
  exists w',
    use_router_at t uri s (configure ops empty_world) = (w', Normal tt)
    /\ forall r, r <> t ->
         httpMethodMap w' r = httpMethodMap (configure ops empty_world) r.
Proof.
  intros [T HT] [S HS] Hts.
  pose proof (store_ok_configure ops empty_world store_ok_empty) as Hok.
  set (w := configure ops empty_world) in *.
  destruct (use_router_at_result t uri s w T S Hok HT HS Hts)
    as (w' & T' & Hrun & Hrec & Hpre & Hr & _).
  exists w'. split; [exact Hrun|].
  intros r Hrt. unfold httpMethodMap.
  rewrite Hr, list_lookup_total_insert_ne by congruence.
  apply list_fmap_ext. intros p rm Hp.
  apply resolve_ext; [exact Hrec|exact Hpre|].
  destruct (routers w !! r) as [hm|] eqn:Hhm.
  - rewrite (list_lookup_total_correct _ _ _ Hhm) in Hp.
    exact (store_ok_table _ _ _ _ _ Hok Hhm Hp).
  - rewrite list_lookup_total_alt, Hhm in Hp. vm_compute in Hp. discriminate.
Qed.

(** X13. After the mount of [s] on [uri] in [t], a static key of a table
    of [t] holds the chain of the last key of the same table of [s] that
    the mount sends to it, if there is one (and none is stored under
    [__proto__]): that chain replaces the chain that [t] had under the
    key, the two are not concatenated. The other keys of [t] keep their
    chain. The keys of the middleware table are not
    prefixed, so that the top-level middlewares of [s], if it has any,
    take the place of those of [t]. *)
Theorem prefixed_mount_replaces_static_chains (ops : list Op) (t s : nat)
  (uri : string) :
  is_Some (routers (configure ops empty_world) !! t) ->
  is_Some (routers (configure ops empty_world) !! s) ->
  s <> t ->
  exists w',
    use_router_at t uri s (configure ops empty_world) = (w', Normal tt)
    /\ forall i tv sv,
         httpMethodMap (configure ops empty_world) t !! i = Some tv ->
         httpMethodMap (configure ops empty_world) s !! i = Some sv ->
         exists tv',
           httpMethodMap w' t !! i = Some tv'
           /\ forall k',
                obj_get (staticRouteMap tv') k'
                = match last_under (mounted_key uri i) (staticRouteMap sv) k' with
                  | Some chain => Some chain
                  | None => obj_get (staticRouteMap tv) k'
                  end.
Proof.
  intros [T HT] [S HS] Hts.
  pose proof (store_ok_configure ops empty_world store_ok_empty) as Hok.
  set (w := configure ops empty_world) in *.
  destruct (use_router_at_result t uri s w T S Hok HT HS Hts)
    as (w' & T' & Hrun & Hrec & Hpre & Hr & Hspec).
  exists w'. split; [exact Hrun|].
  intros i tv sv Htv Hsv.
  destruct (httpMethodMap_lookup _ _ _ _ Htv) as (T0 & tm & HT0 & Htm & ->).
  destruct (httpMethodMap_lookup _ _ _ _ Hsv) as (S0 & sm & HS0 & Hsm & ->).
  rewrite HT in HT0. injection HT0 as <-. rewrite HS in HS0. injection HS0 as <-.
  destruct (Hspec i tm sm Htm Hsm) as (tm' & Htm' & Hstat & _).
  assert (HT' : routers w' !! t = Some T').
  { rewrite Hr. apply list_lookup_insert_eq. eapply lookup_lt_Some; exact HT. }
  exists (resolve w' tm'). split; [exact (httpMethodMap_resolve _ _ _ _ _ HT' Htm')|].
  intros k'. rewrite !resolve_static, Hstat.
  rewrite obj_get_assign by (apply NoDup_image; constructor).
  unfold static_image. rewrite (obj_get_image (mounted_key uri i)) by reflexivity.
  unfold resolve at 1. cbn [staticRouteMap].
  rewrite (last_under_fmap (mounted_key uri i) (fun l => records w !!! l)).
  rewrite Hrec.
  destruct (last_under (mounted_key uri i) (staticRouteMap sm) k'); reflexivity.
Qed.



End mount_at_results.

Lemma prefixed_mount_completes_and_leaves_others_witness :
  let ops := [NewRouter; NewRouter;
              Route GET 0 "/home" [named_handler "home" Truthy];
              Route GET 1 "/users" [named_handler "users" Truthy];
              Route GET 1 "/users/:id" [named_handler "user" Truthy]] in
  let w := @configure node_builtins ops empty_world in
  is_Some (routers w !! 0) /\ is_Some (routers w !! 1) /\ 1 <> 0
  /\ exists w',
       @use_router_at node_builtins 0 "/api" 1 w = (w', Normal tt)
       /\ httpMethodMap w' 1 = httpMethodMap w 1.
Proof.
  intros ops w.
  assert (H0 : is_Some (routers w !! 0)) by (eexists; reflexivity).
  assert (H1 : is_Some (routers w !! 1)) by (eexists; reflexivity).
  assert (Hne : 1 <> 0) by discriminate.
  split; [exact H0|]. split; [exact H1|]. split; [exact Hne|].
  destruct (@prefixed_mount_completes_and_leaves_others node_builtins ops 0 1 "/api"
              H0 H1 Hne) as (w' & Hrun & Hsame).
  exists w'. split; [exact Hrun|]. apply Hsame. discriminate.
Defined.

Lemma prefixed_mount_replaces_static_chains_witness :
  let ops := [NewRouter; NewRouter;
              UseMiddleware 0 [named_handler "log" Falsy];
              Route GET 0 "/home" [named_handler "home" Truthy];
              Route GET 0 "/api/users" [named_handler "old" Truthy];
              UseMiddleware 1 [named_handler "auth" Falsy];
              Route GET 1 "/users" [named_handler "new" Truthy]] in
  let w := @configure node_builtins ops empty_world in
  is_Some (routers w !! 0) /\ is_Some (routers w !! 1) /\ 1 <> 0
  /\ exists w' get mw,
       @use_router_at node_builtins 0 "/api" 1 w = (w', Normal tt)
       /\ httpMethodMap w' 0 !! map_index GET = Some get
       /\ httpMethodMap w' 0 !! map_index MIDDLEWARE = Some mw
       /\ obj_get (staticRouteMap get) "/api/users" = Some [named_handler "new" Truthy]
       /\ obj_get (staticRouteMap get) "/home" = Some [named_handler "home" Truthy]
       /\ obj_get (staticRouteMap mw) "/" = Some [named_handler "auth" Falsy].
Proof.
  intros ops w.
  assert (H0 : is_Some (routers w !! 0)) by (eexists; reflexivity).
  assert (H1 : is_Some (routers w !! 1)) by (eexists; reflexivity).
  assert (Hne : 1 <> 0) by discriminate.
  split; [exact H0|]. split; [exact H1|]. split; [exact Hne|].
  destruct (@prefixed_mount_replaces_static_chains node_builtins ops 0 1 "/api"
              H0 H1 Hne) as (w' & Hrun & Hspec).
  set (none := {| namedRoutePartitionMap := []; staticRouteMap := [] |} : RouteTable).
  assert (Ht : forall i : HttpMapIndex,
            httpMethodMap w 0 !! map_index i
            = Some (default none (httpMethodMap w 0 !! map_index i)))
    by (intros []; vm_compute; reflexivity).
  assert (Hs : forall i : HttpMapIndex,
            httpMethodMap w 1 !! map_index i
            = Some (default none (httpMethodMap w 1 !! map_index i)))
    by (intros []; vm_compute; reflexivity).
  destruct (Hspec (map_index GET) _ _ (Ht GET) (Hs GET)) as (get & Hget & Hget_keys).
  destruct (Hspec (map_index MIDDLEWARE) _ _ (Ht MIDDLEWARE) (Hs MIDDLEWARE))
    as (mw & Hmw & Hmw_keys).
  exists w', get, mw.
  split; [exact Hrun|]. split; [exact Hget|]. split; [exact Hmw|].
  rewrite !Hget_keys, Hmw_keys. repeat split; reflexivity.
Defined.



(** ** Mounting without a prefix on a well-formed store *)

Lemma wp_conj {S A} (m : comp S A) (Q1 Q2 : A -> S -> Prop) (E1 E2 : S -> Prop) s :
  wp m Q1 E1 s -> wp m Q2 E2 s ->
  wp m (fun a s' => Q1 a s' /\ Q2 a s') (fun s' => E1 s' /\ E2 s') s.
Proof. unfold wp. destruct (m s) as [s' [a|]]; auto. Qed.

Lemma merge_static_completes w t s i T S tm sm :
  store_ok w ->
  routers w !! t = Some T -> T !! i = Some tm ->
  routers w !! s = Some S -> S !! i = Some sm ->
  (staticRouteMap tm <> [] ->
   forall k, is_Some (obj_get (staticRouteMap sm) k) ->
             is_Some (obj_get (staticRouteMap tm) k)) ->
  wp (merge_static t s i)
     (fun _ w' =>
        exists tm',
          routers w' = <[t := <[i := tm']> T]> (routers w)
          /\ staticRouteMap tm'
             = if obj_is_empty (staticRouteMap tm)
               then obj_assign (staticRouteMap tm) (staticRouteMap sm)
               else staticRouteMap tm)
     (fun _ => False) w.
Proof.
  intros Hok HT Htm HS Hsm Hcov.
  pose proof (store_ok_table _ _ _ _ _ Hok HT Htm) as (_ & _ & Hlt & _).
  pose proof (store_ok_table _ _ _ _ _ Hok HS Hsm) as (_ & _ & Hls & _).
  rewrite Forall_forall in Hlt, Hls.
  unfold merge_static.
  apply (wp_bind_normal _ _ _ _ _ _ _ (get_map_known _ _ _ _ _ HT Htm)).
  apply (wp_bind_normal _ _ _ _ _ _ _ (get_map_known _ _ _ _ _ HS Hsm)).
  destruct (obj_is_empty (staticRouteMap tm)) eqn:Hempty.
  - apply wp_set_map. eexists. split; [apply put_map_routers, HT|reflexivity].
  - apply obj_is_empty_false in Hempty. specialize (Hcov Hempty).
    apply wp_for_each with
      (I := fun w' => routers w' = routers w
                      /\ length (records w') = length (records w)).
    + auto.
    + intros [k v] w' Hin (Hr & Hlen). cbn [fst]. unfold merge_static_key.
      assert (HT' : routers w' !! t = Some T) by (rewrite Hr; exact HT).
      assert (HS' : routers w' !! s = Some S) by (rewrite Hr; exact HS).
      assert (Hk : is_Some (obj_get (staticRouteMap sm) k)).
      { apply obj_get_is_Some, list_elem_of_fmap. exists (k, v). auto. }
      destruct (Hcov k Hk) as [lt Hlt_k]. destruct Hk as [ls Hls_k].
      assert (Hlt_lt : lt < length (records w')).
      { rewrite Hlen. apply Hlt. eapply obj_get_loc; exact Hlt_k. }
      assert (Hls_lt : ls < length (records w')).
      { rewrite Hlen. apply Hls. eapply obj_get_loc; exact Hls_k. }
      apply (wp_bind_normal _ _ _ _ _ _ _ (get_map_known _ _ _ _ _ HT' Htm)).
      rewrite Hlt_k. apply wp_bind, wp_ret.
      apply (wp_bind_normal _ _ _ _ _ _ _
               (read_record_known _ _ _ (lookup_total_Some _ _ Hlt_lt))).
      apply (wp_bind_normal _ _ _ _ _ _ _ (get_map_known _ _ _ _ _ HS' Hsm)).
      rewrite Hls_k. apply wp_bind, wp_ret.
      apply (wp_bind_normal _ _ _ _ _ _ _
               (read_record_known _ _ _ (lookup_total_Some _ _ Hls_lt))).
      apply wp_write_record. split; [exact Hr|].
      simpl. rewrite length_insert. exact Hlen.
    + intros w' (Hr & _). exists tm. split; [|reflexivity].
      rewrite Hr, (list_insert_id T i tm Htm), (list_insert_id _ t T HT). reflexivity.
Qed.

Lemma merge_named_key_completes w t s i k v T S tmc sm :
  store_ok w -> s <> t ->
  routers w !! t = Some T -> T !! i = Some tmc ->
  routers w !! s = Some S -> S !! i = Some sm ->
  (k, v) ∈ namedRoutePartitionMap sm ->
  wp (merge_named_key t s i k)
     (fun _ w' => routers w' !! s = Some S
                  /\ exists tm', routers w' = <[t := <[i := tm']> T]> (routers w)
                                 /\ staticRouteMap tm' = staticRouteMap tmc)
     (fun _ => False) w.
Proof.
  intros Hok Hts HT Htmc HS Hsm Hin.
  pose proof (store_ok_table _ _ _ _ _ Hok HT Htmc) as (_ & _ & _ & Hlt).
  pose proof (store_ok_table _ _ _ _ _ Hok HS Hsm) as (_ & _ & _ & Hls).
  rewrite Forall_forall in Hlt, Hls.
  unfold merge_named_key.
  apply (wp_bind_normal _ _ _ _ _ _ _ (get_map_known _ _ _ _ _ HT Htmc)).
  destruct (obj_get (namedRoutePartitionMap tmc) k) as [lt|] eqn:Hlt_k.
  - assert (Hk : is_Some (obj_get (namedRoutePartitionMap sm) k)).
    { apply obj_get_is_Some, list_elem_of_fmap. exists (k, v). auto. }
    destruct Hk as [ls Hls_k].
    assert (Hlt_lt : lt < length (arrays w)).
    { apply Hlt. eapply obj_get_loc; exact Hlt_k. }
    assert (Hls_lt : ls < length (arrays w)).
    { apply Hls. eapply obj_get_loc; exact Hls_k. }
    apply (wp_bind_normal _ _ _ _ _ _ _
             (read_array_known _ _ _ (lookup_total_Some _ _ Hlt_lt))).
    apply (wp_bind_normal _ _ _ _ _ _ _ (get_map_known _ _ _ _ _ HS Hsm)).
    rewrite Hls_k. apply wp_bind, wp_ret.
    apply (wp_bind_normal _ _ _ _ _ _ _
             (read_array_known _ _ _ (lookup_total_Some _ _ Hls_lt))).
    apply wp_bind, wp_alloc_array.
    set (w1 := set_arrays (fun h => h ++ [arrays w !!! lt ++ arrays w !!! ls]) w).
    assert (HT1 : routers w1 !! t = Some T) by exact HT.
    apply (wp_bind_normal _ _ _ _ _ _ _ (get_map_known _ _ _ _ _ HT1 Htmc)).
    apply wp_set_map. split.
    + rewrite put_map_other_router by exact Hts. exact HS.
    + eexists. split; [exact (put_map_routers _ _ _ _ _ HT1)|reflexivity].
  - apply wp_ret. split; [exact HS|]. exists tmc. split; [|reflexivity].
    rewrite (list_insert_id T i tmc Htmc), (list_insert_id _ t T HT). reflexivity.
Qed.

Lemma merge_named_completes w t s i T S tm sm :
  store_ok w -> s <> t ->
  routers w !! t = Some T -> T !! i = Some tm ->
  routers w !! s = Some S -> S !! i = Some sm ->
  wp (merge_named t s i)
     (fun _ w' => exists tm', routers w' = <[t := <[i := tm']> T]> (routers w)
                              /\ staticRouteMap tm' = staticRouteMap tm)
     (fun _ => False) w.
Proof.
  intros Hok Hts HT Htm HS Hsm.
  pose proof (lookup_lt_Some _ _ _ HT) as Ht.
  pose proof (lookup_lt_Some _ _ _ Htm) as Hi.
  unfold merge_named.
  apply (wp_bind_normal _ _ _ _ _ _ _ (get_map_known _ _ _ _ _ HT Htm)).
  apply (wp_bind_normal _ _ _ _ _ _ _ (get_map_known _ _ _ _ _ HS Hsm)).
  destruct (obj_is_empty (namedRoutePartitionMap tm)).
  - apply wp_set_map. eexists. split; [apply put_map_routers, HT|reflexivity].
  - apply wp_for_each with
      (I := fun w' => store_ok w' /\ routers w' !! s = Some S
                      /\ exists tmc, routers w' = <[t := <[i := tmc]> T]> (routers w)
                                     /\ staticRouteMap tmc = staticRouteMap tm).
    + split; [exact Hok|]. split; [exact HS|]. exists tm. split; [|reflexivity].
      rewrite (list_insert_id T i tm Htm), (list_insert_id _ t T HT). reflexivity.
    + intros [k v] w' Hin (Hok' & HS' & tmc & Hr & Hst). cbn [fst].
      assert (HT' : routers w' !! t = Some (<[i := tmc]> T)).
      { rewrite Hr. apply list_lookup_insert_eq, Ht. }
      assert (Htmc : <[i := tmc]> T !! i = Some tmc)
        by (apply list_lookup_insert_eq, Hi).
      eapply wp_mono;
        [exact (wp_conj _ _ _ _ _ _
                  (holds_merge_named_key t s i k w' Hok')
                  (merge_named_key_completes w' t s i k v _ S tmc sm
                     Hok' Hts HT' Htmc HS' Hsm Hin))| |].
      * intros _ w'' (Hok'' & HS'' & tm' & Hr'' & Hst'').
        split; [exact Hok''|]. split; [exact HS''|]. exists tm'.
        split; [|congruence].
        rewrite Hr'', Hr, !list_insert_insert_eq. reflexivity.
      * intros w'' [_ []].
    + intros w' (_ & _ & tmc & Hr & Hst). exists tmc. auto.
Qed.

Lemma mergeRouterMaps_result w t s T S :
  store_ok w ->
  routers w !! t = Some T -> routers w !! s = Some S -> s <> t ->
  covers T S ->
  exists w' T',
    mergeRouterMaps t s w = (w', Normal tt)
    /\ store_ok w'
    /\ routers w' = <[t := T']> (routers w)
    /\ forall i tm sm, T !! i = Some tm -> S !! i = Some sm ->
         exists tm',
           T' !! i = Some tm'
           /\ staticRouteMap tm'
              = if obj_is_empty (staticRouteMap tm)
                then obj_assign (staticRouteMap tm) (staticRouteMap sm)
                else staticRouteMap tm.
Proof.
  intros Hok HT HS Hts Hcov.
  destruct (Hok t T HT) as [HlenT _]. destruct (Hok s S HS) as [HlenS _].
  pose proof (lookup_lt_Some _ _ _ HT) as Ht.
  enough (Hwp : wp (mergeRouterMaps t s)
            (fun _ w' =>
               store_ok w'
               /\ exists T',
                    routers w' = <[t := T']> (routers w)
                    /\ forall i tm sm, T !! i = Some tm -> S !! i = Some sm ->
                         exists tm',
                           T' !! i = Some tm'
                           /\ staticRouteMap tm'
                              = if obj_is_empty (staticRouteMap tm)
                                then obj_assign (staticRouteMap tm) (staticRouteMap sm)
                                else staticRouteMap tm)
            (fun _ => False) w).
  { destruct (wp_normal _ _ _ Hwp) as (w' & [] & Hrun & Hok' & T' & Hr & Hspec).
    exists w', T'. auto. }
  unfold mergeRouterMaps.
  apply (wp_bind_normal _ _ _ _ _ _ _ (get_router_known _ _ _ HS)).
  apply wp_for_each_done with
    (I := fun (done : list nat) w' =>
       store_ok w' /\ routers w' !! s = Some S
       /\ exists T', routers w' = <[t := T']> (routers w)
                     /\ length T' = length T
                     /\ (forall j, j ∉ done -> T' !! j = T !! j)
                     /\ forall j tm sm, j ∈ done -> T !! j = Some tm -> S !! j = Some sm ->
                          exists tm',
                            T' !! j = Some tm'
                            /\ staticRouteMap tm'
                               = if obj_is_empty (staticRouteMap tm)
                                 then obj_assign (staticRouteMap tm) (staticRouteMap sm)
                                 else staticRouteMap tm).
  - split; [exact Hok|]. split; [exact HS|]. exists T.
    split; [symmetry; apply list_insert_id, HT|]. split; [reflexivity|].
    split; [auto|]. intros j tm sm Hj. apply elem_of_nil in Hj as [].
  - intros done x rest w' Hsplit (Hok' & HS' & T' & Hr & HlenT' & Hrest & Hdone).
    apply seq_split in Hsplit as (_ & Hlt & Hmem).
    assert (Hx_new : x ∉ done) by (rewrite Hmem; lia).
    destruct (lookup_lt_is_Some_2 S x Hlt) as [sm Hsm].
    destruct (lookup_lt_is_Some_2 T x ltac:(lia)) as [tm Htm].
    assert (Htm' : T' !! x = Some tm) by (rewrite (Hrest x Hx_new); exact Htm).
    assert (HT' : routers w' !! t = Some T').
    { rewrite Hr. apply list_lookup_insert_eq, Ht. }
    apply wp_bind.
    eapply wp_mono;
      [exact (wp_conj _ _ _ _ _ _
                (holds_merge_static t s x w' Hok')
                (merge_static_completes w' t s x T' S tm sm Hok' HT' Htm' HS' Hsm
                   (fun Hne k => Hcov x tm sm k Htm Hsm Hne)))| |].
    2: { intros w1 [_ []]. }
    intros _ w1 (Hok1 & tm1 & Hr1 & Hst1).
    assert (HT1 : routers w1 !! t = Some (<[x := tm1]> T')).
    { rewrite Hr1. apply list_lookup_insert_eq.
      eapply lookup_lt_Some; exact HT'. }
    assert (Htm1 : <[x := tm1]> T' !! x = Some tm1).
    { apply list_lookup_insert_eq. eapply lookup_lt_Some; exact Htm'. }
    assert (HS1 : routers w1 !! s = Some S).
    { rewrite Hr1, list_lookup_insert_ne by congruence. exact HS'. }
    eapply wp_mono;
      [exact (wp_conj _ _ _ _ _ _
                (holds_merge_named t s x w1 Hok1)
                (merge_named_completes w1 t s x _ S tm1 sm Hok1 Hts HT1 Htm1 HS1 Hsm))
      | |].
    2: { intros w2 [_ []]. }
    intros _ w2 (Hok2 & tm2 & Hr2 & Hst2).
    split; [exact Hok2|]. split.
    { rewrite Hr2, list_lookup_insert_ne by congruence. exact HS1. }
    exists (<[x := tm2]> T').
    split; [rewrite Hr2, Hr1, Hr, !list_insert_insert_eq; reflexivity|].
    split; [rewrite length_insert; exact HlenT'|]. split.
    + intros j Hj. rewrite elem_of_app, list_elem_of_singleton in Hj.
      rewrite list_lookup_insert_ne by (intros ->; tauto). apply Hrest. tauto.
    + intros j tmj smj Hj Htmj Hsmj.
      rewrite elem_of_app, list_elem_of_singleton in Hj.
      destruct (decide (j = x)) as [->|Hne].
      * rewrite Htm in Htmj. injection Htmj as <-.
        rewrite Hsm in Hsmj. injection Hsmj as <-.
        exists tm2. split; [apply list_lookup_insert_eq; lia|]. congruence.
      * destruct Hj as [Hj|Hj]; [|contradiction].
        destruct (Hdone j tmj smj Hj Htmj Hsmj) as (tmj' & Hl & Hst).
        exists tmj'. split; [|exact Hst].
        rewrite list_lookup_insert_ne by congruence. exact Hl.
  - intros w' (Hok' & _ & T' & Hr & _ & _ & Hdone).
    split; [exact Hok'|]. exists T'. split; [exact Hr|].
    intros i tm sm Htm Hsm. apply (Hdone i tm sm); [|exact Htm|exact Hsm].
    apply elem_of_seq. pose proof (lookup_lt_Some _ _ _ Hsm). lia.
Qed.

Section plain_mount.
Context `{!Builtins}.

(** X16. Mounting a router without a prefix in another one, after any
    sequence of configuration calls, completes whenever every static map
    of the target that is not empty has all the keys of the source's map
    for the same method; whether the two routers share records or arrays
    plays no part. *)
Theorem plain_mount_completes_when_keys_are_covered (ops : list Op) (t s : nat)
  (T S : Router) :
  routers (configure ops empty_world) !! t = Some T ->
  routers (configure ops empty_world) !! s = Some S ->
  s <> t ->
  covers T S ->
  exists w', mergeRouterMaps t s (configure ops empty_world) = (w', Normal tt).
Proof.
  intros HT HS Hts Hcov.
  pose proof (store_ok_configure ops empty_world store_ok_empty) as Hok.
  destruct (mergeRouterMaps_result _ t s T S Hok HT HS Hts Hcov)
    as (w' & _ & Hrun & _).
  exists w'. exact Hrun.
Qed.


End plain_mount.
Lemma plain_mount_completes_when_keys_are_covered_witness :
  let ops := [NewRouter; NewRouter;
              Route GET 1 "/users" [named_handler "users" Truthy];
              Route GET 1 "/users/:id" [named_handler "user" Truthy];
              UseRouter 0 1;
              Route GET 1 "/users/:id/posts" [named_handler "posts" Truthy]] in
  let w := @configure node_builtins ops empty_world in
  let T := default [] (routers w !! 0) in
  let S := default [] (routers w !! 1) in
  routers w !! 0 = Some T /\ routers w !! 1 = Some S /\ 1 <> 0 /\ covers T S
  /\ exists w', mergeRouterMaps 0 1 w = (w', Normal tt).
Proof.
  intros ops w T S.
  assert (Hne : 1 <> 0) by discriminate.
  assert (Hcov : covers T S).
  { intros i tm sm k Htm Hsm Hnonempty Hk.
    destruct i as [|[|i]].
    - vm_compute in Htm. injection Htm as <-. contradiction Hnonempty. reflexivity.
    - vm_compute in Htm, Hsm. injection Htm as <-. injection Hsm as <-.
      cbn [staticRouteMap obj_get] in Hk |- *.
      destruct (decide ("/users" = k)) as [<-|Hb]; [eexists; reflexivity|].
      destruct Hk as [v Hv]. discriminate Hv.
    - do 4 (destruct i as [|i];
            [vm_compute in Htm; injection Htm as <-;
             contradiction Hnonempty; reflexivity|]).
      vm_compute in Htm. discriminate Htm. }
  assert (HT : routers w !! 0 = Some T) by (vm_compute; reflexivity).
  assert (HS : routers w !! 1 = Some S) by (vm_compute; reflexivity).
  split; [exact HT|]. split; [exact HS|]. split; [exact Hne|].
  split; [exact Hcov|].
  exact (@plain_mount_completes_when_keys_are_covered node_builtins ops 0 1 T S
           HT HS Hne Hcov).
Defined.


(** ** The outcome of a mount without a prefix, key by key *)

Section plain_mount_result.
Context `{!Builtins}.

(** X22. On routers configured by any sequence of calls: when source and
    target are two routers, no [{callbacks}] record of the target is held
    under two keys or methods, none is a record of the source as well, and
    the static maps of the target that are not empty have all the keys of
    the source's maps for the same method, mounting the source without a
    prefix completes and merges method by method. An empty static map of
    the target takes the source's; otherwise the chain of every key held
    by both maps is the target's chain followed by the source's, the other
    keys keeping their chain. The same holds of the partition maps, where
    a bucket held only by the source is not added to a partition map of
    the target that is not empty. *)
Theorem mount_merges_method_by_method (ops : list Op) (t s : nat) (T S : Router) :
  routers (configure ops empty_world) !! t = Some T ->
  routers (configure ops empty_world) !! s = Some S ->
  s <> t ->
  no_shared_records T S -> covers T S ->
  exists w',
    mergeRouterMaps t s (configure ops empty_world) = (w', Normal tt)
    /\ forall i tv sv,
         httpMethodMap (configure ops empty_world) t !! i = Some tv ->
         httpMethodMap (configure ops empty_world) s !! i = Some sv ->
         exists tv',
           httpMethodMap w' t !! i = Some tv'
           /\ (forall k, obj_get (staticRouteMap tv') k
                         = merged (staticRouteMap tv) (staticRouteMap sv) k)
           /\ (forall b, obj_get (namedRoutePartitionMap tv') b
                         = merged (namedRoutePartitionMap tv)
                                  (namedRoutePartitionMap sv) b).
Proof.
  intros HT HS Hts Hns Hcov.
  pose proof (store_ok_configure ops empty_world store_ok_empty) as Hok.
  destruct (Hok t T HT) as [HlenT HwfT]. destruct (Hok s S HS) as [HlenS HwfS].
  apply merge_result_pointwise with (T := T) (S := S); try assumption. lia.
Qed.

End plain_mount_result.

(** A record that the target holds under two keys is extended twice: the
    routes of one router are mounted under [/v1] and under [/v2], and a
    router with a route for each of the two keys is then mounted without
    a prefix. *)
Example shared_record_is_extended_twice :
  let w := @configure node_builtins
             [NewRouter; NewRouter; NewRouter;
              Route GET 1 "/x" [named_handler "a" Falsy];
              UseRouterAt 0 "/v1" 1;
              UseRouterAt 0 "/v2" 1;
              Route GET 2 "/v1/x" [named_handler "c" Falsy];
              Route GET 2 "/v2/x" [named_handler "d" Falsy]] empty_world in
  let after := httpMethodMap (mergeRouterMaps 0 2 w).1 0 in
  (mergeRouterMaps 0 2 w).2 = Normal tt
  /\ (staticRouteMap <$> after !! map_index GET)
     = Some [("/v1/x", [named_handler "a" Falsy; named_handler "c" Falsy;
                        named_handler "d" Falsy]);
             ("/v2/x", [named_handler "a" Falsy; named_handler "c" Falsy;
                        named_handler "d" Falsy])].
Proof. split; vm_compute; reflexivity. Qed.

Lemma mount_merges_method_by_method_witness :
  let ops := [NewRouter; NewRouter;
              Route GET 0 "/a" [named_handler "a" Truthy];
              Route GET 0 "/b" [named_handler "b" Falsy];
              Route GET 0 "/u/:id" [named_handler "u" Truthy];
              Route GET 1 "/b" [named_handler "b'" Truthy];
              Route GET 1 "/u/:name" [named_handler "u'" Truthy];
              Route GET 1 "/x/:y/:z" [named_handler "xyz" Truthy];
              Route POST 1 "/p" [named_handler "p" Truthy]] in
  let w := @configure node_builtins ops empty_world in
  let T := default [] (routers w !! 0) in
  let S := default [] (routers w !! 1) in
  let u := (make_entry "/u/:id" [named_handler "u" Truthy]).2 in
  let u' := (make_entry "/u/:name" [named_handler "u'" Truthy]).2 in
  routers w !! 0 = Some T /\ routers w !! 1 = Some S /\ 1 <> 0
  /\ no_shared_records T S /\ covers T S
  /\ exists w' get post,
       mergeRouterMaps 0 1 w = (w', Normal tt)
       /\ httpMethodMap w' 0 !! map_index GET = Some get
       /\ httpMethodMap w' 0 !! map_index POST = Some post
       /\ obj_get (staticRouteMap get) "/a" = Some [named_handler "a" Truthy]
       /\ obj_get (staticRouteMap get) "/b"
          = Some [named_handler "b" Falsy; named_handler "b'" Truthy]
       /\ obj_get (namedRoutePartitionMap get) 2 = Some [u; u']
       /\ obj_get (namedRoutePartitionMap get) 3 = None
       /\ obj_get (staticRouteMap post) "/p" = Some [named_handler "p" Truthy].
Proof.
  intros ops w T S u u'.
  assert (Hne : 1 <> 0) by discriminate.
  assert (Hns : no_shared_records T S).
  { apply (bool_decide_unpack _). vm_compute. exact I. }
  assert (Hcov : covers T S).
  { intros i tm sm k Htm Hsm Hnonempty Hk.
    destruct i as [|[|i]].
    - vm_compute in Htm. injection Htm as <-. contradiction Hnonempty. reflexivity.
    - vm_compute in Htm, Hsm. injection Htm as <-. injection Hsm as <-.
      cbn [staticRouteMap obj_get] in Hk |- *.
      destruct (decide ("/b" = k)) as [<-|Hb]; [eexists; reflexivity|].
      destruct Hk as [v Hv]. discriminate.
    - do 4 (destruct i as [|i];
            [vm_compute in Htm; injection Htm as <-;
             contradiction Hnonempty; reflexivity|]).
      vm_compute in Htm. discriminate. }
  split; [reflexivity|]. split; [reflexivity|]. split; [exact Hne|].
  split; [exact Hns|]. split; [exact Hcov|].
  assert (HT : routers w !! 0 = Some T) by (vm_compute; reflexivity).
  assert (HS : routers w !! 1 = Some S) by (vm_compute; reflexivity).
  destruct (@mount_merges_method_by_method node_builtins ops 0 1 T S HT HS
              Hne Hns Hcov) as (w' & Hrun & Hmerge).
  destruct (Hmerge (map_index GET) _ _ eq_refl eq_refl)
    as (get & Hget & Hget_static & Hget_named).
  destruct (Hmerge (map_index POST) _ _ eq_refl eq_refl)
    as (post & Hpost & Hpost_static & _).
  exists w', get, post.
  split; [exact Hrun|]. split; [exact Hget|]. split; [exact Hpost|].
  rewrite !Hget_static, !Hget_named, Hpost_static.
  repeat split; reflexivity.
Defined.

(** ** Registration under every method *)

(** One registration of a static pattern, as seen from the tables of the
    router: the table of the method has the handlers at the end of the
    chain of the pattern, the chains that ended with them still do, and
    the other tables are the same objects. *)
Lemma static_registration_step w r j uri fn hm :
  store_ok w -> routers w !! r = Some hm -> j < length hm ->
  regexCheckStaticURL uri = true ->
  inherited uri = false ->
  exists w' hm',
    buildRequestMap r j uri fn w = (w', Normal tt)
    /\ routers w' !! r = Some hm'
    /\ (exists rm' pre,
          hm' !! j = Some rm'
          /\ obj_get (staticRouteMap (resolve w' rm')) uri = Some (pre ++ fn))
    /\ (forall i, i <> j -> hm' !! i = hm !! i)
    /\ forall i rm pre,
         hm !! i = Some rm ->
         obj_get (staticRouteMap (resolve w rm)) uri = Some (pre ++ fn) ->
         exists pre', obj_get (staticRouteMap (resolve w' rm)) uri = Some (pre' ++ fn).
Proof.
  intros Hok Hhm Hj Hstatic Hin.
  destruct (lookup_lt_is_Some_2 _ _ Hj) as [rmj Hrmj].
  pose proof (store_ok_table _ _ _ _ _ Hok Hhm Hrmj) as (_ & _ & Hlocs & _).
  rewrite Forall_forall in Hlocs.
  unfold buildRequestMap.
  rewrite (bind_normal _ _ _ _ _ (get_map_known _ _ _ _ _ Hhm Hrmj)), Hstatic.
  destruct (obj_get (staticRouteMap rmj) uri) as [l|] eqn:Hk;
    [rewrite (obj_read_own _ _ _ Hk)|rewrite (obj_read_missing _ _ Hk Hin)].
  - assert (Hl : l < length (records w)) by (apply Hlocs; eapply obj_get_loc; exact Hk).
    destruct (lookup_lt_is_Some_2 _ _ Hl) as [c Hc].
    destruct (for_each_push_record l fn w c Hc) as (w' & Hrun & Hr & Ha & Hrec).
    exists w', hm. split; [exact Hrun|]. rewrite Hr. split; [exact Hhm|].
    split; [|split; [reflexivity|]].
    + exists rmj, c. split; [exact Hrmj|].
      rewrite resolve_static, Hk. cbn [fmap option_fmap option_map].
      rewrite Hrec, list_lookup_total_insert_eq by exact Hl. reflexivity.
    + intros i rm pre Hrm Hchain. rewrite resolve_static in Hchain |- *.
      destruct (obj_get (staticRouteMap rm) uri) as [li|]; [|discriminate].
      cbn [fmap option_fmap option_map] in Hchain |- *. injection Hchain as Hli.
      rewrite Hrec. destruct (decide (li = l)) as [->|Hne].
      * exists c. rewrite list_lookup_total_insert_eq by exact Hl. reflexivity.
      * exists pre. rewrite list_lookup_total_insert_ne by congruence.
        rewrite Hli. reflexivity.
  - set (w1 := set_records (fun h => h ++ [fn]) w).
    set (rm' := with_static rmj (obj_set (staticRouteMap rmj) uri (length (records w)))).
    assert (Hhm1 : routers w1 !! r = Some hm) by exact Hhm.
    destruct (put_map_lookup_eq r j rm' w1 hm Hhm1 Hj) as [Hr' Hj'].
    exists (put_map r j rm' w1), (<[j := rm']> hm).
    split; [reflexivity|]. split; [exact Hr'|]. split; [|split].
    + exists rm', []. split; [exact Hj'|].
      rewrite resolve_static. unfold rm'. simpl. rewrite obj_get_set_eq. simpl.
      rewrite list_lookup_total_middle by reflexivity. reflexivity.
    + intros i Hi. apply list_lookup_insert_ne. congruence.
    + intros i rm pre Hrm Hchain. exists pre.
      pose proof (store_ok_table _ _ _ _ _ Hok Hhm Hrm) as (_ & _ & Hlocs_i & _).
      rewrite Forall_forall in Hlocs_i.
      rewrite resolve_static in Hchain |- *.
      destruct (obj_get (staticRouteMap rm) uri) as [li|] eqn:Hli; [|discriminate].
      cbn [fmap option_fmap option_map] in Hchain |- *. injection Hchain as Hval.
      f_equal. rewrite <- Hval. simpl.
      apply lookup_total_app_l, Hlocs_i. eapply obj_get_loc; exact Hli.
Qed.

Lemma method_route_static_step w r m uri fn hm :
  store_ok w -> routers w !! r = Some hm -> fn <> [] ->
  regexCheckStaticURL uri = true ->
  inherited uri = false ->
  exists w' hm',
    method_route m r uri fn w = (w', Normal tt)
    /\ store_ok w'
    /\ routers w' !! r = Some hm'
    /\ (exists rm' pre,
          hm' !! map_index m = Some rm'
          /\ obj_get (staticRouteMap (resolve w' rm')) uri = Some (pre ++ fn))
    /\ (forall i, i <> map_index m -> hm' !! i = hm !! i)
    /\ forall i rm pre,
         hm !! i = Some rm ->
         obj_get (staticRouteMap (resolve w rm)) uri = Some (pre ++ fn) ->
         exists pre', obj_get (staticRouteMap (resolve w' rm)) uri = Some (pre' ++ fn).
Proof.
  intros Hok Hhm Hfn Hstatic Hin.
  destruct (Hok r hm Hhm) as [Hlen _].
  assert (Hj : map_index m < length hm) by (rewrite Hlen; destruct m; vm_compute; lia).
  destruct (static_registration_step w r (map_index m) uri fn hm Hok Hhm Hj Hstatic Hin)
    as (w' & hm' & Hrun & Hhm' & Hnew & Hsame & Hkeep).
  exists w', hm'. unfold method_route.
  destruct fn as [|h fn]; [congruence|]. cbn [length Nat.eqb].
  split; [exact Hrun|]. split; [|auto].
  exact (wp_holds_run _ _ _ _ (holds_buildRequestMap _ _ _ _) Hok Hrun).
Qed.

Section every_method.
Context `{!Builtins}.

(** X18. [all(uri, ...fn)], and so [use(uri, ...fn)], with at least one
    handler and a static pattern that is not a name inherited from
    [Object.prototype], on a router configured by any sequence of calls:
    the call completes; in the table of each of the five methods the chain
    of the pattern ends with the handlers; and the middleware table is the
    same object as before, with the same keys. *)
Theorem all_registers_under_every_method (ops : list Op) (r : nat) (hm : Router)
  (uri : string) (fn : list HandlerFunction) :
  routers (configure ops empty_world) !! r = Some hm ->
  fn <> [] ->
  regexCheckStaticURL uri = true ->
  inherited uri = false ->
  exists w' hm',
    all r uri fn (configure ops empty_world) = (w', Normal tt)
    /\ use_path r uri fn (configure ops empty_world) = (w', Normal tt)
    /\ routers w' !! r = Some hm'
    /\ hm' !! map_index MIDDLEWARE = hm !! map_index MIDDLEWARE
    /\ forall m, m <> MIDDLEWARE ->
         exists table' pre,
           httpMethodMap w' r !! map_index m = Some table'
           /\ obj_get (staticRouteMap table') uri = Some (pre ++ fn).
Proof.
  intros Hhm Hfn Hstatic Hin.
  pose proof (store_ok_configure ops empty_world store_ok_empty) as Hok.
  set (w := configure ops empty_world) in *.
  destruct (method_route_static_step w r GET uri fn hm Hok Hhm Hfn Hstatic Hin)
    as (w1 & hm1 & Hrun1 & Hok1 & Hhm1 & (g1 & pg1 & Hg1 & Hcg1) & Hs1 & Hk1).
  destruct (method_route_static_step w1 r POST uri fn hm1 Hok1 Hhm1 Hfn Hstatic Hin)
    as (w2 & hm2 & Hrun2 & Hok2 & Hhm2 & (p2 & pp2 & Hp2 & Hcp2) & Hs2 & Hk2).
  destruct (method_route_static_step w2 r PUT uri fn hm2 Hok2 Hhm2 Hfn Hstatic Hin)
    as (w3 & hm3 & Hrun3 & Hok3 & Hhm3 & (u3 & pu3 & Hu3 & Hcu3) & Hs3 & Hk3).
  destruct (method_route_static_step w3 r PATCH uri fn hm3 Hok3 Hhm3 Hfn Hstatic Hin)
    as (w4 & hm4 & Hrun4 & Hok4 & Hhm4 & (a4 & pa4 & Ha4 & Hca4) & Hs4 & Hk4).
  destruct (method_route_static_step w4 r DELETE uri fn hm4 Hok4 Hhm4 Hfn Hstatic Hin)
    as (w5 & hm5 & Hrun5 & Hok5 & Hhm5 & (d5 & pd5 & Hd5 & Hcd5) & Hs5 & Hk5).
  assert (Hall : all r uri fn w = (w5, Normal tt)).
  { unfold all. destruct fn as [|h fn]; [congruence|]. cbn [length Nat.eqb].
    rewrite (bind_normal _ _ _ _ _ Hrun1), (bind_normal _ _ _ _ _ Hrun2),
      (bind_normal _ _ _ _ _ Hrun3), (bind_normal _ _ _ _ _ Hrun4).
    exact Hrun5. }
  exists w5, hm5. split; [exact Hall|]. split.
  { unfold use_path. destruct fn as [|h fn]; [congruence|]. exact Hall. }
  split; [exact Hhm5|]. split.
  { rewrite Hs5, Hs4, Hs3, Hs2, Hs1 by discriminate. reflexivity. }
  intros m Hm.
  (* the table of [m] in the final router, and the world in which its chain
     was extended *)
  assert (Hfinal : forall i (rm : RouteMap nat nat) pre wi
                          (hmi : list (RouteMap nat nat)),
            hmi !! i = Some rm -> hm5 !! i = hmi !! i ->
            (forall pre0,
               obj_get (staticRouteMap (resolve wi rm)) uri = Some (pre0 ++ fn) ->
               exists pre', obj_get (staticRouteMap (resolve w5 rm)) uri
                            = Some (pre' ++ fn)) ->
            obj_get (staticRouteMap (resolve wi rm)) uri = Some (pre ++ fn) ->
            exists table' pre',
              httpMethodMap w5 r !! i = Some table'
              /\ obj_get (staticRouteMap table') uri = Some (pre' ++ fn)).
  { intros i rm pre wi hmi Hrm Heq Hkeep Hchain.
    destruct (Hkeep pre Hchain) as [pre' Hpre'].
    exists (resolve w5 rm), pre'. split; [|exact Hpre'].
    apply httpMethodMap_resolve with (hm := hm5); [exact Hhm5|].
    rewrite Heq. exact Hrm. }
  destruct m; [congruence|..].
  - apply (Hfinal _ g1 pg1 w1 hm1 Hg1); [| |exact Hcg1].
    + rewrite Hs5, Hs4, Hs3, Hs2 by discriminate. reflexivity.
    + intros pre0 H0.
      assert (H2 : hm2 !! map_index GET = Some g1)
        by (rewrite Hs2 by discriminate; exact Hg1).
      assert (H3 : hm3 !! map_index GET = Some g1)
        by (rewrite Hs3 by discriminate; exact H2).
      assert (H4 : hm4 !! map_index GET = Some g1)
        by (rewrite Hs4 by discriminate; exact H3).
      destruct (Hk2 _ _ _ Hg1 H0) as [q2 Hq2].
      destruct (Hk3 _ _ _ H2 Hq2) as [q3 Hq3].
      destruct (Hk4 _ _ _ H3 Hq3) as [q4 Hq4].
      exact (Hk5 _ _ _ H4 Hq4).
  - apply (Hfinal _ p2 pp2 w2 hm2 Hp2); [| |exact Hcp2].
    + rewrite Hs5, Hs4, Hs3 by discriminate. reflexivity.
    + intros pre0 H0.
      assert (H3 : hm3 !! map_index POST = Some p2)
        by (rewrite Hs3 by discriminate; exact Hp2).
      assert (H4 : hm4 !! map_index POST = Some p2)
        by (rewrite Hs4 by discriminate; exact H3).
      destruct (Hk3 _ _ _ Hp2 H0) as [q3 Hq3].
      destruct (Hk4 _ _ _ H3 Hq3) as [q4 Hq4].
      exact (Hk5 _ _ _ H4 Hq4).
  - apply (Hfinal _ u3 pu3 w3 hm3 Hu3); [| |exact Hcu3].
    + rewrite Hs5, Hs4 by discriminate. reflexivity.
    + intros pre0 H0.
      assert (H4 : hm4 !! map_index PUT = Some u3)
        by (rewrite Hs4 by discriminate; exact Hu3).
      destruct (Hk4 _ _ _ Hu3 H0) as [q4 Hq4].
      exact (Hk5 _ _ _ H4 Hq4).
  - apply (Hfinal _ a4 pa4 w4 hm4 Ha4); [| |exact Hca4].
    + rewrite Hs5 by discriminate. reflexivity.
    + intros pre0 H0. exact (Hk5 _ _ _ Ha4 H0).
  - apply (Hfinal _ d5 pd5 w5 hm5 Hd5); [reflexivity| |exact Hcd5].
    intros pre0 H0. eauto.
Qed.

End every_method.

Lemma all_registers_under_every_method_witness :
  let ops := [NewRouter;
              UseMiddleware 0 [named_handler "log" Falsy];
              Route POST 0 "/health" [named_handler "post" Falsy]] in
  let w := @configure node_builtins ops empty_world in
  let hm := default [] (routers w !! 0) in
  let fn := [named_handler "ok" Truthy] in
  routers w !! 0 = Some hm /\ fn <> [] /\ regexCheckStaticURL "/health" = true
  /\ inherited "/health" = false
  /\ exists w' get post mw,
       use_path 0 "/health" fn w = (w', Normal tt)
       /\ httpMethodMap w' 0 !! map_index GET = Some get
       /\ httpMethodMap w' 0 !! map_index POST = Some post
       /\ httpMethodMap w' 0 !! map_index MIDDLEWARE = Some mw
       /\ obj_get (staticRouteMap get) "/health" = Some fn
       /\ obj_get (staticRouteMap post) "/health"
          = Some [named_handler "post" Falsy; named_handler "ok" Truthy]
       /\ staticRouteMap mw = [("/", [named_handler "log" Falsy])].
Proof.
  intros ops w hm fn.
  assert (Hhm : routers w !! 0 = Some hm) by (vm_compute; reflexivity).
  assert (Hfn : fn <> []) by discriminate.
  split; [exact Hhm|]. split; [exact Hfn|]. split; [reflexivity|].
  split; [reflexivity|].
  destruct (@all_registers_under_every_method node_builtins ops 0 hm "/health" fn
              Hhm Hfn eq_refl eq_refl) as (w' & hm' & _ & Huse & _ & _ & Hmethods).
  destruct (Hmethods GET ltac:(discriminate)) as (get & pg & Hget & _).
  destruct (Hmethods POST ltac:(discriminate)) as (post & pp & Hpost & _).
  injection Huse as <-.
  eexists _, _, _, _.
  split; [reflexivity|]. repeat split; vm_compute; reflexivity.
Defined.

(** ** The query string *)

(** X19. [request.query] is set from the text between the first and the
    second question mark of the URL, when that text is not empty: a URL
    without a question mark, or with nothing after it, leaves the query
    unset, and what follows a second question mark is not part of it.
    Nothing else of the context changes. *)
Theorem query_is_text_between_question_marks (u q rest : string)
  (ctx : ApplicationContext) :
  lacks "?" u = true -> lacks "?" q = true -> q <> "" ->
  let ctx' := with_request ctx
                {| method := method (request ctx); url := url (request ctx);
                   req_params := req_params (request ctx); query := Some q |} in
  parse_query u ctx = (ctx, Normal tt)
  /\ parse_query (u +:+ "?") ctx = (ctx, Normal tt)
  /\ parse_query (u +:+ "?" +:+ q) ctx = (ctx', Normal tt)
  /\ parse_query (u +:+ "?" +:+ q +:+ "?" +:+ rest) ctx = (ctx', Normal tt).
Proof.
  intros Hu Hq Hne ctx'.
  assert (Hlen : (0 <? String.length q)%nat = true)
    by (destruct q; [congruence|reflexivity]).
  unfold parse_query. split; [|split; [|split]].
  - rewrite (split_lacks "?" u Hu). reflexivity.
  - change (u +:+ "?") with (u +:+ String "?" ""). rewrite (split_at "?" u "" Hu).
    reflexivity.
  - change ("?" +:+ q) with (String "?" q).
    rewrite (split_at "?" u q Hu), (split_lacks "?" q Hq), Hlen. reflexivity.
  - change ("?" +:+ q +:+ "?" +:+ rest) with (String "?" (q +:+ String "?" rest)).
    rewrite (split_at "?" u _ Hu), (split_at "?" q rest Hq), Hlen. reflexivity.
Qed.

Lemma query_is_text_between_question_marks_witness :
  let ctx := incoming "GET" "/search?q=furi?page=2" in
  lacks "?" "/search" = true /\ lacks "?" "q=furi" = true /\ "q=furi" <> ""
  /\ query (request (parse_query "/search?q=furi?page=2" ctx).1) = Some "q=furi"
  /\ query (request (parse_query "/search?" ctx).1) = None.
Proof.
  intros ctx.
  assert (Hne : "q=furi" <> "") by discriminate.
  destruct (query_is_text_between_question_marks "/search" "q=furi" "page=2" ctx
              eq_refl eq_refl Hne) as (_ & Hempty & _ & Htwo).
  split; [reflexivity|]. split; [reflexivity|]. split; [exact Hne|]. split.
  - change "/search?q=furi?page=2" with ("/search" +:+ "?" +:+ "q=furi" +:+ "?" +:+ "page=2").
    rewrite Htwo. reflexivity.
  - change "/search?" with ("/search" +:+ "?"). rewrite Hempty. reflexivity.
Defined.

(** ** A route mounted on the empty key *)

Lemma hd_split_cons sep c u :
  Ascii.eqb c sep = false ->
  exists t, hd "" (JsString.split sep (String c u)) = String c t.
Proof.
  intros Hc. cbn [JsString.split]. rewrite Hc.
  destruct (JsString.split sep u) as [|t ts]; eexists; reflexivity.
Qed.

Lemma drop_last_two c c' s : JsString.drop_last (String c (String c' s)) <> "".
Proof. cbn [JsString.drop_last]. discriminate. Qed.

Lemma normalize_not_empty u : normalize (String "/" u) <> "".
Proof.
  unfold normalize.
  destruct (hd_split_cons "?" "/" u eq_refl) as [t ->].
  destruct ((1 <? String.length (String "/" t))%nat
            && bool_decide (JsString.last_char (String "/" t) = Some "/"%char)) eqn:Hc;
    [|discriminate].
  apply andb_true_iff in Hc as [Hlen _]. apply Nat.ltb_lt in Hlen.
  destruct t as [|c' t]; [simpl in Hlen; lia|]. apply drop_last_two.
Qed.

Section empty_key.
Context `{!Builtins}.

Lemma callTopLevelMiddlewares_same tables tables' ctx :
  same_off_empty_key tables tables' ->
  callTopLevelMiddlewares tables ctx = callTopLevelMiddlewares tables' ctx.
Proof.
  intros Hsame. unfold callTopLevelMiddlewares, bind, defined.
  destruct (tables !! map_index MIDDLEWARE) as [mw|] eqn:Hmw.
  - destruct (Forall2_lookup_l _ _ _ _ _ Hsame Hmw) as (mw' & -> & _ & Hstatic).
    cbn [ret]. rewrite (Hstatic TopLevelMiddleware) by discriminate. reflexivity.
  - destruct (tables' !! map_index MIDDLEWARE) as [mw'|] eqn:Hmw'; [|reflexivity].
    destruct (Forall2_lookup_r _ _ _ _ _ Hsame Hmw') as (mw & Hnone & _).
    congruence.
Qed.

Lemma match_loop_same tables tables' URL pn es : forall ctx,
  same_off_empty_key tables tables' ->
  match_loop tables URL pn es ctx = match_loop tables' URL pn es ctx.
Proof.
  induction es as [|e es IH]; intros ctx Hsame; [reflexivity|].
  cbn [match_loop]. unfold bind.
  destruct (on_request (attempt URL pn e) ctx) as [ctx1 [[]|]]; try reflexivity;
    [|apply IH, Hsame].
  rewrite (callTopLevelMiddlewares_same _ _ ctx1 Hsame).
  destruct (callTopLevelMiddlewares tables' ctx1) as [ctx2 [[]|]]; [|reflexivity].
  destruct (0 <? length (callbacks e))%nat; [reflexivity|apply IH, Hsame].
Qed.

Lemma obj_read_same {V} (o o' : Obj string V) k :
  obj_get o k = obj_get o' k -> obj_read o k = obj_read o' k.
Proof. unfold obj_read. intros ->. reflexivity. Qed.

Lemma try_block_same tables tables' i URL thr ctx :
  same_off_empty_key tables tables' ->
  URL <> "" ->
  try_block tables i URL thr ctx = try_block tables' i URL thr ctx.
Proof.
  intros Hsame HURL. unfold try_block, defined, bind.
  destruct (tables !! i) as [rm|] eqn:Hrm.
  - destruct (Forall2_lookup_l _ _ _ _ _ Hsame Hrm) as (rm' & -> & Hnamed & Hstatic).
    cbn [ret].
    rewrite (obj_read_same _ _ _ (Hstatic URL HURL)), Hnamed.
    destruct (obj_read (staticRouteMap rm') URL) as [chain| |].
    + rewrite (callTopLevelMiddlewares_same _ _ ctx Hsame). reflexivity.
    + rewrite (callTopLevelMiddlewares_same _ _ ctx Hsame). reflexivity.
    + destruct (obj_get (namedRoutePartitionMap rm') _) as [es|]; [|reflexivity].
      destruct (on_request init_params ctx) as [ctx1 [[]|]];
        [|reflexivity].
      destruct (length es =? 0)%nat; [reflexivity|].
      apply match_loop_same, Hsame.
  - destruct (tables' !! i) as [rm'|] eqn:Hrm'; [|reflexivity].
    destruct (Forall2_lookup_r _ _ _ _ _ Hsame Hrm') as (rm & Hnone & _).
    congruence.
Qed.

(** What a static map holds under the empty key is of no account for a
    request whose URL begins with a slash. *)
Lemma dispatch_same tables tables' ctx u :
  same_off_empty_key tables tables' ->
  url (request ctx) = String "/" u ->
  dispatch tables ctx = dispatch tables' ctx.
Proof.
  intros Hsame Hurl. unfold dispatch.
  destruct (method_index (method (request ctx))) as [m|]; [|reflexivity].
  destruct (parse_query_normal (url (request ctx)) ctx) as (ctx1 & Hq & _).
  rewrite !(processHTTPMethod_cases _ _ _ _ _ Hq).
  rewrite (try_block_same tables tables') by
    (try exact Hsame; rewrite Hurl; apply normalize_not_empty).
  reflexivity.
Qed.

(** X20. The mount on a path removes the trailing slash of the joined
    key, also when that key is the root: when [path.join(uri, k)] is [/]
    for a static key [k] of the mounted router, the only one that the
    mount sends to the empty key, the chain of [k] is stored under the
    empty key in the table of the target. No request whose URL begins with
    a slash is affected by it: such a request is dispatched as it would be
    were anything else, or nothing, stored under the empty key. *)
Theorem root_key_is_mounted_on_empty_key (ops : list Op) (t s : nat)
  (uri k : string) (m : HttpMapIndex) (chain : list HandlerFunction)
  (sv : RouteTable) :
  is_Some (routers (configure ops empty_world) !! t) ->
  httpMethodMap (configure ops empty_world) s !! map_index m = Some sv ->
  s <> t -> m <> MIDDLEWARE ->
  obj_get (staticRouteMap sv) k = Some chain ->
  path_join uri k = "/" ->
  (forall k2, k2 ∈ (staticRouteMap sv).*1 -> prefixed uri k2 = "" -> k2 = k) ->
  exists w' tv',
    use_router_at t uri s (configure ops empty_world) = (w', Normal tt)
    /\ httpMethodMap w' t !! map_index m = Some tv'
    /\ obj_get (staticRouteMap tv') "" = Some chain
    /\ forall tables0 ctx u,
         same_off_empty_key (httpMethodMap w' t) tables0 ->
         url (request ctx) = String "/" u ->
         dispatch (httpMethodMap w' t) ctx = dispatch tables0 ctx.
Proof.
  intros [T HT] Hsv Hts Hm Hk Hjoin Huniq.
  pose proof (store_ok_configure ops empty_world store_ok_empty) as Hok.
  set (w := configure ops empty_world) in *.
  destruct (httpMethodMap_lookup _ _ _ _ Hsv) as (S & sm & HS & Hsm & ->).
  destruct (use_router_at_result t uri s w T S Hok HT HS Hts)
    as (w1 & T' & Hrun & Hrec & Hpre & Hr & Hspec).
  destruct (Hok t T HT) as [HlenT _]. destruct (Hok s S HS) as [HlenS _].
  pose proof (lookup_lt_Some _ _ _ Hsm) as Hi.
  destruct (lookup_lt_is_Some_2 T (map_index m) ltac:(lia)) as [tm Htm].
  destruct (Hspec _ tm sm Htm Hsm) as (tm' & Htm' & Hstat & _).
  pose proof (store_ok_table _ _ _ _ _ Hok HS Hsm) as (Hnd & _ & _ & _).
  rewrite resolve_static in Hk.
  destruct (obj_get (staticRouteMap sm) k) as [l|] eqn:Hl; [|discriminate].
  injection Hk as <-.
  assert (Hkey : mounted_key uri (map_index m) = prefixed uri).
  { unfold mounted_key. destruct m; [congruence|reflexivity..]. }
  assert (Hempty : prefixed uri k = "").
  { unfold prefixed. rewrite Hjoin. reflexivity. }
  assert (Hl' : obj_get (staticRouteMap tm') "" = Some l).
  { rewrite Hstat, obj_get_assign by (apply NoDup_image; constructor).
    unfold static_image.
    rewrite (obj_get_image (mounted_key uri (map_index m))) by reflexivity.
    rewrite Hkey, <- Hempty.
    rewrite (last_under_unique (prefixed uri) _ k l Hnd Hl); [reflexivity| |].
    - intros k2 Hk2 Heq. apply Huniq; [|rewrite Heq; exact Hempty].
      rewrite resolve_static_keys. exact Hk2.
    - rewrite Hempty. discriminate. }
  assert (HT1 : routers w1 !! t = Some T').
  { rewrite Hr. apply list_lookup_insert_eq. eapply lookup_lt_Some; exact HT. }
  exists w1, (resolve w1 tm').
  split; [exact Hrun|]. split; [exact (httpMethodMap_resolve _ _ _ _ _ HT1 Htm')|].
  split.
  - rewrite resolve_static, Hl'. cbn [fmap option_fmap option_map].
    rewrite Hrec. reflexivity.
  - intros tables0 ctx u Hsame Hurl. exact (dispatch_same _ _ ctx u Hsame Hurl).
Qed.

End empty_key.

Lemma root_key_is_mounted_on_empty_key_witness :
  let ops := [NewRouter; NewRouter;
              Route GET 1 "/" [named_handler "root" Truthy]] in
  let w := @configure node_builtins ops empty_world in
  let sv := {| namedRoutePartitionMap := [];
               staticRouteMap := [("/", [named_handler "root" Truthy])] |} in
  is_Some (routers w !! 0)
  /\ httpMethodMap w 1 !! map_index GET = Some sv
  /\ 1 <> 0 /\ GET <> MIDDLEWARE
  /\ obj_get (staticRouteMap sv) "/" = Some [named_handler "root" Truthy]
  /\ @path_join node_builtins "/" "/" = "/"
  /\ exists w',
       @use_router_at node_builtins 0 "/" 1 w = (w', Normal tt)
       /\ (staticRouteMap <$> httpMethodMap w' 0 !! map_index GET)
          = Some [("", [named_handler "root" Truthy])]
       /\ @dispatch node_builtins (httpMethodMap w' 0) (incoming "GET" "/")
          = @dispatch node_builtins (httpMethodMap w 0) (incoming "GET" "/")
       /\ response (@dispatch node_builtins (httpMethodMap w' 0)
                      (incoming "GET" "/")).1
          = [WriteHead 404 None (@headers404 node_builtins);
             End (Some "Route not found")]
       /\ response (@dispatch node_builtins (httpMethodMap w' 1)
                      (incoming "GET" "/")).1
          = [SetHeader "X-Handler" "root"; End None].
Proof.
  intros ops w sv.
  assert (H0 : is_Some (routers w !! 0)) by (eexists; reflexivity).
  assert (Hne : 1 <> 0) by discriminate.
  assert (Hm : GET <> MIDDLEWARE) by discriminate.
  assert (Huniq : forall k2, k2 ∈ (staticRouteMap sv).*1 ->
            @prefixed node_builtins "/" k2 = "" -> k2 = "/").
  { intros k2 Hk2 _. apply list_elem_of_singleton in Hk2. exact Hk2. }
  split; [exact H0|]. split; [reflexivity|]. split; [exact Hne|]. split; [exact Hm|].
  split; [reflexivity|]. split; [reflexivity|].
  destruct (@root_key_is_mounted_on_empty_key node_builtins ops 0 1 "/" "/" GET
              [named_handler "root" Truthy] sv H0 eq_refl Hne Hm eq_refl eq_refl Huniq)
    as (w' & tv' & Hrun & _ & _ & Hsame).
  exists w'. split; [exact Hrun|].
  assert (Hw' : w' = (@use_router_at node_builtins 0 "/" 1 w).1)
    by (symmetry; exact (f_equal fst Hrun)).
  subst w'. clear Hrun.
  set (w' := (@use_router_at node_builtins 0 "/" 1 w).1) in *.
  set (none := {| namedRoutePartitionMap := []; staticRouteMap := [] |} : RouteTable).
  set (root := {| namedRoutePartitionMap := [];
                  staticRouteMap := [("", [named_handler "root" Truthy])] |}
               : RouteTable).
  assert (Hafter : httpMethodMap w' 0 = [none; root; none; none; none; none])
    by (vm_compute; reflexivity).
  assert (Hbefore : httpMethodMap w 0 = [none; none; none; none; none; none])
    by (vm_compute; reflexivity).
  assert (Hrel : same_off_empty_key (httpMethodMap w' 0) (httpMethodMap w 0)).
  { rewrite Hafter, Hbefore.
    repeat (apply Forall2_cons_2;
            [split; [reflexivity|];
             intros k Hk; cbn [obj_get staticRouteMap none root];
             try (destruct (decide ("" = k)); [congruence|]); reflexivity|]).
    apply Forall2_nil_2. }
  split; [rewrite Hafter; reflexivity|].
  split; [exact (Hsame _ (incoming "GET" "/") "" Hrel eq_refl)|].
  split; vm_compute; reflexivity.
Defined.

(** ** A dynamic route, from registration to dispatch *)

Lemma init_params_known ctx :
  on_request init_params ctx
  = (with_request ctx
       (with_params (request ctx) (default ∅ (req_params (request ctx)))),
     Normal tt).
Proof.
  unfold on_request, init_params, modify, with_request, with_params.
  destruct ctx as [[me u [bag|] q] resp]; reflexivity.
Qed.

Lemma split_slashed_lacks segs :
  Forall (fun seg => lacks "/" seg = true) segs ->
  segs <> [] ->
  JsString.split "/" (slashed segs) = "" :: segs.
Proof.
  induction segs as [|seg segs IH]; intros Hall Hne; [congruence|].
  apply Forall_cons_1 in Hall as [Hseg Hall].
  rewrite slashed_cons, split_slash. f_equal.
  destruct segs as [|seg' segs].
  - change (slashed []) with "". rewrite append_nil_r. apply split_lacks, Hseg.
  - specialize (IH Hall ltac:(discriminate)).
    rewrite slashed_cons in IH |- *. rewrite split_slash in IH.
    rewrite (split_at "/" seg _ Hseg). congruence.
Qed.

Section dynamic_round_trip.
Context `{!Builtins}.

(** X21. Registering a pattern [/k1/.../kn] that is dynamic and
    positional, with at least one handler, in a table that has no bucket
    for [n] segments yet: a request of the method whose matched path
    [/p1/.../pn] is no static key and agrees with the pattern segment by
    segment (any text without a slash at a named segment) is then served
    by the new handlers, after the top-level middlewares, with the
    captures of the pattern assigned to its parameter bag from the last to
    the first (the bag is created if the request had none). *)
Theorem dynamic_registration_round_trip (ops : list Op) (r : nat)
  (m : HttpMapIndex) (ks ps : list string) (fn : list HandlerFunction)
  (table : RouteTable) (ctx : ApplicationContext) :
  httpMethodMap (configure ops empty_world) r !! map_index m = Some table ->
  ks <> [] ->
  Forall (fun k => lacks "/" k = true) ks ->
  Forall (fun p => lacks "/" p = true) ps ->
  regexCheckStaticURL (slashed ks) = false ->
  regexCheckNamedPath (slashed ks) = true ->
  fn <> [] ->
  obj_get (namedRoutePartitionMap table) (length ks) = None ->
  obj_get (staticRouteMap table) (slashed ps) = None ->
  Forall2 (fun p k => segment_matches p k = true) ps ks ->
  method_index (method (request ctx)) = Some m ->
  normalize (url (request ctx)) = slashed ps ->
  let ctx1 := (parse_query (url (request ctx)) ctx).1 in
  let bag := write_right_to_left (captures ps ks)
               (default ∅ (req_params (request ctx))) in
  exists w',
    method_route m r (slashed ks) fn (configure ops empty_world) = (w', Normal tt)
    /\ dispatch (httpMethodMap w' r) ctx
       = try_catch
           (callTopLevelMiddlewares (httpMethodMap w' r) ;;; run_chain fn)
           notFound
           (with_request ctx1 (with_params (request ctx1) bag)).
Proof.
  intros Htable Hks Hplain_k Hplain_p Hdyn Hnamed Hfn Hbucket Hstatic Hmatch Hm Hurl
    ctx1 bag.
  pose proof (buckets_ok_configure ops empty_world buckets_ok_empty) as Hok.
  set (w := configure ops empty_world) in *.
  destruct (httpMethodMap_lookup _ _ _ _ Htable) as (hm & rm & Hhm & Hrm & ->).
  destruct (buildRequestMap_dynamic w r (map_index m) (slashed ks) fn hm rm
              Hok Hhm Hrm Hdyn)
    as (w' & hm' & rm' & Hrun & Hhm' & Hrm' & Hst & Hget).
  assert (Hps : ps <> []).
  { intros ->. apply Forall2_nil_inv_l in Hmatch. contradiction. }
  pose proof (split_slashed_lacks ks Hplain_k Hks) as Hsplit_k.
  pose proof (split_slashed_lacks ps Hplain_p Hps) as Hsplit_p.
  pose proof (Forall2_length _ _ _ Hmatch) as Hlen.
  set (e := (make_entry (slashed ks) fn).2) in *.
  assert (Hb : (make_entry (slashed ks) fn).1 = length ks).
  { unfold make_entry. cbn [fst]. rewrite Hsplit_k. simpl. lia. }
  assert (Hpn : pathNames e = ks).
  { unfold e, make_entry. cbn [snd pathNames]. rewrite Hsplit_k. reflexivity. }
  assert (Hre : useRegex e = false).
  { unfold e, make_entry. cbn [snd useRegex]. rewrite Hnamed. reflexivity. }
  assert (Hcb : callbacks e = fn) by reflexivity.
  rewrite Hb, Hbucket in Hget. cbn [default app] in Hget.
  exists w'. split.
  { unfold method_route. destruct fn as [|h fn']; [congruence|]. exact Hrun. }
  pose proof (httpMethodMap_resolve _ _ _ _ _ Hhm' Hrm') as Htable'.
  set (tables := httpMethodMap w' r) in *.
  destruct (parse_query_normal (url (request ctx)) ctx)
    as (c1 & Hq & _ & Hparams & _).
  assert (Hc1 : ctx1 = c1) by (unfold ctx1; rewrite Hq; reflexivity).
  rewrite Hc1. clear Hc1 ctx1.
  unfold dispatch. rewrite Hm, (processHTTPMethod_cases _ _ _ _ _ Hq), Hurl.
  rewrite (try_block_dynamic tables (map_index m) _ (slashed ps) true c1 Htable')
    by (apply obj_read_missing;
        [rewrite Hst; exact Hstatic
        |destruct ps; [congruence|apply inherited_slash]]).
  rewrite Hsplit_p. cbn [tail]. rewrite Hlen, Hget.
  rewrite (bind_normal _ _ _ _ _ (init_params_known c1)). cbn [length Nat.eqb].
  set (c2 := with_request c1
               (with_params (request c1) (default ∅ (req_params (request c1))))).
  assert (Hattempt : attempt (slashed ps) ps e (request c2)
            = (with_params (request c1) bag, Normal true)).
  { unfold attempt. rewrite Hre, Hpn.
    rewrite (fastPathMatch_match ps ks (request c2)
               (default ∅ (req_params (request c1))) Hmatch eq_refl).
    unfold bag. rewrite Hparams. reflexivity. }
  assert (Hcbs : callbacks e <> []) by (rewrite Hcb; exact Hfn).
  change [e] with ([] ++ e :: []).
  rewrite (match_loop_first_match tables (slashed ps) ps [] e [] c2
             (request c2) _ (all_fail_nil _ _ _) Hattempt Hcbs).
  rewrite Hcb. unfold try_catch, bind, ret.
  change (with_request c2 (with_params (request c1) bag))
    with (with_request c1 (with_params (request c1) bag)).
  destruct (callTopLevelMiddlewares tables
              (with_request c1 (with_params (request c1) bag)))
    as [c3 [[]|]]; [|by_cases_of_404].
  destruct (run_chain fn c3) as [c4 [[]|]]; by_cases_of_404.
Qed.

End dynamic_round_trip.

Lemma dynamic_registration_round_trip_witness :
  let ops := [NewRouter;
              UseMiddleware 0 [named_handler "log" Falsy];
              Route GET 0 "/about" [named_handler "about" Truthy]] in
  let w := @configure node_builtins ops empty_world in
  let table :=
    {| namedRoutePartitionMap := [];
       staticRouteMap := [("/about", [named_handler "about" Truthy])] |} in
  let ks := ["shop"; ":shop"; "items"; ":item"] in
  let ps := ["shop"; "a%20b"; "items"; "9"] in
  let fn := [named_handler "item" Truthy] in
  let ctx := incoming "GET" "/shop/a%20b/items/9/?full=1" in
  httpMethodMap w 0 !! map_index GET = Some table
  /\ slashed ks = "/shop/:shop/items/:item"
  /\ normalize (url (request ctx)) = slashed ps
  /\ exists w',
       method_route GET 0 "/shop/:shop/items/:item" fn w = (w', Normal tt)
       /\ @dispatch node_builtins (httpMethodMap w' 0) ctx
          = ({| request :=
                  {| method := "GET"; url := "/shop/a%20b/items/9/?full=1";
                     req_params :=
                       Some (<["shop" := Some "a%20b"]> (<["item" := Some "9"]> ∅));
                     query := Some "full=1" |};
                response := [SetHeader "X-Handler" "log";
                             SetHeader "X-Handler" "item"; End None] |},
             Normal tt).
Proof.
  intros ops w table ks ps fn ctx.
  assert (Hks : ks <> []) by discriminate.
  assert (Hfn : fn <> []) by discriminate.
  assert (Hpk : Forall (fun k => lacks "/" k = true) ks)
    by (repeat constructor).
  assert (Hpp : Forall (fun p => lacks "/" p = true) ps)
    by (repeat constructor).
  assert (Hmatch : Forall2 (fun p k => segment_matches p k = true) ps ks)
    by (repeat constructor).
  split; [reflexivity|]. split; [reflexivity|]. split; [reflexivity|].
  destruct (@dynamic_registration_round_trip node_builtins ops 0 GET ks ps fn table ctx
              eq_refl Hks Hpk Hpp eq_refl eq_refl Hfn eq_refl eq_refl Hmatch
              eq_refl eq_refl) as (w' & Hrun & Hserve).
  exists w'. split; [exact Hrun|].
  rewrite Hserve. vm_compute in Hrun. injection Hrun as <-. reflexivity.
Defined.
